(* ===== verification/_CoqProject ===== *)
-Q . S2P
Prelude.v
RaftLog.v
Rpc.v
Disk.v
Node.v
Election.v
Replication.v
ReplicationSafety.v
Snapshot.v
Client.v
Apply.v
EventLoop.v
KVStore.v
KVWrite.v
Transport.v
Chaos.v
Grpc.v
Http.v
Lifecycle.v
Server.v
Loops.v
Sidecar.v
Polling.v
LiveScenarios.v
SidecarServer.v
SidecarSafety.v
KVServer.v
Cluster.v
ElectionSafety.v
FullLog.v
LogHistory.v
LogInvariant.v
LogSteps.v
LogFollowers.v
LogLeaders.v
LogSafety.v
Consensus.v
Availability.v
Progress.v
Replicas.v
ReplicaSafety.v
Durability.v
Harness.v
Scenarios.v
ReadState.v
Findings.v
