(* ===== verification/Prelude.v ===== *)
(** * Raft in Go: a verification development

    The repository implements the Raft consensus protocol as a Go package
    ([raft/]), a replicated key-value store on top of it ([kvstore/]), a fault
    injection layer with scripted scenarios ([chaos/]), the protocol buffers of
    its RPCs ([proto/]) and five commands ([cmd/]): the store's server, a sidecar
    that starts, stops and pauses nodes in containers, a server that runs the
    chaos scenarios, and a reader of state files.  This library models them as
    executable functions and proves what makes them correct.

    ** The program and how its parts interact

    A [RaftNode] (raft/node.go) owns a log (raft/log.go), the volatile and
    persistent variables of Raft, two files in its data directory
    (raft/persist.go, raft/snapshot.go) and a mutex.  Its event loop [Run]
    starts elections (raft/election.go) and, on the leader, rounds of
    AppendEntries or InstallSnapshot (raft/replication.go, raft/snapshot.go);
    each RPC runs in a goroutine of its own that takes the mutex again to
    process the reply.  RPCs travel over a [Transport] (raft/transport.go):
    in memory, gRPC or HTTP.  A second goroutine, the apply loop
    (raft/apply.go), hands committed entries to a [StateMachine] and publishes
    the results on a channel; the store's reader (kvstore/kvstore.go) routes
    them to the clients blocked in [Set] and [Delete] and takes a snapshot after every
    [snapshotThreshold] applied messages.  cmd/kvstore serves the store and the
    membership changes over HTTP.  cmd/sidecar keeps a registry of nodes, runs
    docker for them, asks the leader to add and remove them, and has scenarios
    that pause containers of the running cluster; chaos/ runs scenarios against
    nodes in one process, over a transport that delays, drops and partitions.

    ** What models what

    The node:
    - Prelude.v: 64-bit arithmetic with wrap-around, bytes, list and map lemmas,
      tactics.
    - RaftLog.v: [LogEntry], [Log] and every method of raft/log.go; the
      abstract log [log_view].
    - Rpc.v: the messages of raft/rpc.go and the records written to disk.
    - Disk.v: the create, encode, sync, rename sequence shared by [persist] and
      [saveSnapshot], with a fault or a crash at any call.
    - Node.v: the record [RaftNode], [NewRaftNode], the queries, [persist],
      [loadState] and the transitions [becomeFollower], [becomeCandidate],
      [becomeLeader].
    - Election.v: raft/election.go; [startPreVote] and [startElection] split
      where they release the mutex, [HandleRequestVote].
    - Replication.v, ReplicationSafety.v: raft/replication.go ([dispatch],
      [buildArgsLocked], [sendToPeer], [maybeCommit], [HandleAppendEntries])
      and its theorems.
    - Snapshot.v: raft/snapshot.go and the start of [Run] (load the state file, then
      the snapshot).
    - Client.v: [Submit], [AddPeer], [RemovePeer], [applyConfigEntry],
      [checkQuorum] and the cases of the [select] of [Run].
    - Apply.v: raft/apply.go as a step function over its control points; the
      interface [StateMachine] as a class.
    - EventLoop.v: [Run] with its clock, [resetTimer] and the channels of its
      election timer and heartbeat ticker.
    - KVStore.v: kvstore/kvstore.go; its state machine is an instance of
      [StateMachine]; KVWrite.v: the path of one write through the store, the
      leader and its followers.

    Transports and servers:
    - Transport.v: the class [Transport] with the laws a node relies on; the
      in-memory network of raft/transport_memory.go is an instance.
    - Chaos.v: chaos/network.go, a second instance, and chaos/injector.go.
    - Grpc.v: raft/transport_grpc.go, a third instance, for any gRPC library
      that satisfies [GrpcLib].
    - Http.v: raft/transport_http.go, a fourth, for any JSON codec and HTTP
      library with the stated laws.
    - Lifecycle.v: construction, registration, start and end of the gRPC and
      HTTP transports.
    - Server.v: cmd/kvstore/main.go; the configuration from the environment and
      the HTTP handlers, for any URL parser and JSON decoder; KVServer.v: the
      start of the server, its routes, and clients that follow redirects.
    - ReadState.v: cmd/readstate/main.go.

    The sidecar (cmd/sidecar/main.go), over a machine (docker, the file system,
    the clock, the nodes' HTTP answers) that is a parameter:
    - Loops.v: the state monad, clocks, and the loops that wait until a deadline.
    - Sidecar.v: the registry, the docker and HTTP operations, [startPresetNode],
      [createNew], [stopNode] and the like; Polling.v: waiting for a node, and two
      machines to run the definitions on.
    - LiveScenarios.v: the four scenarios on running containers.
    - SidecarServer.v, SidecarSafety.v: the handlers and routes, and what they
      promise.

    The cluster:
    - Cluster.v: the nodes, the goroutines in flight and any [Transport] as one
      transition system; ElectionSafety.v: its invariant for votes and terms.
    - FullLog.v: the log of a node with what it has compacted; LogHistory.v: the
      history of leaders' logs and acknowledgements and the argument for leader
      completeness in it; LogInvariant.v: the invariant that ties nodes and
      messages to the history; LogSteps.v, LogFollowers.v, LogLeaders.v: it is kept
      by timers and clients, by the followers' handlers, by votes and replies;
      LogSafety.v: by the cluster, and the safety properties of Raft.
    - Consensus.v: the cluster as one append-only log.
    - Replicas.v, ReplicaSafety.v: a state machine beside every member, and what
      all of them together compute; Durability.v: the same for the store's writes.
    - Availability.v, Progress.v: what a majority that can talk can do.
    - Harness.v: chaos/harness.go and cmd/chaos; Scenarios.v: chaos/scenarios.go,
      scripts that act on the cluster of Cluster.v over the network of Chaos.v,
      with the other goroutines interleaved.
    - Findings.v: executions the code does not guard against.

    A method that keeps the mutex for its whole body is one function from the
    node to the node.  A method that releases it is split there, and the parts
    are composed again by the cluster's steps, by [run_election], by
    [apply_step] or by [kv_step].  The current time is an argument, goroutines to be
    started are returned, channels of capacity one are fields of the node.

    ** What the theorems show

    - Safety of the cluster: state machine safety, log matching and leader
      completeness, along every execution in which nobody votes twice in a term
      ([votes_once]) and no InstallSnapshot contradicts the entry at its index
      ([clean]); Findings.v shows how the code can leave both.  At most one leader
      per term at any moment, and its majority of recorded votes, need no such
      condition.  [cluster_refines_log]
      sums this up as a refinement: members show parts of one sequence of
      entries that only grows; [replicas_run_decided_log] carries it to the
      applications: with a state machine beside every member, applied to,
      snapshotted, restored and restarted, every machine of one or of two moments
      is in a state of one machine that executes that sequence, as long as applying
      and snapshotting do not overlap and snapshots are restored in order
      ([orderly]; Findings.v shows what happens otherwise).
      [acknowledged_write_survives] says what this means for a client of the
      store: a committed write is what every store that has applied that far reads,
      unless a later write replaced it, under the same conditions and as long as no
      snapshot waits to be restored.
    - Availability: from every state reached by clean steps, a member that
      reaches a majority no more up to date than itself, which has not heard of
      a leader for an election timeout, can win its pre-votes and its votes, and can
      then (nobody having voted twice, and the entries at its compaction point
      being the compacted one) find the point of agreement with each of them, or
      send its snapshot to those behind that point, and commit a command.  The
      schedule is exhibited, not assumed to be fair.
    - Timers: a node that hears from its leader often enough never asks for
      votes; one that does not starts its pre-vote when the timer fires.
    - Elections: a vote is granted exactly under Raft's conditions, is on disk
      before the reply leaves and survives a restart; a pre-vote changes
      nothing; an election is won exactly with a majority.
    - Replication: the follower's handler agrees with the receiver rules of
      the Raft paper on every branch, is idempotent, and never truncates an
      entry the leader's message does not contradict; the leader commits
      exactly the largest index of its own term that a majority stores; the
      exchange of rejections ends, for a follower that has compacted no more than
      the leader and shares its history, after at most [nextIndex] messages, in an
      accepted message or a snapshot.
    - Log: every sequence of modifications implements the same sequence on a
      finite map from logical indices to entries, whatever has been compacted,
      and the reading methods read that map.
    - Persistence and snapshots: a crash at any point of [persist] leaves the
      old or the new state; [TakeSnapshot] on a disk that stops at any of its
      calls leaves a directory from which the node recovers its log; an installed
      snapshot moves the boundary, the commit index and the applied index forward
      only.
    - Apply loop and store: the entries between the applied and the commit
      index are applied once each and in order; a result goes to the registered
      call whose index and term it carries; a write that the replies of a majority
      commit is applied, acknowledged and read back; a snapshot and the entries
      after it give every key the value of its last write.
    - Membership and quorum: an addition acts when it is appended, a removal
      when it is applied; [checkQuorum] steps down exactly without a majority
      of recent contacts.
    - Transports: messages reach the addressed node unchanged, through gRPC and
      HTTP too; a partition in memory or by injected rules stops them.
    - Server: a request to the assembled server (CORS, routes, handlers) that
      is sent to any follower that knows the leader reaches the leader after one
      redirect, a write as the operation it stands for, with the value in its body
      or in its query, an addition of a node as that addition; a node added through the sidecar is a member for the leader
      when the sidecar reports success; the
      address map is read back from its textual form; the election timer works
      for exactly the environments that put the minimum below the maximum.
    - Sidecar: every request leaves a registry of the preset nodes and the
      created ones, with distinct identifiers; a request wipes the data of a preset
      node only when it starts that node and no other node answers; the live
      scenarios resume what they paused; a node that answers in time is found
      online; every wait ends soon after its timeout and is not given up before;
      a new node is told the addresses of all others; GET /nodes reports each node
      under its own status.
    - Chaos scenarios: the verdict of a run is that of its log, and a run removes
      the directories it made.

    ** Bounds, fuel and assumptions

    Indices and terms are [uint64]: additions wrap around, and a well-formed log
    ([log_wf]) ends below 2^64 - 1.  [negotiate] runs with the value of
    [nextIndex] as fuel, which [replication_converges] shows to be enough;
    [apply_run] needs at most three steps for an entry and one to see that
    nothing is left, which [applyLoop_applies] states; the waiting loops run with
    two rounds more than the sleeps that fit before the deadline ([poll_fuel]),
    which [poll_for_polls] shows to be enough when the clock does not go back.  In
    the cluster model
    the membership is fixed, file operations succeed, no term reaches 2^64, a
    process stops between two steps (a crash inside a file operation is the
    subject of [persist_crash_atomic] and [TakeSnapshot_crash_recovery]), and timers
    fire at any time; the calls of a pre-vote round that are still out when a
    majority has granted are left out (they change no node, [preVote_no_effect]).
    Applying an entry is one step there: in raft/apply.go the lock is free between
    the advance of [lastApplied] and [Apply], and what can come between is in
    Findings.v.  [rename] counts as durable once it has
    returned: the code syncs the file but not its directory.  A gob stream is
    the value it encodes; where the bytes matter (KVStore.v) the codec is the
    class [GobCodec].  The sidecar serves one request at a time.

    ** Not modelled

    The marshalling code generated in [proto/] (the messages are, and gRPC is a
    parameter that carries them); the pages, styles and scripts of the user
    interface; log output; the reading of the environment in cmd/sidecar; sidecar
    requests that run at the same time; changes of the membership in the cluster
    model (the operations are in Client.v, and Findings.v shows that two of them
    at a time are not safe). *)

From Stdlib Require Export ZArith Lia.
From stdpp Require Export base list gmap strings sorting numbers.
From Stdlib Require Import Strings.Byte.

(** stdpp's list lemmas shadow the Standard Library's of the same name. *)
Export list_basics.list list_relations.list list_monad.list.

#[export] Set Default Proof Using "Type".
Global Open Scope Z_scope.

(** ** Machine integers *)

(** [uint64] values are integers in [0, 2^64); every Go operator that can
    leave this range is written with [u64], which wraps around. *)
Definition u64_size : Z := 18446744073709551616.
Definition u64 (z : Z) : Z := z mod u64_size.
Definition is_u64 (z : Z) : Prop := 0 <= z < u64_size.

#[export] Instance is_u64_dec z : Decision (is_u64 z).
Proof. unfold is_u64. apply _. Defined.

(** Go's [int] and [time.Duration] are 64-bit two's complement. *)
Definition i64 (z : Z) : Z := (z + 9223372036854775808) mod u64_size - 9223372036854775808.

Declare Scope u64_scope.
Delimit Scope u64_scope with u64.
Notation "a ⊕ b" := (u64 (a + b)) (at level 50, left associativity) : u64_scope.
Notation "a ⊖ b" := (u64 (a - b)) (at level 50, left associativity) : u64_scope.
Open Scope u64_scope.

Lemma u64_small z : is_u64 z -> u64 z = z.
Proof. intros. by apply Z.mod_small. Qed.

Lemma u64_range z : is_u64 (u64 z).
Proof. unfold is_u64, u64. apply Z.mod_pos_bound. done. Qed.

Lemma u64_idemp z : u64 (u64 z) = u64 z.
Proof. apply u64_small, u64_range. Qed.

Lemma i64_small z : - 9223372036854775808 <= z < 9223372036854775808 -> i64 z = z.
Proof. intros. unfold i64. rewrite Z.mod_small; unfold u64_size; lia. Qed.

(** [u64_lia]: drop every wrap-around whose argument is in range, then [lia]. *)
Ltac u64_norm :=
  repeat match goal with
  | |- context [u64 ?z] => rewrite (u64_small z) by (unfold is_u64, u64_size in *; lia)
  | H : context [u64 ?z] |- _ => rewrite (u64_small z) in H by (unfold is_u64, u64_size in *; lia)
  end.
Ltac u64_lia := u64_norm; unfold is_u64, u64_size in *; lia.

(** ** Bytes and lengths *)

Abbreviation byte := Byte.byte.
Abbreviation bytes := (list byte).

#[export] Instance byte_eq_dec : EqDecision byte := Stdlib.Strings.Byte.byte_eq_dec.

(** Go's [len] of a slice, as the [uint64] conversion the code applies to it. *)
Definition lenZ {A} (l : list A) : Z := Z.of_nat (length l).

Lemma lenZ_app {A} (l k : list A) : lenZ (l ++ k) = lenZ l + lenZ k.
Proof. unfold lenZ. rewrite length_app. lia. Qed.

Lemma lenZ_cons {A} (x : A) l : lenZ (x :: l) = 1 + lenZ l.
Proof. unfold lenZ. simpl. lia. Qed.

Lemma lenZ_nonneg {A} (l : list A) : 0 <= lenZ l.
Proof. unfold lenZ. lia. Qed.

(** Reading a Go map: the zero value for a missing key. *)
Definition mget (m : gmap string Z) (k : string) : Z := default 0 (m !! k).

Lemma mget_insert m k v : mget (<[k := v]> m) k = v.
Proof. unfold mget. by rewrite lookup_insert_eq. Qed.

Lemma mget_insert_ne m k k' v : k <> k' -> mget (<[k := v]> m) k' = mget m k'.
Proof. intros. unfold mget. by rewrite lookup_insert_ne. Qed.

(** A value of a map at which a measure is largest. *)
Lemma map_argmax {A} (f : A -> Z) (m : gmap string A) :
  m = ∅ \/ exists k x, m !! k = Some x /\ forall j y, m !! j = Some y -> f y <= f x.
Proof.
  induction m as [|i x m Hi [E|(j & y & Hj & Hm)]] using map_ind; [by left|right..].
  - exists i, x. rewrite lookup_insert_eq. split; [done|]. intros j y [[_ <-]|[_ Hj]]%lookup_insert_Some; [done|].
    by rewrite E, lookup_empty in Hj.
  - destruct (Z.le_ge_cases (f y) (f x)).
    + exists i, x. rewrite lookup_insert_eq. split; [done|]. intros k z [[_ <-]|[_ Hk]]%lookup_insert_Some; [done|].
      specialize (Hm _ _ Hk). lia.
    + exists j, y. rewrite lookup_insert_ne by congruence. split; [done|].
      intros k z [[_ <-]|[_ Hk]]%lookup_insert_Some; [done|by eapply Hm].
Qed.

(** ** Automation *)

Create HintDb raft.
Create Rewrite HintDb raft.
#[export] Hint Resolve u64_range lenZ_nonneg : raft.
#[export] Hint Rewrite @lenZ_app @lenZ_cons mget_insert : raft.

(** Split every [if] and [match] on a boolean of the goal or of a hypothesis,
    turning comparisons into hypotheses [lia] reads. *)
Ltac go_cases :=
  repeat (case_match; simplify_eq/=; try done).

(** The tests the code makes on strings. *)
Lemma eqb_string_true (a b : string) : String.eqb a b = true <-> a = b.
Proof. apply String.eqb_eq. Qed.

Lemma eqb_string_false (a b : string) : String.eqb a b = false <-> a <> b.
Proof. apply String.eqb_neq. Qed.

Lemma Permutation_filter_bool {A} (f : A -> bool) (l k : list A) :
  l ≡ₚ k -> List.filter f l ≡ₚ List.filter f k.
Proof.
  induction 1; simpl; repeat case_match; by econstructor.
Qed.
