(* ===== verification/RaftLog.v ===== *)
(** * The replicated log (raft/log.go)

    [LogEntry] and [Log] with every method of log.go, over [uint64] indices
    that wrap around.  A log is well formed ([log_wf]) when its first entry is
    the sentinel of the snapshot boundary, its indices are contiguous and it is
    short enough for the index arithmetic not to overflow.  For well-formed
    logs the methods implement a finite map from logical indices to entries
    ([log_view]): this is the abstract specification of the component. *)

From S2P Require Import Prelude.

(** ** Data *)

Record LogEntry := mkLogEntry {
  le_Term : Z;
  le_Index : Z;
  le_Command : bytes;
  le_IsConfig : bool;
  le_ConfigOp : string;
  le_ConfigPeer : string
}.

#[export] Instance LogEntry_eq_dec : EqDecision LogEntry.
Proof. solve_decision. Defined.

(** [LogEntry{}]. *)
Definition zeroLogEntry : LogEntry := mkLogEntry 0 0 [] false "" "".

(** [LogEntry{Index: index, Term: term}]. *)
Definition sentinel (index term : Z) : LogEntry := mkLogEntry term index [] false "" "".

Record Log := mkLog { entries : list LogEntry }.

#[export] Instance Log_eq_dec : EqDecision Log.
Proof. solve_decision. Defined.

(** ** Operations *)

Definition newLog : Log := mkLog [sentinel 0 0].

(** [l.entries[0]]: well-formed logs are never empty. *)
Definition log_first (l : Log) : LogEntry := default zeroLogEntry (entries l !! 0%nat).

Definition log_snapshotIndex (l : Log) : Z := le_Index (log_first l).

Definition log_snapshotTerm (l : Log) : Z := le_Term (log_first l).

Definition log_append (l : Log) (es : list LogEntry) : Log := mkLog (entries l ++ es).

Definition log_get (l : Log) (index : Z) : LogEntry :=
  let offset := log_snapshotIndex l in
  if (index <? offset) || (index ⊖ offset >=? lenZ (entries l))
  then zeroLogEntry
  else default zeroLogEntry (entries l !! Z.to_nat (index ⊖ offset)).

Definition log_lastIndex (l : Log) : Z :=
  (log_snapshotIndex l ⊕ lenZ (entries l)) ⊖ 1.

Definition log_lastTerm (l : Log) : Z :=
  le_Term (default zeroLogEntry (entries l !! (length (entries l) - 1)%nat)).

Definition log_truncateFrom (l : Log) (index : Z) : Log :=
  let offset := log_snapshotIndex l in
  if index <=? offset then l
  else
    let physical := index ⊖ offset in
    if physical <? lenZ (entries l)
    then mkLog (take (Z.to_nat physical) (entries l))
    else l.

Definition log_compactTo (l : Log) (index term : Z) : Log :=
  let offset := log_snapshotIndex l in
  if index <=? offset then l
  else
    let physical := index ⊖ offset in
    if physical >=? lenZ (entries l)
    then mkLog [sentinel index term]
    else mkLog (sentinel index term :: drop (Z.to_nat (physical ⊕ 1)) (entries l)).

Definition log_firstIndexForTerm (l : Log) (term : Z) : Z :=
  (fix loop (es : list LogEntry) : Z :=
     match es with
     | [] => 0
     | e :: rest => if le_Term e =? term then le_Index e else loop rest
     end) (entries l).

Definition log_slice (l : Log) (from to : Z) : list LogEntry :=
  let offset := log_snapshotIndex l in
  let from := if from <=? offset then offset ⊕ 1 else from in
  if from >=? to then []
  else
    let physFrom := from ⊖ offset in
    let physTo := to ⊖ offset in
    if physFrom >=? lenZ (entries l) then []
    else
      let physTo := if physTo >? lenZ (entries l) then lenZ (entries l) else physTo in
      drop (Z.to_nat physFrom) (take (Z.to_nat physTo) (entries l)).

(** ** Well-formedness *)

(** The entries carry the indices [i], [i+1], ... *)
Fixpoint contiguous (i : Z) (es : list LogEntry) : Prop :=
  match es with
  | [] => True
  | e :: rest => le_Index e = i /\ contiguous (i + 1) rest
  end.

#[export] Instance contiguous_dec i es : Decision (contiguous i es).
Proof. revert i; induction es as [|e es IH]; intros i; simpl; apply _. Defined.

(** A real entry carries the term of the leader that created it, at least 1. *)
Definition entry_ok (e : LogEntry) : Prop := 1 <= le_Term e < u64_size.

#[export] Instance entry_ok_dec e : Decision (entry_ok e).
Proof. unfold entry_ok. apply _. Defined.

(** The sentinel is (0,0) in a fresh log, a real (index, term) after compaction. *)
Definition sentinel_ok (s : LogEntry) : Prop :=
  (le_Index s = 0 /\ le_Term s = 0) \/ (0 < le_Index s /\ entry_ok s).

#[export] Instance sentinel_ok_dec s : Decision (sentinel_ok s).
Proof. unfold sentinel_ok. apply _. Defined.

Record log_wf (l : Log) : Prop := {
  wf_nonempty : entries l <> [];
  wf_sentinel : sentinel_ok (log_first l);
  wf_contig : contiguous (log_snapshotIndex l) (entries l);
  wf_terms : Forall entry_ok (tail (entries l));
  wf_bound : log_snapshotIndex l + lenZ (entries l) < u64_size
}.

(** The abstract log: logical index to entry, the sentinel included. *)
Definition log_view (l : Log) : gmap Z LogEntry := map_seqZ (log_snapshotIndex l) (entries l).

(** ** Basic facts *)

Lemma contiguous_lookup i es k e :
  contiguous i es -> es !! k = Some e -> le_Index e = i + Z.of_nat k.
Proof.
  revert i k. induction es as [|x es IH]; intros i k; simpl; [done|].
  intros [Hx Hes] Hk. destruct k as [|k]; simplify_eq/=; [lia|].
  rewrite (IH _ _ Hes Hk). lia.
Qed.

Lemma contiguous_app i es fs :
  contiguous i (es ++ fs) <-> contiguous i es /\ contiguous (i + lenZ es) fs.
Proof.
  revert i. induction es as [|e es IH]; intros i; simpl.
  - unfold lenZ; simpl. rewrite Z.add_0_r. tauto.
  - rewrite IH, lenZ_cons. replace (i + (1 + lenZ es)) with (i + 1 + lenZ es) by lia. tauto.
Qed.

Lemma contiguous_take i es k : contiguous i es -> contiguous i (take k es).
Proof.
  intros H. rewrite <- (take_drop k es) in H. by apply contiguous_app in H as [? _].
Qed.

Lemma contiguous_drop i es k :
  (k <= length es)%nat -> contiguous i es -> contiguous (i + Z.of_nat k) (drop k es).
Proof.
  intros Hk H. rewrite <- (take_drop k es) in H. apply contiguous_app in H as [_ H].
  unfold lenZ in H. rewrite length_take, Nat.min_l in H; done.
Qed.

Lemma contiguous_Some i es : (forall k e, es !! k = Some e -> le_Index e = i + Z.of_nat k) -> contiguous i es.
Proof.
  revert i. induction es as [|e es IH]; intros i H; simpl; [done|]. split.
  - rewrite (H 0%nat e) by done. lia.
  - apply IH. intros k e' Hk. rewrite (H (S k) e') by done. lia.
Qed.

Section wf.
Context (l : Log) (Hwf : log_wf l).

Lemma wf_cons : exists s es, entries l = s :: es /\ log_first l = s.
Proof using Hwf.
  pose proof (wf_nonempty l Hwf) as Hne. unfold log_first.
  destruct (entries l) as [|s es]; [done|]. by exists s, es.
Qed.

Lemma wf_len : 1 <= lenZ (entries l).
Proof using Hwf.
  destruct wf_cons as (s & es & -> & _). rewrite lenZ_cons. pose proof (lenZ_nonneg es). lia.
Qed.

Lemma wf_snapshotIndex : 0 <= log_snapshotIndex l.
Proof using Hwf. destruct (wf_sentinel l Hwf) as [[H _]|[H _]]; unfold log_snapshotIndex; lia. Qed.

Lemma wf_lastIndex : log_lastIndex l = log_snapshotIndex l + lenZ (entries l) - 1.
Proof using Hwf.
  pose proof wf_len. pose proof wf_snapshotIndex. pose proof (wf_bound l Hwf).
  unfold log_lastIndex. u64_lia.
Qed.

Lemma wf_lastIndex_range : log_snapshotIndex l <= log_lastIndex l < u64_size - 1.
Proof using Hwf.
  pose proof wf_len. pose proof wf_snapshotIndex. pose proof (wf_bound l Hwf).
  rewrite wf_lastIndex. lia.
Qed.

(** The view of the log: the entry at a logical index. *)
Lemma view_lookup i :
  log_view l !! i = if decide (log_snapshotIndex l <= i)
                    then entries l !! Z.to_nat (i - log_snapshotIndex l) else None.
Proof using Type.
  unfold log_view. rewrite lookup_map_seqZ. case_decide; [by rewrite option_guard_True|].
  by rewrite option_guard_False.
Qed.

Lemma view_index i e : log_view l !! i = Some e -> le_Index e = i.
Proof using Hwf.
  rewrite view_lookup. case_decide; [|done]. intros He.
  rewrite (contiguous_lookup _ _ _ _ (wf_contig l Hwf) He). lia.
Qed.

Lemma view_is_Some i :
  is_Some (log_view l !! i) <-> log_snapshotIndex l <= i <= log_lastIndex l.
Proof using Hwf.
  rewrite wf_lastIndex, view_lookup. unfold lenZ. case_decide.
  - rewrite lookup_lt_is_Some. lia.
  - split; [by intros [? ?]|lia].
Qed.

Lemma view_None i :
  log_view l !! i = None <-> i < log_snapshotIndex l \/ log_lastIndex l < i.
Proof using Hwf.
  rewrite eq_None_not_Some, view_is_Some. lia.
Qed.

Lemma view_snapshot : log_view l !! log_snapshotIndex l = Some (log_first l).
Proof using Hwf.
  rewrite view_lookup, decide_True, Z.sub_diag by lia.
  destruct wf_cons as (s & es & -> & ->). done.
Qed.

(** Entries above the sentinel have a term of at least 1. *)
Lemma view_term i e : log_view l !! i = Some e -> log_snapshotIndex l < i -> entry_ok e.
Proof using Hwf.
  rewrite view_lookup. case_decide; [|done]. intros He Hi.
  pose proof (wf_terms l Hwf) as Ht. destruct wf_cons as (s & es & Hes & _).
  rewrite Hes in He, Ht. simpl in Ht. rewrite Forall_lookup in Ht.
  destruct (Z.to_nat (i - log_snapshotIndex l)) as [|k] eqn:Hk; [lia|]. by apply (Ht k).
Qed.

(** [get] reads the view, with the zero entry outside it. *)
Lemma get_view i : is_u64 i -> log_get l i = default zeroLogEntry (log_view l !! i).
Proof using Hwf.
  intros Hi. pose proof wf_snapshotIndex. pose proof (wf_bound l Hwf). pose proof wf_len.
  unfold log_get. rewrite view_lookup. case_decide as Hle.
  - rewrite (proj2 (Z.ltb_ge _ _)) by lia. simpl. rewrite u64_small by (unfold is_u64 in *; lia).
    case_match eqn:Hc; [|done]. rewrite lookup_ge_None_2; [done|]. unfold lenZ in Hc. lia.
  - by rewrite (proj2 (Z.ltb_lt _ _)) by lia.
Qed.

(** [prev.Term == 0] is the code's test for "no entry there": it is exact
    on every index but 0. *)
Lemma get_term_zero i : is_u64 i -> 0 < i ->
  le_Term (log_get l i) = 0 <-> log_view l !! i = None.
Proof using Hwf.
  intros Hi Hpos. rewrite get_view by done. destruct (log_view l !! i) as [e|] eqn:He; simpl; [|done].
  split; [|done]. intros Ht. exfalso.
  assert (log_snapshotIndex l <= i) by (apply view_is_Some; eauto).
  destruct (decide (log_snapshotIndex l = i)) as [<-|].
  - rewrite view_snapshot in He. simplify_eq.
    destruct (wf_sentinel l Hwf) as [[? ?]|[? [? ?]]]; unfold log_snapshotIndex in *; lia.
  - destruct (view_term i e He) as [? ?]; lia.
Qed.
End wf.

#[export] Hint Resolve wf_snapshotIndex wf_len : raft.

(** ** The methods implement operations on the view *)

Lemma newLog_wf : log_wf newLog.
Proof.
  split; simpl; [done|by left|done|done|done].
Qed.

Lemma first_append l es : log_wf l -> log_first (log_append l es) = log_first l.
Proof.
  intros H. destruct (wf_cons l H) as (s & ss & Hs & Hf). rewrite Hf.
  unfold log_append, log_first. simpl. by rewrite Hs.
Qed.

Lemma append_wf l es :
  log_wf l -> contiguous (log_lastIndex l + 1) es -> Forall entry_ok es ->
  log_lastIndex l + lenZ es + 1 < u64_size ->
  log_wf (log_append l es).
Proof.
  intros H Hc Ht Hb. pose proof (first_append l es H) as Hf.
  pose proof (wf_lastIndex l H) as Hl.
  split; unfold log_snapshotIndex; rewrite ?Hf; fold (log_snapshotIndex l); simpl.
  - destruct (wf_cons l H) as (s & ss & -> & _). done.
  - apply H.
  - apply contiguous_app. split; [apply H|]. by replace (log_snapshotIndex l + _) with (log_lastIndex l + 1) by lia.
  - destruct (wf_cons l H) as (s & ss & Hs & _). pose proof (wf_terms l H) as Hterms.
    rewrite Hs in Hterms |- *. simpl in *. by apply Forall_app.
  - rewrite lenZ_app. lia.
Qed.

Lemma append_lastIndex l es :
  log_wf l -> log_lastIndex l + lenZ es + 1 < u64_size ->
  log_lastIndex (log_append l es) = log_lastIndex l + lenZ es.
Proof.
  intros H Hb. pose proof (wf_lastIndex l H). pose proof (wf_len l H). pose proof (wf_snapshotIndex l H).
  pose proof (lenZ_nonneg es).
  unfold log_lastIndex at 1. unfold log_snapshotIndex. rewrite first_append by done.
  fold (log_snapshotIndex l). simpl. rewrite lenZ_app. u64_lia.
Qed.

Lemma append_view l es :
  log_wf l ->
  log_view (log_append l es) = log_view l ∪ map_seqZ (log_lastIndex l + 1) es.
Proof.
  intros H. unfold log_view, log_snapshotIndex. rewrite first_append by done.
  fold (log_snapshotIndex l). simpl. rewrite map_seqZ_app.
  f_equal. f_equal. rewrite (wf_lastIndex l H). unfold lenZ. lia.
Qed.

(** Truncation. *)
Lemma truncate_entries l i :
  log_wf l -> is_u64 i -> log_snapshotIndex l < i ->
  entries (log_truncateFrom l i) = take (Z.to_nat (i - log_snapshotIndex l)) (entries l).
Proof.
  intros H Hi Hlt. pose proof (wf_snapshotIndex l H). unfold log_truncateFrom.
  rewrite (proj2 (Z.leb_gt _ _)) by lia. rewrite u64_small by (unfold is_u64 in *; lia).
  case_match eqn:Hc; simpl; [done|]. unfold lenZ in Hc. rewrite take_ge; [done|lia].
Qed.

Lemma truncate_noop l i : i <= log_snapshotIndex l -> log_truncateFrom l i = l.
Proof. intros. unfold log_truncateFrom. by rewrite (proj2 (Z.leb_le _ _)) by lia. Qed.

Lemma truncate_first l i :
  log_wf l -> is_u64 i -> log_first (log_truncateFrom l i) = log_first l.
Proof.
  intros H Hi. destruct (decide (i <= log_snapshotIndex l)); [by rewrite truncate_noop|].
  unfold log_first at 1. rewrite truncate_entries by (done || lia).
  rewrite lookup_take_lt by lia. done.
Qed.

Lemma truncate_snapshotIndex l i :
  log_wf l -> is_u64 i -> log_snapshotIndex (log_truncateFrom l i) = log_snapshotIndex l.
Proof. intros. unfold log_snapshotIndex. by rewrite truncate_first. Qed.

Lemma truncate_wf l i : log_wf l -> is_u64 i -> log_wf (log_truncateFrom l i).
Proof.
  intros H Hi. destruct (decide (i <= log_snapshotIndex l)); [by rewrite truncate_noop|].
  pose proof (truncate_first l i H Hi) as Hf. pose proof (wf_bound l H).
  split; unfold log_snapshotIndex; rewrite ?Hf; fold (log_snapshotIndex l);
    rewrite ?truncate_entries by (done || lia).
  - destruct (wf_cons l H) as (s & ss & -> & _).
    destruct (Z.to_nat (i - log_snapshotIndex l)) eqn:?; [lia|done].
  - apply H.
  - apply contiguous_take, H.
  - pose proof (wf_terms l H) as Ht. destruct (wf_cons l H) as (s & ss & Hs & _).
    rewrite Hs in Ht |- *. destruct (Z.to_nat (i - log_snapshotIndex l)) eqn:?; [lia|].
    simpl in *. by apply Forall_take.
  - unfold lenZ in *. rewrite length_take. lia.
Qed.

Lemma truncate_lastIndex l i :
  log_wf l -> is_u64 i -> log_snapshotIndex l < i ->
  log_lastIndex (log_truncateFrom l i) = Z.min (i - 1) (log_lastIndex l).
Proof.
  intros H Hi Hlt. rewrite (wf_lastIndex _ (truncate_wf l i H Hi)), (wf_lastIndex l H).
  rewrite truncate_snapshotIndex, truncate_entries by done. unfold lenZ. rewrite length_take. lia.
Qed.

Lemma truncate_view l i :
  log_wf l -> is_u64 i -> log_snapshotIndex l < i ->
  log_view (log_truncateFrom l i) = filter (λ '(k, _), k < i) (log_view l).
Proof.
  intros H Hi Hlt. apply map_eq. intros k. apply option_eq. intros e.
  rewrite map_lookup_filter_Some, !view_lookup.
  rewrite truncate_snapshotIndex, truncate_entries by done. case_decide; [|naive_solver].
  rewrite lookup_take_Some. split; intros [? ?]; split; try done; lia.
Qed.

(** Compaction. *)
Lemma compact_noop l i t : i <= log_snapshotIndex l -> log_compactTo l i t = l.
Proof. intros. unfold log_compactTo. by rewrite (proj2 (Z.leb_le _ _)) by lia. Qed.

Lemma compact_entries l i t :
  log_wf l -> is_u64 i -> log_snapshotIndex l < i ->
  entries (log_compactTo l i t) =
  sentinel i t :: drop (Z.to_nat (i - log_snapshotIndex l) + 1) (entries l).
Proof.
  intros H Hi Hlt. pose proof (wf_snapshotIndex l H). pose proof (wf_bound l H). unfold log_compactTo.
  rewrite (proj2 (Z.leb_gt _ _)) by lia. rewrite (u64_small (i - _)) by (unfold is_u64 in *; lia).
  case_match eqn:Hc; simpl; f_equal.
  - unfold lenZ in Hc. rewrite drop_ge; [done|lia].
  - rewrite u64_small by (unfold is_u64 in *; lia). f_equal. lia.
Qed.

Lemma compact_first l i t :
  log_wf l -> is_u64 i -> log_snapshotIndex l < i -> log_first (log_compactTo l i t) = sentinel i t.
Proof. intros. unfold log_first. by rewrite compact_entries. Qed.

Lemma compact_snapshotIndex l i t :
  log_wf l -> is_u64 i -> log_snapshotIndex l < i -> log_snapshotIndex (log_compactTo l i t) = i.
Proof. intros. unfold log_snapshotIndex. by rewrite compact_first. Qed.

Lemma compact_wf l i t :
  log_wf l -> 0 < i < u64_size - 1 -> 1 <= t < u64_size ->
  log_wf (log_compactTo l i t).
Proof.
  intros H Hi Ht. destruct (decide (i <= log_snapshotIndex l)); [by rewrite compact_noop|].
  assert (Hu : is_u64 i) by (unfold is_u64; lia).
  pose proof (compact_first l i t H Hu ltac:(lia)) as Hf.
  pose proof (compact_entries l i t H Hu ltac:(lia)) as He.
  pose proof (wf_bound l H). pose proof (wf_len l H).
  split; unfold log_snapshotIndex; rewrite ?Hf, ?He; simpl.
  - done.
  - right. unfold entry_ok; simpl. lia.
  - split; [done|]. destruct (decide (Z.to_nat (i - log_snapshotIndex l) + 1 <= length (entries l))%nat) as [Hle|].
    + pose proof (contiguous_drop _ _ _ Hle (wf_contig l H)) as Hc.
      replace (i + 1) with (log_snapshotIndex l + Z.of_nat (Z.to_nat (i - log_snapshotIndex l) + 1)) by lia. done.
    + by rewrite drop_ge by lia.
  - pose proof (wf_terms l H) as Hts. destruct (wf_cons l H) as (s & ss & Hs & _). rewrite Hs in *.
    replace (Z.to_nat (i - log_snapshotIndex l) + 1)%nat with (S (Z.to_nat (i - log_snapshotIndex l))) by lia.
    simpl in *. by apply Forall_drop.
  - rewrite lenZ_cons. unfold lenZ in *. rewrite length_drop. lia.
Qed.

Lemma compact_lastIndex l i t :
  log_wf l -> 0 < i < u64_size - 1 -> 1 <= t < u64_size -> log_snapshotIndex l < i ->
  log_lastIndex (log_compactTo l i t) = Z.max i (log_lastIndex l).
Proof.
  intros H Hi Ht Hlt. assert (Hu : is_u64 i) by (unfold is_u64; lia).
  rewrite (wf_lastIndex _ (compact_wf l i t H Hi Ht)), (wf_lastIndex l H).
  rewrite compact_snapshotIndex, compact_entries by done. rewrite lenZ_cons. unfold lenZ. rewrite length_drop. lia.
Qed.

Lemma compact_view l i t :
  log_wf l -> is_u64 i -> log_snapshotIndex l < i ->
  log_view (log_compactTo l i t) =
  <[i := sentinel i t]> (filter (λ '(k, _), i < k) (log_view l)).
Proof.
  intros H Hi Hlt. apply map_eq. intros k. apply option_eq. intros e.
  rewrite view_lookup, compact_snapshotIndex, compact_entries by done. destruct (decide (i = k)) as [->|Hne].
  - rewrite decide_True, Z.sub_diag, lookup_insert_eq by lia. done.
  - rewrite lookup_insert_ne, map_lookup_filter_Some, view_lookup by done.
    case_decide; [|naive_solver lia].
    rewrite decide_True by lia. replace (Z.to_nat (k - i)) with (S (Z.to_nat (k - i - 1))) by lia.
    simpl. rewrite lookup_drop.
    replace (Z.to_nat (i - log_snapshotIndex l) + 1 + Z.to_nat (k - i - 1))%nat
      with (Z.to_nat (k - log_snapshotIndex l)) by lia.
    naive_solver lia.
Qed.

(** Slices. *)
Lemma slice_lookup l from to k :
  log_wf l -> is_u64 from -> is_u64 to ->
  log_slice l from to !! k =
  (let i := Z.max from (log_snapshotIndex l + 1) + Z.of_nat k in
   if decide (i < to) then log_view l !! i else None).
Proof.
  intros H Hf Ht. pose proof (wf_snapshotIndex l H). pose proof (wf_bound l H). pose proof (wf_len l H).
  unfold log_slice. cbv zeta.
  rewrite (u64_small (log_snapshotIndex l + 1)) by (unfold is_u64 in *; lia).
  replace (if from <=? log_snapshotIndex l then log_snapshotIndex l + 1 else from)
    with (Z.max from (log_snapshotIndex l + 1)) by (case_match; lia).
  set (f := Z.max from (log_snapshotIndex l + 1)).
  assert (log_snapshotIndex l < f) by lia.
  case_match eqn:Hge.
  { rewrite decide_False by lia. apply lookup_nil. }
  rewrite (u64_small (f - _)), (u64_small (to - _)) by (unfold is_u64 in *; lia).
  case_match eqn:Hge2.
  { rewrite lookup_nil. case_decide; [|done]. symmetry. apply view_None; [done|].
    rewrite (wf_lastIndex l H). lia. }
  rewrite lookup_drop, view_lookup.
  replace (Z.to_nat (f - log_snapshotIndex l) + k)%nat
    with (Z.to_nat (f + Z.of_nat k - log_snapshotIndex l)) by lia.
  case_decide.
  - rewrite decide_True by lia. case_match eqn:Hgt.
    + unfold lenZ. rewrite take_ge by lia. done.
    + rewrite lookup_take_lt by lia. done.
  - case_match eqn:Hgt.
    + unfold lenZ in *. rewrite lookup_ge_None_2; [done|]. rewrite length_take. lia.
    + rewrite lookup_take_ge by lia. done.
Qed.

Lemma slice_length l from :
  log_wf l -> is_u64 from -> log_snapshotIndex l < from <= log_lastIndex l + 1 ->
  lenZ (log_slice l from (log_lastIndex l + 1)) = log_lastIndex l + 1 - from.
Proof.
  intros H Hf Hb. pose proof (wf_lastIndex_range l H). pose proof (wf_snapshotIndex l H).
  assert (Hu : is_u64 (log_lastIndex l + 1)) by (unfold is_u64; lia).
  assert (Hlk := λ k, slice_lookup l from (log_lastIndex l + 1) k H Hf Hu).
  set (s := log_slice l from (log_lastIndex l + 1)) in *.
  assert (Hnone : s !! Z.to_nat (log_lastIndex l + 1 - from) = None).
  { rewrite Hlk. cbv zeta. rewrite decide_False by lia. done. }
  apply lookup_ge_None in Hnone. unfold lenZ.
  destruct (decide (log_lastIndex l + 1 - from = 0)) as [|Hnz]; [lia|].
  assert (Hsome : is_Some (s !! (Z.to_nat (log_lastIndex l + 1 - from) - 1)%nat)).
  { rewrite Hlk. cbv zeta. rewrite decide_True by lia. apply view_is_Some; [done|lia]. }
  apply lookup_lt_is_Some in Hsome. lia.
Qed.

(** The entries a slice holds are the log's own, in order. *)
Lemma slice_contiguous l from to :
  log_wf l -> is_u64 from -> is_u64 to -> log_snapshotIndex l < from ->
  contiguous from (log_slice l from to).
Proof.
  intros H Hf Ht Hlt. apply contiguous_Some. intros k e. rewrite slice_lookup by done. cbv zeta.
  case_decide; [|done]. intros He. apply view_index in He; [|done]. lia.
Qed.

Lemma slice_terms l from to :
  log_wf l -> is_u64 from -> is_u64 to -> Forall entry_ok (log_slice l from to).
Proof.
  intros H Hf Ht. apply Forall_lookup. intros k e. rewrite slice_lookup by done. cbv zeta.
  case_decide; [|done]. intros He. eapply view_term; [done..|]. lia.
Qed.

(** [firstIndexForTerm] finds the least index of the term, or answers 0. *)
Lemma firstIndexForTerm_spec l t :
  log_wf l ->
  (exists e, log_view l !! log_firstIndexForTerm l t = Some e /\ le_Term e = t /\
     forall i e', log_view l !! i = Some e' -> le_Term e' = t -> log_firstIndexForTerm l t <= i)
  \/ (log_firstIndexForTerm l t = 0 /\ forall i e', log_view l !! i = Some e' -> le_Term e' <> t).
Proof.
  intros H. unfold log_firstIndexForTerm. pose proof (wf_contig l H) as Hc. unfold log_view.
  generalize dependent (log_snapshotIndex l). induction (entries l) as [|e es IH]; intros b Hc.
  - right. split; [done|]. intros i e'. simpl. by rewrite lookup_empty.
  - simpl in Hc. destruct Hc as [He Hc]. rewrite map_seqZ_cons. case_match eqn:Ht.
    + left. exists e. rewrite He, lookup_insert_eq. split; [done|]. split; [lia|].
      intros i e'. destruct (decide (b = i)) as [->|]; [lia|].
      rewrite lookup_insert_ne, lookup_map_seqZ_Some by done. lia.
    + destruct (IH (b + 1) Hc) as [(e' & Hl & Ht' & Hmin)|[Hz Hno]].
      * left. exists e'. change (Z.succ b) with (b + 1).
        pose proof Hl as Hl'. apply lookup_map_seqZ_Some in Hl' as [? _].
        rewrite lookup_insert_ne by lia. split; [done|]. split; [done|].
        intros i e''. destruct (decide (b = i)) as [->|].
        -- rewrite lookup_insert_eq. intros ?; simplify_eq. lia.
        -- rewrite lookup_insert_ne by done. apply Hmin.
      * right. split; [done|]. intros i e'. destruct (decide (b = i)) as [->|].
        -- rewrite lookup_insert_eq. intros ?; simplify_eq. lia.
        -- rewrite lookup_insert_ne by done. apply Hno.
Qed.

Lemma lastTerm_view l :
  log_wf l -> exists e, log_view l !! log_lastIndex l = Some e /\ log_lastTerm l = le_Term e.
Proof.
  intros H. pose proof (wf_lastIndex_range l H). pose proof (wf_len l H).
  destruct (proj2 (view_is_Some l H (log_lastIndex l))) as [e He]; [lia|]. exists e. split; [done|].
  rewrite view_lookup, decide_True, (wf_lastIndex l H) in He by lia. unfold log_lastTerm, lenZ in *.
  replace (Z.to_nat (log_snapshotIndex l + Z.of_nat (length (entries l)) - 1 - log_snapshotIndex l))
    with (length (entries l) - 1)%nat in He by lia. by rewrite He.
Qed.

Lemma slice_nil l from to :
  log_wf l -> is_u64 from -> is_u64 to -> to <= from -> log_slice l from to = [].
Proof.
  intros H Hf Ht Hle. apply list_eq. intros k. rewrite slice_lookup by done. cbv zeta.
  rewrite decide_False by lia. done.
Qed.

Lemma slice_cons l from to :
  log_wf l -> is_u64 from -> is_u64 to ->
  log_snapshotIndex l < from -> from < to -> from <= log_lastIndex l ->
  log_slice l from to = log_get l from :: log_slice l (from + 1) to.
Proof.
  intros H Hf Ht Hs Hlt Hle. assert (Hf1 : is_u64 (from + 1)) by (unfold is_u64 in *; lia).
  apply list_eq. intros [|k]; simpl; rewrite slice_lookup by done; cbv zeta.
  - rewrite decide_True, get_view by (done || lia).
    replace (Z.max from (log_snapshotIndex l + 1) + Z.of_nat 0) with from by lia.
    destruct (proj2 (view_is_Some l H from)) as [e ->]; [lia|done].
  - rewrite slice_lookup by done. cbv zeta.
    replace (Z.max from (log_snapshotIndex l + 1) + Z.of_nat (S k))
      with (Z.max (from + 1) (log_snapshotIndex l + 1) + Z.of_nat k) by lia. done.
Qed.

(** A slice in two parts. *)
Lemma slice_split l from mid to :
  log_wf l -> is_u64 from -> is_u64 mid -> is_u64 to ->
  log_snapshotIndex l < from <= mid -> mid <= to -> mid <= log_lastIndex l + 1 ->
  log_slice l from to = log_slice l from mid ++ log_slice l mid to.
Proof.
  intros H Hf Hm Ht Hfm Hmt Hlast.
  assert (Hlen : length (log_slice l from mid) = Z.to_nat (mid - from)).
  { apply Nat.le_antisymm.
    - apply lookup_ge_None. rewrite slice_lookup by done. cbv zeta. by rewrite decide_False by lia.
    - destruct (decide (from = mid)) as [->|]; [lia|].
      assert (Hs : is_Some (log_slice l from mid !! (Z.to_nat (mid - from) - 1)%nat)).
      { rewrite slice_lookup by done. cbv zeta. rewrite decide_True by lia. apply view_is_Some; [done|lia]. }
      apply lookup_lt_is_Some in Hs. lia. }
  apply list_eq. intros k. destruct (decide (k < length (log_slice l from mid))%nat) as [Hlt|Hge].
  - rewrite lookup_app_l by done. rewrite !slice_lookup by done. cbv zeta. rewrite !decide_True by lia. done.
  - rewrite lookup_app_r by lia. rewrite !slice_lookup by done. cbv zeta. rewrite Hlen in *.
    replace (Z.max mid (log_snapshotIndex l + 1) + Z.of_nat (k - Z.to_nat (mid - from)))
      with (Z.max from (log_snapshotIndex l + 1) + Z.of_nat k) by lia. done.
Qed.

(** ** The abstract log and the refinement

    An abstract log has the index of the snapshot boundary, the index of its
    last entry and the entries between the two, by logical index.  [repr] says
    that a slice of entries represents one; every method of log.go preserves
    or reads off the representation. *)

Record AbsLog := mkAbsLog { al_base : Z; al_last : Z; al_map : gmap Z LogEntry }.

Definition abs_append (es : list LogEntry) (a : AbsLog) : AbsLog :=
  mkAbsLog (al_base a) (al_last a + lenZ es) (al_map a ∪ map_seqZ (al_last a + 1) es).

Definition abs_truncate (i : Z) (a : AbsLog) : AbsLog :=
  if decide (i <= al_base a) then a
  else mkAbsLog (al_base a) (Z.min (i - 1) (al_last a)) (filter (λ '(k, _), k < i) (al_map a)).

Definition abs_compact (i t : Z) (a : AbsLog) : AbsLog :=
  if decide (i <= al_base a) then a
  else mkAbsLog i (Z.max i (al_last a)) (<[i := sentinel i t]> (filter (λ '(k, _), i < k) (al_map a))).

Definition repr (l : Log) (a : AbsLog) : Prop :=
  log_wf l /\ al_base a = log_snapshotIndex l /\ al_last a = log_lastIndex l /\ al_map a = log_view l.

(** A log of three entries, compacted up to index 1, for the examples below. *)
Definition exampleLog : Log :=
  mkLog [sentinel 1 1; mkLogEntry 1 2 [] false "" ""; mkLogEntry 2 3 [] false "" ""].

Lemma exampleLog_wf : log_wf exampleLog.
Proof. split; [done|right; done|done|by repeat constructor|done]. Qed.

Definition exampleAbs : AbsLog := mkAbsLog 1 3 (log_view exampleLog).

(** [append] adds its entries after the last one, at consecutive indices,
    and leaves every entry it had and the snapshot boundary alone. *)
Lemma log_append_refines (l : Log) (a : AbsLog) (es : list LogEntry) :
  repr l a -> contiguous (al_last a + 1) es -> Forall entry_ok es ->
  al_last a + lenZ es + 1 < u64_size ->
  repr (log_append l es) (abs_append es a).
Proof.
  intros (Hwf & Hb & Hl & Hm) Hc Hok Hbound. rewrite Hl in *.
  split; [by apply append_wf|]. split_and!; simpl.
  - unfold log_snapshotIndex. by rewrite first_append.
  - by rewrite append_lastIndex, Hl.
  - by rewrite append_view, Hm, Hl.
Qed.

(** [truncateFrom] removes exactly the entries from its index on; the
    snapshot boundary and everything at or below it are never removed. *)
Lemma log_truncateFrom_refines (l : Log) (a : AbsLog) (i : Z) :
  repr l a -> is_u64 i -> repr (log_truncateFrom l i) (abs_truncate i a).
Proof.
  intros (Hwf & Hb & Hl & Hm) Hi. unfold abs_truncate. rewrite Hb. case_decide.
  - by rewrite truncate_noop.
  - split; [by apply truncate_wf|]. simpl. rewrite truncate_snapshotIndex, truncate_lastIndex by (done || lia).
    rewrite truncate_view by (done || lia). by rewrite Hl, Hm.
Qed.

(** [compactTo] moves the snapshot boundary to its index, with a sentinel
    of the given term, drops the entries below and keeps every entry above,
    also when the index lies beyond the end of the log. *)
Lemma log_compactTo_refines (l : Log) (a : AbsLog) (i t : Z) :
  repr l a -> 0 < i < u64_size - 1 -> 1 <= t < u64_size ->
  repr (log_compactTo l i t) (abs_compact i t a).
Proof.
  intros (Hwf & Hb & Hl & Hm) Hi Ht. unfold abs_compact. rewrite Hb. case_decide.
  - by rewrite compact_noop.
  - assert (Hu : is_u64 i) by (unfold is_u64; lia). split; [by apply compact_wf|]. simpl.
    rewrite compact_snapshotIndex, compact_lastIndex, compact_view by (done || lia). by rewrite Hl, Hm.
Qed.

(** A sequence of modifications, on the slice and on the abstract log. *)
Inductive log_op :=
  | OpAppend (es : list LogEntry)
  | OpTruncate (i : Z)
  | OpCompact (i t : Z).

Definition log_do (l : Log) (o : log_op) : Log :=
  match o with
  | OpAppend es => log_append l es
  | OpTruncate i => log_truncateFrom l i
  | OpCompact i t => log_compactTo l i t
  end.

Definition abs_do (a : AbsLog) (o : log_op) : AbsLog :=
  match o with
  | OpAppend es => abs_append es a
  | OpTruncate i => abs_truncate i a
  | OpCompact i t => abs_compact i t a
  end.

(** What a caller owes: entries that continue the log, indices and terms that
    are [uint64] values short of the end of the range. *)
Definition op_legal (a : AbsLog) (o : log_op) : Prop :=
  match o with
  | OpAppend es => contiguous (al_last a + 1) es /\ Forall entry_ok es /\ al_last a + lenZ es + 1 < u64_size
  | OpTruncate i => is_u64 i
  | OpCompact i t => 0 < i < u64_size - 1 /\ 1 <= t < u64_size
  end.

Fixpoint legal (a : AbsLog) (ops : list log_op) : Prop :=
  match ops with
  | [] => True
  | o :: ops => op_legal a o /\ legal (abs_do a o) ops
  end.

(** C29. The log simulates its specification: whatever sequence of [append],
    [truncateFrom] and [compactTo] a caller performs, the slice with its moving
    sentinel represents the finite map the same sequence describes, so nothing
    is lost, kept or shifted by the index arithmetic; in particular a
    truncation never removes the snapshot boundary and a compaction beyond the
    end of the log leaves just the boundary. *)
Theorem log_simulates_spec (ops : list log_op) (l : Log) (a : AbsLog) :
  repr l a -> legal a ops -> repr (foldl log_do l ops) (foldl abs_do a ops).
Proof.
  revert l a. induction ops as [|o ops IH]; intros l a Hr; [done|]. simpl. intros [Ho Hops].
  apply IH; [|done]. destruct o; simpl in *; destruct_and?;
    auto using log_append_refines, log_truncateFrom_refines, log_compactTo_refines.
Qed.

Lemma log_simulates_spec_witness :
  let ops := [OpTruncate 3; OpAppend [mkLogEntry 3 3 [] false "" ""]; OpCompact 7 4] in
  repr (foldl log_do exampleLog ops) (foldl abs_do exampleAbs ops).
Proof.
  apply log_simulates_spec; [split; [exact exampleLog_wf|done]|].
  split; [done|]. split; [split_and!; [done|by repeat constructor|done]|]. done.
Defined.

(** The reading methods agree with the abstract log: [get] is the entry at
    an index or the zero entry, [slice] lists the entries of a range in order
    without the sentinel, [firstIndexForTerm] is the least index of a term or
    0, and [lastTerm] is the term at the last index. *)
Theorem log_queries_refine (l : Log) (a : AbsLog) (i j t : Z) :
  repr l a -> is_u64 i -> is_u64 j ->
  log_get l i = default zeroLogEntry (al_map a !! i) /\
  (forall k, log_slice l i j !! k =
     let p := Z.max i (al_base a + 1) + Z.of_nat k in
     if decide (p < j) then al_map a !! p else None) /\
  ((exists e, al_map a !! log_firstIndexForTerm l t = Some e /\ le_Term e = t /\
      forall p e', al_map a !! p = Some e' -> le_Term e' = t -> log_firstIndexForTerm l t <= p) \/
   (log_firstIndexForTerm l t = 0 /\ forall p e', al_map a !! p = Some e' -> le_Term e' <> t)) /\
  (exists e, al_map a !! al_last a = Some e /\ log_lastTerm l = le_Term e) /\
  (forall p, is_Some (al_map a !! p) <-> al_base a <= p <= al_last a).
Proof.
  intros (Hwf & -> & -> & ->) Hi Hj. split_and!.
  - by apply get_view.
  - intros k. by apply slice_lookup.
  - by apply firstIndexForTerm_spec.
  - by apply lastTerm_view.
  - intros p. by apply view_is_Some.
Qed.

Lemma log_queries_refine_witness :
  log_get exampleLog 2 = default zeroLogEntry (al_map exampleAbs !! 2).
Proof.
  apply (log_queries_refine exampleLog exampleAbs 2 3 1); [split; [exact exampleLog_wf|done]|done|done].
Defined.
