(* ===== verification/Rpc.v ===== *)
(** * Messages and durable data (raft/rpc.go, raft/apply.go, raft/persist.go, raft/snapshot.go)

    The argument and reply records of the three RPCs, the snapshot handed to
    the apply loop, the two records written to disk, and the node states. *)

From S2P Require Import Prelude RaftLog.

(** ** rpc.go *)

Record RequestVoteArgs := mkRequestVoteArgs {
  rv_Term : Z;
  rv_CandidateID : string;
  rv_LastLogIndex : Z;
  rv_LastLogTerm : Z;
  rv_IsPreVote : bool
}.

Record RequestVoteReply := mkRequestVoteReply {
  rvr_Term : Z;
  rvr_VoteGranted : bool
}.

Record AppendEntriesArgs := mkAppendEntriesArgs {
  ae_Term : Z;
  ae_LeaderID : string;
  ae_PrevLogIndex : Z;
  ae_PrevLogTerm : Z;
  ae_Entries : list LogEntry;
  ae_LeaderCommit : Z
}.

Record AppendEntriesReply := mkAppendEntriesReply {
  aer_Term : Z;
  aer_Success : bool;
  aer_ConflictTerm : Z;
  aer_ConflictIndex : Z
}.

Record InstallSnapshotArgs := mkInstallSnapshotArgs {
  is_Term : Z;
  is_LeaderID : string;
  is_LastIncludedIndex : Z;
  is_LastIncludedTerm : Z;
  is_Data : bytes
}.

Record InstallSnapshotReply := mkInstallSnapshotReply { isr_Term : Z }.

#[export] Instance RequestVoteArgs_eq_dec : EqDecision RequestVoteArgs.
Proof. solve_decision. Defined.
#[export] Instance RequestVoteReply_eq_dec : EqDecision RequestVoteReply.
Proof. solve_decision. Defined.
#[export] Instance AppendEntriesArgs_eq_dec : EqDecision AppendEntriesArgs.
Proof. solve_decision. Defined.
#[export] Instance AppendEntriesReply_eq_dec : EqDecision AppendEntriesReply.
Proof. solve_decision. Defined.
#[export] Instance InstallSnapshotArgs_eq_dec : EqDecision InstallSnapshotArgs.
Proof. solve_decision. Defined.

(** ** node.go: the three node states *)

Inductive NodeState := Follower | Candidate | Leader.

#[export] Instance NodeState_eq_dec : EqDecision NodeState.
Proof. solve_decision. Defined.

Definition NodeState_eqb (a b : NodeState) : bool := bool_decide (a = b).

Lemma NodeState_eqb_true a b : NodeState_eqb a b = true <-> a = b.
Proof. apply bool_decide_eq_true. Qed.

Lemma NodeState_eqb_false a b : NodeState_eqb a b = false <-> a <> b.
Proof. apply bool_decide_eq_false. Qed.

(** [NodeState.String]; the [default] branch of the source is unreachable in a
    type with exactly the three constants. *)
Definition NodeState_String (s : NodeState) : string :=
  match s with
  | Follower => "follower"
  | Candidate => "candidate"
  | Leader => "leader"
  end.

(** ** apply.go: a snapshot on its way to the apply loop *)

Record snapshotToApply := mkSnapshotToApply {
  sta_index : Z;
  sta_term : Z;
  sta_data : bytes
}.

#[export] Instance snapshotToApply_eq_dec : EqDecision snapshotToApply.
Proof. solve_decision. Defined.

(** ** persist.go and snapshot.go: what is written to disk *)

Record PersistedState := mkPersistedState {
  ps_CurrentTerm : Z;
  ps_VotedFor : string;
  ps_Entries : list LogEntry
}.

Record snapshotFile := mkSnapshotFile {
  sf_Index : Z;
  sf_Term : Z;
  sf_Data : bytes
}.

#[export] Instance PersistedState_eq_dec : EqDecision PersistedState.
Proof. solve_decision. Defined.
#[export] Instance snapshotFile_eq_dec : EqDecision snapshotFile.
Proof. solve_decision. Defined.
