(* ===== verification/Disk.v ===== *)
(** * The data directory (the file protocol of raft/persist.go and raft/snapshot.go)

    Both files of a node are replaced by the same sequence of system calls:
    create a temporary file, encode into it, fsync it, rename it over the real
    one.  The model keeps, for each file, what the page cache holds and whether
    it has reached the disk; every call may fail; [writeFile_trace] lists the
    directory's states in order, so that a crash can be placed between any two
    calls, and a disk can be cut off at any of them for good ([power_cut]).  A gob stream is represented by the value it encodes; decoding a
    stream of the other type, or a torn file, fails. *)

From S2P Require Import Prelude RaftLog Rpc.

(** What a file holds: a complete gob stream of one of the two types, or
    bytes that no decoder accepts (an empty or half-written file). *)
Inductive content :=
  | CState (s : PersistedState)
  | CSnapshot (s : snapshotFile)
  | CTorn.

#[export] Instance content_eq_dec : EqDecision content.
Proof. solve_decision. Defined.

Record file := mkFile { f_content : content; f_synced : bool }.

#[export] Instance file_eq_dec : EqDecision file.
Proof. solve_decision. Defined.

Abbreviation directory := (gmap string file).

(** The call of the sequence that fails, if any; or the number of calls after
    which the machine stops.  What the process goes on to do then is of no
    consequence: all its further operations are cut as well ([power_cut]). *)
Inductive io_fault := NoFault | OpenFault | EncodeFault | SyncFault | RenameFault | PowerCut (calls : nat).

(** [done] operations succeed, the next one is cut after [calls] calls, and
    [later] operations after it find no machine. *)
Definition power_cut (done calls later : nat) : list io_fault :=
  replicate done NoFault ++ PowerCut calls :: replicate later (PowerCut 0).

(** The files, and the outcomes of the coming file operations (all succeed
    when the list is exhausted). *)
Record Disk := mkDisk { files : directory; faults : list io_fault }.

Definition next_fault (d : Disk) : io_fault := hd NoFault (faults d).

Inductive io_error := ErrOpen | ErrEncode | ErrSync | ErrRename | ErrDecode | ErrStopped.

#[export] Instance io_error_eq_dec : EqDecision io_error.
Proof. solve_decision. Defined.

(** ** Writing: create, encode, fsync, rename *)

Definition tmpName (path : string) : string := (path +:+ ".tmp")%string.

(** The states of the directory, in order, the initial one included. *)
Definition writeFile_trace (path : string) (c : content) (flt : io_fault) (d : directory)
  : list directory :=
  let tmp := tmpName path in
  let created := <[tmp := mkFile CTorn false]> d in
  let encoded := <[tmp := mkFile c false]> d in
  let synced := <[tmp := mkFile c true]> d in
  let renamed := <[path := mkFile c true]> (delete tmp d) in
  match flt with
  | OpenFault => [d]
  | EncodeFault => [d; created; delete tmp d]
  | SyncFault => [d; created; encoded; delete tmp d]
  | RenameFault => [d; created; encoded; synced]
  | NoFault => [d; created; encoded; synced; renamed]
  | PowerCut calls => take (S calls) [d; created; encoded; synced]
  end.

Definition fault_error (flt : io_fault) : option io_error :=
  match flt with
  | NoFault => None
  | OpenFault => Some ErrOpen
  | EncodeFault => Some ErrEncode
  | SyncFault => Some ErrSync
  | RenameFault => Some ErrRename
  | PowerCut _ => Some ErrStopped
  end.

(** The whole operation: the last state of the trace, and the error returned. *)
Definition writeFile (path : string) (c : content) (d : Disk) : Disk * option io_error :=
  let flt := next_fault d in
  let tr := writeFile_trace path c flt (files d) in
  (mkDisk (default (files d) (tr !! (length tr - 1)%nat)) (tail (faults d)), fault_error flt).

(** ** Reading: open, decode *)

(** [None] for a missing file, which is not an error. *)
Definition readFile {A} (decode : content -> option A) (path : string) (d : Disk)
  : option A + io_error :=
  match files d !! path with
  | None => inl None
  | Some f =>
      match next_fault d with
      | OpenFault => inr ErrOpen
      | _ => match decode (f_content f) with
             | Some a => inl (Some a)
             | None => inr ErrDecode
             end
      end
  end.

Definition drop_fault (d : Disk) : Disk := mkDisk (files d) (tail (faults d)).

Definition decodeState (c : content) : option PersistedState :=
  match c with CState s => Some s | _ => None end.

Definition decodeSnapshot (c : content) : option snapshotFile :=
  match c with CSnapshot s => Some s | _ => None end.

Definition statePath : string := "raft-state.bin".
Definition snapshotPath : string := "raft-snapshot.bin".

(** ** Crashes *)

(** After a power cut, a file that reached the disk is intact; one that did
    not may be missing or hold anything. *)
Definition crash_image (d d' : directory) : Prop :=
  forall name,
    match d !! name with
    | Some f => f_synced f = true -> d' !! name = Some f
    | None => d' !! name = None
    end.

(** ** Lemmas *)

Lemma tmp_ne path : tmpName path <> path.
Proof.
  unfold tmpName. induction path as [|a path IH]; [done|]. simpl. intros H. by injection H.
Qed.

Lemma writeFile_ok path c d :
  next_fault d = NoFault ->
  writeFile path c d =
  (mkDisk (<[path := mkFile c true]> (delete (tmpName path) (files d))) (tail (faults d)), None).
Proof. intros H. unfold writeFile. by rewrite H. Qed.

(** A write that succeeds is what the next read of the file returns. *)
Lemma writeFile_read {A} (decode : content -> option A) path c d a :
  next_fault d = NoFault -> next_fault (drop_fault d) = NoFault -> decode c = Some a ->
  readFile decode path (writeFile path c d).1 = inl (Some a).
Proof.
  intros H H2 Hd. rewrite writeFile_ok by done. unfold readFile. simpl.
  rewrite lookup_insert_eq. unfold next_fault in *. simpl in *. rewrite H2. simpl. by rewrite Hd.
Qed.

(** A failed write reports its error and leaves the real file alone. *)
Lemma writeFile_fail path c d :
  next_fault d <> NoFault ->
  (writeFile path c d).2 <> None /\ files (writeFile path c d).1 !! path = files d !! path.
Proof.
  intros H. pose proof (tmp_ne path). unfold writeFile.
  destruct (next_fault d) as [| | | | |[|[|[|[|k]]]]]; simpl; rewrite ?take_nil; simpl; (split; [done|]);
    rewrite ?lookup_delete_ne, ?lookup_insert_ne by done; done.
Qed.

(** The directory after a write is one of its trace. *)
Lemma writeFile_in_trace path c d : files (writeFile path c d).1 ∈ writeFile_trace path c (next_fault d) (files d).
Proof.
  unfold writeFile. simpl. set (tr := writeFile_trace _ _ _ _).
  assert (Hne : tr <> []) by (subst tr; destruct (next_fault d); simpl; done).
  destruct (lookup_lt_is_Some_2 tr (length tr - 1)) as [x Hx]; [destruct tr; simpl in *; [done|lia]|].
  rewrite Hx. by eapply list_elem_of_lookup_2.
Qed.

(** What holds of the directories of a cut write holds of those of a full one. *)
Lemma writeFile_trace_elem path c flt d d' :
  d' ∈ writeFile_trace path c flt d ->
  d' = d \/ d' = <[tmpName path := mkFile CTorn false]> d \/ d' = <[tmpName path := mkFile c false]> d \/
  d' = <[tmpName path := mkFile c true]> d \/ d' = delete (tmpName path) d \/
  d' = <[path := mkFile c true]> (delete (tmpName path) d).
Proof.
  destruct flt as [| | | | |k]; simpl; try (rewrite !elem_of_cons, ?elem_of_nil; tauto).
  destruct k as [|[|[|[|k]]]]; simpl; rewrite ?take_nil, !elem_of_cons, ?elem_of_nil; tauto.
Qed.

(** Wherever the machine stops during a write, the real file is afterwards
    the old complete one or the new complete one. *)
Lemma writeFile_trace_crash path c flt d d' f :
  d !! path = Some f -> f_synced f = true ->
  d' ∈ writeFile_trace path c flt d ->
  forall d'', crash_image d' d'' -> d'' !! path = Some f \/ d'' !! path = Some (mkFile c true).
Proof.
  intros Hf Hs Hin d'' Hc. pose proof (tmp_ne path) as Hne. specialize (Hc path).
  assert (d' !! path = Some f \/ d' !! path = Some (mkFile c true)) as [H|H].
  { apply writeFile_trace_elem in Hin; destruct_or!; subst; rewrite ?lookup_insert_eq, ?lookup_insert_ne, ?lookup_delete_ne by done;
      by auto. }
  - left. rewrite H in Hc. auto.
  - right. rewrite H in Hc. auto.
Qed.

(** The same when there is no file yet: it stays missing or is the new one. *)
Lemma writeFile_trace_crash_fresh path c flt d d' :
  d !! path = None ->
  d' ∈ writeFile_trace path c flt d ->
  forall d'', crash_image d' d'' -> d'' !! path = None \/ d'' !! path = Some (mkFile c true).
Proof.
  intros Hf Hin d'' Hc. pose proof (tmp_ne path) as Hne. specialize (Hc path).
  assert (d' !! path = None \/ d' !! path = Some (mkFile c true)) as [H|H].
  { apply writeFile_trace_elem in Hin; destruct_or!; subst; rewrite ?lookup_insert_eq, ?lookup_insert_ne, ?lookup_delete_ne by done;
      by auto. }
  - left. by rewrite H in Hc.
  - right. rewrite H in Hc. auto.
Qed.

(** Another file is not touched by a write, nor by a crash during it. *)
Lemma writeFile_trace_other path q c flt d d' d'' :
  q <> path -> q <> tmpName path -> d' ∈ writeFile_trace path c flt d -> crash_image d' d'' ->
  (forall f, d !! q = Some f -> f_synced f = true) -> d'' !! q = d !! q.
Proof.
  intros H1 H2 Hin Hc Hs. specialize (Hc q).
  assert (Hq : d' !! q = d !! q).
  { apply writeFile_trace_elem in Hin; destruct_or!; subst; rewrite ?lookup_insert_ne, ?lookup_delete_ne, ?lookup_insert_ne by done; done. }
  rewrite Hq in Hc. destruct (d !! q) as [f|] eqn:Hf; [by apply Hc, Hs|done].
Qed.
