(* ===== verification/Node.v ===== *)
(** * The Raft node (raft/node.go, raft/persist.go, the transitions of raft/election.go)

    The state of a node as one record, with the fields of [RaftNode]; the
    methods are functions on it.  A method that holds [n.mu] for its whole body
    is one function; a method that releases the mutex is split at the points
    where it does.  Goroutines a method spawns are returned as values of
    [Goroutine]; the time read with [time.Now] is an argument.  The contents of
    [config.DataDir] are the field [disk]. *)

From S2P Require Import Prelude RaftLog Rpc Disk.

(** ** Time

    A [time.Time] is its number of nanoseconds since the zero time, so the zero
    value of the type is 0; [time.Duration] is a 64-bit count of nanoseconds and
    [Sub] saturates. *)
Definition maxDuration : Z := 9223372036854775807.
Definition minDuration : Z := - 9223372036854775808.
Definition Millisecond : Z := 1000000.

Definition time_Sub (t u : Z) : Z := Z.max minDuration (Z.min maxDuration (t - u)).

(** [time.Duration(ms) * time.Millisecond]. *)
Definition durationMs (ms : Z) : Z := i64 (ms * Millisecond).

(** ** Data *)

(** [Config] without its two interface values: the transport is the network of
    the cluster model, the state machine a parameter of the apply loop. *)
Record Config := mkConfig {
  cfg_ID : string;
  cfg_Peers : list string;
  cfg_ElectionTimeoutMinMs : Z;
  cfg_ElectionTimeoutMaxMs : Z;
  cfg_HeartbeatIntervalMs : Z;
  cfg_DataDir : string;
  cfg_SelfAddr : string
}.

(** [id] is [nid] and [log] is [rlog]; a channel of capacity one is its pending
    value; [stopCh] is whether the channel is closed; a nil map is the empty
    one.  [applyCh] is part of the apply loop's state. *)
Record RaftNode := mkRaftNode {
  nid : string;
  peers : list string;
  currentTerm : Z;
  votedFor : string;
  rlog : Log;
  state : NodeState;
  commitIndex : Z;
  lastApplied : Z;
  nextIndex : gmap string Z;
  matchIndex : gmap string Z;
  lastHeardFrom : gmap string Z;
  config : Config;
  leaderID : string;
  lastLeaderContact : Z;
  snapshotData : bytes;
  snapshotNotifyC : option snapshotToApply;
  stopCh : bool;
  heartbeatC : bool;
  commitNotifyC : bool;
  heartbeatsRecv : Z;
  heartbeatsSent : Z;
  disk : Disk
}.

(** ** Field updates *)

Definition set_peers (v : list string) (n : RaftNode) : RaftNode :=
  mkRaftNode (nid n) v (currentTerm n) (votedFor n) (rlog n) (state n) (commitIndex n)
    (lastApplied n) (nextIndex n) (matchIndex n) (lastHeardFrom n) (config n) (leaderID n)
    (lastLeaderContact n) (snapshotData n) (snapshotNotifyC n) (stopCh n) (heartbeatC n)
    (commitNotifyC n) (heartbeatsRecv n) (heartbeatsSent n) (disk n).
Definition set_currentTerm (v : Z) (n : RaftNode) : RaftNode :=
  mkRaftNode (nid n) (peers n) v (votedFor n) (rlog n) (state n) (commitIndex n) (lastApplied n)
    (nextIndex n) (matchIndex n) (lastHeardFrom n) (config n) (leaderID n) (lastLeaderContact n)
    (snapshotData n) (snapshotNotifyC n) (stopCh n) (heartbeatC n) (commitNotifyC n)
    (heartbeatsRecv n) (heartbeatsSent n) (disk n).
Definition set_votedFor (v : string) (n : RaftNode) : RaftNode :=
  mkRaftNode (nid n) (peers n) (currentTerm n) v (rlog n) (state n) (commitIndex n) (lastApplied
    n) (nextIndex n) (matchIndex n) (lastHeardFrom n) (config n) (leaderID n) (lastLeaderContact
    n) (snapshotData n) (snapshotNotifyC n) (stopCh n) (heartbeatC n) (commitNotifyC n)
    (heartbeatsRecv n) (heartbeatsSent n) (disk n).
Definition set_rlog (v : Log) (n : RaftNode) : RaftNode :=
  mkRaftNode (nid n) (peers n) (currentTerm n) (votedFor n) v (state n) (commitIndex n)
    (lastApplied n) (nextIndex n) (matchIndex n) (lastHeardFrom n) (config n) (leaderID n)
    (lastLeaderContact n) (snapshotData n) (snapshotNotifyC n) (stopCh n) (heartbeatC n)
    (commitNotifyC n) (heartbeatsRecv n) (heartbeatsSent n) (disk n).
Definition set_state (v : NodeState) (n : RaftNode) : RaftNode :=
  mkRaftNode (nid n) (peers n) (currentTerm n) (votedFor n) (rlog n) v (commitIndex n)
    (lastApplied n) (nextIndex n) (matchIndex n) (lastHeardFrom n) (config n) (leaderID n)
    (lastLeaderContact n) (snapshotData n) (snapshotNotifyC n) (stopCh n) (heartbeatC n)
    (commitNotifyC n) (heartbeatsRecv n) (heartbeatsSent n) (disk n).
Definition set_commitIndex (v : Z) (n : RaftNode) : RaftNode :=
  mkRaftNode (nid n) (peers n) (currentTerm n) (votedFor n) (rlog n) (state n) v (lastApplied n)
    (nextIndex n) (matchIndex n) (lastHeardFrom n) (config n) (leaderID n) (lastLeaderContact n)
    (snapshotData n) (snapshotNotifyC n) (stopCh n) (heartbeatC n) (commitNotifyC n)
    (heartbeatsRecv n) (heartbeatsSent n) (disk n).
Definition set_lastApplied (v : Z) (n : RaftNode) : RaftNode :=
  mkRaftNode (nid n) (peers n) (currentTerm n) (votedFor n) (rlog n) (state n) (commitIndex n) v
    (nextIndex n) (matchIndex n) (lastHeardFrom n) (config n) (leaderID n) (lastLeaderContact n)
    (snapshotData n) (snapshotNotifyC n) (stopCh n) (heartbeatC n) (commitNotifyC n)
    (heartbeatsRecv n) (heartbeatsSent n) (disk n).
Definition set_nextIndex (v : gmap string Z) (n : RaftNode) : RaftNode :=
  mkRaftNode (nid n) (peers n) (currentTerm n) (votedFor n) (rlog n) (state n) (commitIndex n)
    (lastApplied n) v (matchIndex n) (lastHeardFrom n) (config n) (leaderID n) (lastLeaderContact
    n) (snapshotData n) (snapshotNotifyC n) (stopCh n) (heartbeatC n) (commitNotifyC n)
    (heartbeatsRecv n) (heartbeatsSent n) (disk n).
Definition set_matchIndex (v : gmap string Z) (n : RaftNode) : RaftNode :=
  mkRaftNode (nid n) (peers n) (currentTerm n) (votedFor n) (rlog n) (state n) (commitIndex n)
    (lastApplied n) (nextIndex n) v (lastHeardFrom n) (config n) (leaderID n) (lastLeaderContact
    n) (snapshotData n) (snapshotNotifyC n) (stopCh n) (heartbeatC n) (commitNotifyC n)
    (heartbeatsRecv n) (heartbeatsSent n) (disk n).
Definition set_lastHeardFrom (v : gmap string Z) (n : RaftNode) : RaftNode :=
  mkRaftNode (nid n) (peers n) (currentTerm n) (votedFor n) (rlog n) (state n) (commitIndex n)
    (lastApplied n) (nextIndex n) (matchIndex n) v (config n) (leaderID n) (lastLeaderContact n)
    (snapshotData n) (snapshotNotifyC n) (stopCh n) (heartbeatC n) (commitNotifyC n)
    (heartbeatsRecv n) (heartbeatsSent n) (disk n).
Definition set_leaderID (v : string) (n : RaftNode) : RaftNode :=
  mkRaftNode (nid n) (peers n) (currentTerm n) (votedFor n) (rlog n) (state n) (commitIndex n)
    (lastApplied n) (nextIndex n) (matchIndex n) (lastHeardFrom n) (config n) v (lastLeaderContact
    n) (snapshotData n) (snapshotNotifyC n) (stopCh n) (heartbeatC n) (commitNotifyC n)
    (heartbeatsRecv n) (heartbeatsSent n) (disk n).
Definition set_lastLeaderContact (v : Z) (n : RaftNode) : RaftNode :=
  mkRaftNode (nid n) (peers n) (currentTerm n) (votedFor n) (rlog n) (state n) (commitIndex n)
    (lastApplied n) (nextIndex n) (matchIndex n) (lastHeardFrom n) (config n) (leaderID n) v
    (snapshotData n) (snapshotNotifyC n) (stopCh n) (heartbeatC n) (commitNotifyC n)
    (heartbeatsRecv n) (heartbeatsSent n) (disk n).
Definition set_snapshotData (v : bytes) (n : RaftNode) : RaftNode :=
  mkRaftNode (nid n) (peers n) (currentTerm n) (votedFor n) (rlog n) (state n) (commitIndex n)
    (lastApplied n) (nextIndex n) (matchIndex n) (lastHeardFrom n) (config n) (leaderID n)
    (lastLeaderContact n) v (snapshotNotifyC n) (stopCh n) (heartbeatC n) (commitNotifyC n)
    (heartbeatsRecv n) (heartbeatsSent n) (disk n).
Definition set_snapshotNotifyC (v : option snapshotToApply) (n : RaftNode) : RaftNode :=
  mkRaftNode (nid n) (peers n) (currentTerm n) (votedFor n) (rlog n) (state n) (commitIndex n)
    (lastApplied n) (nextIndex n) (matchIndex n) (lastHeardFrom n) (config n) (leaderID n)
    (lastLeaderContact n) (snapshotData n) v (stopCh n) (heartbeatC n) (commitNotifyC n)
    (heartbeatsRecv n) (heartbeatsSent n) (disk n).
Definition set_stopCh (v : bool) (n : RaftNode) : RaftNode :=
  mkRaftNode (nid n) (peers n) (currentTerm n) (votedFor n) (rlog n) (state n) (commitIndex n)
    (lastApplied n) (nextIndex n) (matchIndex n) (lastHeardFrom n) (config n) (leaderID n)
    (lastLeaderContact n) (snapshotData n) (snapshotNotifyC n) v (heartbeatC n) (commitNotifyC n)
    (heartbeatsRecv n) (heartbeatsSent n) (disk n).
Definition set_heartbeatC (v : bool) (n : RaftNode) : RaftNode :=
  mkRaftNode (nid n) (peers n) (currentTerm n) (votedFor n) (rlog n) (state n) (commitIndex n)
    (lastApplied n) (nextIndex n) (matchIndex n) (lastHeardFrom n) (config n) (leaderID n)
    (lastLeaderContact n) (snapshotData n) (snapshotNotifyC n) (stopCh n) v (commitNotifyC n)
    (heartbeatsRecv n) (heartbeatsSent n) (disk n).
Definition set_commitNotifyC (v : bool) (n : RaftNode) : RaftNode :=
  mkRaftNode (nid n) (peers n) (currentTerm n) (votedFor n) (rlog n) (state n) (commitIndex n)
    (lastApplied n) (nextIndex n) (matchIndex n) (lastHeardFrom n) (config n) (leaderID n)
    (lastLeaderContact n) (snapshotData n) (snapshotNotifyC n) (stopCh n) (heartbeatC n) v
    (heartbeatsRecv n) (heartbeatsSent n) (disk n).
Definition set_heartbeatsRecv (v : Z) (n : RaftNode) : RaftNode :=
  mkRaftNode (nid n) (peers n) (currentTerm n) (votedFor n) (rlog n) (state n) (commitIndex n)
    (lastApplied n) (nextIndex n) (matchIndex n) (lastHeardFrom n) (config n) (leaderID n)
    (lastLeaderContact n) (snapshotData n) (snapshotNotifyC n) (stopCh n) (heartbeatC n)
    (commitNotifyC n) v (heartbeatsSent n) (disk n).
Definition set_heartbeatsSent (v : Z) (n : RaftNode) : RaftNode :=
  mkRaftNode (nid n) (peers n) (currentTerm n) (votedFor n) (rlog n) (state n) (commitIndex n)
    (lastApplied n) (nextIndex n) (matchIndex n) (lastHeardFrom n) (config n) (leaderID n)
    (lastLeaderContact n) (snapshotData n) (snapshotNotifyC n) (stopCh n) (heartbeatC n)
    (commitNotifyC n) (heartbeatsRecv n) v (disk n).
Definition set_disk (v : Disk) (n : RaftNode) : RaftNode :=
  mkRaftNode (nid n) (peers n) (currentTerm n) (votedFor n) (rlog n) (state n) (commitIndex n)
    (lastApplied n) (nextIndex n) (matchIndex n) (lastHeardFrom n) (config n) (leaderID n)
    (lastLeaderContact n) (snapshotData n) (snapshotNotifyC n) (stopCh n) (heartbeatC n)
    (commitNotifyC n) (heartbeatsRecv n) (heartbeatsSent n) v.

(** Reduce projections of updated nodes. *)
Ltac node_simpl :=
  cbn [fst snd files faults nid peers currentTerm votedFor rlog state commitIndex lastApplied nextIndex matchIndex
    lastHeardFrom config leaderID lastLeaderContact snapshotData snapshotNotifyC stopCh heartbeatC
    commitNotifyC heartbeatsRecv heartbeatsSent disk set_peers set_currentTerm set_votedFor
    set_rlog set_state set_commitIndex set_lastApplied set_nextIndex set_matchIndex
    set_lastHeardFrom set_leaderID set_lastLeaderContact set_snapshotData set_snapshotNotifyC
    set_stopCh set_heartbeatC set_commitNotifyC set_heartbeatsRecv set_heartbeatsSent set_disk] in
    *.

(** ** Construction *)

Definition withDefault (v d : Z) : Z := if v =? 0 then d else v.

Definition defaultConfig (cfg : Config) : Config :=
  mkConfig (cfg_ID cfg) (cfg_Peers cfg)
    (withDefault (cfg_ElectionTimeoutMinMs cfg) 150)
    (withDefault (cfg_ElectionTimeoutMaxMs cfg) 300)
    (withDefault (cfg_HeartbeatIntervalMs cfg) 50)
    (cfg_DataDir cfg) (cfg_SelfAddr cfg).

(** [d] is what the data directory holds when the process starts. *)
Definition NewRaftNode (cfg : Config) (d : Disk) : RaftNode :=
  let cfg := defaultConfig cfg in
  mkRaftNode (cfg_ID cfg) (cfg_Peers cfg) 0 "" newLog Follower 0 0 ∅ ∅ ∅ cfg "" 0 [] None
    false false false 0 0 d.

(** ** Signals *)

(** A send on a channel of capacity one with a [default] branch: one pending
    signal is enough. *)
Definition notifyHeartbeat (n : RaftNode) : RaftNode := set_heartbeatC true n.

Definition notifyCommit (n : RaftNode) : RaftNode := set_commitNotifyC true n.

(** ** Persistence (persist.go) *)

Definition persistedState (n : RaftNode) : PersistedState :=
  mkPersistedState (currentTerm n) (votedFor n) (entries (rlog n)).

(** Errors are dropped: [persist] returns nothing. *)
Definition persist (n : RaftNode) : RaftNode :=
  set_disk (writeFile statePath (CState (persistedState n)) (disk n)).1 n.

Definition loadState (n : RaftNode) : RaftNode * option io_error :=
  let r := readFile decodeState statePath (disk n) in
  let n := set_disk (drop_fault (disk n)) n in
  match r with
  | inl None => (n, None)
  | inl (Some s) =>
      (set_rlog (mkLog (ps_Entries s))
         (set_votedFor (ps_VotedFor s) (set_currentTerm (ps_CurrentTerm s) n)), None)
  | inr e => (n, Some e)
  end.

(** ** State transitions (election.go) *)

Definition becomeFollower (term : Z) (n : RaftNode) : RaftNode :=
  let n := set_state Follower n in
  let n := set_currentTerm term n in
  let n := set_votedFor "" n in
  let n := set_leaderID "" n in
  persist n.

Definition becomeCandidate (n : RaftNode) : RaftNode :=
  let n := set_state Candidate n in
  let n := set_currentTerm (currentTerm n ⊕ 1) n in
  let n := set_votedFor (nid n) n in
  let n := set_leaderID "" n in
  persist n.

Definition becomeLeader (now : Z) (n : RaftNode) : RaftNode :=
  let n := set_state Leader n in
  let n := set_leaderID (nid n) n in
  let lastIndex := log_lastIndex (rlog n) in
  foldl (λ n peer,
    let n := set_nextIndex (<[peer := lastIndex ⊕ 1]> (nextIndex n)) n in
    let n := set_matchIndex (<[peer := 0]> (matchIndex n)) n in
    set_lastHeardFrom (<[peer := now]> (lastHeardFrom n)) n) n (peers n).

(** ** Queries *)

Definition State (n : RaftNode) : NodeState := state n.
Definition CurrentTerm (n : RaftNode) : Z := currentTerm n.
Definition LeaderID (n : RaftNode) : string := leaderID n.
Definition ID (n : RaftNode) : string := nid n.
Definition LastIndex (n : RaftNode) : Z := log_lastIndex (rlog n).
Definition HeartbeatsReceived (n : RaftNode) : Z := heartbeatsRecv n.
Definition HeartbeatsSent (n : RaftNode) : Z := heartbeatsSent n.
Definition CommitIndex (n : RaftNode) : Z := commitIndex n.
Definition LastApplied (n : RaftNode) : Z := lastApplied n.
Definition Peers (n : RaftNode) : list string := peers n.
Definition LogEntries (n : RaftNode) : list LogEntry :=
  log_slice (rlog n) (log_snapshotIndex (rlog n) ⊕ 1) (log_lastIndex (rlog n) ⊕ 1).
Definition SnapshotIndex (n : RaftNode) : Z := log_snapshotIndex (rlog n).

(** [close(n.stopCh)] panics on a closed channel: [None]. *)
Definition Stop (n : RaftNode) : option RaftNode :=
  if stopCh n then None else Some (set_stopCh true n).

(** [(len(n.peers)+1)/2 + 1], the quorum of the node and its peers. *)
Definition majority (n : nat) : nat := ((n + 1) / 2 + 1)%nat.

(** ** Timers *)

(** [rand.Intn] panics when its argument is not positive: [None].  [r] is the
    random number it draws, reduced to the range it promises. *)
Definition randomElectionTimeout (n : RaftNode) (r : Z) : option Z :=
  let spread := i64 (cfg_ElectionTimeoutMaxMs (config n) - cfg_ElectionTimeoutMinMs (config n)) in
  if spread <=? 0 then None
  else Some (durationMs (i64 (cfg_ElectionTimeoutMinMs (config n) + r mod spread))).

(** ** Lemmas *)

(** Unfold the transitions and reduce. *)
Ltac node_unfold :=
  unfold becomeFollower, becomeCandidate, persist, notifyHeartbeat, notifyCommit in *; node_simpl.

(** A node whose file operations all succeed. *)
Definition disk_ok (n : RaftNode) : Prop := Forall (eq NoFault) (faults (disk n)).

(** What the state file of a healthy node holds: its term, vote and log. *)
Definition durable (n : RaftNode) : Prop :=
  files (disk n) !! statePath = Some (mkFile (CState (persistedState n)) true).

Lemma disk_ok_next n : disk_ok n -> next_fault (disk n) = NoFault.
Proof. unfold disk_ok, next_fault. destruct (faults (disk n)); [done|]. by inversion 1. Qed.

Lemma disk_ok_tail n : disk_ok n -> Forall (eq NoFault) (tail (faults (disk n))).
Proof. unfold disk_ok. destruct (faults (disk n)); [done|]. by inversion 1. Qed.

Lemma persist_faults n : faults (disk (persist n)) = tail (faults (disk n)).
Proof. done. Qed.

Lemma persist_disk_ok n : disk_ok n -> disk_ok (persist n).
Proof. intros H. unfold disk_ok. rewrite persist_faults. by apply disk_ok_tail. Qed.

Lemma persist_durable n : disk_ok n -> durable (persist n).
Proof.
  intros H. unfold durable, persist. rewrite writeFile_ok by by apply disk_ok_next.
  node_simpl. by rewrite lookup_insert_eq.
Qed.

Lemma becomeFollower_disk_ok t n : disk_ok n -> disk_ok (becomeFollower t n).
Proof. intros H. apply persist_disk_ok. exact H. Qed.

#[export] Hint Resolve persist_disk_ok persist_durable becomeFollower_disk_ok : raft.

(** What a restart reads back from a durable node. *)
Lemma loadState_durable n cfg :
  disk_ok n -> durable n ->
  let n' := (loadState (NewRaftNode cfg (disk n))).1 in
  currentTerm n' = currentTerm n /\ votedFor n' = votedFor n /\ rlog n' = rlog n /\
  (loadState (NewRaftNode cfg (disk n))).2 = None.
Proof.
  intros Hok Hd. unfold loadState, readFile, NewRaftNode. node_simpl. rewrite Hd.
  rewrite (disk_ok_next n Hok). simpl. by destruct (rlog n).
Qed.

(** The tracking state a new leader starts from. *)
Lemma becomeLeader_fields now n :
  let n' := becomeLeader now n in
  state n' = Leader /\ leaderID n' = nid n /\ nid n' = nid n /\ peers n' = peers n /\
  currentTerm n' = currentTerm n /\ votedFor n' = votedFor n /\ rlog n' = rlog n /\
  commitIndex n' = commitIndex n /\ lastApplied n' = lastApplied n /\ disk n' = disk n /\
  config n' = config n.
Proof.
  unfold becomeLeader. cbv zeta. node_simpl. generalize (log_lastIndex (rlog n)) as li.
  set (m := set_leaderID (nid n) (set_state Leader n)). intros li.
  enough (H : forall ps k, state k = Leader -> leaderID k = nid n ->
    nid k = nid n /\ peers k = peers n /\ currentTerm k = currentTerm n /\ votedFor k = votedFor n /\
    rlog k = rlog n /\ commitIndex k = commitIndex n /\ lastApplied k = lastApplied n /\
    disk k = disk n /\ config k = config n ->
    let n' := foldl (λ n peer,
      set_lastHeardFrom (<[peer := now]> (lastHeardFrom n))
       (set_matchIndex (<[peer := 0]> (matchIndex n))
         (set_nextIndex (<[peer := li ⊕ 1]> (nextIndex n)) n))) k ps in
    state n' = Leader /\ leaderID n' = nid n /\ nid n' = nid n /\ peers n' = peers n /\
    currentTerm n' = currentTerm n /\ votedFor n' = votedFor n /\ rlog n' = rlog n /\
    commitIndex n' = commitIndex n /\ lastApplied n' = lastApplied n /\ disk n' = disk n /\
    config n' = config n).
  { apply (H (peers n) m); done. }
  induction ps as [|p ps IH]; intros k Hs Hl Hk; simpl; [naive_solver|].
  by apply IH.
Qed.

Lemma becomeLeader_tracking now n p :
  p ∈ peers n ->
  mget (nextIndex (becomeLeader now n)) p = log_lastIndex (rlog n) ⊕ 1 /\
  mget (matchIndex (becomeLeader now n)) p = 0 /\
  lastHeardFrom (becomeLeader now n) !! p = Some now.
Proof.
  intros Hp. unfold becomeLeader. cbv zeta. node_simpl.
  generalize (log_lastIndex (rlog n)) as li. intros li.
  generalize (set_leaderID (nid n) (set_state Leader n)) as k.
  induction (peers n) as [|q qs IH]; [by apply elem_of_nil in Hp|]. intros k. simpl.
  destruct (decide (p ∈ qs)) as [Hin|Hni]; [by apply IH|].
  apply elem_of_cons in Hp as [<-|]; [|done]. clear IH.
  set (k' := set_lastHeardFrom _ _).
  assert (H : mget (nextIndex k') p = li ⊕ 1 /\ mget (matchIndex k') p = 0 /\
              lastHeardFrom k' !! p = Some now).
  { subst k'. node_simpl. by rewrite !mget_insert, lookup_insert_eq. }
  revert H. generalize k'. clear k k'. induction qs as [|q qs IH]; intros k H; simpl; [done|].
  apply not_elem_of_cons in Hni as [? ?]. apply IH; [done|]. node_simpl.
  rewrite !mget_insert_ne, lookup_insert_ne by done. done.
Qed.

(** ** Quorums *)

Lemma majority_spec n : (n + 1 < 2 * majority n)%nat /\ (0 < n -> majority n <= n + 1)%nat.
Proof.
  unfold majority. pose proof (Nat.div_mod_eq (n + 1) 2). pose proof (Nat.mod_upper_bound (n + 1) 2). lia.
Qed.

(** Two duplicate-free sets of members, each at least a majority, share a member. *)
Lemma quorum_intersect {A} `{EqDecision A} (U q1 q2 : list A) :
  NoDup q1 -> NoDup q2 -> q1 ⊆ U -> q2 ⊆ U ->
  (length U < length q1 + length q2)%nat -> exists x, x ∈ q1 /\ x ∈ q2.
Proof.
  intros H1 H2 S1 S2 Hlen.
  destruct (decide (Exists (λ x, x ∈ q2) q1)) as [He|Hn].
  - apply Exists_exists in He as (x & ? & ?). by exists x.
  - exfalso. assert (Hnd : NoDup (q1 ++ q2)).
    { apply NoDup_app. split; [done|]. split; [|done]. intros x Hx Hx2.
      apply Hn, Exists_exists. by exists x. }
    assert (Hsub : q1 ++ q2 ⊆ U) by (intros x [?|?]%elem_of_app; auto).
    pose proof (NoDup_submseteq (q1 ++ q2) U Hnd Hsub) as Hs.
    apply submseteq_length in Hs. rewrite length_app in Hs. lia.
Qed.

(** ** Properties *)

(** A node with the configuration of the examples. *)
Definition exampleConfig : Config := mkConfig "a" ["b"; "c"] 150 300 50 "" "a".
Definition exampleNode : RaftNode := NewRaftNode exampleConfig (mkDisk ∅ []).

(** C22. Wherever the process or the machine stops while [persist] replaces the
    state file, and whichever of its system calls fails, a restart reads back
    either the complete old state or the complete new one; a [persist] that
    fails leaves the old one. *)
Theorem persist_crash_atomic (n : RaftNode) (old : PersistedState) (cfg : Config) (d d' : directory) :
  files (disk n) !! statePath = Some (mkFile (CState old) true) ->
  d ∈ writeFile_trace statePath (CState (persistedState n)) (next_fault (disk n)) (files (disk n)) ->
  crash_image d d' ->
  let n' := (loadState (NewRaftNode cfg (mkDisk d' []))).1 in
  (persistedState n' = old \/ persistedState n' = persistedState n) /\
  (next_fault (disk n) <> NoFault -> files (disk (persist n)) !! statePath = files (disk n) !! statePath).
Proof.
  intros Hold Hd Hc. split.
  - destruct (writeFile_trace_crash _ _ _ _ _ _ Hold eq_refl Hd d' Hc) as [H|H]; [left|right];
      unfold loadState, readFile; simpl; rewrite H; simpl; [by destruct old|by destruct n].
  - intros Hf. by apply writeFile_fail.
Qed.

Lemma persist_crash_atomic_witness :
  let n := set_currentTerm 2 (persist (set_currentTerm 1 exampleNode)) in
  let d := files (disk n) in
  let n' := (loadState (NewRaftNode exampleConfig (mkDisk d []))).1 in
  (persistedState n' = mkPersistedState 1 "" (entries newLog) \/ persistedState n' = persistedState n) /\
  (next_fault (disk n) <> NoFault -> files (disk (persist n)) !! statePath = files (disk n) !! statePath).
Proof.
  cbv zeta. eapply persist_crash_atomic; [reflexivity|left|].
  intros name. set (f := files _ !! name). destruct f; [done|done].
Defined.

(** With the bounds in order, an election timeout lies in the configured
    interval, for every random number; with the bounds out of order (both set,
    the maximum not above the minimum) the call panics. *)
Lemma randomElectionTimeout_range (n : RaftNode) (r : Z) :
  let lo := cfg_ElectionTimeoutMinMs (config n) in
  let hi := cfg_ElectionTimeoutMaxMs (config n) in
  0 <= lo < 9000000000000 -> 0 <= hi < 9000000000000 ->
  match randomElectionTimeout n r with
  | Some d => lo * Millisecond <= d < hi * Millisecond /\ lo < hi
  | None => hi <= lo
  end.
Proof.
  cbv zeta. intros Hlo Hhi. unfold randomElectionTimeout, durationMs, Millisecond.
  set (lo := cfg_ElectionTimeoutMinMs (config n)) in *. set (hi := cfg_ElectionTimeoutMaxMs (config n)) in *.
  rewrite (i64_small (hi - lo)) by lia. destruct (hi - lo <=? 0) eqn:Hs; [lia|].
  pose proof (Z.mod_pos_bound r (hi - lo) ltac:(lia)) as Hr.
  set (x := r mod (hi - lo)) in *. clearbody x.
  rewrite (i64_small (lo + x)) by lia. rewrite i64_small by lia. lia.
Qed.
