(* ===== verification/Election.v ===== *)
(** * Elections (raft/election.go)

    Pre-votes, votes and the vote count.  [startPreVote] and [startElection]
    release the mutex while their RPCs are in flight, so each is split into the
    part that builds the request and the part that processes one reply. *)

From S2P Require Import Prelude RaftLog Rpc Disk Node.

(** ** Requests *)

Definition startPreVote_args (n : RaftNode) : RequestVoteArgs :=
  mkRequestVoteArgs (currentTerm n ⊕ 1) (nid n)
    (log_lastIndex (rlog n)) (log_lastTerm (rlog n)) true.

(** The receive loop: [replies] are the outcomes in the order the channel
    delivers them, [None] for an RPC that failed. *)
Fixpoint preVote_loop (majority : nat) (votes : nat) (replies : list (option RequestVoteReply))
  : bool :=
  match replies with
  | [] => false
  | r :: rest =>
      if match r with Some reply => rvr_VoteGranted reply | None => false end
      then if (majority <=? S votes)%nat then true else preVote_loop majority (S votes) rest
      else preVote_loop majority votes rest
  end.

(** [peers] is the copy taken under the lock; the channel delivers one result
    per peer. *)
Definition startPreVote (peers : list string) (replies : list (option RequestVoteReply)) : bool :=
  if bool_decide (peers = []) then false
  else preVote_loop (majority (length peers)) 1 (take (length peers) replies).

(** The variables the reply goroutines of one [startElection] share. *)
Record Election := mkElection {
  el_term : Z;
  el_args : RequestVoteArgs;
  el_peers : list string;
  el_votes : nat;
  el_majority : nat
}.

Definition set_el_votes (v : nat) (e : Election) : Election :=
  mkElection (el_term e) (el_args e) (el_peers e) v (el_majority e).

Definition startElection_begin (n : RaftNode) : Election :=
  let term := currentTerm n in
  let args := mkRequestVoteArgs term (nid n)
                (log_lastIndex (rlog n)) (log_lastTerm (rlog n)) false in
  mkElection term args (peers n) 1 (majority (length (peers n))).

(** What the goroutine of one peer does with the reply it got. *)
Definition startElection_reply (now : Z) (e : Election) (n : RaftNode) (reply : RequestVoteReply)
  : Election * RaftNode :=
  if rvr_Term reply >? currentTerm n then (e, becomeFollower (rvr_Term reply) n)
  else if negb (NodeState_eqb (state n) Candidate) || negb (currentTerm n =? el_term e) then (e, n)
  else if negb (rvr_VoteGranted reply) then (e, n)
  else
    let e := set_el_votes (S (el_votes e)) e in
    if (el_majority e <=? el_votes e)%nat then (e, becomeLeader now n) else (e, n).

(** ** The vote handler *)

Definition candidateUpToDate (n : RaftNode) (args : RequestVoteArgs) : bool :=
  (rv_LastLogTerm args >? log_lastTerm (rlog n)) ||
  ((rv_LastLogTerm args =? log_lastTerm (rlog n)) &&
   (rv_LastLogIndex args >=? log_lastIndex (rlog n))).

Definition HandleRequestVote (now : Z) (n : RaftNode) (args : RequestVoteArgs)
  : RaftNode * RequestVoteReply :=
  if rv_IsPreVote args then
    let threshold := durationMs (cfg_ElectionTimeoutMinMs (config n)) in
    if time_Sub now (lastLeaderContact n) <? threshold
    then (n, mkRequestVoteReply (currentTerm n) false)
    else (n, mkRequestVoteReply (currentTerm n) (candidateUpToDate n args))
  else
    let n := if rv_Term args >? currentTerm n then becomeFollower (rv_Term args) n else n in
    if rv_Term args <? currentTerm n then (n, mkRequestVoteReply (currentTerm n) false)
    else
      let canVote := String.eqb (votedFor n) "" || String.eqb (votedFor n) (rv_CandidateID args) in
      if canVote && candidateUpToDate n args then
        let reply := mkRequestVoteReply (currentTerm n) true in
        let n := set_votedFor (rv_CandidateID args) n in
        let n := persist n in
        (notifyHeartbeat n, reply)
      else (n, mkRequestVoteReply (currentTerm n) false).

(** ** The abstract rule

    The vote rule of the Raft paper (§5.2, §5.4.1), on the few values it reads:
    the current term, the vote cast in it and the end of the log. *)

Definition vote_rule (term : Z) (vote : string) (lastTerm lastIndex : Z) (args : RequestVoteArgs)
  : bool :=
  bool_decide (term <= rv_Term args /\
    (rv_Term args = term -> vote = "" \/ vote = rv_CandidateID args) /\
    (lastTerm < rv_LastLogTerm args \/
     rv_LastLogTerm args = lastTerm /\ lastIndex <= rv_LastLogIndex args)).

Lemma candidateUpToDate_true n args :
  candidateUpToDate n args = true <->
  log_lastTerm (rlog n) < rv_LastLogTerm args \/
  rv_LastLogTerm args = log_lastTerm (rlog n) /\ log_lastIndex (rlog n) <= rv_LastLogIndex args.
Proof. unfold candidateUpToDate. lia. Qed.

Lemma canVote_true v c :
  String.eqb v "" || String.eqb v c = true <-> v = "" \/ v = c.
Proof. by rewrite orb_true_iff, !String.eqb_eq. Qed.

Lemma becomeFollower_fields t n :
  rlog (becomeFollower t n) = rlog n /\ currentTerm (becomeFollower t n) = t /\
  votedFor (becomeFollower t n) = "" /\ state (becomeFollower t n) = Follower /\
  nid (becomeFollower t n) = nid n /\ peers (becomeFollower t n) = peers n /\
  config (becomeFollower t n) = config n /\ commitIndex (becomeFollower t n) = commitIndex n /\
  lastApplied (becomeFollower t n) = lastApplied n.
Proof. done. Qed.

(** The reply of the real-vote path is the abstract rule's. *)
Lemma HandleRequestVote_reply now n args :
  rv_IsPreVote args = false ->
  rvr_VoteGranted (HandleRequestVote now n args).2 =
  vote_rule (currentTerm n) (votedFor n) (log_lastTerm (rlog n)) (log_lastIndex (rlog n)) args.
Proof.
  intros Hp. unfold HandleRequestVote, vote_rule. rewrite Hp.
  destruct (rv_Term args >? currentTerm n) eqn:Hgt.
  - node_unfold. rewrite Z.ltb_irrefl. simpl. unfold candidateUpToDate; node_simpl.
    case_match eqn:Hc; simpl; symmetry; [apply bool_decide_eq_true|apply bool_decide_eq_false];
      [split_and!; [lia|intros ?; lia|lia]|intros (? & ? & ?); lia].
  - destruct (rv_Term args <? currentTerm n) eqn:Hlt; simpl.
    + symmetry. apply bool_decide_eq_false. lia.
    + case_match eqn:Hc; simpl; symmetry.
      * apply andb_true_iff in Hc as [Hv%canVote_true Hu%candidateUpToDate_true].
        apply bool_decide_eq_true. split_and!; [lia|done|done].
      * apply bool_decide_eq_false. intros (? & Hv & Hu). apply candidateUpToDate_true in Hu.
        rewrite Hu, andb_true_r in Hc. apply not_true_iff_false in Hc. apply Hc, canVote_true, Hv. lia.
Qed.

(** The state after a granted vote. *)
Lemma HandleRequestVote_granted now n args :
  rv_IsPreVote args = false ->
  rvr_VoteGranted (HandleRequestVote now n args).2 = true ->
  let n' := (HandleRequestVote now n args).1 in
  currentTerm n' = rv_Term args /\ votedFor n' = rv_CandidateID args /\
  rvr_Term (HandleRequestVote now n args).2 = rv_Term args /\
  (disk_ok n -> durable n' /\ disk_ok n').
Proof.
  intros Hp Hg. unfold HandleRequestVote in *. rewrite Hp in *.
  set (m := if rv_Term args >? currentTerm n then becomeFollower (rv_Term args) n else n) in *.
  assert (Hok : disk_ok n -> disk_ok m) by (subst m; destruct (_ >? _); [apply becomeFollower_disk_ok|done]).
  assert (Hle : rv_Term args <= currentTerm m) by (subst m; case_match; node_unfold; lia).
  clearbody m. destruct (rv_Term args <? currentTerm m) eqn:Hlt; [done|].
  case_match; [|done]. split_and!; [node_unfold; lia|done|simpl; lia|].
  intros H0%Hok. split; [|by apply (persist_disk_ok (set_votedFor _ _))].
  apply (persist_durable (set_votedFor (rv_CandidateID args) m)). done.
Qed.

(** ** Properties *)

(** C16. A vote request is decided by the rule of the Raft paper and nothing
    else: granted exactly when the term is not stale, the vote of that term is
    still free or already the candidate's, and the candidate's log is at least
    as up to date.  A granted vote is in the state and, on a disk without faults,
    in the state file before the reply leaves; a refused one changes at most the term, dropping to follower. *)
Theorem HandleRequestVote_correct (now : Z) (n : RaftNode) (args : RequestVoteArgs) :
  rv_IsPreVote args = false -> disk_ok n ->
  let n' := (HandleRequestVote now n args).1 in
  let reply := (HandleRequestVote now n args).2 in
  rvr_VoteGranted reply =
    vote_rule (currentTerm n) (votedFor n) (log_lastTerm (rlog n)) (log_lastIndex (rlog n)) args /\
  rvr_Term reply = currentTerm n' /\ currentTerm n' = Z.max (currentTerm n) (rv_Term args) /\
  rlog n' = rlog n /\ commitIndex n' = commitIndex n /\
  (rvr_VoteGranted reply = true ->
     votedFor n' = rv_CandidateID args /\ durable n' /\ heartbeatC n' = true) /\
  (rvr_VoteGranted reply = false ->
     n' = if currentTerm n <? rv_Term args then becomeFollower (rv_Term args) n else n).
Proof.
  intros Hp Hd. cbv zeta. split; [by apply HandleRequestVote_reply|].
  pose proof (HandleRequestVote_granted now n args Hp) as Hg. unfold HandleRequestVote in *. rewrite Hp in *.
  rewrite (Z.gtb_ltb (rv_Term args)) in *.
  assert (Hm : let m := if currentTerm n <? rv_Term args then becomeFollower (rv_Term args) n else n in
    currentTerm m = Z.max (currentTerm n) (rv_Term args) /\ rlog m = rlog n /\ commitIndex m = commitIndex n).
  { cbv zeta. destruct (currentTerm n <? rv_Term args) eqn:Hb; [split_and!; [node_unfold; lia|done|done]|split_and!; [lia|done|done]]. }
  set (m := if currentTerm n <? rv_Term args then _ else n) in *. clearbody m. simpl in Hm.
  destruct Hm as (HT & Hl & Hc).
  destruct (rv_Term args <? currentTerm m) eqn:Hlt; [split_and!; done|].
  destruct (_ && _); simpl in *; [|split_and!; done].
  split_and!; try done. intros _. specialize (Hg eq_refl) as (? & ? & ? & Hd'). split_and!; [done|by apply Hd'|done].
Qed.

Lemma HandleRequestVote_correct_witness :
  rvr_VoteGranted (HandleRequestVote 0 exampleNode (mkRequestVoteArgs 1 "b" 0 0 false)).2 =
  vote_rule 0 "" 0 0 (mkRequestVoteArgs 1 "b" 0 0 false).
Proof.
  exact (proj1 (HandleRequestVote_correct 0 exampleNode (mkRequestVoteArgs 1 "b" 0 0 false) eq_refl
    (Forall_nil_2 _))).
Defined.

(** A pre-vote has no effect on the node that answers it: no term is
    adopted, no vote spent, no timer reset, nothing written; it is granted
    exactly when no leader was heard of within the minimum election timeout and
    the candidate's log is at least as up to date. *)
Theorem preVote_no_effect (now : Z) (n : RaftNode) (args : RequestVoteArgs) :
  rv_IsPreVote args = true ->
  HandleRequestVote now n args =
  (n, mkRequestVoteReply (currentTerm n)
        (bool_decide (durationMs (cfg_ElectionTimeoutMinMs (config n)) <= time_Sub now (lastLeaderContact n) /\
          (log_lastTerm (rlog n) < rv_LastLogTerm args \/
           rv_LastLogTerm args = log_lastTerm (rlog n) /\ log_lastIndex (rlog n) <= rv_LastLogIndex args)))).
Proof.
  intros Hp. unfold HandleRequestVote. rewrite Hp. case_match eqn:Hc; do 2 f_equal.
  - symmetry. apply bool_decide_eq_false. lia.
  - apply eq_bool_prop_intro. rewrite bool_decide_spec. rewrite Is_true_true, candidateUpToDate_true. lia.
Qed.

Lemma preVote_no_effect_witness :
  (HandleRequestVote 5 exampleNode (mkRequestVoteArgs 1 "b" 0 0 true)).1 = exampleNode.
Proof. rewrite (preVote_no_effect 5 exampleNode (mkRequestVoteArgs 1 "b" 0 0 true)); reflexivity. Defined.

(** Granted replies among the results of a round of pre-votes. *)
Definition grants (replies : list (option RequestVoteReply)) : nat :=
  length (List.filter (λ r, match r with Some reply => rvr_VoteGranted reply | None => false end) replies).

Lemma preVote_loop_spec m votes replies :
  (votes < m)%nat -> preVote_loop m votes replies = (m <=? votes + grants replies)%nat.
Proof.
  revert votes. induction replies as [|r rs IH]; intros votes Hv; cbn [preVote_loop grants].
  - unfold grants. simpl. symmetry. apply Nat.leb_gt. lia.
  - unfold grants in *. cbn [List.filter].
    set (g := match r with Some reply => rvr_VoteGranted reply | None => false end).
    destruct g; cbn [length].
    + destruct (m <=? S votes)%nat eqn:Hm; [symmetry; apply Nat.leb_le in Hm; apply Nat.leb_le; lia|].
      apply Nat.leb_gt in Hm. rewrite IH by lia. f_equal. lia.
    + by apply IH.
Qed.

(** A round of pre-votes succeeds exactly when the grants of the peers and
    the node's own vote reach a majority of the cluster, whatever the order in
    which the replies arrive and however many RPCs fail. *)
Theorem startPreVote_majority (ps : list string) (replies replies' : list (option RequestVoteReply)) :
  ps <> [] -> length replies = length ps -> replies' ≡ₚ replies ->
  startPreVote ps replies' = bool_decide (length ps + 1 < 2 * (1 + grants replies))%nat.
Proof.
  intros Hps Hlen Hperm. unfold startPreVote. rewrite bool_decide_eq_false_2 by done.
  rewrite take_ge by (rewrite Hperm; lia).
  assert (Hn : (0 < length ps)%nat) by (destruct ps; simpl; [done|lia]).
  destruct (majority_spec (length ps)) as [Hm1 Hm2].
  assert (Hm3 : (2 * majority (length ps) <= length ps + 3)%nat).
  { unfold majority. pose proof (Nat.div_mod_eq (length ps + 1) 2). lia. }
  rewrite preVote_loop_spec by lia. replace (grants replies') with (grants replies).
  - apply eq_bool_prop_intro. rewrite bool_decide_spec, Is_true_true, Nat.leb_le. lia.
  - unfold grants. symmetry. apply Permutation_length. apply Permutation_filter_bool. done.
Qed.

Lemma startPreVote_majority_witness :
  startPreVote ["b"; "c"] [Some (mkRequestVoteReply 1 true); None] =
  bool_decide (2 + 1 < 2 * (1 + grants [None; Some (mkRequestVoteReply 1 true)]))%nat.
Proof. apply startPreVote_majority; [done|done|apply Permutation_swap]. Defined.

(** The replies of one election, processed in the order given. *)
Definition run_election (now : Z) (n : RaftNode) (replies : list RequestVoteReply) : Election * RaftNode :=
  foldl (λ '(e, n) reply, startElection_reply now e n reply) (startElection_begin n, n) replies.

Lemma run_election_spec now replies : forall e n,
  state n = Candidate -> currentTerm n = el_term e -> (el_votes e < el_majority e)%nat ->
  Forall (λ r, rvr_Term r <= currentTerm n) replies ->
  (foldl (λ '(e, n) reply, startElection_reply now e n reply) (e, n) replies).2 =
  if (el_majority e <=? el_votes e + grants (map Some replies))%nat then becomeLeader now n else n.
Proof.
  assert (Hlead : forall rs e n, state n = Leader -> Forall (λ r, rvr_Term r <= currentTerm n) rs ->
    (foldl (λ '(e, n) reply, startElection_reply now e n reply) (e, n) rs).2 = n).
  { induction rs as [|r rs IH]; intros e n Hs Hall; [done|]. inversion Hall; subst. simpl.
    unfold startElection_reply at 2. replace (rvr_Term r >? currentTerm n) with false by lia.
    rewrite Hs. simpl. by apply IH. }
  induction replies as [|r rs IH]; intros e n Hs HT Hv Hall.
  - simpl. unfold grants. simpl. by rewrite (proj2 (Nat.leb_gt _ _)) by lia.
  - inversion Hall; subst. simpl. unfold startElection_reply at 2.
    replace (rvr_Term r >? currentTerm n) with false by lia.
    rewrite Hs, HT, Z.eqb_refl. simpl. unfold grants. cbn [map List.filter].
    destruct (rvr_VoteGranted r); simpl; [|by apply IH].
    destruct (becomeLeader_fields now n) as (F1 & _ & _ & _ & F5 & _).
    case_match eqn:Hm.
    + apply Nat.leb_le in Hm. rewrite (proj2 (Nat.leb_le _ _)) by lia. apply Hlead; [done|by rewrite F5].
    + apply Nat.leb_gt in Hm. rewrite (IH (set_el_votes (S (el_votes e)) e)); try done.
      simpl. unfold grants. by rewrite Nat.add_succ_r.
Qed.

(** A candidate that receives its replies without meeting a higher term
    becomes leader exactly when a majority of the cluster, itself included, has
    granted its vote; it then starts from a fresh view of every peer. *)
Theorem election_won_iff_majority (now : Z) (n : RaftNode) (replies : list RequestVoteReply) :
  state n = Candidate -> peers n <> [] ->
  Forall (λ r, rvr_Term r <= currentTerm n) replies ->
  let n' := (run_election now n replies).2 in
  (state n' = Leader <-> (length (peers n) + 1 < 2 * (1 + grants (map Some replies)))%nat) /\
  currentTerm n' = currentTerm n /\ votedFor n' = votedFor n /\
  (state n' = Leader -> leaderID n' = nid n /\ forall p, p ∈ peers n ->
     mget (nextIndex n') p = log_lastIndex (rlog n) ⊕ 1 /\ mget (matchIndex n') p = 0).
Proof.
  intros Hs Hps Hall. cbv zeta. unfold run_election.
  assert (Hn : (0 < length (peers n))%nat) by (destruct (peers n); simpl; [done|lia]).
  destruct (majority_spec (length (peers n))) as [Hm1 Hm2].
  assert (Hm3 : (2 * majority (length (peers n)) <= length (peers n) + 3)%nat).
  { unfold majority. pose proof (Nat.div_mod_eq (length (peers n) + 1) 2). lia. }
  rewrite run_election_spec; [|done|done|simpl; lia|done]. cbn [el_majority el_votes startElection_begin].
  destruct (becomeLeader_fields now n) as (F1 & F2 & _ & _ & F5 & F6 & _).
  case_match eqn:Hc.
  - apply Nat.leb_le in Hc. split_and!; [split; [lia|done]|done|done|]. intros _. split; [done|].
    intros p Hp. by destruct (becomeLeader_tracking now n p Hp) as (? & ? & _).
  - apply Nat.leb_gt in Hc. rewrite Hs. split_and!; [split; [done|lia]|done|done|done].
Qed.

Lemma election_won_iff_majority_witness :
  let n := becomeCandidate exampleNode in
  state (run_election 7 n [mkRequestVoteReply 1 true]).2 = Leader <->
  (length (peers n) + 1 < 2 * (1 + grants (map Some [mkRequestVoteReply 1 true])))%nat.
Proof.
  refine (proj1 (election_won_iff_majority 7 (becomeCandidate exampleNode) [mkRequestVoteReply 1 true] _ _ _));
    [done|done|by repeat constructor].
Defined.
