(* ===== verification/Replication.v ===== *)
(** * Log replication (raft/replication.go, buildSnapshotArgsLocked of raft/snapshot.go)

    Building AppendEntries messages, processing their replies, advancing the
    commit index, and the follower's handler. *)

From S2P Require Import Prelude RaftLog Rpc Disk Node.

(** ** Messages of the leader *)

Definition buildArgsLocked (n : RaftNode) (peer : string) : AppendEntriesArgs :=
  let nextIdx := mget (nextIndex n) peer in
  let prevIdx := nextIdx ⊖ 1 in
  let prevTerm := le_Term (log_get (rlog n) prevIdx) in
  let es := log_slice (rlog n) nextIdx (log_lastIndex (rlog n) ⊕ 1) in
  mkAppendEntriesArgs (currentTerm n) (nid n) prevIdx prevTerm es (commitIndex n).

Definition buildSnapshotArgsLocked (n : RaftNode) : InstallSnapshotArgs :=
  mkInstallSnapshotArgs (currentTerm n) (nid n)
    (log_snapshotIndex (rlog n)) (log_snapshotTerm (rlog n)) (snapshotData n).

(** The goroutines the methods of a node start. *)
Inductive Goroutine :=
  | GoSendToPeer (peer : string) (term : Z) (args : AppendEntriesArgs)
  | GoSendSnapshotToPeer (peer : string) (term : Z) (args : InstallSnapshotArgs).

#[export] Instance Goroutine_eq_dec : EqDecision Goroutine.
Proof. solve_decision. Defined.

(** One iteration of the replication loops of [Submit], [submitConfigLocked]
    and [sendHeartbeats]: a snapshot for a peer whose next entry is compacted
    away, entries otherwise. *)
Definition dispatch (n : RaftNode) (term : Z) (peer : string) : Goroutine :=
  if mget (nextIndex n) peer <=? log_snapshotIndex (rlog n)
  then GoSendSnapshotToPeer peer term (buildSnapshotArgsLocked n)
  else GoSendToPeer peer term (buildArgsLocked n peer).

Definition sendHeartbeats (n : RaftNode) : RaftNode * list Goroutine :=
  let term := currentTerm n in
  let msgs := map (dispatch n term) (peers n) in
  (set_heartbeatsSent (heartbeatsSent n ⊕ 1) n, msgs).

(** ** Commitment *)

(** [sort.Slice] with the order [>]. *)
Definition geZ (a b : Z) : Prop := b <= a.

#[export] Instance geZ_dec a b : Decision (geZ a b).
Proof. unfold geZ. apply _. Defined.

Definition sortDescending (l : list Z) : list Z := merge_sort geZ l.

(** [indices[majority-1]] of the sorted slice. *)
Definition quorumIndex (n : RaftNode) : Z :=
  let indices := sortDescending (log_lastIndex (rlog n) :: map (mget (matchIndex n)) (peers n)) in
  default 0 (indices !! (majority (length (peers n)) - 1)%nat).

Definition maybeCommit (n : RaftNode) : RaftNode :=
  let quorumIdx := quorumIndex n in
  if (quorumIdx >? commitIndex n) && (le_Term (log_get (rlog n) quorumIdx) =? currentTerm n)
  then notifyCommit (set_commitIndex quorumIdx n)
  else n.

(** ** Replies *)

(** The loop [for i := n.log.lastIndex(); i >= 1; i--]: the last index whose
    entry has term [t], 0 if there is none. *)
Fixpoint lastIndexOfTerm (l : Log) (t : Z) (i : nat) : Z :=
  match i with
  | O => 0
  | S i' => if le_Term (log_get l (Z.of_nat i)) =? t then Z.of_nat i else lastIndexOfTerm l t i'
  end.

Definition nextIndexAfterConflict (n : RaftNode) (reply : AppendEntriesReply) : Z :=
  let next :=
    if aer_ConflictTerm reply =? 0 then aer_ConflictIndex reply
    else
      let found := lastIndexOfTerm (rlog n) (aer_ConflictTerm reply)
                     (Z.to_nat (log_lastIndex (rlog n))) in
      if found >? 0 then found ⊕ 1 else aer_ConflictIndex reply in
  if next <? 1 then 1 else next.

(** [sendToPeer] once the RPC has returned [reply]. *)
Definition sendToPeer_reply (now : Z) (n : RaftNode) (peer : string) (term : Z)
    (args : AppendEntriesArgs) (reply : AppendEntriesReply) : RaftNode :=
  if aer_Term reply >? currentTerm n then becomeFollower (aer_Term reply) n
  else if negb (NodeState_eqb (state n) Leader) || negb (currentTerm n =? term) then n
  else
    let n := set_lastHeardFrom (<[peer := now]> (lastHeardFrom n)) n in
    if aer_Success reply then
      let newMatch := ae_PrevLogIndex args ⊕ lenZ (ae_Entries args) in
      let n := if newMatch >? mget (matchIndex n) peer
               then set_matchIndex (<[peer := newMatch]> (matchIndex n)) n else n in
      let n := set_nextIndex (<[peer := mget (matchIndex n) peer ⊕ 1]> (nextIndex n)) n in
      maybeCommit n
    else
      set_nextIndex (<[peer := nextIndexAfterConflict n reply]> (nextIndex n)) n.

(** ** The follower's handler *)

(** The loop over [args.Entries]; its argument is [args.Entries[i:]]. *)
Fixpoint appendLoop (l : Log) (es : list LogEntry) : Log :=
  match es with
  | [] => l
  | entry :: rest =>
      if le_Index entry <=? log_snapshotIndex l then appendLoop l rest
      else
        let existing := log_get l (le_Index entry) in
        if le_Term existing =? 0 then log_append l es
        else if negb (le_Term existing =? le_Term entry)
             then log_append (log_truncateFrom l (le_Index entry)) es
             else appendLoop l rest
  end.

(** The log consistency check: the rejection it sends, if any. *)
Definition consistencyCheck (n : RaftNode) (args : AppendEntriesArgs) : option AppendEntriesReply :=
  if ae_PrevLogIndex args >? 0 then
    let prev := log_get (rlog n) (ae_PrevLogIndex args) in
    if le_Term prev =? 0
    then Some (mkAppendEntriesReply (currentTerm n) false 0 (log_lastIndex (rlog n) ⊕ 1))
    else if negb (le_Term prev =? ae_PrevLogTerm args)
    then Some (mkAppendEntriesReply (currentTerm n) false (le_Term prev)
                 (log_firstIndexForTerm (rlog n) (le_Term prev)))
    else None
  else None.

(** The part of the handler after the consistency check. *)
Definition acceptEntries (n : RaftNode) (args : AppendEntriesArgs) : RaftNode * AppendEntriesReply :=
  let reply := mkAppendEntriesReply (currentTerm n) true 0 0 in
  let n := set_rlog (appendLoop (rlog n) (ae_Entries args)) n in
  let n :=
    if ae_LeaderCommit args >? commitIndex n then
      let last := log_lastIndex (rlog n) in
      notifyCommit (set_commitIndex
        (if ae_LeaderCommit args <? last then ae_LeaderCommit args else last) n)
    else n in
  let n := persist n in
  let n := if bool_decide (ae_Entries args = [])
           then set_heartbeatsRecv (heartbeatsRecv n ⊕ 1) n else n in
  (n, reply).

Definition HandleAppendEntries (now : Z) (n : RaftNode) (args : AppendEntriesArgs)
  : RaftNode * AppendEntriesReply :=
  let n :=
    if ae_Term args >? currentTerm n then becomeFollower (ae_Term args) n
    else if (ae_Term args =? currentTerm n) && NodeState_eqb (state n) Candidate
         then set_state Follower n
         else n in
  if ae_Term args <? currentTerm n
  then (n, mkAppendEntriesReply (currentTerm n) false 0 0)
  else
    let n := set_leaderID (ae_LeaderID args) n in
    let n := set_lastLeaderContact now n in
    let n := notifyHeartbeat n in
    match consistencyCheck n args with
    | Some reply => (n, reply)
    | None => acceptEntries n args
    end.

(** ** The append loop against the paper's rule

    Raft Figure 2, AppendEntries receiver steps 3 and 4, on the part of the
    log after [PrevLogIndex]: keep what agrees, from the first conflict or the
    end of the log on take the leader's entries. *)
Fixpoint merge_entries (old new : list LogEntry) : list LogEntry :=
  match old, new with
  | _, [] => old
  | [], _ => new
  | o :: old', e :: new' =>
      if le_Term o =? le_Term e then o :: merge_entries old' new' else new
  end.

Lemma merge_nil_l new : merge_entries [] new = new.
Proof. by destruct new. Qed.

Lemma merge_nil_r old : merge_entries old [] = old.
Proof. by destruct old. Qed.

Lemma merge_length old new : (length new <= length (merge_entries old new))%nat.
Proof.
  revert new. induction old as [|o old IH]; intros [|e new]; simpl; try lia.
  case_match; simpl; [|lia]. pose proof (IH new). lia.
Qed.

Lemma merge_length_le old new :
  (length (merge_entries old new) <= Nat.max (length old) (length new))%nat.
Proof.
  revert new. induction old as [|o old IH]; intros [|e new]; simpl; try lia.
  case_match; simpl; [|lia]. pose proof (IH new). lia.
Qed.

(** Every entry of the leader is in the result, up to its command: with its
    index and term. *)
Lemma merge_lookup old new k e :
  new !! k = Some e -> exists e', merge_entries old new !! k = Some e' /\ le_Term e' = le_Term e /\
    (e' = e \/ old !! k = Some e').
Proof.
  revert new k. induction old as [|o old IH]; intros [|x new] k Hk; [done|by exists e; auto|done|].
  simpl. case_match eqn:Ht.
  - destruct k as [|k]; simpl in *; [|by apply IH].
    simplify_eq. exists o. split_and!; [done|lia|by right].
  - exists e. auto.
Qed.

(** Nothing that agrees with the leader is dropped. *)
Lemma merge_keep old new k o :
  old !! k = Some o ->
  (forall j e o', (j <= k)%nat -> old !! j = Some o' -> new !! j = Some e -> le_Term o' = le_Term e) ->
  merge_entries old new !! k = Some o.
Proof.
  revert new k. induction old as [|x old IH]; intros [|e new] k Hk Hall; [done|done|done|].
  simpl. rewrite (proj2 (Z.eqb_eq _ _)); [|by apply (Hall 0%nat); [lia|..]].
  destruct k as [|k]; [done|]. simpl in *. apply IH; [done|].
  intros j e' o' Hj H1 H2. apply (Hall (S j)); [lia|done|done].
Qed.

Lemma merge_contiguous i old new :
  contiguous i old -> contiguous i new -> contiguous i (merge_entries old new).
Proof.
  revert i new. induction old as [|o old IH]; intros i [|e new]; simpl; try done.
  intros [? ?] [? ?]. case_match; simpl; [|done]. split; [done|]. by apply IH.
Qed.

Lemma merge_Forall (P : LogEntry -> Prop) old new :
  Forall P old -> Forall P new -> Forall P (merge_entries old new).
Proof.
  revert new. induction old as [|o old IH]; intros [|e new]; simpl; try done.
  intros Ho He. inversion Ho; subst. inversion He; subst. case_match; [|done].
  constructor; [done|]. by apply IH.
Qed.

(** Merging twice changes nothing more: the handler is idempotent. *)
Lemma merge_idemp old new :
  merge_entries (merge_entries old new) new = merge_entries old new.
Proof.
  revert new. induction old as [|o old IH]; intros new.
  - rewrite merge_nil_l. induction new as [|e new IHn]; [done|]. simpl. by rewrite Z.eqb_refl, IHn.
  - destruct new as [|e new]; [done|]. simpl. case_match eqn:Ht.
    + simpl. by rewrite Ht, IH.
    + simpl. rewrite Z.eqb_refl. f_equal. clear. induction new as [|e new IHn]; [done|].
      simpl. by rewrite Z.eqb_refl, IHn.
Qed.

(** The loop skips what lies below the snapshot boundary. *)
Lemma appendLoop_skip l es i :
  contiguous i es -> i + lenZ es - 1 <= log_snapshotIndex l -> appendLoop l es = l.
Proof.
  revert i. induction es as [|e es IH]; intros i; [done|]. rewrite lenZ_cons. simpl. intros [He Hc] Hb.
  pose proof (lenZ_nonneg es). rewrite (proj2 (Z.leb_le _ _)) by lia. apply (IH (i + 1)); [done|lia].
Qed.

Lemma appendLoop_skip_prefix l es fs i :
  contiguous i es -> i + lenZ es - 1 <= log_snapshotIndex l ->
  appendLoop l (es ++ fs) = appendLoop l fs.
Proof.
  revert i. induction es as [|e es IH]; intros i; [done|]. rewrite lenZ_cons. simpl. intros [He Hc] Hb.
  pose proof (lenZ_nonneg es). rewrite (proj2 (Z.leb_le _ _)) by lia. apply (IH (i + 1)); [done|lia].
Qed.

(** Above the boundary the loop is the paper's rule, applied to the entries
    after the last one that precedes the batch ([p]). *)
Lemma appendLoop_merge l es p :
  log_wf l -> log_snapshotIndex l <= p <= log_lastIndex l ->
  contiguous (p + 1) es -> Forall entry_ok es -> p + lenZ es < u64_size ->
  let k := Z.to_nat (p + 1 - log_snapshotIndex l) in
  entries (appendLoop l es) = take k (entries l) ++ merge_entries (drop k (entries l)) es.
Proof.
  intros H Hp Hc Hok Hb. revert p Hp Hc Hb. pose proof (wf_snapshotIndex l H).
  pose proof (wf_lastIndex l H) as Hli.
  induction es as [|e es IH]; intros p Hp Hc Hb k; subst k; simpl.
  { by rewrite merge_nil_r, take_drop. }
  rewrite lenZ_cons in Hb. simpl in Hc. destruct Hc as [He Hc]. inversion Hok as [|?? Hoke Hoks]; subst.
  pose proof (lenZ_nonneg es).
  assert (Hu : is_u64 (p + 1)) by (unfold is_u64; lia).
  rewrite He, (proj2 (Z.leb_gt _ _)) by lia.
  set (k := Z.to_nat (p + 1 - log_snapshotIndex l)).
  assert (Hv : log_view l !! (p + 1) = entries l !! k).
  { rewrite view_lookup, decide_True by lia. done. }
  assert (Hz := get_term_zero l H (p + 1) Hu ltac:(lia)). rewrite get_view in * by done. rewrite Hv in *.
  destruct (entries l !! k) as [o|] eqn:Ho; simpl in *.
  - rewrite (proj2 (Z.eqb_neq _ _)) by (intros Hz0; by apply Hz in Hz0).
    rewrite (drop_S _ _ _ Ho). simpl.
    destruct (le_Term o =? le_Term e) eqn:Ht; simpl.
    + assert (Hp1 : log_snapshotIndex l <= p + 1 <= log_lastIndex l).
      { apply lookup_lt_Some in Ho. unfold lenZ in *. lia. }
      rewrite (IH Hoks (p + 1) Hp1 Hc ltac:(lia)).
      replace (Z.to_nat (p + 1 + 1 - log_snapshotIndex l)) with (S k) by lia.
      rewrite (take_S_r _ _ _ Ho), <- app_assoc. done.
    + rewrite truncate_entries by (done || lia). done.
  -
    apply lookup_ge_None in Ho. rewrite take_ge, drop_ge, merge_nil_l by lia. done.
Qed.

(** ** Well-formed batches *)

(** What the handler relies on in a batch: contiguous entries after
    [PrevLogIndex], real terms, indices in range. *)
Record ae_wf (args : AppendEntriesArgs) : Prop := {
  aw_prev : 0 <= ae_PrevLogIndex args;
  aw_contig : contiguous (ae_PrevLogIndex args + 1) (ae_Entries args);
  aw_terms : Forall entry_ok (ae_Entries args);
  aw_bound : ae_PrevLogIndex args + lenZ (ae_Entries args) + 1 < u64_size
}.

Section append.
Context (l : Log) (args : AppendEntriesArgs) (Hl : log_wf l) (Ha : ae_wf args).
Context (Hprev : ae_PrevLogIndex args = 0 \/ is_Some (log_view l !! ae_PrevLogIndex args)).

Let prev := ae_PrevLogIndex args.
Let es := ae_Entries args.
Let l' := appendLoop l es.
(** The entries of the batch above the boundary follow index [base]. *)
Let base := Z.max prev (log_snapshotIndex l).
Let es' := drop (Z.to_nat (base - prev)) es.
Let k := Z.to_nat (base + 1 - log_snapshotIndex l).

Lemma base_range : log_snapshotIndex l <= base <= log_lastIndex l.
Proof using All.
  pose proof (wf_lastIndex_range l Hl). pose proof (wf_snapshotIndex l Hl).
  subst base prev. destruct Hprev as [->|Hs]; [lia|]. apply view_is_Some in Hs; [lia|done].
Qed.

Lemma prev_cases : prev = base \/ (prev = 0 /\ base = log_snapshotIndex l).
Proof using All.
  pose proof (wf_snapshotIndex l Hl). pose proof (aw_prev args Ha).
  subst base prev. destruct Hprev as [->|Hs]; [lia|]. apply view_is_Some in Hs; [lia|done].
Qed.

Lemma es'_contiguous : contiguous (base + 1) es'.
Proof using All.
  pose proof prev_cases. pose proof (aw_contig args Ha) as Hc. pose proof (aw_prev args Ha).
  destruct (decide (Z.to_nat (base - prev) <= length es)%nat) as [Hle|Hgt].
  - pose proof (contiguous_drop _ _ _ Hle Hc) as Hd. subst es'. fold es prev in Hd |- *.
    replace (base + 1) with (prev + 1 + Z.of_nat (Z.to_nat (base - prev))); [done|].
    subst base prev. lia.
  - subst es'. by rewrite drop_ge by lia.
Qed.

Lemma appendLoop_entries :
  entries l' = take k (entries l) ++ merge_entries (drop k (entries l)) es'.
Proof using All.
  pose proof prev_cases as Hpc. pose proof base_range. pose proof (aw_contig args Ha) as Hc.
  pose proof (aw_bound args Ha) as Hb. pose proof (aw_prev args Ha).
  assert (Hskip : l' = appendLoop l es').
  { unfold l', es'. destruct Hpc as [Hpb|[Hp0 Hbs]].
    - rewrite <- Hpb, Z.sub_diag. done.
    - rewrite <- (take_drop (Z.to_nat (base - prev)) es) at 1.
      apply (appendLoop_skip_prefix l _ _ (prev + 1)); [by apply contiguous_take|].
      unfold lenZ. rewrite length_take. lia. }
  rewrite Hskip. apply appendLoop_merge; [done|done|apply es'_contiguous| |].
  - apply Forall_drop, Ha.
  - subst es' base prev. fold es in Hb. unfold lenZ in *. rewrite length_drop.
    pose proof (wf_lastIndex_range l Hl). lia.
Qed.

Lemma appendLoop_first : log_first l' = log_first l.
Proof using All.
  pose proof base_range. unfold log_first. rewrite appendLoop_entries.
  destruct (wf_cons l Hl) as (s & ss & -> & _). subst k.
  destruct (Z.to_nat (base + 1 - log_snapshotIndex l)) eqn:Hk; [lia|done].
Qed.

Lemma appendLoop_snapshotIndex : log_snapshotIndex l' = log_snapshotIndex l.
Proof using All. unfold log_snapshotIndex. by rewrite appendLoop_first. Qed.

Lemma k_le : (k <= length (entries l))%nat.
Proof using All.
  pose proof base_range. pose proof (wf_lastIndex l Hl). unfold lenZ in *. subst k. lia.
Qed.

Lemma appendLoop_wf : log_wf l'.
Proof using All.
  pose proof base_range as Hbr. pose proof k_le as Hk. pose proof appendLoop_entries as He.
  pose proof (wf_cons l Hl) as (s & ss & Hs & _).
  assert (Hk0 : exists k', k = S k') by (exists (k - 1)%nat; unfold k; lia).
  split; rewrite ?appendLoop_first, ?appendLoop_snapshotIndex.
  - rewrite He, Hs. by destruct Hk0 as [k' ->].
  - apply Hl.
  - rewrite He. apply contiguous_app. split; [apply contiguous_take, Hl|].
    unfold lenZ. rewrite length_take, Nat.min_l by done. apply merge_contiguous.
    + apply contiguous_drop, Hl. done.
    + replace (log_snapshotIndex l + Z.of_nat k) with (base + 1) by (subst k; lia).
      apply es'_contiguous.
  - rewrite He, Hs. destruct Hk0 as [k' ->]. simpl. pose proof (wf_terms l Hl) as Ht.
    rewrite Hs in Ht. simpl in Ht. apply Forall_app. split; [by apply Forall_take|].
    apply merge_Forall; [by apply Forall_drop|apply Forall_drop, Ha].
  - rewrite He. pose proof (wf_bound l Hl) as Hb. pose proof (aw_bound args Ha) as Hb2.
    pose proof (merge_length_le (drop k (entries l)) es') as Hm.
    pose proof prev_cases. unfold lenZ in *. rewrite length_app, length_take. rewrite length_drop in Hm.
    assert (length es' = (length es - Z.to_nat (base - prev))%nat) as Hes by (subst es'; apply length_drop).
    subst prev es base k. pose proof (wf_lastIndex_range l Hl). lia.
Qed.

Lemma appendLoop_lastIndex : prev + lenZ es <= log_lastIndex l'.
Proof using All.
  rewrite (wf_lastIndex _ appendLoop_wf), appendLoop_snapshotIndex, appendLoop_entries.
  pose proof base_range. pose proof k_le. pose proof prev_cases.
  pose proof (merge_length (drop k (entries l)) es') as Hm.
  assert (length es' = (length es - Z.to_nat (base - prev))%nat) as Hes by (subst es'; apply length_drop).
  unfold lenZ. rewrite length_app, length_take. subst prev base k. lia.
Qed.

(** Below the batch nothing changes. *)
Lemma appendLoop_below i : i <= base -> log_view l' !! i = log_view l !! i.
Proof using All.
  intros Hi. pose proof base_range. rewrite !view_lookup, appendLoop_snapshotIndex, appendLoop_entries.
  case_decide; [|done]. pose proof k_le.
  rewrite lookup_app_l, lookup_take_lt; [done| |]; rewrite ?length_take; subst k; lia.
Qed.

Lemma appendLoop_above i : base < i ->
  log_view l' !! i = merge_entries (drop k (entries l)) es' !! Z.to_nat (i - base - 1).
Proof using All.
  intros Hi. pose proof base_range. pose proof k_le.
  rewrite view_lookup, appendLoop_snapshotIndex, appendLoop_entries, decide_True by lia.
  rewrite lookup_app_r by (rewrite length_take; subst k; lia).
  f_equal. rewrite length_take. subst k. lia.
Qed.

(** Every entry of the batch above the boundary is in the log afterwards,
    with its term. *)
Lemma appendLoop_in e :
  e ∈ es -> log_snapshotIndex l < le_Index e ->
  exists e', log_view l' !! le_Index e = Some e' /\ le_Term e' = le_Term e /\
    (e' = e \/ log_view l !! le_Index e = Some e').
Proof using All.
  intros [j Hj]%list_elem_of_lookup Hlt. pose proof prev_cases as Hpc. pose proof base_range.
  pose proof (contiguous_lookup _ _ _ _ (aw_contig args Ha) Hj) as Hi. fold prev in Hi.
  assert (Hib : base < le_Index e) by (subst base prev; lia).
  assert (Hj' : es' !! Z.to_nat (le_Index e - base - 1) = Some e).
  { subst es'. rewrite lookup_drop. rewrite <- Hj. f_equal. subst base prev. lia. }
  rewrite appendLoop_above by done.
  destruct (merge_lookup (drop k (entries l)) es' _ _ Hj') as (e' & Hm & Ht & Hor).
  exists e'. split_and!; [done|done|]. destruct Hor as [->|Ho]; [by left|right].
  rewrite lookup_drop in Ho. rewrite view_lookup, decide_True by lia. rewrite <- Ho. f_equal.
  subst k. lia.
Qed.

(** An entry is dropped only behind a conflict. *)
Lemma appendLoop_keep i o :
  log_view l !! i = Some o ->
  (forall e o', e ∈ es -> le_Index e <= i -> log_view l !! le_Index e = Some o' ->
     log_snapshotIndex l < le_Index e -> le_Term o' = le_Term e) ->
  log_view l' !! i = Some o.
Proof using All.
  intros Ho Hall. destruct (decide (i <= base)) as [|Hgt]; [by rewrite appendLoop_below|].
  pose proof base_range. pose proof prev_cases. rewrite appendLoop_above by lia. apply merge_keep.
  - rewrite lookup_drop, <- Ho, view_lookup, decide_True by lia. f_equal. subst k. lia.
  - intros j e o' Hj Ho' He. subst es'. rewrite lookup_drop in He, Ho'.
    pose proof (contiguous_lookup _ _ _ _ (aw_contig args Ha) He) as Hi. fold prev in Hi.
    apply Hall.
    + by eapply list_elem_of_lookup_2.
    + subst base prev. lia.
    + rewrite view_lookup, decide_True by (subst base prev; lia). rewrite <- Ho'. f_equal.
      subst k base prev. lia.
    + subst base prev. lia.
Qed.
End append.

(** ** The handler, branch by branch *)

(** The consistency check of the paper: the follower has the entry the batch
    follows, with the same term. *)
Definition log_matches (l : Log) (prevIndex prevTerm : Z) : Prop :=
  prevIndex = 0 \/ exists e, log_view l !! prevIndex = Some e /\ le_Term e = prevTerm.

Lemma consistencyCheck_None n args :
  log_wf (rlog n) -> is_u64 (ae_PrevLogIndex args) ->
  consistencyCheck n args = None <-> log_matches (rlog n) (ae_PrevLogIndex args) (ae_PrevLogTerm args).
Proof.
  intros Hl Hu. unfold consistencyCheck, log_matches.
  destruct (ae_PrevLogIndex args >? 0) eqn:Hp; [|unfold is_u64 in *; split; [left; lia|done]].
  pose proof (get_term_zero (rlog n) Hl _ Hu ltac:(lia)) as Hz. rewrite get_view in * by done.
  destruct (log_view (rlog n) !! ae_PrevLogIndex args) as [e|]; simpl in *.
  - destruct (le_Term e =? 0) eqn:E0; [apply Z.eqb_eq in E0; by apply Hz in E0|].
    destruct (le_Term e =? ae_PrevLogTerm args) eqn:E1; simpl.
    + split; [|done]. intros _. right. exists e. split; [done|lia].
    + split; [done|]. intros [?|(e' & ? & ?)]; [lia|simplify_eq; lia].
  - split; [done|]. intros [?|(e' & ? & ?)]; [lia|done].
Qed.

(** The node after the term and leader bookkeeping of the handler. *)
Definition ae_prelude (now : Z) (n : RaftNode) (args : AppendEntriesArgs) : RaftNode :=
  let n :=
    if ae_Term args >? currentTerm n then becomeFollower (ae_Term args) n
    else if (ae_Term args =? currentTerm n) && NodeState_eqb (state n) Candidate
         then set_state Follower n
         else n in
  notifyHeartbeat (set_lastLeaderContact now (set_leaderID (ae_LeaderID args) n)).

Lemma HandleAppendEntries_stale now n args :
  ae_Term args < currentTerm n ->
  HandleAppendEntries now n args = (n, mkAppendEntriesReply (currentTerm n) false 0 0).
Proof.
  intros H. unfold HandleAppendEntries.
  replace (ae_Term args >? currentTerm n) with false by lia.
  replace (ae_Term args =? currentTerm n) with false by lia. simpl.
  by replace (ae_Term args <? currentTerm n) with true by lia.
Qed.

Lemma HandleAppendEntries_current now n args :
  currentTerm n <= ae_Term args ->
  HandleAppendEntries now n args =
  match consistencyCheck (ae_prelude now n args) args with
  | Some reply => (ae_prelude now n args, reply)
  | None => acceptEntries (ae_prelude now n args) args
  end.
Proof.
  intros H. unfold HandleAppendEntries, ae_prelude. cbv zeta.
  set (m := if ae_Term args >? currentTerm n then _ else _).
  assert (Ht : currentTerm m = ae_Term args).
  { subst m. destruct (ae_Term args >? currentTerm n) eqn:?; [done|]. case_match; node_simpl; lia. }
  by rewrite Ht, Z.ltb_irrefl.
Qed.

Lemma ae_prelude_fields now n args :
  currentTerm n <= ae_Term args ->
  let m := ae_prelude now n args in
  currentTerm m = ae_Term args /\ rlog m = rlog n /\ commitIndex m = commitIndex n /\
  lastApplied m = lastApplied n /\ peers m = peers n /\ nid m = nid n /\ config m = config n /\
  leaderID m = ae_LeaderID args /\ lastLeaderContact m = now /\ (disk_ok n -> disk_ok m) /\
  (state n <> Leader \/ currentTerm n < ae_Term args -> state m = Follower).
Proof.
  intros H. unfold ae_prelude. cbv zeta.
  destruct (ae_Term args >? currentTerm n) eqn:Hgt.
  - split_and!; try done. intros Hd. by apply (becomeFollower_disk_ok (ae_Term args) n).
  - destruct (_ && _) eqn:Hc; node_unfold.
    + split_and!; try done. lia.
    + split_and!; try done; [lia|]. intros [Hs|?]; [|lia].
      unfold NodeState_eqb in Hc. destruct (state n); [done| |done].
      rewrite bool_decide_eq_true_2, andb_true_r in Hc by done. lia.
Qed.

Lemma acceptEntries_fields n args :
  let n' := (acceptEntries n args).1 in
  rlog n' = appendLoop (rlog n) (ae_Entries args) /\
  currentTerm n' = currentTerm n /\ votedFor n' = votedFor n /\ state n' = state n /\
  lastApplied n' = lastApplied n /\ peers n' = peers n /\ nid n' = nid n /\ config n' = config n /\
  commitIndex n' = (if ae_LeaderCommit args >? commitIndex n
                    then Z.min (ae_LeaderCommit args) (log_lastIndex (rlog n')) else commitIndex n) /\
  (disk_ok n -> durable n' /\ disk_ok n').
Proof.
  unfold acceptEntries. cbv zeta. set (l := appendLoop (rlog n) (ae_Entries args)).
  node_simpl.
  assert (Hif : (if ae_LeaderCommit args <? log_lastIndex l then ae_LeaderCommit args
                 else log_lastIndex l) = Z.min (ae_LeaderCommit args) (log_lastIndex l))
    by (case_match; lia).
  rewrite Hif. destruct (ae_LeaderCommit args >? commitIndex n);
    destruct (bool_decide (ae_Entries args = []));
    (split_and!; [try done..|]); intros Hd.
  all: match goal with |- durable ?x /\ _ =>
         match x with
         | context [persist ?y] =>
             assert (durable (persist y) /\ disk_ok (persist y)) by (split; auto with raft); done
         end end.
Qed.
