(* ===== verification/ReplicationSafety.v ===== *)
(** * Correctness of log replication

    The properties of replication.go: what the follower's handler does on each
    branch, what the leader sends, when it commits, and that the exchange of
    rejections between the two ends. *)

From S2P Require Import Prelude RaftLog Rpc Disk Node Replication.

(** ** Suffixes of a log *)

(** What follows index [i] in the log. *)
Definition log_suffix (l : Log) (i : Z) : list LogEntry := log_slice l (i + 1) (log_lastIndex l + 1).

Lemma log_suffix_drop l i :
  log_wf l -> log_snapshotIndex l <= i <= log_lastIndex l ->
  log_suffix l i = drop (Z.to_nat (i + 1 - log_snapshotIndex l)) (entries l).
Proof.
  intros H Hi. pose proof (wf_lastIndex_range l H). pose proof (wf_snapshotIndex l H).
  apply list_eq. intros k. unfold log_suffix. rewrite slice_lookup by (unfold is_u64; done || lia). cbv zeta.
  rewrite lookup_drop, view_lookup.
  replace (Z.to_nat (i + 1 - log_snapshotIndex l) + k)%nat
    with (Z.to_nat (Z.max (i + 1) (log_snapshotIndex l + 1) + Z.of_nat k - log_snapshotIndex l)) by lia.
  rewrite (decide_True (P := log_snapshotIndex l <= _)) by lia. case_decide; [done|].
  symmetry. apply lookup_ge_None. pose proof (wf_lastIndex l H). unfold lenZ in *. lia.
Qed.

(** ** The follower *)

Lemma matches_prev n args :
  log_matches (rlog n) (ae_PrevLogIndex args) (ae_PrevLogTerm args) ->
  ae_PrevLogIndex args = 0 \/ is_Some (log_view (rlog n) !! ae_PrevLogIndex args).
Proof. intros [->|(e & -> & _)]; eauto. Qed.

Section follower.
Context (now : Z) (n : RaftNode) (args : AppendEntriesArgs).
Context (Hwf : log_wf (rlog n)) (Hargs : ae_wf args).
Context (Hterm : currentTerm n <= ae_Term args).

Let m := ae_prelude now n args.

Lemma accept_step :
  log_matches (rlog n) (ae_PrevLogIndex args) (ae_PrevLogTerm args) ->
  HandleAppendEntries now n args = acceptEntries m args.
Proof using All.
  intros Hmatch. rewrite HandleAppendEntries_current by done.
  destruct (ae_prelude_fields now n args Hterm) as (_ & Hl & _).
  assert (Hu : is_u64 (ae_PrevLogIndex args)).
  { pose proof (aw_prev _ Hargs). pose proof (aw_bound _ Hargs).
    pose proof (lenZ_nonneg (ae_Entries args)). unfold is_u64. lia. }
  rewrite (proj2 (consistencyCheck_None _ _ ltac:(by rewrite Hl) Hu)); [done|by rewrite Hl].
Qed.

Lemma accept_fields :
  log_matches (rlog n) (ae_PrevLogIndex args) (ae_PrevLogTerm args) ->
  let r := HandleAppendEntries now n args in
  rlog r.1 = appendLoop (rlog n) (ae_Entries args) /\
  r.2 = mkAppendEntriesReply (ae_Term args) true 0 0 /\
  currentTerm r.1 = ae_Term args /\ leaderID r.1 = ae_LeaderID args /\ lastApplied r.1 = lastApplied n /\
  commitIndex r.1 = (if ae_LeaderCommit args >? commitIndex n
    then Z.min (ae_LeaderCommit args) (log_lastIndex (rlog r.1)) else commitIndex n) /\
  (disk_ok n -> durable r.1 /\ disk_ok r.1).
Proof using All.
  intros Hmatch r. subst r. rewrite accept_step by done.
  destruct (ae_prelude_fields now n args Hterm) as (HT & Hl & Hc & Ha & _ & _ & _ & Hlead & _ & Hd & _).
  fold m in HT, Hl, Hc, Ha, Hlead, Hd.
  destruct (acceptEntries_fields m args) as (F1 & F2 & _ & _ & F5 & _ & _ & _ & F9 & F10).
  split_and!.
  - by rewrite F1, Hl.
  - change (acceptEntries m args).2 with (mkAppendEntriesReply (currentTerm m) true 0 0). by rewrite HT.
  - by rewrite F2.
  - rewrite <- Hlead. clearbody m. unfold acceptEntries. by repeat case_match.
  - by rewrite F5.
  - by rewrite F9, Hc.
  - intros Hdn. apply F10. by apply Hd.
Qed.
End follower.

(** The example exchange: the leader of term 2 has three entries, the follower
    agrees with it up to index 1 and has a stale entry of term 1 at index 2. *)
Definition exEntry (t i : Z) : LogEntry := mkLogEntry t i [] false "" "".

Definition exLeader : RaftNode :=
  set_commitIndex 2 (set_nextIndex (<["b" := 2]> (<["c" := 4]> ∅)) (set_state Leader
    (set_rlog (mkLog [sentinel 0 0; exEntry 1 1; exEntry 2 2; exEntry 2 3])
      (set_currentTerm 2 exampleNode)))).

Definition exFollower : RaftNode :=
  set_rlog (mkLog [sentinel 0 0; exEntry 1 1; exEntry 1 2]) (set_currentTerm 1 exampleNode).

Definition exArgs : AppendEntriesArgs :=
  mkAppendEntriesArgs 2 "a" 1 1 [exEntry 2 2; exEntry 2 3] 2.

Lemma exLeader_wf : log_wf (rlog exLeader).
Proof. split; [done|by left|done|by repeat constructor|done]. Qed.

Lemma exFollower_wf : log_wf (rlog exFollower).
Proof. split; [done|by left|done|by repeat constructor|done]. Qed.

Lemma exArgs_wf : ae_wf exArgs.
Proof. split; [done|done|by repeat constructor|done]. Qed.

Lemma exArgs_matches : log_matches (rlog exFollower) 1 1.
Proof. right. by exists (exEntry 1 1). Qed.

(** C12. A batch whose predecessor matches is accepted: afterwards the log is
    well formed, holds an entry of the right term at every index of the batch
    (the batch's own, or one it already had), and has lost an entry only at or
    behind a conflict with the batch; the node has adopted the leader's term
    and is on disk before the reply leaves, on a disk without faults. *)
Theorem HandleAppendEntries_accept (now : Z) (n : RaftNode) (args : AppendEntriesArgs) :
  log_wf (rlog n) -> ae_wf args -> disk_ok n -> currentTerm n <= ae_Term args ->
  log_matches (rlog n) (ae_PrevLogIndex args) (ae_PrevLogTerm args) ->
  let n' := (HandleAppendEntries now n args).1 in
  (HandleAppendEntries now n args).2 = mkAppendEntriesReply (ae_Term args) true 0 0 /\
  currentTerm n' = ae_Term args /\ leaderID n' = ae_LeaderID args /\
  log_wf (rlog n') /\ durable n' /\
  (forall e, e ∈ ae_Entries args -> log_snapshotIndex (rlog n) < le_Index e ->
     exists e', log_view (rlog n') !! le_Index e = Some e' /\ le_Term e' = le_Term e /\
       (e' = e \/ log_view (rlog n) !! le_Index e = Some e')) /\
  (forall i o, log_view (rlog n) !! i = Some o ->
     (forall e o', e ∈ ae_Entries args -> le_Index e <= i ->
        log_view (rlog n) !! le_Index e = Some o' -> log_snapshotIndex (rlog n) < le_Index e ->
        le_Term o' = le_Term e) ->
     log_view (rlog n') !! i = Some o).
Proof.
  intros Hwf Hargs Hd HT Hm. pose proof (matches_prev n args Hm) as Hp.
  destruct (accept_fields now n args Hwf Hargs HT Hm) as (Hl & Hr & H3 & H4 & _ & _ & H7). cbv zeta. rewrite Hl.
  split_and!; try done.
  - by apply appendLoop_wf.
  - by apply H7.
  - intros e He Hs. by apply (appendLoop_in (rlog n) args Hwf Hargs Hp).
  - intros i o Ho Hall. by apply (appendLoop_keep (rlog n) args Hwf Hargs Hp).
Qed.

Lemma HandleAppendEntries_accept_witness :
  (HandleAppendEntries 9 exFollower exArgs).2 = mkAppendEntriesReply 2 true 0 0.
Proof.
  exact (proj1 (HandleAppendEntries_accept 9 exFollower exArgs exFollower_wf exArgs_wf (Forall_nil_2 _)
    ltac:(done) exArgs_matches)).
Defined.

(** C13. The append loop of the handler is receiver steps 3 and 4 of the Raft
    paper, when [PrevLogIndex] is not below the node's snapshot: the log up to
    [PrevLogIndex] is unchanged and what follows is the
    old suffix overwritten from the first conflict on. *)
Theorem HandleAppendEntries_paper (now : Z) (n : RaftNode) (args : AppendEntriesArgs) :
  log_wf (rlog n) -> ae_wf args -> currentTerm n <= ae_Term args ->
  log_matches (rlog n) (ae_PrevLogIndex args) (ae_PrevLogTerm args) ->
  log_snapshotIndex (rlog n) <= ae_PrevLogIndex args ->
  let n' := (HandleAppendEntries now n args).1 in
  (forall i, i <= ae_PrevLogIndex args -> log_view (rlog n') !! i = log_view (rlog n) !! i) /\
  log_suffix (rlog n') (ae_PrevLogIndex args) =
    merge_entries (log_suffix (rlog n) (ae_PrevLogIndex args)) (ae_Entries args).
Proof.
  intros Hwf Hargs HT Hm Hs. pose proof (matches_prev n args Hm) as Hp.
  destruct (accept_fields now n args Hwf Hargs HT Hm) as (Hl & _). cbv zeta. rewrite Hl.
  pose proof (base_range (rlog n) args Hwf Hargs Hp) as Hb. rewrite Z.max_l in Hb by lia.
  pose proof (appendLoop_wf (rlog n) args Hwf Hargs Hp) as Hwf'.
  pose proof (appendLoop_snapshotIndex (rlog n) args Hwf Hargs Hp) as Hsn.
  pose proof (appendLoop_lastIndex (rlog n) args Hwf Hargs Hp) as Hla.
  pose proof (appendLoop_entries (rlog n) args Hwf Hargs Hp) as He.
  pose proof (k_le (rlog n) args Hwf Hargs Hp) as Hk.
  pose proof (lenZ_nonneg (ae_Entries args)).
  split.
  - intros i Hi. apply (appendLoop_below (rlog n) args Hwf Hargs Hp). lia.
  - rewrite !log_suffix_drop by (done || lia). rewrite Hsn, He. clear He.
    rewrite Z.max_l, Z.sub_diag in * by lia. cbn [drop Z.to_nat].
    rewrite drop_app_ge by (rewrite length_take; lia).
    rewrite length_take, Nat.min_l, Nat.sub_diag by lia. done.
Qed.

Lemma HandleAppendEntries_paper_witness :
  log_suffix (rlog (HandleAppendEntries 9 exFollower exArgs).1) 1 =
  merge_entries (log_suffix (rlog exFollower) 1) [exEntry 2 2; exEntry 2 3].
Proof.
  exact (proj2 (HandleAppendEntries_paper 9 exFollower exArgs exFollower_wf exArgs_wf ltac:(done)
    exArgs_matches ltac:(done))).
Defined.

(** Delivering a batch a second time. *)
Lemma appendLoop_idemp l args :
  log_wf l -> ae_wf args ->
  (ae_PrevLogIndex args = 0 \/ is_Some (log_view l !! ae_PrevLogIndex args)) ->
  appendLoop (appendLoop l (ae_Entries args)) (ae_Entries args) = appendLoop l (ae_Entries args).
Proof.
  intros Hwf Hargs Hp. set (l' := appendLoop l (ae_Entries args)).
  pose proof (appendLoop_wf l args Hwf Hargs Hp) as Hwf'. fold l' in Hwf'.
  assert (Hp' : ae_PrevLogIndex args = 0 \/ is_Some (log_view l' !! ae_PrevLogIndex args)).
  { destruct Hp as [|Hs]; [by left|right]. unfold l'. rewrite appendLoop_below; [done|done|done|by right|lia]. }
  pose proof (appendLoop_entries l args Hwf Hargs Hp) as He. fold l' in He.
  pose proof (appendLoop_entries l' args Hwf' Hargs Hp') as He'.
  pose proof (appendLoop_snapshotIndex l args Hwf Hargs Hp) as Hsn. fold l' in Hsn. rewrite Hsn in He'.
  pose proof (k_le l args Hwf Hargs Hp) as Hk.
  set (k := Z.to_nat (Z.max (ae_PrevLogIndex args) (log_snapshotIndex l) + 1 - log_snapshotIndex l)) in *.
  set (es' := drop _ (ae_Entries args)) in *.
  assert (Heq : entries (appendLoop l' (ae_Entries args)) = entries l').
  { rewrite He'. set (mg := merge_entries (drop k (entries l)) es') in *.
    assert (Htk : take k (entries l') = take k (entries l)) by
      (rewrite He; rewrite take_app_le by (rewrite length_take; lia); rewrite take_take; by rewrite Nat.min_id).
    assert (Hdr : drop k (entries l') = mg).
    { rewrite He, drop_app_ge by (rewrite length_take; lia).
      rewrite length_take, Nat.min_l, Nat.sub_diag by lia. done. }
    rewrite Htk, Hdr. unfold mg at 1. rewrite merge_idemp. by rewrite He. }
  destruct (appendLoop l' (ae_Entries args)), l'. simpl in Heq. by rewrite Heq.
Qed.

(** A batch that is delivered twice (a retry, a reordered heartbeat) has no
    further effect: the second delivery gives the same reply and leaves the
    log, the commit index and the term as the first did. *)
Theorem HandleAppendEntries_idempotent (now now' : Z) (n : RaftNode) (args : AppendEntriesArgs) :
  log_wf (rlog n) -> ae_wf args -> currentTerm n <= ae_Term args ->
  log_matches (rlog n) (ae_PrevLogIndex args) (ae_PrevLogTerm args) ->
  let r1 := HandleAppendEntries now n args in
  let r2 := HandleAppendEntries now' r1.1 args in
  r2.2 = r1.2 /\ rlog r2.1 = rlog r1.1 /\ commitIndex r2.1 = commitIndex r1.1 /\
  currentTerm r2.1 = currentTerm r1.1.
Proof.
  intros Hwf Hargs HT Hm r1 r2. pose proof (matches_prev n args Hm) as Hp.
  destruct (accept_fields now n args Hwf Hargs HT Hm) as (Hl & Hr & HT1 & _ & _ & Hc & _).
  fold r1 in Hl, Hr, HT1, Hc.
  pose proof (appendLoop_wf (rlog n) args Hwf Hargs Hp) as Hwf'. rewrite <- Hl in Hwf'.
  assert (Hm' : log_matches (rlog r1.1) (ae_PrevLogIndex args) (ae_PrevLogTerm args)).
  { destruct Hm as [|(e & He & Ht)]; [by left|right]. exists e. split; [|done]. rewrite Hl, <- He.
    apply appendLoop_below; [done..|lia]. }
  destruct (accept_fields now' r1.1 args Hwf' Hargs ltac:(lia) Hm') as (Hl2 & Hr2 & HT2 & _ & _ & Hc2 & _).
  fold r2 in Hl2, Hr2, HT2, Hc2.
  assert (Hll : rlog r2.1 = rlog r1.1) by (rewrite Hl2, Hl; by apply appendLoop_idemp).
  split_and!; [congruence|done| |congruence].
  rewrite Hc2, Hll. destruct (ae_LeaderCommit args >? commitIndex n) eqn:E; rewrite Hc; rewrite ?E; [|done].
  match goal with |- context [if ?b then _ else _] => destruct b end; reflexivity.
Qed.

Lemma HandleAppendEntries_idempotent_witness :
  let r1 := HandleAppendEntries 9 exFollower exArgs in
  (HandleAppendEntries 10 r1.1 exArgs).2 = r1.2.
Proof.
  exact (proj1 (HandleAppendEntries_idempotent 9 10 exFollower exArgs exFollower_wf exArgs_wf ltac:(done)
    exArgs_matches)).
Defined.

(** The least index at which a log has the term [t]. *)
Definition first_of_term (l : Log) (t i : Z) : Prop :=
  (exists e, log_view l !! i = Some e /\ le_Term e = t) /\
  forall j e, log_view l !! j = Some e -> le_Term e = t -> i <= j.

(** C25. On a well-formed log the handler rejects exactly what the paper rejects:
    a message of a smaller term, and one whose predecessor the log does not have
    with that term (the entry at its snapshot boundary counts, one below it does
    not).  A rejection never touches the log or the commit index: a stale leader
    gets the newer term and nothing else changes; a batch whose predecessor is
    missing gets the index after the end of the log, one whose predecessor has
    another term gets that term and the least index at which the log has it. *)
Theorem HandleAppendEntries_reject (now : Z) (n : RaftNode) (args : AppendEntriesArgs) :
  log_wf (rlog n) -> is_u64 (ae_PrevLogIndex args) ->
  let n' := (HandleAppendEntries now n args).1 in
  let reply := (HandleAppendEntries now n args).2 in
  (aer_Success reply = true <->
     currentTerm n <= ae_Term args /\ log_matches (rlog n) (ae_PrevLogIndex args) (ae_PrevLogTerm args)) /\
  (ae_Term args < currentTerm n -> n' = n /\ reply = mkAppendEntriesReply (currentTerm n) false 0 0) /\
  (currentTerm n <= ae_Term args ->
   ~ log_matches (rlog n) (ae_PrevLogIndex args) (ae_PrevLogTerm args) ->
   rlog n' = rlog n /\ commitIndex n' = commitIndex n /\ currentTerm n' = ae_Term args /\
   aer_Term reply = ae_Term args /\
   match log_view (rlog n) !! ae_PrevLogIndex args with
   | None => aer_ConflictTerm reply = 0 /\ aer_ConflictIndex reply = log_lastIndex (rlog n) + 1
   | Some e => aer_ConflictTerm reply = le_Term e /\ first_of_term (rlog n) (le_Term e) (aer_ConflictIndex reply)
   end).
Proof.
  intros Hwf Hu. cbv zeta. split_and!; [|intros Hlt; by rewrite HandleAppendEntries_stale by done|].
  { destruct (decide (currentTerm n <= ae_Term args)) as [HT|HT].
    - rewrite HandleAppendEntries_current by done. destruct (ae_prelude_fields now n args HT) as (_ & Hl & _).
      pose proof (consistencyCheck_None (ae_prelude now n args) args) as Hcc. rewrite Hl in Hcc. specialize (Hcc Hwf Hu).
      destruct (consistencyCheck _ args) as [reply|] eqn:E; simpl.
      + assert (Hf : aer_Success reply = false) by (unfold consistencyCheck in E; repeat case_match; by simplify_eq).
        rewrite Hf. split; [done|]. intros [_ Hm%Hcc]. done.
      + split; [|done]. intros _. split; [done|]. by apply Hcc.
    - rewrite HandleAppendEntries_stale by lia. simpl. split; [done|]. intros []. done. }
  intros HT Hm. rewrite HandleAppendEntries_current by done.
  destruct (ae_prelude_fields now n args HT) as (HT' & Hl & Hc & _).
  set (m := ae_prelude now n args) in *. clearbody m.
  destruct (consistencyCheck m args) as [reply|] eqn:Hcc; [|exfalso; apply Hm; rewrite <- Hl;
    apply consistencyCheck_None; by rewrite ?Hl].
  cbn [fst snd]. split; [done|]. split; [done|]. split; [done|]. unfold consistencyCheck in Hcc. rewrite Hl, HT' in Hcc.
  destruct (ae_PrevLogIndex args >? 0) eqn:Hp; [|done].
  pose proof (get_term_zero (rlog n) Hwf _ Hu ltac:(lia)) as Hz. rewrite get_view in * by done.
  pose proof (wf_lastIndex_range _ Hwf). pose proof (wf_snapshotIndex _ Hwf).
  destruct (log_view (rlog n) !! ae_PrevLogIndex args) as [e|] eqn:He; simpl in Hcc, Hz.
  - destruct (le_Term e =? 0) eqn:E0; [apply Z.eqb_eq in E0; by apply Hz in E0|].
    destruct (le_Term e =? ae_PrevLogTerm args); simpl in Hcc; [done|]. injection Hcc as <-. split_and!; [done|done|].
    destruct (firstIndexForTerm_spec (rlog n) (le_Term e) Hwf) as [(g & Hg & Hgt & Hmin)|[_ Hno]]; [|by destruct (Hno _ _ He)].
    split; [by exists g|exact Hmin].
  - injection Hcc as <-. split_and!; [done|done|]. simpl. u64_lia.
Qed.

(** The predecessor at index 2 has term 1, not 2; the first entry of term 1 is at
    index 1. *)
Lemma HandleAppendEntries_reject_witness :
  first_of_term (rlog exFollower) 1
    (aer_ConflictIndex (HandleAppendEntries 9 exFollower (mkAppendEntriesArgs 2 "a" 2 2 [] 0)).2).
Proof.
  destruct (HandleAppendEntries_reject 9 exFollower (mkAppendEntriesArgs 2 "a" 2 2 [] 0) exFollower_wf ltac:(done))
    as (_ & _ & H).
  destruct H as (_ & _ & _ & _ & Hc); [done| |].
  - intros [H|(e & He & Ht)]; [discriminate H|]. vm_compute in He. injection He as <-. discriminate Ht.
  - exact (proj2 Hc).
Defined.

(** ** The messages of the leader *)

(** What the leader knows of a peer that it sends entries to. *)
Record sendable (n : RaftNode) (peer : string) : Prop := {
  sb_wf : log_wf (rlog n);
  sb_next : log_snapshotIndex (rlog n) < mget (nextIndex n) peer <= log_lastIndex (rlog n) + 1
}.

Section build.
Context (n : RaftNode) (peer : string) (Hs : sendable n peer).

Let next := mget (nextIndex n) peer.
Let args := buildArgsLocked n peer.

Lemma build_prev : ae_PrevLogIndex args = next - 1 /\ is_u64 next /\ is_u64 (log_lastIndex (rlog n) + 1) /\ 1 <= next.
Proof using All.
  destruct Hs as [Hwf Hn]. pose proof (wf_snapshotIndex _ Hwf). pose proof (wf_lastIndex_range _ Hwf).
  fold next in Hn. subst args. unfold buildArgsLocked. simpl. fold next. split_and!; [u64_lia|unfold is_u64; lia..|lia].
Qed.

Lemma build_entries : ae_Entries args = log_suffix (rlog n) (next - 1).
Proof using All.
  destruct build_prev as (_ & Hu & Hu' & ?). subst args. unfold buildArgsLocked, log_suffix. simpl. fold next.
  rewrite (u64_small _ Hu'). f_equal. lia.
Qed.

Lemma build_length : ae_PrevLogIndex args + lenZ (ae_Entries args) = log_lastIndex (rlog n).
Proof using All.
  destruct build_prev as (-> & Hu & Hu' & ?). rewrite build_entries. unfold log_suffix.
  replace (next - 1 + 1) with next by lia.
  rewrite slice_length; [lia|apply Hs|done|apply Hs].
Qed.

Lemma build_wf : ae_wf args.
Proof using All.
  destruct build_prev as (Hp & Hu & Hu' & ?). pose proof build_length as Hlen.
  pose proof (wf_lastIndex_range _ (sb_wf _ _ Hs)).
  split; [lia| | |lia]; rewrite ?Hp, build_entries; unfold log_suffix; replace (next - 1 + 1) with next by lia.
  - apply slice_contiguous; try done; apply Hs.
  - apply slice_terms; try done. apply Hs.
Qed.

Lemma build_matches : log_matches (rlog n) (ae_PrevLogIndex args) (ae_PrevLogTerm args) /\
  exists e, log_view (rlog n) !! ae_PrevLogIndex args = Some e /\ ae_PrevLogTerm args = le_Term e.
Proof using All.
  destruct build_prev as (Hp & Hu & Hu' & ?). destruct Hs as [Hwf Hn]. fold next in Hn.
  destruct (proj2 (view_is_Some _ Hwf (next - 1))) as [e He]; [lia|].
  enough (ae_PrevLogTerm args = le_Term e) as Ht.
  { rewrite Hp. split; [right|]; exists e; done. }
  subst args. unfold buildArgsLocked in Hp |- *. simpl in Hp |- *. fold next in Hp |- *. rewrite Hp.
  rewrite get_view by (done || unfold is_u64 in *; lia). by rewrite He.
Qed.
End build.

(** C24. The message for a peer is well formed and complete: the predecessor is
    the entry before [nextIndex], with its real term (no index underflows), and
    the entries are all the leader has from [nextIndex] on, in order, with its
    commit index; a peer whose next entry is compacted away gets the snapshot
    instead: the data, the index of the boundary and the term the log has there. *)
Theorem dispatch_complete (n : RaftNode) (term : Z) (peer : string) :
  log_wf (rlog n) -> 1 <= mget (nextIndex n) peer <= log_lastIndex (rlog n) + 1 ->
  match dispatch n term peer with
  | GoSendToPeer p t args =>
      p = peer /\ t = term /\ ae_wf args /\ ae_Term args = currentTerm n /\ ae_LeaderID args = nid n /\
      ae_PrevLogIndex args = mget (nextIndex n) peer - 1 /\
      (exists e, log_view (rlog n) !! ae_PrevLogIndex args = Some e /\ ae_PrevLogTerm args = le_Term e) /\
      ae_PrevLogIndex args + lenZ (ae_Entries args) = log_lastIndex (rlog n) /\
      ae_LeaderCommit args = commitIndex n /\
      (forall k e, ae_Entries args !! k = Some e ->
         log_view (rlog n) !! (mget (nextIndex n) peer + Z.of_nat k) = Some e)
  | GoSendSnapshotToPeer p t args =>
      p = peer /\ t = term /\ is_Term args = currentTerm n /\ is_LeaderID args = nid n /\
      mget (nextIndex n) peer <= is_LastIncludedIndex args /\
      is_LastIncludedIndex args = log_snapshotIndex (rlog n) /\
      (exists b, log_view (rlog n) !! is_LastIncludedIndex args = Some b /\ is_LastIncludedTerm args = le_Term b) /\
      is_Data args = snapshotData n
  end.
Proof.
  intros Hwf Hn. unfold dispatch. destruct (mget (nextIndex n) peer <=? log_snapshotIndex (rlog n)) eqn:Hle.
  - split_and!; [done|done|done|done|simpl; lia|done| |done]. exists (log_first (rlog n)). split; [|done].
    by apply view_snapshot.
  - assert (Hs : sendable n peer) by (split; [done|lia]).
    destruct (build_prev n peer Hs) as (Hp & Hu & Hu' & _).
    split_and!; try done; [by apply build_wf|by apply build_matches|by apply build_length|].
    intros k e. rewrite build_entries by done. unfold log_suffix.
    replace (mget (nextIndex n) peer - 1 + 1) with (mget (nextIndex n) peer) by lia.
    rewrite slice_lookup by done. cbv zeta. case_decide; [|done].
    rewrite Z.max_l by lia. done.
Qed.

Lemma dispatch_complete_witness :
  match dispatch exLeader 2 "c" with
  | GoSendToPeer p t args => ae_PrevLogIndex args = 3
  | GoSendSnapshotToPeer _ _ _ => False
  end.
Proof.
  pose proof (dispatch_complete exLeader 2 "c" exLeader_wf ltac:(vm_compute; done)) as H.
  change (dispatch exLeader 2 "c") with (GoSendToPeer "c" 2 (buildArgsLocked exLeader "c")) in *.
  cbv beta iota in *. destruct H as (_ & _ & _ & _ & _ & -> & _). reflexivity.
Defined.

(** C23. The follower's commit rule takes the end of its own log where the paper
    takes the index of the last new entry; for the messages this leader sends
    the two coincide, so a follower never commits past what it has just
    verified against the leader. *)
Theorem follower_commit_rule (now : Z) (L F : RaftNode) (peer : string) :
  sendable L peer -> commitIndex L <= log_lastIndex (rlog L) ->
  log_wf (rlog F) -> currentTerm F <= currentTerm L ->
  let args := buildArgsLocked L peer in
  log_matches (rlog F) (ae_PrevLogIndex args) (ae_PrevLogTerm args) ->
  commitIndex (HandleAppendEntries now F args).1 =
  Z.max (commitIndex F) (Z.min (ae_LeaderCommit args) (ae_PrevLogIndex args + lenZ (ae_Entries args))).
Proof.
  intros Hs Hc Hwf HT args Hm. pose proof (build_wf L peer Hs) as Hargs. fold args in Hargs.
  pose proof (build_length L peer Hs) as Hlen. fold args in Hlen.
  pose proof (matches_prev F args Hm) as Hp.
  destruct (accept_fields now F args Hwf Hargs HT Hm) as (Hl & _ & _ & _ & _ & Hci & _). rewrite Hci, Hl.
  pose proof (appendLoop_lastIndex (rlog F) args Hwf Hargs Hp) as Hla.
  change (ae_LeaderCommit args) with (commitIndex L) in *.
  destruct (commitIndex L >? commitIndex F) eqn:E; lia.
Qed.

Lemma follower_commit_rule_witness :
  commitIndex (HandleAppendEntries 9 exFollower (buildArgsLocked exLeader "b")).1 = Z.max 0 (Z.min 2 (1 + 2)).
Proof.
  rewrite (follower_commit_rule 9 exLeader exFollower "b").
  - reflexivity.
  - split; [exact exLeader_wf|vm_compute; done].
  - vm_compute. done.
  - exact exFollower_wf.
  - vm_compute. done.
  - exact exArgs_matches.
Defined.

(** ** Commitment *)

(** How many of the indices are at least [i]. *)
Definition count_ge (i : Z) (l : list Z) : nat := length (List.filter (λ x, i <=? x) l).

Lemma count_ge_none i l : Forall (λ x, x < i) l -> count_ge i l = 0%nat.
Proof.
  induction 1 as [|x l Hx Hl IH]; [done|]. unfold count_ge in *. simpl.
  by replace (i <=? x) with false by lia.
Qed.

Lemma count_ge_perm i l k : l ≡ₚ k -> count_ge i l = count_ge i k.
Proof. intros H. by apply Permutation_length, Permutation_filter_bool. Qed.

(** In a descending list, the [m]-th element is at least [i] exactly when [m]
    elements are. *)
Lemma sorted_nth_count i s m :
  StronglySorted geZ s -> (1 <= m <= length s)%nat ->
  i <= default 0 (s !! (m - 1)%nat) <-> (m <= count_ge i s)%nat.
Proof.
  intros Hs. revert m. induction Hs as [|a s Hs IH Ha]; intros m Hm; simpl in Hm; [lia|].
  unfold count_ge in *. cbn [List.filter].
  assert (Hnone : ~ i <= a -> count_ge i s = 0%nat).
  { intros Hia. apply count_ge_none. eapply Forall_impl; [exact Ha|]. unfold geZ. intros. lia. }
  unfold count_ge in Hnone. destruct m as [|[|m]]; [lia| |].
  - simpl. destruct (i <=? a) eqn:E; simpl; [lia|]. rewrite Hnone by lia. lia.
  - replace (S (S m) - 1)%nat with (S (S m - 1)) by lia. cbn [lookup list_lookup].
    rewrite IH by lia. destruct (i <=? a) eqn:E; simpl; [lia|]. rewrite Hnone by lia. lia.
Qed.

(** The members whose log is known to reach [i]: the leader itself and the
    peers whose [matchIndex] says so. *)
Definition acks (n : RaftNode) (i : Z) : nat :=
  count_ge i (log_lastIndex (rlog n) :: map (mget (matchIndex n)) (peers n)).

#[export] Instance geZ_total : Total geZ.
Proof. intros x y. unfold geZ. lia. Qed.

#[export] Instance geZ_trans : Transitive geZ.
Proof. intros x y z. unfold geZ. lia. Qed.

Lemma quorumIndex_spec n i :
  i <= quorumIndex n <-> (length (peers n) + 1 < 2 * acks n i)%nat.
Proof.
  unfold quorumIndex, acks, sortDescending.
  set (l := log_lastIndex (rlog n) :: map (mget (matchIndex n)) (peers n)).
  assert (Hlen : length l = S (length (peers n))) by (unfold l; simpl; by rewrite length_map).
  pose proof (merge_sort_Permutation geZ l) as Hp.
  rewrite sorted_nth_count.
  - rewrite (count_ge_perm i _ _ Hp). destruct (majority_spec (length (peers n))) as [H1 H2].
    assert (H3 : (2 * majority (length (peers n)) <= length (peers n) + 3)%nat).
    { unfold majority. pose proof (Nat.div_mod_eq (length (peers n) + 1) 2). lia. }
    lia.
  - apply (StronglySorted_merge_sort geZ).
  - rewrite (Permutation_length Hp), Hlen. destruct (majority_spec (length (peers n))) as [H1 H2].
    destruct (length (peers n)); [vm_compute; lia|lia].
Qed.

(** The majority never acknowledges more than the leader has. *)
Lemma quorumIndex_le n :
  Forall (λ p, mget (matchIndex n) p <= log_lastIndex (rlog n)) (peers n) -> quorumIndex n <= log_lastIndex (rlog n).
Proof.
  intros Hmatch. destruct (decide (quorumIndex n <= log_lastIndex (rlog n))) as [|Hgt]; [done|exfalso].
  pose proof (proj1 (quorumIndex_spec n (quorumIndex n)) ltac:(lia)) as Hacks.
  unfold acks in Hacks. rewrite count_ge_none in Hacks; [lia|]. constructor; [lia|].
  apply Forall_map. eapply Forall_impl; [exact Hmatch|]. simpl. intros. lia.
Qed.

(** The terms of a log never decrease and never exceed the current term: what
    every log built by leaders of increasing terms satisfies. *)
Definition terms_sorted (l : Log) (cur : Z) : Prop :=
  (forall i j e f, i <= j -> log_view l !! i = Some e -> log_view l !! j = Some f -> le_Term e <= le_Term f) /\
  (forall i e, log_view l !! i = Some e -> le_Term e <= cur).

Definition exCommit : RaftNode := set_matchIndex (<["b" := 3]> (<["c" := 0]> ∅)) exLeader.

Lemma exCommit_sorted : terms_sorted (rlog exCommit) 2.
Proof.
  assert (H : forall i e, log_view (rlog exCommit) !! i = Some e ->
    (i, e) ∈ [(0, sentinel 0 0); (1, exEntry 1 1); (2, exEntry 2 2); (3, exEntry 2 3)]).
  { intros i e He%elem_of_map_to_list. revert He. generalize (i, e). apply Forall_forall.
    apply (bool_decide_unpack _). vm_compute. exact I. }
  split.
  - intros i j e f Hij He%H Hf%H. rewrite !elem_of_cons, elem_of_nil in He, Hf.
    destruct_or?; simplify_eq; vm_compute; try done; lia.
  - intros i e He%H. rewrite !elem_of_cons, elem_of_nil in He. destruct_or?; simplify_eq; vm_compute; done.
Qed.

(** C11. [maybeCommit] is the commit rule of the Raft paper: it advances the
    commit index to the greatest index of the current term that a majority of
    the cluster has acknowledged, and leaves it alone when there is none; an
    entry of an earlier term is never committed by counting alone. *)
Theorem maybeCommit_paper (n : RaftNode) :
  log_wf (rlog n) -> terms_sorted (rlog n) (currentTerm n) -> 0 <= commitIndex n ->
  Forall (λ p, mget (matchIndex n) p <= log_lastIndex (rlog n)) (peers n) -> 1 <= currentTerm n ->
  let c := commitIndex (maybeCommit n) in
  let committable i := commitIndex n < i /\ (length (peers n) + 1 < 2 * acks n i)%nat /\
    exists e, log_view (rlog n) !! i = Some e /\ le_Term e = currentTerm n in
  (forall i, committable i -> i <= c) /\
  (c = commitIndex n \/ committable c /\ commitNotifyC (maybeCommit n) = true) /\
  rlog (maybeCommit n) = rlog n /\ currentTerm (maybeCommit n) = currentTerm n.
Proof.
  intros Hwf [Hsort Hcur] H0 Hmatch H1 c committable.
  pose proof (quorumIndex_le n Hmatch) as Hq.
  pose proof (wf_lastIndex_range _ Hwf). pose proof (wf_snapshotIndex _ Hwf).
  assert (Hget : commitIndex n < quorumIndex n ->
    le_Term (log_get (rlog n) (quorumIndex n)) =
    match log_view (rlog n) !! quorumIndex n with Some e => le_Term e | None => 0 end).
  { intros. rewrite get_view by (done || unfold is_u64; lia). by destruct (log_view _ !! _). }
  assert (Hmax : forall i, committable i -> i <= quorumIndex n /\ le_Term (log_get (rlog n) (quorumIndex n)) = currentTerm n).
  { intros i (Hi & Hac & e & He & Ht). apply quorumIndex_spec in Hac. split; [done|]. rewrite Hget by lia.
    assert (log_snapshotIndex (rlog n) <= i) by (apply (view_is_Some _ Hwf); eauto).
    destruct (proj2 (view_is_Some _ Hwf (quorumIndex n))) as [f Hf]; [lia|]. rewrite Hf.
    pose proof (Hsort i _ _ _ Hac He Hf). pose proof (Hcur _ _ Hf). lia. }
  subst c. unfold maybeCommit.
  destruct ((quorumIndex n >? commitIndex n) && (le_Term (log_get (rlog n) (quorumIndex n)) =? currentTerm n)) eqn:Hc.
  - apply andb_true_iff in Hc as [Hc1 Hc2]. split_and!; try done.
    + intros i Hi. by apply Hmax.
    + right. split; [|done]. cbn [commitIndex notifyCommit set_commitNotifyC set_commitIndex].
      split; [lia|]. split; [by apply quorumIndex_spec|]. rewrite Hget in Hc2 by lia.
      destruct (log_view (rlog n) !! quorumIndex n) as [e|]; [exists e; split; [done|lia]|lia].
  - split_and!; try done; [|by left]. intros i Hi. destruct (Hmax i Hi) as [Hle Ht]. destruct Hi as [Hi _].
    apply andb_false_iff in Hc as [?|?]; lia.
Qed.

Lemma maybeCommit_paper_witness : 3 <= commitIndex (maybeCommit exCommit).
Proof.
  refine (proj1 (maybeCommit_paper exCommit exLeader_wf exCommit_sorted _ _ _) 3 _).
  - vm_compute. done.
  - by repeat constructor.
  - vm_compute. done.
  - split; [vm_compute; done|]. split; [vm_compute; lia|]. exists (exEntry 2 3). split; reflexivity.
Defined.

(** ** Finding the point of agreement *)

(** The leader of a term appends its entries at consecutive indices: a log that
    has one of them also has, unless compacted, those before it. *)
Definition same_history (l f : Log) : Prop :=
  forall i j e e', log_view f !! i = Some e -> log_view l !! j = Some e' -> le_Term e = le_Term e' ->
    i <= j -> log_snapshotIndex l <= i ->
    exists e'', log_view l !! i = Some e'' /\ le_Term e'' = le_Term e.

Lemma lastIndexOfTerm_spec l t i :
  lastIndexOfTerm l t i = 0 \/
  (1 <= lastIndexOfTerm l t i <= Z.of_nat i /\ le_Term (log_get l (lastIndexOfTerm l t i)) = t).
Proof.
  induction i as [|i IH]; [by left|]. cbn [lastIndexOfTerm].
  destruct (le_Term (log_get l (Z.of_nat (S i))) =? t) eqn:E; [right; split; lia|].
  destruct IH as [->|[? ?]]; [by left|right]. split; [lia|done].
Qed.

(** A rejection makes the leader step back, but not below the first index. *)
Lemma conflict_decreases L F peer reply :
  sendable L peer -> log_wf (rlog F) -> log_snapshotIndex (rlog F) < mget (nextIndex L) peer ->
  same_history (rlog L) (rlog F) ->
  consistencyCheck F (buildArgsLocked L peer) = Some reply ->
  1 <= nextIndexAfterConflict L reply < mget (nextIndex L) peer.
Proof.
  intros Hs Hwf Hsnap Hh Hcc. destruct (build_prev L peer Hs) as (Hp & Hu & _ & H1).
  destruct (build_matches L peer Hs) as [_ (e & He & Ht)].
  set (args := buildArgsLocked L peer) in *. set (next := mget (nextIndex L) peer) in *.
  destruct Hs as [HwfL Hn]. fold next in Hn. clearbody args.
  pose proof (wf_lastIndex_range _ Hwf). pose proof (wf_snapshotIndex _ Hwf).
  pose proof (wf_lastIndex_range _ HwfL). pose proof (wf_snapshotIndex _ HwfL).
  assert (Hup : is_u64 (ae_PrevLogIndex args)) by (unfold is_u64 in *; lia).
  unfold consistencyCheck in Hcc. destruct (ae_PrevLogIndex args >? 0) eqn:Hpos; [|done].
  pose proof (get_term_zero (rlog F) Hwf _ Hup ltac:(lia)) as Hz. rewrite get_view in * by done.
  unfold nextIndexAfterConflict.
  destruct (log_view (rlog F) !! ae_PrevLogIndex args) as [f|] eqn:Hf; simpl in Hcc, Hz.
  - destruct (le_Term f =? 0) eqn:E0; [apply Z.eqb_eq in E0; by apply Hz in E0|].
    destruct (le_Term f =? ae_PrevLogTerm args) eqn:E1; simpl in Hcc; [done|]. injection Hcc as <-.
    cbn [aer_ConflictTerm aer_ConflictIndex]. rewrite E0.
    destruct (lastIndexOfTerm_spec (rlog L) (le_Term f) (Z.to_nat (log_lastIndex (rlog L)))) as [->|[Hr Hrt]].
    + simpl. destruct (firstIndexForTerm_spec (rlog F) (le_Term f) Hwf) as [(g & Hg & Hgt & Hmin)|[_ Hno]].
      * pose proof (Hmin _ _ Hf eq_refl). case_match; lia.
      * by destruct (Hno _ _ Hf).
    + set (r := lastIndexOfTerm _ _ _) in *. replace (r >? 0) with true by lia.
      rewrite (u64_small (r + 1)) by (unfold is_u64; lia). replace (r + 1 <? 1) with false by lia.
      rewrite get_view in Hrt by (done || unfold is_u64; lia).
      destruct (log_view (rlog L) !! r) as [g|] eqn:Hg; simpl in Hrt; [|lia].
      destruct (decide (r < ae_PrevLogIndex args)) as [|Hge]; [lia|exfalso].
      destruct (Hh _ _ _ _ Hf Hg (eq_sym Hrt)) as (e'' & He'' & Hte); [lia|lia|].
      rewrite He in He''. simplify_eq. lia.
  - injection Hcc as <-. cbn [aer_ConflictTerm aer_ConflictIndex]. simpl.
    apply view_None in Hf; [|done]. rewrite u64_small by (unfold is_u64; lia). case_match; lia.
Qed.

Lemma lastIndexOfTerm_last l t i k :
  lastIndexOfTerm l t i < k <= Z.of_nat i -> le_Term (log_get l k) <> t.
Proof.
  induction i as [|i IH]; [simpl; lia|]. cbn [lastIndexOfTerm].
  destruct (le_Term (log_get l (Z.of_nat (S i))) =? t) eqn:E; [lia|]. intros Hk.
  destruct (decide (k = Z.of_nat (S i))) as [->|]; [lia|]. apply IH. lia.
Qed.

(** Nor below a boundary of the peer on which the logs agree. *)
Lemma conflict_floor L F peer reply b :
  let sF := log_snapshotIndex (rlog F) in
  sendable L peer -> log_wf (rlog F) -> log_snapshotIndex (rlog L) <= sF < mget (nextIndex L) peer ->
  log_view (rlog L) !! sF = Some b -> le_Term b = log_snapshotTerm (rlog F) ->
  (forall k e, k <= sF -> log_view (rlog L) !! k = Some e -> le_Term e <= le_Term b) ->
  (forall k e, log_view (rlog F) !! k = Some e -> le_Term b <= le_Term e) ->
  consistencyCheck F (buildArgsLocked L peer) = Some reply -> sF < nextIndexAfterConflict L reply.
Proof.
  intros sF Hs Hwf Hsn Hb Hbt HLb HF Hcc. destruct (build_prev L peer Hs) as (Hp & Hu & _ & H1).
  destruct (build_matches L peer Hs) as [_ (e & He & Ht)].
  set (args := buildArgsLocked L peer) in *. set (next := mget (nextIndex L) peer) in *.
  destruct Hs as [HwfL Hn]. fold next in Hn. clearbody args.
  pose proof (wf_lastIndex_range _ Hwf). pose proof (wf_snapshotIndex _ Hwf).
  pose proof (wf_lastIndex_range _ HwfL). pose proof (wf_snapshotIndex _ HwfL).
  assert (Hup : is_u64 (ae_PrevLogIndex args)) by (unfold is_u64 in *; lia).
  unfold consistencyCheck in Hcc. destruct (ae_PrevLogIndex args >? 0) eqn:Hpos; [|done].
  pose proof (get_term_zero (rlog F) Hwf _ Hup ltac:(lia)) as Hz. rewrite get_view in * by done.
  assert (HsL : sF <= log_lastIndex (rlog L)) by (apply (view_is_Some _ HwfL); eauto).
  assert (Hgb : forall t, le_Term b = t -> lastIndexOfTerm (rlog L) t (Z.to_nat (log_lastIndex (rlog L))) < sF -> False).
  { intros t Htb Hr. apply (lastIndexOfTerm_last (rlog L) t (Z.to_nat (log_lastIndex (rlog L))) sF); [lia|].
    rewrite get_view, Hb by (done || unfold is_u64; lia). done. }
  unfold nextIndexAfterConflict.
  destruct (log_view (rlog F) !! ae_PrevLogIndex args) as [f|] eqn:Hf; simpl in Hcc, Hz.
  - destruct (le_Term f =? 0) eqn:E0; [apply Z.eqb_eq in E0; by apply Hz in E0|].
    destruct (le_Term f =? ae_PrevLogTerm args) eqn:E1; simpl in Hcc; [done|]. injection Hcc as <-.
    cbn [aer_ConflictTerm aer_ConflictIndex]. rewrite E0. specialize (Hgb (le_Term f)).
    destruct (lastIndexOfTerm_spec (rlog L) (le_Term f) (Z.to_nat (log_lastIndex (rlog L)))) as [Hr|[Hr Hrt]].
    + rewrite Hr in *. simpl. destruct (decide (sF = 0)) as [E|]; [case_match; lia|].
      destruct (firstIndexForTerm_spec (rlog F) (le_Term f) Hwf) as [(g & Hg & Hgt & _)|[_ Hno]]; [|by destruct (Hno _ _ Hf)].
      assert (Hge : sF <= log_firstIndexForTerm (rlog F) (le_Term f)) by (apply (view_is_Some _ Hwf); eauto).
      destruct (decide (log_firstIndexForTerm (rlog F) (le_Term f) = sF)) as [E|]; [|case_match; lia].
      exfalso. apply Hgb; [|lia]. rewrite E in Hg. unfold sF in Hg. rewrite (view_snapshot _ Hwf) in Hg. injection Hg as <-. by rewrite Hbt.
    + set (r := lastIndexOfTerm _ _ _) in *. replace (r >? 0) with true by lia.
      rewrite (u64_small (r + 1)) by (unfold is_u64; lia). replace (r + 1 <? 1) with false by lia.
      destruct (decide (sF <= r)) as [|Hlt]; [lia|]. exfalso. apply Hgb; [|lia].
      rewrite get_view in Hrt by (done || unfold is_u64; lia).
      destruct (log_view (rlog L) !! r) as [g|] eqn:Hg; simpl in Hrt; [|lia].
      specialize (HLb r g ltac:(lia) Hg). specialize (HF _ _ Hf). lia.
  - injection Hcc as <-. cbn [aer_ConflictTerm aer_ConflictIndex]. simpl.
    rewrite u64_small by (unfold is_u64; lia). subst sF. case_match; lia.
Qed.

(** The exchange between a leader and one peer, until the peer accepts a batch
    ([true]) or needs the snapshot ([false]); both run their own handlers. *)
Fixpoint negotiate (now : Z) (fuel : nat) (L F : RaftNode) (peer : string)
  : option (RaftNode * RaftNode * bool) :=
  match fuel with
  | O => None
  | S fuel =>
      match dispatch L (currentTerm L) peer with
      | GoSendSnapshotToPeer _ _ _ => Some (L, F, false)
      | GoSendToPeer _ term args =>
          let '(F, reply) := HandleAppendEntries now F args in
          let L := sendToPeer_reply now L peer term args reply in
          if aer_Success reply then Some (L, F, true) else negotiate now fuel L F peer
      end
  end.

Lemma reply_reject_fields now L peer args reply :
  state L = Leader -> aer_Term reply = currentTerm L -> aer_Success reply = false ->
  let L' := sendToPeer_reply now L peer (currentTerm L) args reply in
  state L' = Leader /\ currentTerm L' = currentTerm L /\ rlog L' = rlog L /\
  mget (nextIndex L') peer = nextIndexAfterConflict L reply.
Proof.
  intros Hs HT Hf. unfold sendToPeer_reply. rewrite HT, Hs, Hf, Z.eqb_refl.
  replace (currentTerm L >? currentTerm L) with false by lia. simpl.
  split_and!; try done. apply mget_insert.
Qed.

Lemma maybeCommit_fields n :
  matchIndex (maybeCommit n) = matchIndex n /\ nextIndex (maybeCommit n) = nextIndex n /\
  rlog (maybeCommit n) = rlog n /\ state (maybeCommit n) = state n /\ peers (maybeCommit n) = peers n /\
  currentTerm (maybeCommit n) = currentTerm n /\ commitIndex n <= commitIndex (maybeCommit n).
Proof.
  unfold maybeCommit. cbv zeta. destruct (_ && _) eqn:E; node_unfold; split_and!; try done; try lia.
Qed.

Lemma reply_accept_fields now L peer args reply :
  state L = Leader -> aer_Term reply = currentTerm L -> aer_Success reply = true ->
  let L' := sendToPeer_reply now L peer (currentTerm L) args reply in
  ae_PrevLogIndex args ⊕ lenZ (ae_Entries args) <= mget (matchIndex L') peer /\ rlog L' = rlog L /\
  mget (nextIndex L') peer = mget (matchIndex L') peer ⊕ 1.
Proof.
  intros Hs HT Hf. unfold sendToPeer_reply. rewrite HT, Hs, Hf, Z.eqb_refl.
  replace (currentTerm L >? currentTerm L) with false by lia. cbn [negb orb].
  change (NodeState_eqb Leader Leader) with true. cbn [negb orb]. cbv zeta.
  set (n1 := set_nextIndex _ _). destruct (maybeCommit_fields n1) as (-> & -> & -> & _). subst n1.
  node_simpl. split_and!.
  - case_match; node_simpl; [rewrite mget_insert; lia|lia].
  - by case_match.
  - by rewrite mget_insert.
Qed.

(** With the last entry of its own term acknowledged by a majority the leader
    commits all it has. *)
Lemma maybeCommit_reaches n :
  Forall (λ p, mget (matchIndex n) p <= log_lastIndex (rlog n)) (peers n) ->
  le_Term (log_get (rlog n) (log_lastIndex (rlog n))) = currentTerm n ->
  (length (peers n) + 1 < 2 * acks n (log_lastIndex (rlog n)))%nat ->
  log_lastIndex (rlog n) <= commitIndex (maybeCommit n).
Proof.
  intros Hm Ht Hq%quorumIndex_spec. pose proof (quorumIndex_le n Hm).
  assert (Hqi : quorumIndex n = log_lastIndex (rlog n)) by lia. unfold maybeCommit. rewrite Hqi, Ht, Z.eqb_refl, andb_true_r.
  destruct (log_lastIndex (rlog n) >? commitIndex n) eqn:E; [|lia].
  cbn [commitIndex notifyCommit set_commitNotifyC set_commitIndex]. lia.
Qed.

(** A leader that has committed what a majority of its peers has acknowledged. *)
Definition settled (L : RaftNode) : Prop :=
  (length (peers L) + 1 < 2 * acks L (log_lastIndex (rlog L)))%nat -> log_lastIndex (rlog L) <= commitIndex L.

(** What a majority stores is a majority of acknowledgements. *)
Lemma acks_quorum (L : RaftNode) qs k :
  NoDup qs -> qs ⊆ peers L -> k <= log_lastIndex (rlog L) -> (forall q, q ∈ qs -> k <= mget (matchIndex L) q) ->
  (S (length qs) <= acks L k)%nat.
Proof.
  intros Hnd Hsub Hk Hq. unfold acks, count_ge. simpl. replace (k <=? log_lastIndex (rlog L)) with true by lia. simpl.
  apply le_n_S. transitivity (length (List.filter (λ p, k <=? mget (matchIndex L) p) (peers L))).
  - apply submseteq_length, NoDup_submseteq; [done|]. intros q Hin. apply list_elem_of_In, filter_In.
    split; [by apply list_elem_of_In, Hsub|]. specialize (Hq q Hin). lia.
  - clear Hsub. induction (peers L) as [|p ps IH]; simpl; [done|]. destruct (k <=? mget (matchIndex L) p); simpl; lia.
Qed.

(** A match of the whole log takes [matchIndex] of the peer to its end, and
    commits if that was the acknowledgement that was missing. *)
Lemma reply_accept_commit now L q args reply :
  state L = Leader -> aer_Term reply = currentTerm L -> aer_Success reply = true -> log_wf (rlog L) -> q ∈ peers L ->
  (forall p, p ∈ peers L -> mget (matchIndex L) p <= log_lastIndex (rlog L)) ->
  le_Term (log_get (rlog L) (log_lastIndex (rlog L))) = currentTerm L ->
  ae_PrevLogIndex args + lenZ (ae_Entries args) = log_lastIndex (rlog L) ->
  let L' := sendToPeer_reply now L q (currentTerm L) args reply in
  state L' = Leader /\ currentTerm L' = currentTerm L /\ rlog L' = rlog L /\ peers L' = peers L /\ config L' = config L /\
  lastHeardFrom L' = <[q := now]> (lastHeardFrom L) /\
  mget (matchIndex L') q = log_lastIndex (rlog L) /\ mget (nextIndex L') q = log_lastIndex (rlog L) ⊕ 1 /\
  (forall p, p <> q -> mget (matchIndex L') p = mget (matchIndex L) p /\ mget (nextIndex L') p = mget (nextIndex L) p) /\
  settled L' /\
  (commitIndex L' = commitIndex L /\ commitNotifyC L' = commitNotifyC L \/
   commitIndex L' <= log_lastIndex (rlog L) /\ commitNotifyC L' = true) /\ lastApplied L' = lastApplied L.
Proof.
  intros Hs HT Hsuc Hwf Hq Hm Hlast Hlen. pose proof (wf_lastIndex_range _ Hwf). pose proof (wf_snapshotIndex _ Hwf).
  assert (Hm0 := Hm q Hq). unfold sendToPeer_reply. rewrite HT, Hs, Hsuc, Z.eqb_refl. simpl.
  rewrite Z.gtb_ltb, Z.ltb_irrefl, Hlen, (u64_small (log_lastIndex (rlog L))) by (unfold is_u64; lia).
  set (L1 := if log_lastIndex (rlog L) >? mget (matchIndex L) q then _ else _).
  assert (H1 : mget (matchIndex L1) q = log_lastIndex (rlog L) /\
    (forall p, p <> q -> mget (matchIndex L1) p = mget (matchIndex L) p) /\
    state L1 = Leader /\ currentTerm L1 = currentTerm L /\ rlog L1 = rlog L /\ peers L1 = peers L /\ config L1 = config L /\
    nextIndex L1 = nextIndex L /\ lastHeardFrom L1 = <[q := now]> (lastHeardFrom L) /\ commitIndex L1 = commitIndex L /\
    commitNotifyC L1 = commitNotifyC L /\ lastApplied L1 = lastApplied L).
  { subst L1. destruct (log_lastIndex (rlog L) >? mget (matchIndex L) q) eqn:E; split_and!; try done; simpl; [by rewrite mget_insert| |lia].
    intros p Hp. by rewrite mget_insert_ne. }
  clearbody L1. destruct H1 as (M1 & M2 & S1 & S2 & S3 & S4 & S5 & S6 & S7 & S8 & S9 & S10).
  set (L2 := set_nextIndex _ L1). destruct (maybeCommit_fields L2) as (F1 & F2 & F3 & F4 & F5 & F6 & F7).
  assert (HM : Forall (λ p, mget (matchIndex L2) p <= log_lastIndex (rlog L2)) (peers L2)).
  { apply Forall_forall. simpl. rewrite S3, S4. intros p Hp. destruct (decide (p = q)) as [->|]; [lia|]. rewrite M2 by done. auto. }
  pose proof (quorumIndex_le L2 HM) as Hqi.
  assert (Hcf : config (maybeCommit L2) = config L2 /\ lastHeardFrom (maybeCommit L2) = lastHeardFrom L2 /\
    lastApplied (maybeCommit L2) = lastApplied L2 /\
    (commitIndex (maybeCommit L2) = commitIndex L2 /\ commitNotifyC (maybeCommit L2) = commitNotifyC L2 \/
     commitIndex (maybeCommit L2) <= log_lastIndex (rlog L) /\ commitNotifyC (maybeCommit L2) = true)).
  { unfold maybeCommit. case_match; [|by auto 6]. split_and!; try done. right. split; [|done].
    change (quorumIndex L2 <= log_lastIndex (rlog L)). change (rlog L2) with (rlog L1) in Hqi. by rewrite S3 in Hqi. }
  destruct Hcf as (Hcf & Hlh & Hla & Hci).
  assert (Hset : settled (maybeCommit L2)).
  { unfold settled, acks. rewrite F1, F3, F5. intros Ha. apply maybeCommit_reaches; [done|simpl; congruence|exact Ha]. }
  set (L3 := maybeCommit L2) in *. clearbody L3.
  rewrite F1, F2, F3, F4, F5, F6, Hcf, Hlh, Hla. subst L2. simpl in *. rewrite S6, mget_insert, M1.
  split_and!; try done.
  - intros p Hp. rewrite M2, mget_insert_ne by done. done.
  - by rewrite S8, S9 in Hci.
Qed.

(** One message and its answer: a rejection that makes the leader step back, or
    a match. *)
Lemma exchange_cases now L F peer :
  sendable L peer -> log_wf (rlog F) -> currentTerm F <= currentTerm L ->
  log_snapshotIndex (rlog F) < mget (nextIndex L) peer -> same_history (rlog L) (rlog F) ->
  let args := buildArgsLocked L peer in
  let r := HandleAppendEntries now F args in
  (aer_Success r.2 = false /\ aer_Term r.2 = currentTerm L /\ rlog r.1 = rlog F /\ currentTerm r.1 = currentTerm L /\
     (exists F0, rlog F0 = rlog F /\ consistencyCheck F0 args = Some r.2) /\
     1 <= nextIndexAfterConflict L r.2 < mget (nextIndex L) peer) \/
  (r.2 = mkAppendEntriesReply (currentTerm L) true 0 0 /\
     log_matches (rlog F) (ae_PrevLogIndex args) (ae_PrevLogTerm args)).
Proof.
  intros Hsend HwfF HT Hsnap Hh args r. destruct (build_prev L peer Hsend) as (Hp & Hu & _ & H1).
  destruct (ae_prelude_fields now F args HT) as (HT' & HlF & _).
  destruct (consistencyCheck (ae_prelude now F args) args) as [reply|] eqn:Hcc.
  - left. subst r. rewrite HandleAppendEntries_current, Hcc by exact HT. simpl.
    assert (Hrep : aer_Success reply = false /\ aer_Term reply = currentTerm L).
    { unfold consistencyCheck in Hcc. repeat case_match; simplify_eq; by rewrite HT'. }
    destruct Hrep. split_and!; try done; [by exists (ae_prelude now F args)|..];
      apply (conflict_decreases L (ae_prelude now F args) peer reply); rewrite ?HlF; done.
  - right. assert (Hm : log_matches (rlog F) (ae_PrevLogIndex args) (ae_PrevLogTerm args)).
    { rewrite <- HlF. apply consistencyCheck_None; [by rewrite HlF|subst args; unfold is_u64 in *; lia|done]. }
    split; [|done]. by destruct (accept_fields now F args HwfF (build_wf L peer Hsend) HT Hm) as (_ & Hr & _).
Qed.

Lemma negotiate_converges now fuel : forall L F peer,
  state L = Leader -> log_wf (rlog L) -> log_wf (rlog F) -> currentTerm F <= currentTerm L ->
  1 <= mget (nextIndex L) peer <= log_lastIndex (rlog L) + 1 ->
  log_snapshotIndex (rlog F) <= log_snapshotIndex (rlog L) -> same_history (rlog L) (rlog F) ->
  mget (nextIndex L) peer <= Z.of_nat fuel ->
  exists L' F' b, negotiate now fuel L F peer = Some (L', F', b) /\ rlog L' = rlog L /\
    (b = false -> mget (nextIndex L') peer <= log_snapshotIndex (rlog L)) /\
    (b = true -> log_wf (rlog F') /\ log_lastIndex (rlog L) <= mget (matchIndex L') peer /\
       exists p, p < mget (nextIndex L) peer /\ log_matches (rlog F) p (le_Term (log_get (rlog L) p)) /\
         forall i e, p < i -> log_view (rlog L) !! i = Some e ->
           exists e', log_view (rlog F') !! i = Some e' /\ le_Term e' = le_Term e).
Proof.
  induction fuel as [|fuel IH]; intros L F peer Hs HwfL HwfF HT Hn Hsnap Hh Hfuel; [lia|].
  cbn [negotiate]. unfold dispatch.
  destruct (mget (nextIndex L) peer <=? log_snapshotIndex (rlog L)) eqn:Hle.
  { exists L, F, false. split_and!; try done. lia. }
  assert (Hsend : sendable L peer) by (split; [done|lia]).
  destruct (build_prev L peer Hsend) as (Hp & Hu & _ & _).
  pose proof (build_wf L peer Hsend) as Hargs. pose proof (build_length L peer Hsend) as Hlen.
  pose proof (build_entries L peer Hsend) as Hes.
  pose proof (wf_lastIndex_range _ HwfL). pose proof (wf_snapshotIndex _ HwfL).
  destruct (exchange_cases now L F peer Hsend HwfF HT ltac:(lia) Hh) as [(Hsucc & Hrt & HlF & HT' & _ & Hdec)|[_ Hm]].
  - destruct (HandleAppendEntries now F (buildArgsLocked L peer)) as [F1 reply]. simpl in *. rewrite Hsucc.
    destruct (reply_reject_fields now L peer (buildArgsLocked L peer) reply Hs Hrt Hsucc) as (Hs' & HcT & Hl' & Hn').
    set (L1 := sendToPeer_reply now L peer (currentTerm L) (buildArgsLocked L peer) reply) in *. clearbody L1.
    destruct (IH L1 F1 peer) as (L' & F' & b & Heq & H1 & H2 & H3);
      [done|by rewrite Hl'|by rewrite HlF|rewrite HT', HcT; done|rewrite Hn', Hl'; lia|by rewrite HlF, Hl'|
       by rewrite HlF, Hl'|rewrite Hn'; lia|].
    rewrite Hl', HlF in *. exists L', F', b. split_and!; try done.
    intros Hb. destruct (H3 Hb) as (? & ? & p & ? & ? & ?). split_and!; try done.
    exists p. split_and!; try done. lia.
  - pose proof (matches_prev F _ Hm) as HpF.
    destruct (accept_fields now F _ HwfF Hargs HT Hm) as (HlF & HrF & _).
    destruct (HandleAppendEntries now F (buildArgsLocked L peer)) as [F1 reply]. cbn [fst snd] in HlF, HrF. subst reply.
    simpl aer_Success. cbv iota.
    destruct (reply_accept_fields now L peer (buildArgsLocked L peer)
      (mkAppendEntriesReply (currentTerm L) true 0 0) Hs eq_refl eq_refl) as (Hma & HlL & _).
    rewrite Hlen in Hma. rewrite u64_small in Hma by (unfold is_u64; lia).
    eexists _, F1, true. split; [reflexivity|]. split_and!; [done|done|]. intros _. rewrite HlF.
    split; [by apply appendLoop_wf|]. split; [done|].
    exists (ae_PrevLogIndex (buildArgsLocked L peer)). split; [lia|]. split.
    { destruct (build_matches L peer Hsend) as [_ (e & He & Ht)].
      rewrite get_view by (done || rewrite Hp; unfold is_u64 in *; lia). rewrite He. simpl. by rewrite <- Ht. }
    intros i e Hi He. pose proof (view_index _ HwfL _ _ He) as Hidx.
    assert (Hin : e ∈ ae_Entries (buildArgsLocked L peer)).
    { rewrite Hes. unfold log_suffix. apply list_elem_of_lookup.
      exists (Z.to_nat (i - mget (nextIndex L) peer)).
      assert (i <= log_lastIndex (rlog L)) by (apply (view_is_Some _ HwfL); eauto).
      rewrite slice_lookup by (done || unfold is_u64 in *; lia). cbv zeta.
      rewrite decide_True by lia. rewrite <- He. f_equal. lia. }
    destruct (appendLoop_in (rlog F) _ HwfF Hargs HpF e Hin) as (e' & He' & Ht' & _); [lia|].
    rewrite Hidx in He'. by exists e'.
Qed.

(** C14. The search for the point where two logs agree ends, for a follower that
    has compacted no more than its leader and whose log shares its history (an
    entry of a term the leader's log has at or above it is of that term there
    too, unless compacted): with the leader and the follower exchanging real
    messages, each rejection moves [nextIndex]
    strictly down, so after at most [nextIndex] rounds the follower accepts, and
    then holds every entry the leader has above the point of agreement and is
    known to; or it needs entries that are compacted away, and the leader turns
    to its snapshot. *)
Theorem replication_converges (now : Z) (L F : RaftNode) (peer : string) :
  state L = Leader -> log_wf (rlog L) -> log_wf (rlog F) -> currentTerm F <= currentTerm L ->
  1 <= mget (nextIndex L) peer <= log_lastIndex (rlog L) + 1 ->
  log_snapshotIndex (rlog F) <= log_snapshotIndex (rlog L) -> same_history (rlog L) (rlog F) ->
  exists L' F' b,
    negotiate now (Z.to_nat (mget (nextIndex L) peer)) L F peer = Some (L', F', b) /\ rlog L' = rlog L /\
    (b = false -> mget (nextIndex L') peer <= log_snapshotIndex (rlog L)) /\
    (b = true -> log_wf (rlog F') /\ log_lastIndex (rlog L) <= mget (matchIndex L') peer /\
       exists p, p < mget (nextIndex L) peer /\ log_matches (rlog F) p (le_Term (log_get (rlog L) p)) /\
         forall i e, p < i -> log_view (rlog L) !! i = Some e ->
           exists e', log_view (rlog F') !! i = Some e' /\ le_Term e' = le_Term e).
Proof. intros. apply negotiate_converges; try done. lia. Qed.

Lemma replication_converges_witness :
  exists L' F' b, negotiate 9 4 exLeader exFollower "c" = Some (L', F', b) /\ rlog L' = rlog exLeader.
Proof.
  destruct (replication_converges 9 exLeader exFollower "c") as (L' & F' & b & H1 & H2 & _).
  - reflexivity.
  - exact exLeader_wf.
  - exact exFollower_wf.
  - vm_compute. done.
  - vm_compute. done.
  - vm_compute. done.
  - intros i j e e' Hi Hj Ht Hij Hs.
    assert (Hf : (i, e) ∈ [(0, sentinel 0 0); (1, exEntry 1 1); (2, exEntry 1 2)]).
    { apply elem_of_map_to_list in Hi. revert Hi. generalize (i, e). apply Forall_forall.
      apply (bool_decide_unpack _). vm_compute. exact I. }
    assert (Hl : (j, e') ∈ [(0, sentinel 0 0); (1, exEntry 1 1); (2, exEntry 2 2); (3, exEntry 2 3)]).
    { apply elem_of_map_to_list in Hj. revert Hj. generalize (j, e'). apply Forall_forall.
      apply (bool_decide_unpack _). vm_compute. exact I. }
    rewrite !elem_of_cons, elem_of_nil in Hf. rewrite !elem_of_cons, elem_of_nil in Hl.
    destruct_or?; simplify_eq; try discriminate Ht; try lia;
      eexists; (split; [reflexivity|reflexivity]).
  - exists L', F', b. split; [exact H1|exact H2].
Defined.
