(* ===== verification/Snapshot.v ===== *)
(** * Snapshots (raft/snapshot.go)

    Taking a snapshot, installing one received from the leader, the reply to an
    InstallSnapshot RPC, and the two file operations. *)

From S2P Require Import Prelude RaftLog Rpc Disk Node Replication.

(** ** Files *)

Definition saveSnapshot (index term : Z) (data : bytes) (n : RaftNode) : RaftNode * option io_error :=
  let r := writeFile snapshotPath (CSnapshot (mkSnapshotFile index term data)) (disk n) in
  (set_disk r.1 n, r.2).

(** A missing file is index 0 and no error. *)
Definition loadSnapshotFile (n : RaftNode) : RaftNode * (Z * Z * bytes + io_error) :=
  let r := readFile decodeSnapshot snapshotPath (disk n) in
  (set_disk (drop_fault (disk n)) n,
   match r with
   | inl None => inl (0, 0, [])
   | inl (Some sf) => inl (sf_Index sf, sf_Term sf, sf_Data sf)
   | inr e => inr e
   end).

(** ** Taking a snapshot *)

Definition TakeSnapshot (n : RaftNode) (data : bytes) : RaftNode * option io_error :=
  let index := lastApplied n in
  if (index =? 0) || (index <=? log_snapshotIndex (rlog n)) then (n, None)
  else
    let term := le_Term (log_get (rlog n) index) in
    match saveSnapshot index term data n with
    | (n, Some e) => (n, Some e)
    | (n, None) =>
        let n := set_snapshotData data n in
        let n := set_rlog (log_compactTo (rlog n) index term) n in
        (persist n, None)
    end.

(** ** Installing a snapshot *)

(** Draining [snapshotNotifyC] and sending on it leaves the new value. *)
Definition HandleInstallSnapshot (n : RaftNode) (args : InstallSnapshotArgs)
  : RaftNode * InstallSnapshotReply :=
  let n := if is_Term args >? currentTerm n then becomeFollower (is_Term args) n else n in
  let reply := mkInstallSnapshotReply (currentTerm n) in
  if is_Term args <? currentTerm n then (n, reply)
  else
    let n := set_leaderID (is_LeaderID args) n in
    let n := notifyHeartbeat n in
    if is_LastIncludedIndex args <=? log_snapshotIndex (rlog n) then (n, reply)
    else
      match saveSnapshot (is_LastIncludedIndex args) (is_LastIncludedTerm args) (is_Data args) n with
      | (n, Some _) => (n, reply)
      | (n, None) =>
          let n := set_snapshotData (is_Data args) n in
          let n := set_rlog (log_compactTo (rlog n) (is_LastIncludedIndex args)
                               (is_LastIncludedTerm args)) n in
          let n := if lastApplied n <? is_LastIncludedIndex args
                   then set_lastApplied (is_LastIncludedIndex args) n else n in
          let n := if commitIndex n <? is_LastIncludedIndex args
                   then set_commitIndex (is_LastIncludedIndex args) n else n in
          let n := persist n in
          let n := set_snapshotNotifyC (Some (mkSnapshotToApply (is_LastIncludedIndex args)
                     (is_LastIncludedTerm args) (is_Data args))) n in
          (n, reply)
      end.

(** [sendSnapshotToPeer] once the RPC has returned [reply]. *)
Definition sendSnapshotToPeer_reply (n : RaftNode) (peer : string) (term : Z)
    (args : InstallSnapshotArgs) (reply : InstallSnapshotReply) : RaftNode :=
  if isr_Term reply >? currentTerm n then becomeFollower (isr_Term reply) n
  else if negb (NodeState_eqb (state n) Leader) || negb (currentTerm n =? term) then n
  else
    let n := if is_LastIncludedIndex args >? mget (matchIndex n) peer
             then set_matchIndex (<[peer := is_LastIncludedIndex args]> (matchIndex n)) n else n in
    set_nextIndex (<[peer := mget (matchIndex n) peer ⊕ 1]> (nextIndex n)) n.

(** ** Restart *)

(** The node, and the snapshot the state machine is restored from, if any. *)
Definition restoreFromSnapshot (n : RaftNode) : RaftNode * option bytes :=
  match loadSnapshotFile n with
  | (n, inr _) => (n, None)
  | (n, inl (index, term, data)) =>
      if index =? 0 then (n, None)
      else
        let n := set_snapshotData data n in
        let n := set_rlog (log_compactTo (rlog n) index term) n in
        let n := if lastApplied n <? index then set_lastApplied index n else n in
        let n := if commitIndex n <? index then set_commitIndex index n else n in
        (n, Some data)
  end.

(** The start of [Run]: the error of [loadState] is dropped. *)
Definition Run_init (n : RaftNode) : RaftNode * option bytes :=
  restoreFromSnapshot (loadState n).1.

(** A process started on the data directory [d]. *)
Definition boot (cfg : Config) (d : Disk) : RaftNode * option bytes :=
  Run_init (NewRaftNode cfg d).

(** ** Properties *)

(** The snapshot file agrees with the log: none while nothing is compacted,
    the snapshot at the log's boundary otherwise. *)
Definition snapshot_durable (n : RaftNode) : Prop :=
  match files (disk n) !! snapshotPath with
  | None => log_snapshotIndex (rlog n) = 0
  | Some f => f = mkFile (CSnapshot (mkSnapshotFile (log_snapshotIndex (rlog n))
                                       (log_snapshotTerm (rlog n)) (snapshotData n))) true /\
              0 < log_snapshotIndex (rlog n)
  end.

Lemma saveSnapshot_ok i t d n :
  disk_ok n ->
  saveSnapshot i t d n =
  (set_disk (mkDisk (<[snapshotPath := mkFile (CSnapshot (mkSnapshotFile i t d)) true]>
                      (delete (tmpName snapshotPath) (files (disk n)))) (tail (faults (disk n)))) n, None).
Proof. intros H. unfold saveSnapshot. by rewrite writeFile_ok by by apply disk_ok_next. Qed.

(** An applied entry of a well-formed log has a term. *)
Lemma applied_term n :
  log_wf (rlog n) -> log_snapshotIndex (rlog n) < lastApplied n <= log_lastIndex (rlog n) ->
  1 <= le_Term (log_get (rlog n) (lastApplied n)) < u64_size /\ 0 < lastApplied n < u64_size - 1.
Proof.
  intros Hwf Hr. pose proof (wf_snapshotIndex _ Hwf). pose proof (wf_lastIndex_range _ Hwf). split; [|lia].
  rewrite get_view by (done || unfold is_u64; lia).
  destruct (proj2 (view_is_Some _ Hwf (lastApplied n))) as [e He]; [lia|]. rewrite He.
  apply (view_term _ Hwf _ _ He). lia.
Qed.

(** The log after a snapshot at [lastApplied]. *)
Definition compacted (n : RaftNode) : Log :=
  log_compactTo (rlog n) (lastApplied n) (le_Term (log_get (rlog n) (lastApplied n))).

(** Taking a snapshot: with nothing new applied it is a no-op; otherwise
    the log is cut at [lastApplied], keeping its term there and every entry
    above, and both files are on disk and agree, and nothing else of the node
    changes.  If the snapshot cannot be written the error is returned and the
    log is not cut. *)
Theorem TakeSnapshot_correct (n : RaftNode) (data : bytes) :
  log_wf (rlog n) -> 0 <= lastApplied n <= log_lastIndex (rlog n) ->
  let n' := (TakeSnapshot n data).1 in
  (lastApplied n <= log_snapshotIndex (rlog n) -> n' = n /\ (TakeSnapshot n data).2 = None) /\
  (log_snapshotIndex (rlog n) < lastApplied n -> disk_ok n ->
     (TakeSnapshot n data).2 = None /\ log_wf (rlog n') /\
     log_view (rlog n') = <[lastApplied n := sentinel (lastApplied n) (le_Term (log_get (rlog n) (lastApplied n)))]>
       (filter (λ '(k, _), lastApplied n < k) (log_view (rlog n))) /\
     log_lastIndex (rlog n') = log_lastIndex (rlog n) /\ snapshotData n' = data /\
     durable n' /\ snapshot_durable n' /\ currentTerm n' = currentTerm n /\ votedFor n' = votedFor n /\
     commitIndex n' = commitIndex n /\ lastApplied n' = lastApplied n /\ state n' = state n) /\
  (log_snapshotIndex (rlog n) < lastApplied n -> next_fault (disk n) <> NoFault ->
     (TakeSnapshot n data).2 <> None /\ rlog n' = rlog n /\
     files (disk n') !! snapshotPath = files (disk n) !! snapshotPath).
Proof.
  intros Hwf Hla. cbv zeta. pose proof (wf_snapshotIndex _ Hwf). unfold TakeSnapshot. split_and!.
  - intros Hle. by replace (lastApplied n <=? log_snapshotIndex (rlog n)) with true by lia; rewrite orb_true_r.
  - intros Hlt Hd. replace ((lastApplied n =? 0) || (lastApplied n <=? log_snapshotIndex (rlog n))) with false by lia.
    rewrite saveSnapshot_ok by done. set (t := le_Term _).
    destruct (applied_term n Hwf ltac:(lia)) as [Ht Hb]. fold t in Ht.
    assert (Hu : is_u64 (lastApplied n)) by (unfold is_u64; lia).
    set (m := set_rlog _ _). assert (Hl : rlog m = log_compactTo (rlog n) (lastApplied n) t) by done.
    assert (Hdm : disk_ok m) by by apply disk_ok_tail.
    cbn [fst snd]. change (rlog (persist m)) with (rlog m). rewrite Hl.
    split_and!; try done.
    + by apply compact_wf.
    + by apply compact_view.
    + rewrite compact_lastIndex by (done || lia). lia.
    + by apply persist_durable.
    + unfold snapshot_durable, persist. rewrite writeFile_ok by by apply disk_ok_next. node_simpl.
      rewrite lookup_insert_ne, lookup_delete_ne, Hl by done. subst m. node_simpl. rewrite lookup_insert_eq.
      unfold log_snapshotIndex, log_snapshotTerm. rewrite compact_first by done. split; [done|simpl; lia].
  - intros Hlt Hf. replace ((lastApplied n =? 0) || (lastApplied n <=? log_snapshotIndex (rlog n))) with false by lia.
    unfold saveSnapshot.
    destruct (writeFile_fail snapshotPath (CSnapshot (mkSnapshotFile (lastApplied n)
      (le_Term (log_get (rlog n) (lastApplied n))) data)) (disk n) Hf) as [He Hfile].
    destruct (writeFile _ _ _) as [d [e|]]; [|done]. done.
Qed.

(** A node with four applied entries and nothing compacted, on disk. *)
Definition exApplied : RaftNode :=
  persist (set_commitIndex 4 (set_lastApplied 3 (set_currentTerm 2 (set_rlog
    (mkLog [sentinel 0 0; mkLogEntry 1 1 [] false "" ""; mkLogEntry 1 2 [] false "" "";
            mkLogEntry 2 3 [] false "" ""; mkLogEntry 2 4 [] false "" ""]) exampleNode)))).

Lemma exApplied_wf : log_wf (rlog exApplied).
Proof. split; [done|by left|done|by repeat constructor|done]. Qed.

Lemma TakeSnapshot_correct_witness : durable (TakeSnapshot exApplied []).1.
Proof.
  refine (match TakeSnapshot_correct exApplied [] exApplied_wf _ with
          | conj _ (conj H _) => let '(conj _ (conj _ (conj _ (conj _ (conj _ (conj Hd _)))))) := H _ _ in Hd end).
  - vm_compute. done.
  - vm_compute. done.
  - apply Forall_nil_2.
Defined.

(** *** Crashes *)

(** What a restart makes of the two files. *)
Lemma boot_files cfg d s idx t data :
  d !! statePath = Some (mkFile (CState s) true) -> 0 < idx ->
  d !! snapshotPath = Some (mkFile (CSnapshot (mkSnapshotFile idx t data)) true) ->
  let n' := (boot cfg (mkDisk d [])).1 in
  rlog n' = log_compactTo (mkLog (ps_Entries s)) idx t /\ currentTerm n' = ps_CurrentTerm s /\
  votedFor n' = ps_VotedFor s /\ lastApplied n' = idx /\ commitIndex n' = idx /\
  (boot cfg (mkDisk d [])).2 = Some data.
Proof.
  intros Hs Hidx Hsn. cbv zeta. unfold boot, Run_init, loadState, readFile, NewRaftNode. cbn [disk files].
  rewrite Hs. simpl. unfold restoreFromSnapshot, loadSnapshotFile, readFile. cbn [disk files set_disk set_rlog
    set_votedFor set_currentTerm drop_fault]. rewrite Hsn. simpl.
  replace (idx =? 0) with false by lia. simpl. replace (0 <? idx) with true by lia. simpl.
  by replace (0 <? idx) with true by lia.
Qed.

Lemma boot_no_snapshot cfg d s :
  d !! statePath = Some (mkFile (CState s) true) -> d !! snapshotPath = None ->
  let n' := (boot cfg (mkDisk d [])).1 in
  rlog n' = mkLog (ps_Entries s) /\ currentTerm n' = ps_CurrentTerm s /\
  votedFor n' = ps_VotedFor s /\ lastApplied n' = 0 /\ commitIndex n' = 0 /\ (boot cfg (mkDisk d [])).2 = None.
Proof.
  intros Hs Hsn. cbv zeta. unfold boot, Run_init, loadState, readFile, NewRaftNode. cbn [disk files].
  rewrite Hs. simpl. unfold restoreFromSnapshot, loadSnapshotFile, readFile. cbn [disk files set_disk set_rlog
    set_votedFor set_currentTerm drop_fault]. rewrite Hsn. done.
Qed.

Lemma compact_idemp l i t : log_wf l -> 0 < i < u64_size - 1 -> 1 <= t < u64_size ->
  log_compactTo (log_compactTo l i t) i t = log_compactTo l i t.
Proof.
  intros Hwf Hi Ht. apply compact_noop. destruct (decide (log_snapshotIndex l < i)) as [Hlt|Hge].
  - rewrite compact_snapshotIndex; [lia|done|unfold is_u64; lia|done].
  - rewrite compact_noop by lia. lia.
Qed.

(** The machine stops while [TakeSnapshot] runs: [done] of its file operations
    succeed, the next one is cut after [calls] system calls. *)
Definition TakeSnapshot_cut (done calls later : nat) (n : RaftNode) (data : bytes) : directory :=
  files (disk (TakeSnapshot (set_disk (mkDisk (files (disk n)) (power_cut done calls later)) n) data).1).

(** The directory then: the snapshot is being written, or the state file with the
    shortened log after it. *)
Lemma TakeSnapshot_cut_in done calls later n data :
  0 < lastApplied n -> log_snapshotIndex (rlog n) < lastApplied n ->
  let snap := CSnapshot (mkSnapshotFile (lastApplied n) (le_Term (log_get (rlog n) (lastApplied n))) data) in
  let st := CState (mkPersistedState (currentTerm n) (votedFor n) (entries (compacted n))) in
  exists flt, TakeSnapshot_cut done calls later n data ∈ writeFile_trace snapshotPath snap flt (files (disk n)) \/
    TakeSnapshot_cut done calls later n data ∈ writeFile_trace statePath st flt
      (<[snapshotPath := mkFile snap true]> (delete (tmpName snapshotPath) (files (disk n)))).
Proof.
  intros H0 Hlt snap st. unfold TakeSnapshot_cut. set (n0 := set_disk _ n).
  assert (Hn0 : rlog n0 = rlog n /\ lastApplied n0 = lastApplied n /\ files (disk n0) = files (disk n)) by done.
  destruct Hn0 as (E1 & E2 & E3). unfold TakeSnapshot. rewrite E1, E2.
  replace ((lastApplied n =? 0) || (lastApplied n <=? log_snapshotIndex (rlog n))) with false by lia.
  unfold saveSnapshot. fold snap. pose proof (writeFile_in_trace snapshotPath snap (disk n0)) as Hin. rewrite E3 in Hin.
  destruct done as [|done].
  - exists (PowerCut calls). left. destruct (writeFile snapshotPath snap (disk n0)) as [d [e|]] eqn:Hw; [exact Hin|].
    unfold writeFile in Hw. by simplify_eq.
  - rewrite writeFile_ok by done. cbn [fst snd]. eexists. right. cbn [disk persist set_disk].
    set (m := set_rlog _ _). exact (writeFile_in_trace statePath st (disk m)).
Qed.

(** The files at every point of the run: the state file old or new, and the
    snapshot old or new, but never a shortened log without its snapshot. *)
Lemma TakeSnapshot_cut_files done calls later n data d' :
  0 < lastApplied n -> log_snapshotIndex (rlog n) < lastApplied n ->
  durable n -> snapshot_durable n -> crash_image (TakeSnapshot_cut done calls later n data) d' ->
  let snap := mkFile (CSnapshot (mkSnapshotFile (lastApplied n)
                (le_Term (log_get (rlog n) (lastApplied n))) data)) true in
  let old := mkFile (CState (persistedState n)) true in
  let new := mkFile (CState (mkPersistedState (currentTerm n) (votedFor n) (entries (compacted n)))) true in
  (d' !! statePath = Some old /\ d' !! snapshotPath = files (disk n) !! snapshotPath) \/
  (d' !! snapshotPath = Some snap /\ (d' !! statePath = Some old \/ d' !! statePath = Some new)).
Proof.
  intros H0 Hlt Hd Hs Hc snap old new. destruct (TakeSnapshot_cut_in done calls later n data H0 Hlt) as (flt & [Hin|Hin]).
  - assert (Hst : d' !! statePath = Some old).
    { unfold durable in Hd. transitivity (files (disk n) !! statePath); [|exact Hd].
      eapply (writeFile_trace_other snapshotPath); [done|done|exact Hin|done|]. intros f Hf.
      rewrite Hd in Hf. by simplify_eq. }
    unfold snapshot_durable in Hs. destruct (files (disk n) !! snapshotPath) as [f|] eqn:Hf.
    + destruct Hs as [Hs _].
      destruct (writeFile_trace_crash _ _ _ _ _ _ Hf ltac:(by rewrite Hs) Hin d' Hc); auto.
    + destruct (writeFile_trace_crash_fresh _ _ _ _ _ Hf Hin d' Hc); auto.
  - right. split.
    + erewrite (writeFile_trace_other statePath); [apply lookup_insert_eq|done|done|exact Hin|done|].
      intros f. rewrite lookup_insert_eq. by intros [= <-].
    + assert (Hf : <[snapshotPath := snap]> (delete (tmpName snapshotPath) (files (disk n))) !! statePath = Some old)
        by (rewrite lookup_insert_ne, lookup_delete_ne by done; exact Hd).
      destruct (writeFile_trace_crash _ _ _ _ _ _ Hf eq_refl Hin d' Hc); auto.
Qed.

(** C20. A machine that stops at any point of [TakeSnapshot], before, between or
    inside its file operations, restarts with its term and vote, with every log entry
    above its snapshot boundary, and with [lastApplied] at that boundary, which
    is the old or the new one; the state machine is restored from the snapshot
    of exactly that boundary. *)
Theorem TakeSnapshot_crash_recovery (n : RaftNode) (data : bytes) (cfg : Config) (done calls later : nat) (d' : directory) :
  log_wf (rlog n) -> log_snapshotIndex (rlog n) < lastApplied n <= log_lastIndex (rlog n) ->
  durable n -> snapshot_durable n -> crash_image (TakeSnapshot_cut done calls later n data) d' ->
  let r := boot cfg (mkDisk d' []) in
  currentTerm r.1 = currentTerm n /\ votedFor r.1 = votedFor n /\
  ((rlog r.1 = rlog n /\ lastApplied r.1 = log_snapshotIndex (rlog n) /\
    r.2 = (if log_snapshotIndex (rlog n) =? 0 then None else Some (snapshotData n))) \/
   (rlog r.1 = compacted n /\ lastApplied r.1 = lastApplied n /\ r.2 = Some data)) /\
  commitIndex r.1 = lastApplied r.1 /\ log_snapshotIndex (rlog r.1) = lastApplied r.1 /\
  (forall i, lastApplied r.1 < i -> log_view (rlog r.1) !! i = log_view (rlog n) !! i).
Proof.
  intros Hwf Hla Hd Hs Hc. cbv zeta. destruct (applied_term n Hwf Hla) as [Ht Hb].
  pose proof (wf_snapshotIndex _ Hwf). assert (Hu : is_u64 (lastApplied n)) by (unfold is_u64; lia).
  assert (Hsi : log_snapshotIndex (compacted n) = lastApplied n) by (apply compact_snapshotIndex; done || lia).
  assert (Hview : forall i, lastApplied n < i -> log_view (compacted n) !! i = log_view (rlog n) !! i).
  { intros i Hi. unfold compacted. rewrite compact_view by (done || lia). rewrite lookup_insert_ne by lia.
    apply option_eq. intros e. rewrite map_lookup_filter_Some. naive_solver. }
  destruct (TakeSnapshot_cut_files done calls later n data d' ltac:(lia) ltac:(lia) Hd Hs Hc) as [[Hst Hsn]|[Hsn Hst]].
  - unfold snapshot_durable in Hs. destruct (files (disk n) !! snapshotPath) as [f|].
    + destruct Hs as [-> Hpos]. destruct (boot_files cfg d' _ _ _ _ Hst Hpos Hsn) as (B1 & B2 & B3 & B4 & B5 & B6).
      assert (Hl : log_compactTo (mkLog (entries (rlog n))) (log_snapshotIndex (rlog n)) (log_snapshotTerm (rlog n)) = rlog n).
      { rewrite compact_noop; [by destruct (rlog n)|]. destruct (rlog n). simpl. lia. }
      simpl in B1. rewrite Hl in B1. rewrite B1, B2, B3, B4, B5, B6.
      replace (log_snapshotIndex (rlog n) =? 0) with false by lia. split_and!; try done. left. done.
    + destruct (boot_no_snapshot cfg d' _ Hst Hsn) as (B1 & B2 & B3 & B4 & B5 & B6).
      assert (Hl : mkLog (entries (rlog n)) = rlog n) by by destruct (rlog n).
      simpl in B1. rewrite Hl in B1. rewrite B1, B2, B3, B4, B5, B6, Hs. split_and!; try done. left. done.
  - assert (Hboot : rlog (boot cfg (mkDisk d' [])).1 = compacted n /\
      currentTerm (boot cfg (mkDisk d' [])).1 = currentTerm n /\ votedFor (boot cfg (mkDisk d' [])).1 = votedFor n /\
      lastApplied (boot cfg (mkDisk d' [])).1 = lastApplied n /\
      commitIndex (boot cfg (mkDisk d' [])).1 = lastApplied n /\ (boot cfg (mkDisk d' [])).2 = Some data).
    { destruct Hst as [Hst|Hst];
        destruct (boot_files cfg d' _ _ _ _ Hst (proj1 Hb) Hsn) as (B1 & B2 & B3 & B4 & B5 & B6);
        rewrite B1, B2, B3, B4, B5, B6; split_and!; try done.
      - simpl. unfold compacted. by destruct (rlog n).
      - simpl. replace (mkLog (entries (compacted n))) with (compacted n) by by destruct (compacted n).
        by apply compact_idemp. }
    destruct Hboot as (-> & -> & -> & -> & -> & ->). split_and!; try done. by right.
Qed.

(** The machine stops when the snapshot is written and the state file is created
    but not yet encoded. *)
Lemma TakeSnapshot_crash_recovery_witness :
  let r := boot exampleConfig (mkDisk (TakeSnapshot_cut 1 1 9 exApplied []) []) in
  currentTerm r.1 = currentTerm exApplied /\ votedFor r.1 = votedFor exApplied /\ lastApplied r.1 = 3.
Proof.
  cbv zeta. set (d := TakeSnapshot_cut 1 1 9 exApplied []).
  destruct (TakeSnapshot_crash_recovery exApplied [] exampleConfig 1 1 9 d) as (H1 & H2 & _).
  - exact exApplied_wf.
  - vm_compute. done.
  - reflexivity.
  - reflexivity.
  - intros name. subst d. destruct (TakeSnapshot_cut 1 1 9 exApplied [] !! name); done.
  - split; [exact H1|]. split; [exact H2|]. vm_compute. reflexivity.
Defined.

(** *** Installing *)

(** The node after the term and leader bookkeeping of the handler. *)
Definition is_prelude (n : RaftNode) (args : InstallSnapshotArgs) : RaftNode :=
  notifyHeartbeat (set_leaderID (is_LeaderID args)
    (if is_Term args >? currentTerm n then becomeFollower (is_Term args) n else n)).

Lemma is_prelude_fields n args :
  currentTerm n <= is_Term args ->
  let m := is_prelude n args in
  currentTerm m = is_Term args /\ rlog m = rlog n /\ lastApplied m = lastApplied n /\
  commitIndex m = commitIndex n /\ snapshotNotifyC m = snapshotNotifyC n /\ leaderID m = is_LeaderID args /\
  heartbeatC m = true /\ (disk_ok n -> disk_ok m) /\ (state n <> Leader \/ currentTerm n < is_Term args -> state m <> Leader).
Proof.
  intros H. unfold is_prelude. cbv zeta. destruct (is_Term args >? currentTerm n) eqn:Hgt.
  - split_and!; try done. intros Hd. by apply (becomeFollower_disk_ok (is_Term args) n).
  - node_unfold. split_and!; try done; [lia|]. intros [?|?]; [done|lia].
Qed.

Lemma HandleInstallSnapshot_stale n args :
  is_Term args < currentTerm n -> HandleInstallSnapshot n args = (n, mkInstallSnapshotReply (currentTerm n)).
Proof.
  intros H. unfold HandleInstallSnapshot. replace (is_Term args >? currentTerm n) with false by lia.
  by replace (is_Term args <? currentTerm n) with true by lia.
Qed.

Lemma HandleInstallSnapshot_current n args :
  currentTerm n <= is_Term args ->
  isr_Term (HandleInstallSnapshot n args).2 = is_Term args /\
  (is_LastIncludedIndex args <= log_snapshotIndex (rlog n) -> (HandleInstallSnapshot n args).1 = is_prelude n args).
Proof.
  intros H. destruct (is_prelude_fields n args H) as (P1 & P2 & _). revert P1 P2.
  unfold HandleInstallSnapshot, is_prelude. set (m := if is_Term args >? currentTerm n then _ else _).
  intros P1 P2. change (currentTerm m = is_Term args) in P1. rewrite P1, Z.ltb_irrefl. cbv zeta. rewrite P2.
  destruct (_ <=? _) eqn:Hle; [done|]. split; [|lia]. by destruct (saveSnapshot _ _ _ _) as [? []].
Qed.

(** A snapshot beyond the boundary: what the handler leaves. *)
Lemma install_fields n args :
  log_wf (rlog n) -> disk_ok n -> currentTerm n <= is_Term args ->
  log_snapshotIndex (rlog n) < is_LastIncludedIndex args < u64_size ->
  let n' := (HandleInstallSnapshot n args).1 in
  let idx := is_LastIncludedIndex args in
  currentTerm n' = is_Term args /\ leaderID n' = is_LeaderID args /\ heartbeatC n' = true /\
  rlog n' = log_compactTo (rlog n) idx (is_LastIncludedTerm args) /\
  lastApplied n' = Z.max (lastApplied n) idx /\ commitIndex n' = Z.max (commitIndex n) idx /\
  snapshotNotifyC n' = Some (mkSnapshotToApply idx (is_LastIncludedTerm args) (is_Data args)) /\
  state n' = state (is_prelude n args) /\ durable n' /\ snapshot_durable n'.
Proof.
  intros Hwf Hd HT Hidx. cbv zeta.
  destruct (is_prelude_fields n args HT) as (P1 & P2 & P3 & P4 & P5 & P6 & P7 & P8 & _). specialize (P8 Hd).
  revert P1 P2 P3 P4 P5 P6 P7 P8. unfold HandleInstallSnapshot. fold (is_prelude n args).
  set (m0 := if is_Term args >? currentTerm n then _ else _).
  change (notifyHeartbeat (set_leaderID (is_LeaderID args) m0)) with (is_prelude n args).
  intros P1 P2 P3 P4 P5 P6 P7 P8. change (currentTerm m0) with (currentTerm (is_prelude n args)).
  rewrite P1, Z.ltb_irrefl. cbv zeta. set (m := is_prelude n args) in *. clearbody m. clear m0.
  rewrite P2. replace (_ <=? _) with false by lia. rewrite saveSnapshot_ok by done. node_simpl. rewrite P2.
  set (l' := log_compactTo (rlog n) _ _). set (m2 := set_rlog l' _).
  set (m3 := if lastApplied m <? _ then _ else m2).
  assert (Hm3 : rlog m3 = l' /\ lastApplied m3 = Z.max (lastApplied n) (is_LastIncludedIndex args) /\
    commitIndex m3 = commitIndex n /\ disk m3 = disk m2 /\ currentTerm m3 = currentTerm m /\ state m3 = state m /\
    leaderID m3 = is_LeaderID args /\ heartbeatC m3 = true /\ snapshotData m3 = is_Data args).
  { subst m3. case_match; split_and!; try done; [simpl; lia|change (lastApplied m2) with (lastApplied m); lia]. }
  clearbody m3. destruct Hm3 as (M1 & M2 & M3 & M4 & M5 & M6 & M7 & M8 & M9).
  set (m4 := if commitIndex m3 <? _ then _ else m3).
  assert (Hm4 : rlog m4 = l' /\ lastApplied m4 = Z.max (lastApplied n) (is_LastIncludedIndex args) /\
    commitIndex m4 = Z.max (commitIndex n) (is_LastIncludedIndex args) /\ disk m4 = disk m2 /\
    currentTerm m4 = currentTerm m /\ state m4 = state m /\ leaderID m4 = is_LeaderID args /\ heartbeatC m4 = true /\
    snapshotData m4 = is_Data args).
  { subst m4. rewrite M3. case_match; split_and!; try done; simpl; lia. }
  clearbody m4. clear M1 M2 M3 M4 M5 M6 M7 M8 M9. destruct Hm4 as (M1 & M2 & M3 & M4 & M5 & M6 & M7 & M8 & M9).
  assert (Hd4 : disk_ok m4) by (unfold disk_ok; rewrite M4; by apply disk_ok_tail).
  pose proof (wf_snapshotIndex _ Hwf).
  split_and!; try done; try (simpl; congruence); [by apply (persist_durable m4)|].
  unfold snapshot_durable. cbn [disk rlog set_snapshotNotifyC persist set_disk snapshotData].
  rewrite writeFile_ok by by apply disk_ok_next. cbn [fst files].
  rewrite lookup_insert_ne, lookup_delete_ne, M4, M1, M9 by done. subst m2.
  cbn [disk set_rlog set_snapshotData set_disk files]. rewrite lookup_insert_eq. subst l'.
  unfold log_snapshotIndex, log_snapshotTerm. rewrite compact_first by (done || unfold is_u64; lia). split; [done|simpl; lia].
Qed.

(** C21. Installing a snapshot, on a disk without faults: one from a stale leader
    changes nothing; one at or below the node's own boundary changes neither log
    nor progress; any other moves the boundary to the snapshot, keeps exactly the
    entries above it (whatever the term of the node's entry at the boundary),
    never moves [lastApplied] or [commitIndex] back, has both files written
    before the reply leaves and hands the data to the apply loop.  In each case
    the reply carries the larger of the two terms. *)
Theorem HandleInstallSnapshot_correct (n : RaftNode) (args : InstallSnapshotArgs) :
  log_wf (rlog n) -> disk_ok n -> 0 < is_LastIncludedIndex args < u64_size - 1 ->
  1 <= is_LastIncludedTerm args < u64_size ->
  let n' := (HandleInstallSnapshot n args).1 in
  let idx := is_LastIncludedIndex args in
  isr_Term (HandleInstallSnapshot n args).2 = Z.max (currentTerm n) (is_Term args) /\
  (is_Term args < currentTerm n -> n' = n) /\
  (currentTerm n <= is_Term args -> currentTerm n' = is_Term args /\ leaderID n' = is_LeaderID args /\
     heartbeatC n' = true /\
     (idx <= log_snapshotIndex (rlog n) -> rlog n' = rlog n /\ lastApplied n' = lastApplied n /\
        commitIndex n' = commitIndex n /\ snapshotNotifyC n' = snapshotNotifyC n) /\
     (log_snapshotIndex (rlog n) < idx -> log_wf (rlog n') /\
        log_view (rlog n') = <[idx := sentinel idx (is_LastIncludedTerm args)]>
          (filter (λ '(k, _), idx < k) (log_view (rlog n))) /\
        lastApplied n' = Z.max (lastApplied n) idx /\ commitIndex n' = Z.max (commitIndex n) idx /\
        snapshotNotifyC n' = Some (mkSnapshotToApply idx (is_LastIncludedTerm args) (is_Data args)) /\
        durable n' /\ snapshot_durable n')).
Proof.
  intros Hwf Hd Hidx Ht. cbv zeta. destruct (decide (is_Term args < currentTerm n)) as [Hst|Hge].
  { rewrite HandleInstallSnapshot_stale by done. split_and!; try done; simpl; lia. }
  assert (HT : currentTerm n <= is_Term args) by lia.
  destruct (HandleInstallSnapshot_current n args HT) as [-> Hcov].
  split; [lia|]. split; [lia|]. intros _.
  destruct (decide (is_LastIncludedIndex args <= log_snapshotIndex (rlog n))) as [Hle|Hgt].
  - rewrite Hcov by done. destruct (is_prelude_fields n args HT) as (? & ? & ? & ? & ? & ? & ? & _).
    split_and!; try done. intros; lia.
  - destruct (install_fields n args Hwf Hd HT ltac:(lia)) as (? & ? & ? & -> & ? & ? & ? & _ & ? & ?).
    assert (is_u64 (is_LastIncludedIndex args)) by (unfold is_u64; lia).
    split_and!; try done. intros _.
    split_and!; try done; [apply compact_wf; done || lia|apply compact_view; done || lia].
Qed.

Lemma HandleInstallSnapshot_correct_witness :
  let args := mkInstallSnapshotArgs 3 "b" 4 2 [] in
  let n' := (HandleInstallSnapshot exApplied args).1 in
  log_snapshotIndex (rlog exApplied) < 4 /\ currentTerm exApplied < 3 /\
  isr_Term (HandleInstallSnapshot exApplied args).2 = 3 /\
  log_view (rlog n') = <[4 := sentinel 4 2]> (filter (λ '(k, _), 4 < k) (log_view (rlog exApplied))) /\
  durable n' /\ snapshot_durable n'.
Proof.
  cbv zeta. split; [vm_compute; reflexivity|]. split; [vm_compute; reflexivity|].
  destruct (HandleInstallSnapshot_correct exApplied (mkInstallSnapshotArgs 3 "b" 4 2 [])
    exApplied_wf (Forall_nil_2 _)) as (H1 & _ & H2); [done..|].
  split; [exact H1|]. destruct (H2 ltac:(done)) as (_ & _ & _ & _ & H3). destruct (H3 ltac:(done)) as (_ & H4 & _ & _ & _ & H5 & H6).
  split_and!; assumption.
Defined.
