(* ===== verification/Client.v ===== *)
(** * Client operations and the event loop (raft/node.go)

    [Submit], membership changes, [checkQuorum] and the cases of the [select]
    of [Run]. *)

From S2P Require Import Prelude RaftLog Rpc Disk Node Election Replication ReplicationSafety Snapshot.

(** [ErrNotLeader]. *)
Inductive raft_error := ErrNotLeader.

#[export] Instance raft_error_eq_dec : EqDecision raft_error.
Proof. solve_decision. Defined.

(** ** Submitting commands *)

Definition Submit (n : RaftNode) (command : bytes)
  : RaftNode * (Z * Z + raft_error) * list Goroutine :=
  if negb (NodeState_eqb (state n) Leader) then (n, inr ErrNotLeader, [])
  else
    let index := log_lastIndex (rlog n) ⊕ 1 in
    let term := currentTerm n in
    let n := set_rlog (log_append (rlog n) [mkLogEntry term index command false "" ""]) n in
    let n := persist n in
    (n, inl (index, term), map (dispatch n term) (peers n)).

(** ** Membership changes *)

Definition submitConfigLocked (now : Z) (n : RaftNode) (op addr : string)
  : RaftNode * list Goroutine :=
  let index := log_lastIndex (rlog n) ⊕ 1 in
  let term := currentTerm n in
  let n := set_rlog (log_append (rlog n) [mkLogEntry term index [] true op addr]) n in
  let n := persist n in
  let n :=
    if String.eqb op "add" then
      let n := set_peers (peers n ++ [addr]) n in
      let n := set_nextIndex (<[addr := index]> (nextIndex n)) n in
      let n := set_matchIndex (<[addr := 0]> (matchIndex n)) n in
      set_lastHeardFrom (<[addr := now]> (lastHeardFrom n)) n
    else n in
  (n, map (dispatch n term) (peers n)).

Definition AddPeer (now : Z) (n : RaftNode) (rpcAddr : string)
  : RaftNode * option raft_error * list Goroutine :=
  if negb (NodeState_eqb (state n) Leader) then (n, Some ErrNotLeader, [])
  else if String.eqb rpcAddr (cfg_SelfAddr (config n)) then (n, None, [])
  else if existsb (λ p, String.eqb p rpcAddr) (peers n) then (n, None, [])
  else let '(n, gs) := submitConfigLocked now n "add" rpcAddr in (n, None, gs).

Definition RemovePeer (now : Z) (n : RaftNode) (rpcAddr : string)
  : RaftNode * option raft_error * list Goroutine :=
  if negb (NodeState_eqb (state n) Leader) then (n, Some ErrNotLeader, [])
  else if String.eqb rpcAddr (cfg_SelfAddr (config n))
  then let '(n, gs) := submitConfigLocked now n "remove" rpcAddr in (n, None, gs)
  else if negb (existsb (λ p, String.eqb p rpcAddr) (peers n)) then (n, None, [])
  else let '(n, gs) := submitConfigLocked now n "remove" rpcAddr in (n, None, gs).

Definition applyConfigEntry (now : Z) (n : RaftNode) (entry : LogEntry) : RaftNode :=
  let peer := le_ConfigPeer entry in
  if String.eqb (le_ConfigOp entry) "add" then
    if String.eqb peer (cfg_SelfAddr (config n)) then n
    else if existsb (λ p, String.eqb p peer) (peers n) then n
    else
      let n := set_peers (peers n ++ [peer]) n in
      if NodeState_eqb (state n) Leader then
        let n := set_nextIndex (<[peer := log_lastIndex (rlog n) ⊕ 1]> (nextIndex n)) n in
        let n := set_matchIndex (<[peer := 0]> (matchIndex n)) n in
        set_lastHeardFrom (<[peer := now]> (lastHeardFrom n)) n
      else n
  else if String.eqb (le_ConfigOp entry) "remove" then
    if String.eqb peer (cfg_SelfAddr (config n)) then
      let n := set_peers [] n in
      let n := set_nextIndex ∅ n in
      let n := set_matchIndex ∅ n in
      if NodeState_eqb (state n) Leader
      then set_leaderID "" (set_state Follower n) else n
    else
      let n := set_peers (List.filter (λ p, negb (String.eqb p peer)) (peers n)) n in
      let n := set_nextIndex (delete peer (nextIndex n)) n in
      set_matchIndex (delete peer (matchIndex n)) n
  else n.

(** ** The leader's quorum check *)

Definition heardCount (now : Z) (n : RaftNode) : nat :=
  let threshold := durationMs (cfg_ElectionTimeoutMaxMs (config n)) in
  foldl (λ heard peer,
    match lastHeardFrom n !! peer with
    | Some t => if time_Sub now t <? threshold then S heard else heard
    | None => heard
    end) 1%nat (peers n).

Definition checkQuorum (now : Z) (n : RaftNode) : RaftNode :=
  if negb (NodeState_eqb (state n) Leader) then n
  else if (heardCount now n <? majority (length (peers n)))%nat
  then becomeFollower (currentTerm n) n
  else n.

(** ** The event loop *)

(** [eligible] in the election-timer case, and the re-check after the pre-vote. *)
Definition electionEligible (n : RaftNode) : bool :=
  negb (NodeState_eqb (state n) Leader) && negb (bool_decide (peers n = [])).

(** The goroutine of the election-timer case once [startPreVote] has answered:
    the new state, and whether an election is started. *)
Definition afterPreVote (won : bool) (n : RaftNode) : RaftNode * bool :=
  if won && electionEligible n then (becomeCandidate n, true) else (n, false).

(** The heartbeat-ticker case. *)
Definition heartbeatTick (now : Z) (n : RaftNode) : RaftNode * list Goroutine :=
  if NodeState_eqb (state n) Leader then sendHeartbeats (checkQuorum now n) else (n, []).

(** The heartbeat-signal case consumes the signal; the timer is reset. *)
Definition heartbeatSignal (n : RaftNode) : RaftNode := set_heartbeatC false n.

(** ** Properties *)

(** A built message holds every entry from [nextIndex] on. *)
Lemma build_contains n peer i e :
  sendable n peer -> mget (nextIndex n) peer <= i -> log_view (rlog n) !! i = Some e ->
  e ∈ ae_Entries (buildArgsLocked n peer).
Proof.
  intros Hs Hi He. destruct (build_prev n peer Hs) as (_ & Hu & Hu' & _). destruct Hs as [Hwf Hn].
  rewrite build_entries by done. unfold log_suffix.
  replace (mget (nextIndex n) peer - 1 + 1) with (mget (nextIndex n) peer) by lia.
  apply list_elem_of_lookup. exists (Z.to_nat (i - mget (nextIndex n) peer)).
  assert (i <= log_lastIndex (rlog n)) by (apply (view_is_Some _ Hwf); eauto).
  rewrite slice_lookup by done. cbv zeta. rewrite decide_True by lia. rewrite <- He. f_equal. lia.
Qed.

(** Appending one entry of the current term. *)
Lemma append_one l e :
  log_wf l -> le_Index e = log_lastIndex l + 1 -> entry_ok e -> log_lastIndex l + 2 < u64_size ->
  log_wf (log_append l [e]) /\ log_lastIndex (log_append l [e]) = log_lastIndex l + 1 /\
  log_snapshotIndex (log_append l [e]) = log_snapshotIndex l /\
  log_view (log_append l [e]) = <[log_lastIndex l + 1 := e]> (log_view l).
Proof.
  intros Hwf Hi Hok Hb. split; [apply append_wf; simpl; auto; change (lenZ [e]) with 1; lia|].
  split; [apply append_lastIndex; [done|]; change (lenZ [e]) with 1; lia|].
  split; [unfold log_snapshotIndex; by rewrite first_append|].
  rewrite append_view by done. apply map_eq. intros k.
  rewrite lookup_union. change (map_seqZ (log_lastIndex l + 1) [e]) with
    (<[log_lastIndex l + 1 := e]> (∅ : gmap Z LogEntry)).
  destruct (decide (log_lastIndex l + 1 = k)) as [<-|Hne].
  - rewrite !lookup_insert_eq. rewrite (proj2 (view_None l Hwf _)) by lia. done.
  - rewrite !lookup_insert_ne by done. rewrite lookup_empty. by destruct (log_view l !! k).
Qed.

(** A client command reaches the log only through a leader: a node that is
    not the leader refuses it and changes nothing; a leader appends it at the
    next index with its own term, has it on disk before anything is sent, and
    offers it to every peer, in a message that contains it or, where the peer
    is behind the compaction point, as part of what follows the snapshot. *)
Theorem Submit_correct (n : RaftNode) (command : bytes) :
  log_wf (rlog n) -> disk_ok n -> 1 <= currentTerm n < u64_size -> log_lastIndex (rlog n) + 2 < u64_size ->
  (forall p, p ∈ peers n -> 1 <= mget (nextIndex n) p <= log_lastIndex (rlog n) + 1) ->
  let '(n', res, gs) := Submit n command in
  (state n <> Leader -> n' = n /\ res = inr ErrNotLeader /\ gs = []) /\
  (state n = Leader ->
   let index := log_lastIndex (rlog n) + 1 in
   let e := mkLogEntry (currentTerm n) index command false "" "" in
   res = inl (index, currentTerm n) /\ log_wf (rlog n') /\ log_lastIndex (rlog n') = index /\
   log_view (rlog n') = <[index := e]> (log_view (rlog n)) /\ durable n' /\
   commitIndex n' = commitIndex n /\ length gs = length (peers n) /\
   (forall p, p ∈ peers n -> exists g, g ∈ gs /\
      ((exists args, g = GoSendToPeer p (currentTerm n) args /\ e ∈ ae_Entries args) \/
       (exists args, g = GoSendSnapshotToPeer p (currentTerm n) args /\ is_LastIncludedIndex args < index)))).
Proof.
  intros Hwf Hd HT Hb Hnext. destruct (Submit n command) as [[n' res] gs] eqn:Hsub. unfold Submit in Hsub.
  destruct (NodeState_eqb (state n) Leader) eqn:Hs; simpl in Hsub; simplify_eq.
  2:{ apply NodeState_eqb_false in Hs. split; [done|]. intros. done. }
  apply NodeState_eqb_true in Hs. split; [done|]. intros _. cbv zeta.
  pose proof (wf_lastIndex_range _ Hwf) as Hr. pose proof (wf_snapshotIndex _ Hwf).
  rewrite (u64_small (log_lastIndex (rlog n) + 1)) by (unfold is_u64; lia).
  set (e := mkLogEntry (currentTerm n) (log_lastIndex (rlog n) + 1) command false "" "").
  destruct (append_one (rlog n) e Hwf eq_refl HT Hb) as (Hwf' & Hla & Hsn & Hv).
  set (n1 := persist _). assert (Hl1 : rlog n1 = log_append (rlog n) [e]) by done.
  assert (Hd1 : durable n1) by (apply persist_durable; done).
  assert (Hn1 : nextIndex n1 = nextIndex n) by done. assert (Hc1 : commitIndex n1 = commitIndex n) by done.
  clearbody n1. rewrite Hl1.
  split_and!; try done; [by rewrite length_map|].
  intros p Hp. exists (dispatch n1 (currentTerm n) p). split; [by apply list_elem_of_fmap_2|].
  specialize (Hnext p Hp). unfold dispatch. rewrite Hl1, Hsn, Hn1.
  destruct (mget (nextIndex n) p <=? log_snapshotIndex (rlog n)) eqn:Hle; [right|left].
  - eexists. split; [done|]. simpl. rewrite Hl1, Hsn. lia.
  - eexists. split; [done|]. apply (build_contains n1 p (log_lastIndex (rlog n) + 1)).
    + split; rewrite Hl1; [done|]. rewrite Hsn, Hla, Hn1. lia.
    + rewrite Hn1. lia.
    + rewrite Hl1, Hv. by rewrite lookup_insert_eq.
Qed.

Lemma Submit_correct_witness :
  log_lastIndex (rlog (Submit exLeader []).1.1) = 4.
Proof.
  refine (match Submit_correct exLeader [] exLeader_wf (Forall_nil_2 _) _ _ _ with
          | conj _ H => let '(conj _ (conj _ (conj Hla _))) := H eq_refl in Hla end).
  - done.
  - done.
  - intros p Hp. change (peers exLeader) with ["b"; "c"] in Hp. rewrite !elem_of_cons, elem_of_nil in Hp.
    destruct_or?; subst; vm_compute; done.
Defined.

(** The peer list of a node: no duplicates, and never the node itself. *)
Definition peers_ok (n : RaftNode) : Prop := NoDup (peers n) /\ cfg_SelfAddr (config n) ∉ peers n.

Lemma existsb_peer p ps : existsb (λ q, String.eqb q p) ps = bool_decide (p ∈ ps).
Proof.
  apply eq_bool_prop_intro. rewrite bool_decide_spec, Is_true_true, existsb_exists.
  setoid_rewrite String.eqb_eq. setoid_rewrite <- list_elem_of_In. naive_solver.
Qed.

Lemma peers_ok_add (n n' : RaftNode) p :
  peers_ok n -> p <> cfg_SelfAddr (config n) -> p ∉ peers n ->
  peers n' = peers n ++ [p] -> config n' = config n -> peers_ok n'.
Proof.
  intros [Hnd Hself] Hp Hni Hp' Hc. unfold peers_ok. rewrite Hp', Hc. split.
  - apply NoDup_app. split_and!; [done| |apply NoDup_singleton]. intros x Hx ->%list_elem_of_singleton. done.
  - rewrite elem_of_app, list_elem_of_singleton. intros [?|?]; [done|]. congruence.
Qed.

Lemma elem_of_others (q p : string) (ps : list string) :
  q ∈ List.filter (λ x, negb (String.eqb x p)) ps <-> q ∈ ps /\ q <> p.
Proof. by rewrite !list_elem_of_In, filter_In, negb_true_iff, eqb_string_false. Qed.

Lemma peers_ok_filter (n n' : RaftNode) p :
  peers_ok n -> peers n' = List.filter (λ q, negb (String.eqb q p)) (peers n) -> config n' = config n -> peers_ok n'.
Proof.
  intros [Hnd Hself] Hp' Hc. unfold peers_ok. rewrite Hp', Hc. split.
  - by apply NoDup_ListNoDup, List.NoDup_filter, NoDup_ListNoDup.
  - rewrite elem_of_others. by intros [? _].
Qed.

(** [applyConfigEntry], branch by branch. *)
Section config.
Context (now : Z) (n : RaftNode) (entry : LogEntry).
Let p := le_ConfigPeer entry.
Let self := cfg_SelfAddr (config n).
Let n' := applyConfigEntry now n entry.

Lemma applyConfig_add_noop : le_ConfigOp entry = "add" -> p = self \/ p ∈ peers n -> n' = n.
Proof.
  intros Hop H. unfold n', applyConfigEntry. rewrite Hop. fold p self. rewrite String.eqb_refl.
  destruct (String.eqb p self) eqn:E; [done|]. rewrite existsb_peer.
  apply eqb_string_false in E. destruct H as [|H]; [done|]. by rewrite (bool_decide_eq_true_2 _ H).
Qed.

Lemma applyConfig_add : le_ConfigOp entry = "add" -> p <> self -> p ∉ peers n ->
  peers n' = peers n ++ [p] /\ config n' = config n.
Proof.
  intros Hop H1 H2. unfold n', applyConfigEntry. rewrite Hop. fold p self. rewrite String.eqb_refl.
  rewrite (proj2 (eqb_string_false p self) H1), existsb_peer, (bool_decide_eq_false_2 _ H2).
  cbv zeta. by destruct (NodeState_eqb _ _).
Qed.

Lemma applyConfig_remove_self : le_ConfigOp entry = "remove" -> p = self ->
  peers n' = [] /\ state n' <> Leader /\ config n' = config n.
Proof.
  intros Hop H1. unfold n', applyConfigEntry. rewrite Hop. fold p self. rewrite H1, !String.eqb_refl.
  change (String.eqb "remove" "add") with false. cbv zeta iota.
  destruct (NodeState_eqb _ _) eqn:E; [done|]. by apply NodeState_eqb_false in E.
Qed.

Lemma applyConfig_remove : le_ConfigOp entry = "remove" -> p <> self ->
  peers n' = List.filter (λ q, negb (String.eqb q p)) (peers n) /\ config n' = config n.
Proof.
  intros Hop H1. unfold n', applyConfigEntry. rewrite Hop. fold p self.
  rewrite (proj2 (eqb_string_false p self) H1), String.eqb_refl. done.
Qed.

Lemma applyConfig_other : le_ConfigOp entry <> "add" -> le_ConfigOp entry <> "remove" -> n' = n.
Proof.
  intros H1 H2. unfold n', applyConfigEntry.
  by rewrite (proj2 (eqb_string_false _ _) H1), (proj2 (eqb_string_false _ _) H2).
Qed.
End config.

(** What a committed configuration entry does to the peer list, on the
    leader and on every follower alike: an addition makes the address a peer
    once, a removal makes it none, a node never becomes its own peer, and a
    node that is removed forgets its peers and stops leading. *)
Theorem applyConfigEntry_peers (now : Z) (n : RaftNode) (entry : LogEntry) (q : string) :
  peers_ok n ->
  let n' := applyConfigEntry now n entry in
  let p := le_ConfigPeer entry in
  let self := cfg_SelfAddr (config n) in
  peers_ok n' /\
  (le_ConfigOp entry = "add" -> q ∈ peers n' <-> q ∈ peers n \/ (q = p /\ p <> self)) /\
  (le_ConfigOp entry = "remove" ->
     (p <> self -> q ∈ peers n' <-> q ∈ peers n /\ q <> p) /\
     (p = self -> peers n' = [] /\ state n' <> Leader)).
Proof.
  intros Hok. cbv zeta.
  destruct (decide (le_ConfigOp entry = "add")) as [Hop|Hna].
  - destruct (decide (le_ConfigPeer entry = cfg_SelfAddr (config n) \/ le_ConfigPeer entry ∈ peers n)) as [Hc|Hc].
    + rewrite applyConfig_add_noop by done. split_and!; [done| |intros H; by rewrite Hop in H]. naive_solver.
    + assert (Hs : le_ConfigPeer entry <> cfg_SelfAddr (config n)) by tauto.
      assert (Hi : le_ConfigPeer entry ∉ peers n) by tauto. clear Hc. destruct (applyConfig_add now n entry Hop Hs Hi) as [Hp Hc].
      split_and!; [by eapply peers_ok_add| |intros H; by rewrite Hop in H].
      intros _. rewrite Hp, elem_of_app, list_elem_of_singleton. naive_solver.
  - destruct (decide (le_ConfigOp entry = "remove")) as [Hop|Hnr]; [|by rewrite applyConfig_other].
    destruct (decide (le_ConfigPeer entry = cfg_SelfAddr (config n))) as [Hs|Hs].
    + destruct (applyConfig_remove_self now n entry Hop Hs) as (Hp & Hst & Hc).
      split_and!; [|done|by intros _; split].
      unfold peers_ok. rewrite Hp. split; [constructor|apply not_elem_of_nil].
    + destruct (applyConfig_remove now n entry Hop Hs) as [Hp Hc].
      split_and!; [by eapply peers_ok_filter|done|]. intros _. split; [|done]. intros _. rewrite Hp. apply elem_of_others.
Qed.

Lemma applyConfigEntry_peers_witness :
  peers_ok (applyConfigEntry 0 exampleNode (mkLogEntry 1 1 [] true "add" "d")).
Proof.
  refine (proj1 (applyConfigEntry_peers 0 exampleNode (mkLogEntry 1 1 [] true "add" "d") "d" _)).
  split; apply (bool_decide_unpack _); vm_compute; exact I.
Defined.

(** C28. Membership changes go through the log of the leader, and only there: a
    node that is not the leader refuses, a change that is already in effect is
    a no-op, any other appends exactly one configuration entry, on disk (one
    without faults) before it is sent.  An addition counts at once: the new peer is tracked from the
    entry's own index on; a removal leaves the peer list alone until the entry
    is committed. *)
Theorem membership_change_correct (now : Z) (n : RaftNode) (addr : string) :
  peers_ok n -> log_wf (rlog n) -> disk_ok n -> 1 <= currentTerm n < u64_size ->
  log_lastIndex (rlog n) + 2 < u64_size ->
  let index := log_lastIndex (rlog n) + 1 in
  let entry op := mkLogEntry (currentTerm n) index [] true op addr in
  let add := AddPeer now n addr in
  let rem := RemovePeer now n addr in
  (state n <> Leader -> add = (n, Some ErrNotLeader, []) /\ rem = (n, Some ErrNotLeader, [])) /\
  (state n = Leader -> add.1.2 = None /\ rem.1.2 = None /\
   (addr = cfg_SelfAddr (config n) \/ addr ∈ peers n -> add = (n, None, [])) /\
   (addr <> cfg_SelfAddr (config n) -> addr ∉ peers n ->
      rem = (n, None, []) /\ peers_ok add.1.1 /\ peers add.1.1 = peers n ++ [addr] /\
      log_view (rlog add.1.1) = <[index := entry "add"]> (log_view (rlog n)) /\
      mget (nextIndex add.1.1) addr = index /\ mget (matchIndex add.1.1) addr = 0 /\
      durable add.1.1 /\ length add.2 = S (length (peers n))) /\
   (addr = cfg_SelfAddr (config n) \/ addr ∈ peers n ->
      peers rem.1.1 = peers n /\
      log_view (rlog rem.1.1) = <[index := entry "remove"]> (log_view (rlog n)) /\
      durable rem.1.1 /\ length rem.2 = length (peers n))).
Proof.
  intros Hok Hwf Hd HT Hb. cbv zeta. unfold AddPeer, RemovePeer.
  destruct (NodeState_eqb (state n) Leader) eqn:Hs; simpl negb; cbv iota.
  2:{ apply NodeState_eqb_false in Hs. by split. }
  apply NodeState_eqb_true in Hs. split; [done|]. intros _. rewrite existsb_peer.
  pose proof (wf_lastIndex_range _ Hwf). pose proof (wf_snapshotIndex _ Hwf).
  assert (Hsub : forall op, let r := submitConfigLocked now n op addr in
    log_view (rlog r.1) = <[log_lastIndex (rlog n) + 1 :=
      mkLogEntry (currentTerm n) (log_lastIndex (rlog n) + 1) [] true op addr]> (log_view (rlog n)) /\
    durable r.1 /\ peers r.1 = (if String.eqb op "add" then peers n ++ [addr] else peers n) /\
    config r.1 = config n /\ length r.2 = length (peers r.1) /\
    (op = "add" -> mget (nextIndex r.1) addr = log_lastIndex (rlog n) + 1 /\ mget (matchIndex r.1) addr = 0)).
  { intros op. unfold submitConfigLocked. rewrite (u64_small (log_lastIndex (rlog n) + 1)) by (unfold is_u64; lia).
    set (e := mkLogEntry _ _ _ _ _ _). destruct (append_one (rlog n) e Hwf eq_refl HT Hb) as (_ & _ & _ & Hv).
    set (n1 := persist _). assert (Hl1 : rlog n1 = log_append (rlog n) [e] /\ durable n1 /\ peers n1 = peers n /\
      config n1 = config n) by (split_and!; [done|by apply persist_durable|done|done]).
    clearbody n1. destruct Hl1 as (Hl1 & Hdu & Hp1 & Hc1).
    destruct (String.eqb op "add") eqn:Hop; cbv zeta.
    - cbn [fst snd]. rewrite length_map. node_simpl. rewrite Hl1, Hp1, !mget_insert. split_and!; done.
    - cbn [fst snd]. rewrite length_map, Hl1, Hp1. split_and!; try done. intros ->. done. }
  pose proof (Hsub "add") as (A1 & A2 & A3 & A4 & A5 & A6). pose proof (Hsub "remove") as (R1 & R2 & R3 & _ & R5 & _).
  clear Hsub. destruct (submitConfigLocked now n "add" addr) as [na ga], (submitConfigLocked now n "remove" addr) as [nr gr].
  simpl in *. destruct (A6 eq_refl) as [A7 A8].
  destruct (String.eqb addr (cfg_SelfAddr (config n))) eqn:Hself.
  { apply eqb_string_true in Hself. split_and!; try done. intros _. cbn [fst snd]. rewrite R5, R3. by split_and!. }
  apply eqb_string_false in Hself. case_bool_decide as Hin; simpl.
  - split_and!; try done. intros _. cbn [fst snd]. rewrite R5, R3. by split_and!.
  - split_and!; try done; [naive_solver| |naive_solver]. intros _ _.
    split_and!; try done; [by eapply peers_ok_add|]. rewrite A5, A3, length_app. simpl. lia.
Qed.

Lemma membership_change_correct_witness :
  peers (AddPeer 0 exLeader "d").1.1 = ["b"; "c"; "d"].
Proof.
  refine (match membership_change_correct 0 exLeader "d" _ exLeader_wf (Forall_nil_2 _) _ _ with
          | conj _ H => proj1 (proj2 (proj2 (proj1 (proj2 (proj2 (proj2 (H eq_refl)))) _ _))) end).
  - split; apply (bool_decide_unpack _); vm_compute; exact I.
  - done.
  - done.
  - done.
  - apply (bool_decide_unpack _). vm_compute. exact I.
Defined.

(** The peers a leader has heard from within the maximum election timeout. *)
Definition recentPeers (now : Z) (n : RaftNode) : list string :=
  List.filter (λ p, match lastHeardFrom n !! p with
                    | Some t => time_Sub now t <? durationMs (cfg_ElectionTimeoutMaxMs (config n))
                    | None => false end) (peers n).

Lemma heardCount_spec now n : heardCount now n = S (length (recentPeers now n)).
Proof.
  unfold heardCount, recentPeers. rewrite <- (Nat.add_1_l (length _)). generalize 1%nat as k.
  induction (peers n) as [|p ps IH]; intros k; simpl; [lia|].
  destruct (lastHeardFrom n !! p) as [t|]; [|apply IH].
  destruct (time_Sub now t <? _); simpl; rewrite IH; lia.
Qed.

(** A leader keeps leading exactly as long as it has heard, within the
    maximum election timeout, from enough peers to form a majority with itself;
    otherwise it steps down in the same term.  The check changes nothing else
    on a leader that passes it, and nothing at all on any other node. *)
Theorem checkQuorum_majority (now : Z) (n : RaftNode) :
  checkQuorum now n =
  if bool_decide (state n = Leader /\ (2 * (1 + length (recentPeers now n)) <= length (peers n) + 1)%nat)
  then becomeFollower (currentTerm n) n else n.
Proof.
  unfold checkQuorum. destruct (NodeState_eqb (state n) Leader) eqn:Hs; simpl.
  - apply NodeState_eqb_true in Hs. rewrite heardCount_spec.
    destruct (majority_spec (length (peers n))) as [H1 _].
    assert (H3 : (2 * majority (length (peers n)) <= length (peers n) + 3)%nat).
    { unfold majority. pose proof (Nat.div_mod_eq (length (peers n) + 1) 2). lia. }
    destruct (_ <? _)%nat eqn:E.
    + apply Nat.ltb_lt in E. rewrite bool_decide_eq_true_2; [done|]. split; [done|lia].
    + apply Nat.ltb_ge in E. rewrite bool_decide_eq_false_2; [done|]. lia.
  - apply NodeState_eqb_false in Hs. by rewrite bool_decide_eq_false_2 by tauto.
Qed.
