(* ===== verification/Apply.v ===== *)
(** * The apply loop (raft/apply.go, raft/state_machine.go)

    The loop runs in its own goroutine and interleaves with the RPC handlers at
    every point where it does not hold [n.mu].  Its control state ([apply_pc])
    names those points; [apply_step] is what it does from one to the next.  The
    [select] of the source is the choice of an action ([apply_act]). *)

From S2P Require Import Prelude RaftLog Rpc Disk Node Replication Snapshot Client.

(** ** The application's side: [StateMachine] (state_machine.go)

    [S] is the application's state, [R] the type of the results [Apply] returns
    as an [interface{}]; [Snapshot] and [Restore] may fail. *)
Class StateMachine (S R : Type) := {
  sm_Apply : bytes -> S -> R * S;
  sm_Snapshot : S -> option bytes;
  sm_Restore : bytes -> S -> S * bool
}.

(** [ApplyMsg]: an applied entry with its result, or an installed snapshot. *)
Record ApplyMsg (R : Type) := mkApplyMsg {
  am_Index : Z;
  am_Term : Z;
  am_Command : bytes;
  am_Result : option R;
  am_IsSnapshot : bool;
  am_SnapshotIndex : Z;
  am_SnapshotTerm : Z;
  am_SnapshotData : bytes
}.
Arguments mkApplyMsg {R}.
Arguments am_Index {R}.
Arguments am_Term {R}.
Arguments am_Command {R}.
Arguments am_Result {R}.
Arguments am_IsSnapshot {R}.
Arguments am_SnapshotIndex {R}.
Arguments am_SnapshotTerm {R}.
Arguments am_SnapshotData {R}.

Section apply.
Context {S R : Type} `{!StateMachine S R}.

Definition entryMsg (e : LogEntry) (r : R) : ApplyMsg R :=
  mkApplyMsg (le_Index e) (le_Term e) (le_Command e) (Some r) false 0 0 [].

Definition snapshotMsg (s : snapshotToApply) : ApplyMsg R :=
  mkApplyMsg 0 0 [] None true (sta_index s) (sta_term s) (sta_data s).

(** Where the loop stands: in the outer [select]; about to take the lock and
    test [lastApplied < commitIndex]; holding a copied entry, about to call
    [Apply]; holding a snapshot, about to call [Restore]; sending on [applyCh]
    before going on as the second component says; returned. *)
Inductive apply_pc :=
  | PSelect
  | PCheck
  | PApply (e : LogEntry)
  | PRestore (s : snapshotToApply)
  | PSend (m : ApplyMsg R) (next : apply_pc)
  | PStopped.

Record ApplyState := mkApplyState {
  ap_node : RaftNode;
  ap_sm : S;
  ap_ch : list (ApplyMsg R);
  ap_pc : apply_pc
}.

Inductive apply_act := TakeSnapshotSignal | TakeCommitSignal | TakeStop | Proceed.

(** The buffer of [applyCh]. *)
Definition applyCh_cap : nat := 64.

(** One step; [None] when the action is not enabled. *)
Definition apply_step (now : Z) (a : apply_act) (st : ApplyState) : option ApplyState :=
  let '(mkApplyState n sm ch pc) := st in
  match pc, a with
  | PSelect, TakeStop | PSend _ _, TakeStop =>
      if stopCh n then Some (mkApplyState n sm ch PStopped) else None
  | PSelect, TakeSnapshotSignal =>
      match snapshotNotifyC n with
      | Some s => Some (mkApplyState (set_snapshotNotifyC None n) sm ch (PRestore s))
      | None => None
      end
  | PSelect, TakeCommitSignal =>
      if commitNotifyC n then Some (mkApplyState (set_commitNotifyC false n) sm ch PCheck) else None
  | PRestore s, Proceed =>
      Some (mkApplyState n (sm_Restore (sta_data s) sm).1 ch (PSend (snapshotMsg s) PSelect))
  | PCheck, Proceed =>
      if lastApplied n <? commitIndex n then
        let n := set_lastApplied (lastApplied n ⊕ 1) n in
        let entry := log_get (rlog n) (lastApplied n) in
        if le_IsConfig entry
        then Some (mkApplyState (applyConfigEntry now n entry) sm ch PCheck)
        else Some (mkApplyState n sm ch (PApply entry))
      else Some (mkApplyState n sm ch PSelect)
  | PApply e, Proceed =>
      let '(r, sm) := sm_Apply (le_Command e) sm in
      Some (mkApplyState n sm ch (PSend (entryMsg e r) PCheck))
  | PSend m next, Proceed =>
      if (length ch <? applyCh_cap)%nat then Some (mkApplyState n sm (ch ++ [m]) next) else None
  | _, _ => None
  end.

(** [fuel] steps of the loop past the [select], while it can proceed. *)
Fixpoint apply_run (now : Z) (fuel : nat) (st : ApplyState) : ApplyState :=
  match fuel with
  | O => st
  | Datatypes.S fuel =>
      match apply_step now Proceed st with
      | Some st' => apply_run now fuel st'
      | None => st
      end
  end.

(** The abstract meaning of a log for the application: its commands in
    order, configuration entries left out, and the results they return. *)
Fixpoint apply_entries (es : list LogEntry) (sm : S) : list (ApplyMsg R) * S :=
  match es with
  | [] => ([], sm)
  | e :: rest =>
      if le_IsConfig e then apply_entries rest sm
      else
        let '(r, sm) := sm_Apply (le_Command e) sm in
        let '(ms, sm) := apply_entries rest sm in
        (entryMsg e r :: ms, sm)
  end.
End apply.

Arguments ApplyState S R : clear implicits.
Arguments apply_pc R : clear implicits.

(** ** Draining the committed entries *)

Lemma applyConfigEntry_fields now n e :
  let n' := applyConfigEntry now n e in
  rlog n' = rlog n /\ commitIndex n' = commitIndex n /\ lastApplied n' = lastApplied n /\
  currentTerm n' = currentTerm n /\ votedFor n' = votedFor n /\ disk n' = disk n /\
  nid n' = nid n /\ config n' = config n.
Proof. unfold applyConfigEntry. cbv zeta. repeat (case_match; try done). Qed.

Section drain.
Context {S R : Type} `{!StateMachine S R}.
Implicit Types (n : RaftNode) (sm : S) (ch : list (ApplyMsg R)).

(** From the test of the inner loop, with [d] committed entries to go. *)
Lemma apply_drain now d : forall n sm ch,
  log_wf (rlog n) -> log_snapshotIndex (rlog n) <= lastApplied n ->
  commitIndex n <= log_lastIndex (rlog n) -> lastApplied n + Z.of_nat d = commitIndex n ->
  (length ch + d <= applyCh_cap)%nat ->
  let es := log_slice (rlog n) (lastApplied n + 1) (commitIndex n + 1) in
  exists fuel n', (fuel <= 3 * d + 1)%nat /\
    apply_run now fuel (mkApplyState n sm ch PCheck) =
      mkApplyState n' (apply_entries es sm).2 (ch ++ (apply_entries es sm).1) PSelect /\
    rlog n' = rlog n /\ commitIndex n' = commitIndex n /\ lastApplied n' = commitIndex n.
Proof.
  induction d as [|d IH]; intros n sm ch Hwf Hs Hc Hd Hcap; cbv zeta;
    pose proof (wf_lastIndex_range _ Hwf); pose proof (wf_snapshotIndex _ Hwf).
  - exists 1%nat, n. split; [lia|]. rewrite slice_nil by (unfold is_u64; done || lia).
    simpl. replace (lastApplied n <? commitIndex n) with false by lia.
    rewrite app_nil_r. split_and!; [done|done|done|lia].
  - rewrite slice_cons by (unfold is_u64; done || lia).
    set (e := log_get (rlog n) (lastApplied n + 1)).
    set (n1 := set_lastApplied (lastApplied n + 1) n).
    assert (Hstep : apply_step now Proceed (mkApplyState n sm ch PCheck) =
      Some (if le_IsConfig e then mkApplyState (applyConfigEntry now n1 e) sm ch PCheck
            else mkApplyState n1 sm ch (PApply e))).
    { simpl. replace (lastApplied n <? commitIndex n) with true by lia.
      rewrite (u64_small (lastApplied n + 1)) by (unfold is_u64; lia). fold n1. fold e.
      by destruct (le_IsConfig e). }
    destruct (le_IsConfig e) eqn:Hcfg.
    + destruct (applyConfigEntry_fields now n1 e) as (Hl & Hci & Hla & _).
      destruct (IH (applyConfigEntry now n1 e) sm ch) as (fuel & n' & Hf & Hrun & Hl' & Hc' & Ha').
      { by rewrite Hl. }
      { rewrite Hl, Hla. subst n1; node_simpl. lia. }
      { rewrite Hl, Hci. subst n1; node_simpl. lia. }
      { rewrite Hci, Hla. subst n1; node_simpl. lia. }
      { lia. }
      rewrite Hl, Hci, Hla in *. subst n1; node_simpl.
      exists (Datatypes.S fuel), n'. split; [lia|].
      change (apply_run now (Datatypes.S fuel) ?st) with
        (match apply_step now Proceed st with Some st' => apply_run now fuel st' | None => st end).
      rewrite Hstep. simpl. rewrite Hcfg. done.
    + destruct (sm_Apply (le_Command e) sm) as [r sm1] eqn:Happ.
      destruct (IH n1 sm1 (ch ++ [entryMsg e r])) as (fuel & n' & Hf & Hrun & Hl' & Hc' & Ha').
      { done. }
      { subst n1; node_simpl. lia. }
      { subst n1; node_simpl. lia. }
      { subst n1; node_simpl. lia. }
      { rewrite length_app. simpl. lia. }
      exists (3 + fuel)%nat, n'. split; [lia|].
      change (apply_run now (3 + fuel) ?st) with
        (match apply_step now Proceed st with
         | Some st' => apply_run now (2 + fuel) st' | None => st end).
      rewrite Hstep. simpl. rewrite Happ. simpl.
      replace (length ch <? applyCh_cap)%nat with true by (symmetry; apply Nat.ltb_lt; lia).
      rewrite Hrun. subst n1; node_simpl. rewrite Hcfg.
      destruct (apply_entries _ sm1) as [ms sm2]. simpl. rewrite <- app_assoc. done.
Qed.
End drain.

(** ** Properties *)

(** The commands of a sequence of entries, applied in two runs. *)
Lemma apply_entries_app {S R} `{!StateMachine S R} (es fs : list LogEntry) (sm : S) :
  apply_entries (es ++ fs) sm =
  ((apply_entries es sm).1 ++ (apply_entries fs (apply_entries es sm).2).1,
   (apply_entries fs (apply_entries es sm).2).2).
Proof.
  revert sm. induction es as [|e es IH]; intros sm; simpl; [by destruct (apply_entries fs sm)|].
  destruct (le_IsConfig e); [apply IH|]. destruct (sm_Apply (le_Command e) sm) as [r sm1]. rewrite IH.
  by destruct (apply_entries es sm1).
Qed.

(** A machine that counts the commands it was given. *)
#[export] Instance counter_StateMachine : StateMachine nat nat | 10 := {
  sm_Apply := λ _ k, (k, Datatypes.S k);
  sm_Snapshot := λ _, None;
  sm_Restore := λ _ k, (k, false)
}.

(** C18. Woken by a commit signal, the apply loop hands the state machine every
    committed entry above [lastApplied], in log order and once each, skipping
    configuration entries, sends one message per command with its index, term
    and result (the channel having room for them), and is back in its [select] with [lastApplied] at the commit
    index, after at most three steps per entry. *)
Theorem applyLoop_applies {S R : Type} `{!StateMachine S R} (now : Z) (n : RaftNode) (sm : S)
    (ch : list (ApplyMsg R)) :
  log_wf (rlog n) -> log_snapshotIndex (rlog n) <= lastApplied n -> lastApplied n <= commitIndex n ->
  commitIndex n <= log_lastIndex (rlog n) -> commitNotifyC n = true ->
  (length ch + Z.to_nat (commitIndex n - lastApplied n) <= applyCh_cap)%nat ->
  let es := log_slice (rlog n) (lastApplied n + 1) (commitIndex n + 1) in
  exists st fuel n',
    apply_step now TakeCommitSignal (mkApplyState n sm ch PSelect) = Some st /\
    (fuel <= 3 * Z.to_nat (commitIndex n - lastApplied n) + 1)%nat /\
    apply_run now fuel st =
      mkApplyState n' (apply_entries es sm).2 (ch ++ (apply_entries es sm).1) PSelect /\
    lastApplied n' = commitIndex n /\ commitIndex n' = commitIndex n /\ rlog n' = rlog n.
Proof.
  intros Hwf Hs Hle Hc Hn Hcap es. eexists _.
  destruct (apply_drain now (Z.to_nat (commitIndex n - lastApplied n)) (set_commitNotifyC false n) sm ch)
    as (fuel & n' & Hf & Hrun & H1 & H2 & H3); try done.
  { simpl. lia. }
  exists fuel, n'. split; [simpl; by rewrite Hn|]. by split_and!.
Qed.

Lemma applyLoop_applies_witness :
  let n := set_commitNotifyC true exApplied in
  exists st fuel n',
    apply_step 0 TakeCommitSignal (mkApplyState n 5%nat [] PSelect) = Some st /\
    apply_run 0 fuel st = mkApplyState n' 6%nat [mkApplyMsg 4 2 [] (Some 5%nat) false 0 0 []] PSelect.
Proof.
  destruct (applyLoop_applies 0 (set_commitNotifyC true exApplied) 5%nat ([] : list (ApplyMsg nat)))
    as (st & fuel & n' & H1 & _ & H2 & _).
  - exact exApplied_wf.
  - vm_compute. done.
  - vm_compute. done.
  - vm_compute. done.
  - reflexivity.
  - vm_compute. lia.
  - exists st, fuel, n'. split; [exact H1|]. rewrite H2. f_equal.
Defined.
