(* ===== verification/EventLoop.v ===== *)
(** * The event loop and its timers (raft/node.go: [Run], [resetTimer])

    [Run] waits in a select for the stop channel, the election timer, the
    heartbeat signal and the heartbeat ticker.  Here time is explicit: the state
    of the loop has the clock, both timers with their channels, and the node,
    which handlers and other goroutines change between two cases.

    The election timer is the interesting part.  [in_contact] describes the executions in
    which a valid AppendEntries arrives at least every [H] and a signal waits at
    most [D] until the loop takes it; [election_timer_correct] shows that a node
    with [H + D] below its minimum election timeout never asks for votes. *)

From S2P Require Import Prelude RaftLog Rpc Disk Node Election Replication Snapshot Client Apply.

(** ** Timers of package time *)

(** [tm_when] is the time at which a running timer fires, [tm_C] says whether a
    time waits in the channel. *)
Record Timer := mkTimer { tm_when : option Z; tm_C : bool }.

(** A running timer never has a time in its channel. *)
Definition timer_ok (t : Timer) : Prop := is_Some (tm_when t) -> tm_C t = false.

(** Channels of timers are synchronous since Go 1.23 ([sync]): [Stop] and [Reset]
    then discard a time that nobody has received, and [Stop] reports it as
    stopped. *)
Section timer.
Context (sync : bool).

Definition time_NewTimer (now d : Z) : Timer := mkTimer (Some (now + d)) false.

Definition timer_Stop (t : Timer) : Timer * bool :=
  if sync then (mkTimer None false, bool_decide (is_Some (tm_when t)) || tm_C t)
  else (mkTimer None (tm_C t), bool_decide (is_Some (tm_when t))).

Definition timer_Reset (now d : Z) (t : Timer) : Timer :=
  mkTimer (Some (now + d)) (if sync then false else tm_C t).

(** [select { case <-t.C: default: }] *)
Definition timer_drain (t : Timer) : Timer := mkTimer (tm_when t) false.

Definition resetTimer (now d : Z) (t : Timer) : Timer :=
  let '(t, stopped) := timer_Stop t in
  let t := if negb stopped then timer_drain t else t in
  timer_Reset now d t.
End timer.

(** What the runtime does with a timer when the clock reaches [now]. *)
Definition timer_run (now : Z) (t : Timer) : Timer :=
  match tm_when t with
  | Some w => if w <=? now then mkTimer None true else t
  | None => t
  end.

(** A ticker: the next tick, its period, and whether a tick waits; ticks nobody
    takes are dropped. *)
Record Ticker := mkTicker { tk_next : Z; tk_period : Z; tk_C : bool }.

Definition ticker_run (now : Z) (k : Ticker) : Ticker :=
  if tk_next k <=? now
  then mkTicker (tk_next k + ((now - tk_next k) / tk_period k + 1) * tk_period k) (tk_period k) true
  else k.

(** ** The loop *)

(** [lp_probes] counts the pre-vote goroutines the loop has started, [lp_sent]
    lists the goroutines of its heartbeats. *)
Record Loop := mkLoop {
  lp_now : Z; lp_node : RaftNode; lp_timer : Timer; lp_ticker : Ticker; lp_probes : nat; lp_sent : list Goroutine
}.

Definition set_lp_node (n : RaftNode) (s : Loop) : Loop :=
  mkLoop (lp_now s) n (lp_timer s) (lp_ticker s) (lp_probes s) (lp_sent s).

(** The cases of the select. *)
Inductive case := CaseStop | CaseElection | CaseHeartbeat | CaseTicker.

(** A case that is not ready, the end of the loop, a panic of
    [randomElectionTimeout] or [time.NewTicker], or the state in which the loop selects again. *)
Inductive case_result := Blocked | Returned | Panicked | Continue (s : Loop).

Section loop.
Context (sync : bool).

(** [resetTimer(electionTimer, n.randomElectionTimeout())]; [r] is the random
    number. *)
Definition resetElection (r : Z) (s : Loop) : case_result :=
  match randomElectionTimeout (lp_node s) r with
  | None => Panicked
  | Some d =>
      Continue (mkLoop (lp_now s) (lp_node s) (resetTimer sync (lp_now s) d (lp_timer s)) (lp_ticker s)
                  (lp_probes s) (lp_sent s))
  end.

(** The body of [Run] before the loop, after [n] has been restored. *)
Definition Run_start (now : Z) (n : RaftNode) (r : Z) : case_result :=
  match randomElectionTimeout n r with
  | None => Panicked
  | Some d =>
      let period := durationMs (cfg_HeartbeatIntervalMs (config n)) in
      if period <=? 0 then Panicked
      else Continue (mkLoop now n (time_NewTimer now d) (mkTicker (now + period) period false) 0 [])
  end.

Definition Run_case (c : case) (r : Z) (s : Loop) : case_result :=
  let n := lp_node s in
  match c with
  | CaseStop => if stopCh n then Returned else Blocked
  | CaseElection =>
      if tm_C (lp_timer s) then
        let t := timer_drain (lp_timer s) in
        let probes := if electionEligible n then S (lp_probes s) else lp_probes s in
        resetElection r (mkLoop (lp_now s) n t (lp_ticker s) probes (lp_sent s))
      else Blocked
  | CaseHeartbeat =>
      if heartbeatC n then resetElection r (set_lp_node (heartbeatSignal n) s) else Blocked
  | CaseTicker =>
      if tk_C (lp_ticker s) then
        let k := mkTicker (tk_next (lp_ticker s)) (tk_period (lp_ticker s)) false in
        let '(n, gs) := heartbeatTick (lp_now s) n in
        Continue (mkLoop (lp_now s) n (lp_timer s) k (lp_probes s) (lp_sent s ++ gs))
      else Blocked
  end.

(** The clock goes on by [d]. *)
Definition wait (d : Z) (s : Loop) : Loop :=
  let now := lp_now s + d in
  mkLoop now (lp_node s) (timer_run now (lp_timer s)) (ticker_run now (lp_ticker s)) (lp_probes s) (lp_sent s).
End loop.

(** ** What other goroutines do to the node *)

(** Everything but the event loop that changes a node; AppendEntries has its own
    place below. *)
Inductive goroutine (now : Z) (n : RaftNode) : RaftNode -> Prop :=
  | g_vote args : goroutine now n (HandleRequestVote now n args).1
  | g_install args : goroutine now n (HandleInstallSnapshot n args).1
  | g_prevote won : goroutine now n (afterPreVote won n).1
  | g_election e reply : goroutine now n (startElection_reply now e n reply).2
  | g_append_reply peer term args reply : goroutine now n (sendToPeer_reply now n peer term args reply)
  | g_snapshot_reply peer term args reply : goroutine now n (sendSnapshotToPeer_reply n peer term args reply)
  | g_submit command : goroutine now n (Submit n command).1.1
  | g_add addr : goroutine now n (AddPeer now n addr).1.1
  | g_remove addr : goroutine now n (RemovePeer now n addr).1.1
  | g_snapshot data : goroutine now n (TakeSnapshot n data).1
  | g_stop n' : Stop n = Some n' -> goroutine now n n'
  | g_apply {S R : Type} {SM : StateMachine S R} (a : apply_act) (sm sm' : S) (ch ch' : list (ApplyMsg R)) pc pc' n' :
      apply_step now a (mkApplyState n sm ch pc) = Some (mkApplyState n' sm' ch' pc') -> goroutine now n n'.

(** None of them takes the heartbeat signal, touches the configuration or the
    time of the last contact. *)
Record calm (n n' : RaftNode) : Prop := mkCalm {
  calm_config : config n' = config n;
  calm_signal : heartbeatC n = true -> heartbeatC n' = true;
  calm_contact : lastLeaderContact n' = lastLeaderContact n
}.

#[export] Instance calm_preorder : PreOrder calm.
Proof. split; [by split|]. intros a b c [???] [???]. split; [congruence|auto|congruence]. Qed.

(** A change of other fields is calm by computation. *)
Ltac calm_fields := split; [reflexivity | intros; first [reflexivity | assumption] | reflexivity].

Create HintDb calm.

Lemma calm_refl n : calm n n.
Proof. reflexivity. Qed.

Lemma calm_persist n m : calm n m -> calm n (persist m).
Proof. intros H. etransitivity; [exact H|]. calm_fields. Qed.

Lemma calm_becomeFollower term n m : calm n m -> calm n (becomeFollower term m).
Proof. intros H. etransitivity; [exact H|]. calm_fields. Qed.

Lemma calm_notifyHeartbeat n m : calm n m -> calm n (notifyHeartbeat m).
Proof. intros H. etransitivity; [exact H|]. calm_fields. Qed.

Lemma calm_notifyCommit n m : calm n m -> calm n (notifyCommit m).
Proof. intros H. etransitivity; [exact H|]. calm_fields. Qed.

Lemma calm_saveSnapshot i t d n m : calm n m -> calm n (saveSnapshot i t d m).1.
Proof. intros H. etransitivity; [exact H|]. calm_fields. Qed.

Lemma calm_becomeLeader now n m : calm n m -> calm n (becomeLeader now m).
Proof.
  intros H. etransitivity; [exact H|]. unfold becomeLeader. set (m' := set_leaderID _ _).
  assert (Hm : calm m m') by calm_fields. clearbody m'. generalize (peers m') as ps. intros ps.
  set (last := log_lastIndex _). clearbody last. revert m' Hm. induction ps as [|p ps IH]; intros m' Hm; simpl; [done|].
  apply IH. etransitivity; [exact Hm|]. calm_fields.
Qed.

Lemma calm_maybeCommit n m : calm n m -> calm n (maybeCommit m).
Proof. intros H. etransitivity; [exact H|]. unfold maybeCommit. case_match; [calm_fields|done]. Qed.

#[export] Hint Resolve calm_refl calm_persist calm_becomeFollower calm_notifyHeartbeat calm_notifyCommit
  calm_saveSnapshot calm_becomeLeader calm_maybeCommit : calm.

Lemma calm_submitConfig now n op addr : calm n (submitConfigLocked now n op addr).1.
Proof. unfold submitConfigLocked. cbn [fst]. destruct (String.eqb op "add"); calm_fields. Qed.

Lemma calm_applyConfig now n e : calm n (applyConfigEntry now n e).
Proof. unfold applyConfigEntry. repeat case_match; calm_fields. Qed.

#[export] Hint Resolve calm_submitConfig calm_applyConfig : calm.

Lemma calm_vote now n args : calm n (HandleRequestVote now n args).1.
Proof.
  unfold HandleRequestVote. destruct (rv_IsPreVote args); [by case_match|].
  set (m := if rv_Term args >? currentTerm n then becomeFollower (rv_Term args) n else n). assert (Hm : calm n m) by (unfold m; case_match; auto with calm). clearbody m.
  case_match; [done|]. case_match; [|done]. etransitivity; [exact Hm|]. calm_fields.
Qed.

Lemma calm_install n args : calm n (HandleInstallSnapshot n args).1.
Proof.
  unfold HandleInstallSnapshot. set (m := if is_Term args >? currentTerm n then becomeFollower (is_Term args) n else n).
  assert (Hm : calm n m) by (unfold m; case_match; auto with calm). clearbody m.
  case_match; [done|]. set (m2 := notifyHeartbeat _). assert (Hm2 : calm n m2) by (etransitivity; [exact Hm|calm_fields]).
  clearbody m2. case_match; [done|].
  pose proof (calm_saveSnapshot (is_LastIncludedIndex args) (is_LastIncludedTerm args) (is_Data args) n m2 Hm2) as Hs.
  destruct (saveSnapshot _ _ _ m2) as [m3 [e|]]; [done|]. etransitivity; [exact Hs|]. cbn [fst].
  repeat case_match; calm_fields.
Qed.

Lemma calm_takeSnapshot n data : calm n (TakeSnapshot n data).1.
Proof.
  unfold TakeSnapshot. case_match; [done|].
  pose proof (calm_saveSnapshot (lastApplied n) (le_Term (log_get (rlog n) (lastApplied n))) data n n (calm_refl n)) as Hs.
  destruct (saveSnapshot _ _ _ n) as [m [e|]]; [done|]. etransitivity; [exact Hs|]. calm_fields.
Qed.

Lemma calm_apply {S R : Type} {SM : StateMachine S R} now a n (sm : S) (ch : list (ApplyMsg R)) pc st :
  apply_step now a (mkApplyState n sm ch pc) = Some st -> calm n (ap_node st).
Proof.
  destruct pc, a; simpl; try done; repeat case_match; intros [= <-]; try done; simpl; try calm_fields.
  etransitivity; [|apply calm_applyConfig]. calm_fields.
Qed.

Lemma goroutine_calm now n n' : goroutine now n n' -> calm n n'.
Proof.
  intros [].
  - apply calm_vote.
  - apply calm_install.
  - unfold afterPreVote. case_match; [|done]. calm_fields.
  - unfold startElection_reply. repeat case_match; cbn [snd]; auto with calm.
  - unfold sendToPeer_reply. repeat case_match; auto with calm; try apply calm_maybeCommit; calm_fields.
  - unfold sendSnapshotToPeer_reply. repeat case_match; auto with calm; calm_fields.
  - unfold Submit. case_match; [done|]. calm_fields.
  - unfold AddPeer. pose proof (calm_submitConfig now n "add" addr). destruct (submitConfigLocked _ _ _ _) as [m gs].
    by repeat case_match.
  - unfold RemovePeer. pose proof (calm_submitConfig now n "remove" addr). destruct (submitConfigLocked _ _ _ _) as [m gs].
    by repeat case_match.
  - apply calm_takeSnapshot.
  - unfold Stop in *. case_match; simplify_eq. calm_fields.
  - match goal with H : apply_step _ _ _ = Some _ |- _ => exact (calm_apply _ _ _ _ _ _ _ H) end.
Qed.

Lemma calm_heartbeatTick now n : calm n (heartbeatTick now n).1.
Proof. unfold heartbeatTick, checkQuorum, sendHeartbeats. repeat case_match; try done; calm_fields. Qed.

(** An AppendEntries of an old term is refused; any other signals the loop and
    is remembered as contact with the leader. *)
Lemma append_contact now n args : let n' := (HandleAppendEntries now n args).1 in
  (ae_Term args < currentTerm n -> n' = n) /\
  (currentTerm n <= ae_Term args -> config n' = config n /\ heartbeatC n' = true /\ lastLeaderContact n' = now).
Proof.
  split; intros Ht; [by rewrite HandleAppendEntries_stale|]. unfold HandleAppendEntries.
  set (m := if ae_Term args >? currentTerm n then becomeFollower (ae_Term args) n
            else if (ae_Term args =? currentTerm n) && NodeState_eqb (state n) Candidate then set_state Follower n else n).
  assert (Hm : config m = config n /\ currentTerm m = ae_Term args).
  { unfold m. destruct (Z.gtb_spec (ae_Term args) (currentTerm n)); [done|]. case_match; (split; [done|]); simpl; lia. }
  clearbody m. destruct Hm as [Hc Hterm]. rewrite Hterm, Z.ltb_irrefl. rewrite <- Hc. case_match; [done|].
  unfold acceptEntries. repeat case_match; done.
Qed.

(** ** Executions *)

Section runs.
Context (sync : bool) (t0 : Z).

(** The loop, the handlers and the other goroutines, in any order and over time;
    time may pass where [allowed] lets it.  The last argument is the moment from
    which on a pending heartbeat signal has been waiting. *)
Inductive runs (allowed : Loop -> Z -> Z -> Prop) : Loop -> Z -> Prop :=
  | runs_start n r s : heartbeatC n = false -> lastLeaderContact n <= t0 -> Run_start t0 n r = Continue s -> runs allowed s t0
  | runs_wait s p d : runs allowed s p -> 0 <= d -> allowed s p (lp_now s + d) -> runs allowed (wait d s) p
  | runs_append s p args : runs allowed s p ->
      runs allowed (set_lp_node (HandleAppendEntries (lp_now s) (lp_node s) args).1 s)
        (if heartbeatC (lp_node s) then p else lp_now s)
  | runs_other s p n : runs allowed s p -> goroutine (lp_now s) (lp_node s) n ->
      runs allowed (set_lp_node n s) (if heartbeatC (lp_node s) then p else lp_now s)
  | runs_case s p c r s' : runs allowed s p -> Run_case sync c r s = Continue s' ->
      runs allowed s' (if heartbeatC (lp_node s) then p else lp_now s).

(** The last contact with a leader, or the start of the node. *)
Definition lastContact (s : Loop) : Z := Z.max t0 (lastLeaderContact (lp_node s)).

(** A valid AppendEntries arrives at least every [H], and a signal waits for the
    loop at most [D]. *)
Definition in_contact (H D : Z) (s : Loop) (p t : Z) : Prop :=
  t <= lastContact s + H /\ (heartbeatC (lp_node s) = true -> t <= p + D).

Definition minTimeout (n : RaftNode) : Z := cfg_ElectionTimeoutMinMs (config n) * Millisecond.
Definition maxTimeout (n : RaftNode) : Z := cfg_ElectionTimeoutMaxMs (config n) * Millisecond.

(** Timeouts that fit into a [time.Duration]. *)
Definition timeouts_ok (n : RaftNode) : Prop :=
  0 <= cfg_ElectionTimeoutMinMs (config n) < 9000000000000 /\ 0 <= cfg_ElectionTimeoutMaxMs (config n) < 9000000000000.

Lemma resetTimer_fresh now d t : timer_ok t -> resetTimer sync now d t = mkTimer (Some (now + d)) false.
Proof.
  intros Hok. unfold resetTimer, timer_Stop, timer_Reset, timer_drain. destruct sync; simpl.
  - done.
  - case_bool_decide as Hw; simpl; [by rewrite Hok|done].
Qed.

(** The election timer runs, or has fired and waits to be noticed. *)
Definition armed (s : Loop) : Prop :=
  (exists w, lp_timer s = mkTimer (Some w) false /\ w <= lp_now s + maxTimeout (lp_node s)) \/ lp_timer s = mkTimer None true.

Lemma armed_ok s : armed s -> timer_ok (lp_timer s).
Proof. intros [(w & -> & _)| ->]; intros Hx; [done|by destruct Hx]. Qed.

Lemma resetElection_inv r s s' : timeouts_ok (lp_node s) -> timer_ok (lp_timer s) -> resetElection sync r s = Continue s' ->
  exists w, s' = mkLoop (lp_now s) (lp_node s) (mkTimer (Some w) false) (lp_ticker s) (lp_probes s) (lp_sent s) /\
    lp_now s + minTimeout (lp_node s) <= w <= lp_now s + maxTimeout (lp_node s).
Proof.
  intros [Hlo Hhi] Hok. unfold resetElection. pose proof (randomElectionTimeout_range (lp_node s) r Hlo Hhi) as Hr.
  destruct (randomElectionTimeout (lp_node s) r) as [d|]; [|done]. intros [= <-]. rewrite resetTimer_fresh by done.
  exists (lp_now s + d). unfold minTimeout, maxTimeout. split; [done|lia].
Qed.

(** ** Invariants *)

Lemma Run_start_inv n r s : timeouts_ok n -> Run_start t0 n r = Continue s ->
  exists w, lp_timer s = mkTimer (Some w) false /\ t0 + minTimeout n <= w <= t0 + maxTimeout n /\
    lp_now s = t0 /\ lp_node s = n /\ lp_probes s = 0%nat.
Proof.
  intros [Hlo Hhi]. unfold Run_start. pose proof (randomElectionTimeout_range n r Hlo Hhi) as Hr.
  destruct (randomElectionTimeout n r) as [d|]; [|done]. case_match; [done|]. intros [= <-]. exists (t0 + d).
  unfold minTimeout, maxTimeout. split_and!; try done; lia.
Qed.

(** What a step of another goroutine, AppendEntries included, does to the part of
    the node the timers depend on. *)
Lemma append_calm now n args : let n' := (HandleAppendEntries now n args).1 in
  config n' = config n /\ (heartbeatC n = true -> heartbeatC n' = true) /\
  (lastLeaderContact n' = lastLeaderContact n \/ lastLeaderContact n' = now /\ heartbeatC n' = true).
Proof.
  intros n'. destruct (append_contact now n args) as [H1 H2]. fold n' in H1, H2.
  destruct (Z.lt_ge_cases (ae_Term args) (currentTerm n)) as [Hlt|Hge].
  - rewrite (H1 Hlt). split_and!; auto.
  - destruct (H2 Hge) as (-> & -> & ->). split_and!; auto.
Qed.

(** Every case that goes on: either the timer was reset, or the node changed
    quietly and the timer is untouched. *)
Lemma Run_case_inv c r s s' : timeouts_ok (lp_node s) -> timer_ok (lp_timer s) -> Run_case sync c r s = Continue s' ->
  lp_now s' = lp_now s /\ config (lp_node s') = config (lp_node s) /\
  lastLeaderContact (lp_node s') = lastLeaderContact (lp_node s) /\
  match c with
  | CaseStop => False
  | CaseElection => tm_C (lp_timer s) = true /\ lp_node s' = lp_node s /\
      lp_probes s' = (if electionEligible (lp_node s) then S (lp_probes s) else lp_probes s) /\
      exists w, lp_timer s' = mkTimer (Some w) false /\
        lp_now s + minTimeout (lp_node s) <= w <= lp_now s + maxTimeout (lp_node s)
  | CaseHeartbeat => heartbeatC (lp_node s) = true /\ heartbeatC (lp_node s') = false /\ lp_probes s' = lp_probes s /\
      exists w, lp_timer s' = mkTimer (Some w) false /\
        lp_now s + minTimeout (lp_node s) <= w <= lp_now s + maxTimeout (lp_node s)
  | CaseTicker => calm (lp_node s) (lp_node s') /\ lp_timer s' = lp_timer s /\ lp_probes s' = lp_probes s
  end.
Proof.
  intros Ht Hok. destruct c; unfold Run_case.
  - by case_match.
  - destruct (tm_C (lp_timer s)) eqn:HC; [|done]. intros (w & -> & Hw)%resetElection_inv; [|done|by intros _].
    simpl in *. split_and!; try done. by exists w.
  - destruct (heartbeatC (lp_node s)) eqn:HC; [|done]. intros (w & -> & Hw)%resetElection_inv; [|done..].
    simpl in *. split_and!; try done. by exists w.
  - destruct (tk_C (lp_ticker s)); [|done]. pose proof (calm_heartbeatTick (lp_now s) (lp_node s)) as Hq.
    destruct (heartbeatTick _ _) as [n gs]. simpl in Hq. intros [= <-]. simpl. destruct Hq as [Hq1 Hq2 Hq3]. by split_and!.
Qed.

Lemma Run_case_config c r s s' : Run_case sync c r s = Continue s' -> config (lp_node s') = config (lp_node s).
Proof.
  unfold Run_case, resetElection. pose proof (calm_heartbeatTick (lp_now s) (lp_node s)) as [Hq _ _].
  destruct (heartbeatTick _ _) as [n gs]. destruct c; repeat case_match; intros [=]; by simplify_eq.
Qed.

(** In every execution the timer is armed. *)
Lemma runs_armed allowed s p : runs allowed s p -> timeouts_ok (lp_node s) ->
  armed s /\ t0 <= lp_now s /\ lastLeaderContact (lp_node s) <= lp_now s.
Proof.
  unfold timeouts_ok, armed, maxTimeout. intros Hr.
  induction Hr as [n r s Hh Hl Hs|s p d Hr IH Hd Ha|s p args Hr IH|s p n Hr IH Hg|s p c r s' Hr IH Hc]; intros Ht.
  - assert (lp_node s = n) as Hn by (unfold Run_start in Hs; repeat case_match; by simplify_eq).
    rewrite Hn in *. destruct (Run_start_inv n r s Ht Hs) as (w & Hw & Hb & Hnow & _). rewrite Hnow. unfold maxTimeout in Hb.
    split; [left; exists w; split; [done|lia]|lia].
  - destruct (IH Ht) as (Harm & H1 & H2). simpl in *. split; [|lia].
    destruct Harm as [(w & Hw & Hb)|Hw]; rewrite Hw; unfold timer_run; simpl; [|by right].
    destruct (Z.leb_spec w (lp_now s + d)); [by right|]. left. exists w. split; [done|lia].
  - simpl in *. destruct (append_calm (lp_now s) (lp_node s) args) as (Hc & _ & Hll).
    rewrite Hc in *. destruct (IH Ht) as (Harm & H1 & H2). split_and!; [done..|lia].
  - simpl in *. destruct (goroutine_calm _ _ _ Hg) as [Hc _ Hll]. rewrite Hc, Hll in *. by apply IH.
  - rewrite (Run_case_config c r s s' Hc) in *. destruct (IH Ht) as (Harm & H1 & H2).
    destruct (Run_case_inv c r s s' Ht (armed_ok s Harm) Hc) as (Hnow & _ & Hll & Hcase). rewrite Hnow, Hll.
    split; [|done]. unfold maxTimeout in Hcase. destruct c; [done| | |].
    + destruct Hcase as (_ & _ & _ & w & Hw & Hb). left. exists w. split; [done|lia].
    + destruct Hcase as (_ & _ & _ & w & Hw & Hb). left. exists w. split; [done|lia].
    + destruct Hcase as (_ & -> & _). done.
Qed.

(** While a node is in contact its timer does not fire. *)
Record contact_inv (H D : Z) (s : Loop) (p : Z) : Prop := mkContactInv {
  ci_timer : exists w, lp_timer s = mkTimer (Some w) false /\
    (heartbeatC (lp_node s) = false -> lastContact s + minTimeout (lp_node s) <= w) /\
    (heartbeatC (lp_node s) = true -> p + minTimeout (lp_node s) <= w + H);
  ci_now : lastContact s <= lp_now s <= lastContact s + H;
  ci_pending : heartbeatC (lp_node s) = true -> p <= lp_now s <= p + D;
  ci_probes : lp_probes s = 0%nat
}.

(** A change of the node that at most raises the signal, and notes a contact
    only when it does. *)
Lemma contact_node H D s p n : 0 <= H -> 0 <= D -> contact_inv H D s p -> config n = config (lp_node s) ->
  (heartbeatC (lp_node s) = true -> heartbeatC n = true) ->
  (lastLeaderContact n = lastLeaderContact (lp_node s) \/ lastLeaderContact n = lp_now s /\ heartbeatC n = true) ->
  contact_inv H D (set_lp_node n s) (if heartbeatC (lp_node s) then p else lp_now s).
Proof.
  intros HH HD [(w & Hw & H1 & H2) Hn Hp Hpr] Hc Hs Hl. unfold lastContact, minTimeout in *.
  destruct (heartbeatC (lp_node s)) eqn:Hb.
  - rewrite (Hs eq_refl) in Hl. specialize (H2 eq_refl). specialize (Hp eq_refl).
    split; unfold lastContact, minTimeout; simpl; rewrite ?Hc, ?(Hs eq_refl); [|lia|done|done]. exists w. by split_and!.
  - specialize (H1 eq_refl). split; unfold lastContact, minTimeout; simpl; rewrite ?Hc; [|lia|lia|done].
    exists w. split_and!; [done| |lia]. intros Hf. destruct Hl as [->|[_ Ht]]; [done|congruence].
Qed.

Lemma runs_contact H D s p : 0 <= H -> 0 <= D -> runs (in_contact H D) s p -> timeouts_ok (lp_node s) ->
  H + D < minTimeout (lp_node s) -> contact_inv H D s p.
Proof.
  intros HH HD Hr. induction Hr as [n r s Hh Hl Hs|s p d Hr IH Hd Ha|s p args Hr IH|s p n Hr IH Hg|s p c r s' Hr IH Hc];
    intros Ht Hm.
  - assert (lp_node s = n) as Hn by (unfold Run_start in Hs; repeat case_match; by simplify_eq).
    rewrite Hn in *. destruct (Run_start_inv n r s Ht Hs) as (w & Hw & Hb & Hnow & _ & Hpr).
    split; unfold lastContact; rewrite ?Hn, ?Hnow, ?Hh; [|lia|done|done]. exists w. split_and!; [done| |done]. intros _. lia.
  - specialize (IH Ht Hm). destruct IH as [(w & Hw & H1 & H2) Hn Hp Hpr]. destruct Ha as [Ha1 Ha2].
    assert (lp_now s + d < w) as Hlt.
    { destruct (heartbeatC (lp_node s)); [specialize (H2 eq_refl); specialize (Ha2 eq_refl)|specialize (H1 eq_refl)];
        simpl in Hm; lia. }
    split; unfold lastContact in *; simpl; [|lia| |done].
    + exists w. unfold timer_run. rewrite Hw. simpl. by rewrite (proj2 (Z.leb_gt _ _) Hlt).
    + intros Hb. specialize (Hp Hb). specialize (Ha2 Hb). lia.
  - unfold timeouts_ok, minTimeout in *. simpl in Ht, Hm. destruct (append_calm (lp_now s) (lp_node s) args) as (Hc & Hb & Hll).
    rewrite Hc in Ht, Hm. by apply contact_node; [..|apply IH| | |].
  - unfold timeouts_ok, minTimeout in *. simpl in Ht, Hm. destruct (goroutine_calm _ _ _ Hg) as [Hc Hb Hll].
    rewrite Hc in Ht, Hm. apply contact_node; auto.
  - assert (Hcfg := Run_case_config c r s s' Hc). unfold timeouts_ok, minTimeout in *. rewrite Hcfg in Ht, Hm.
    specialize (IH Ht Hm). pose proof IH as [(w & Hw & H1 & H2) Hn Hp Hpr].
    destruct (Run_case_inv c r s s' Ht) as (Hnow & _ & Hll & Hcase); [by rewrite Hw|done|]. destruct c; [done| | |].
    + rewrite Hw in Hcase. by destruct Hcase as (? & _).
    + destruct Hcase as (Hb & Hb' & Hpr' & w' & Hw' & Hr').
      split; unfold lastContact, minTimeout in *; rewrite ?Hnow, ?Hll, ?Hb', ?Hcfg; [|done|done|congruence].
      exists w'. split_and!; [done| |done]. intros _. lia.
    + destruct Hcase as ([Hq1 Hq2 Hq3] & Htm & Hpr').
      pose proof (contact_node H D s p (lp_node s') HH HD IH Hq1 Hq2 (or_introl Hq3)) as [C1 C2 C3 C4].
      split; unfold lastContact, minTimeout in *; simpl in *; rewrite ?Htm, ?Hnow; try done; congruence.
Qed.
End runs.

(** C10. The election timer does what it is for.  A node that gets a valid
    AppendEntries at least every [H], and whose loop takes the signal within
    [D], never asks for votes when [H + D] is below its minimum election timeout:
    the timer case is never ready, no pre-vote is ever started, and once it has
    heard from a leader it refuses the pre-vote of every other node.  And a
    node whose clock passes the maximum election timeout without a case being
    taken finds the timer case ready, whatever happened before: it starts a
    pre-vote exactly when it is eligible, and the timer runs again.  Both hold
    for timers with buffered and with synchronous channels. *)
Theorem election_timer_correct (sync : bool) (t0 : Z) (allowed : Loop -> Z -> Z -> Prop) (s : Loop) (p : Z) :
  runs sync t0 allowed s p -> timeouts_ok (lp_node s) ->
  (forall H D, 0 <= H -> 0 <= D -> (forall s p t, allowed s p t -> in_contact t0 H D s p t) ->
     H + D < minTimeout (lp_node s) ->
     lp_probes s = 0%nat /\ (forall r, Run_case sync CaseElection r s = Blocked) /\
     (t0 <= lastLeaderContact (lp_node s) -> forall args, rv_IsPreVote args = true ->
        HandleRequestVote (lp_now s) (lp_node s) args = (lp_node s, mkRequestVoteReply (currentTerm (lp_node s)) false))) /\
  (forall d r, minTimeout (lp_node s) < maxTimeout (lp_node s) -> maxTimeout (lp_node s) <= d ->
     exists s', Run_case sync CaseElection r (wait d s) = Continue s' /\
       lp_probes s' = (if electionEligible (lp_node s) then S (lp_probes s) else lp_probes s) /\
       exists w, lp_timer s' = mkTimer (Some w) false /\
         lp_now s + d + minTimeout (lp_node s) <= w <= lp_now s + d + maxTimeout (lp_node s)).
Proof.
  intros Hr Ht. split.
  - intros H D HH HD Hal Hm. assert (Hr' : runs sync t0 (in_contact t0 H D) s p).
    { clear Ht Hm. induction Hr; econstructor; eauto. }
    destruct (runs_contact sync t0 H D s p HH HD Hr' Ht Hm) as [(w & Hw & _) Hn _ Hpr]. split_and!; [done| |].
    + intros r. unfold Run_case. by rewrite Hw.
    + intros Hl args Hpv. unfold lastContact in Hn. rewrite Z.max_r in Hn by done.
      unfold HandleRequestVote. rewrite Hpv. unfold timeouts_ok, minTimeout, Millisecond in *. unfold durationMs, time_Sub, Millisecond.
      rewrite i64_small by (unfold minDuration, maxDuration in *; lia).
      rewrite (proj2 (Z.ltb_lt _ _)); [done|]. unfold minDuration, maxDuration. lia.
  - intros d r Hlt Hd. destruct (runs_armed sync t0 allowed s p Hr Ht) as (Harm & _ & _).
    assert (Hf : lp_timer (wait d s) = mkTimer None true).
    { simpl. destruct Harm as [(w & -> & Hw)| ->]; unfold timer_run; simpl; [|done]. by rewrite (proj2 (Z.leb_le _ _)) by lia. }
    pose proof (randomElectionTimeout_range (lp_node s) r (proj1 Ht) (proj2 Ht)) as Hrt.
    destruct (Run_case sync CaseElection r (wait d s)) as [| | |s'] eqn:Hc.
    1-3: unfold Run_case, resetElection in Hc; rewrite Hf in Hc; simpl in Hc; unfold minTimeout, maxTimeout, Millisecond in Hlt;
      destruct (randomElectionTimeout (lp_node s) r); [done|lia].
    exists s'. split; [done|].
    destruct (Run_case_inv sync CaseElection r (wait d s) s' Ht) as (_ & _ & _ & _ & _ & Hp & Hw); [by rewrite Hf; intros []|done|].
    split; [exact Hp|exact Hw].
Qed.

(** A follower that hears from its leader, at 0, at 50 ms and not again. *)
Definition exHeartbeat : AppendEntriesArgs := mkAppendEntriesArgs 1 "b" 0 0 [] 0.

Definition exContact : Loop -> Z -> Z -> Prop := in_contact 0 (50 * Millisecond) (10 * Millisecond).

Definition exLoop : Loop :=
  match Run_start 0 exampleNode 7 with
  | Continue s =>
      let s := wait (50 * Millisecond) s in
      set_lp_node (HandleAppendEntries (lp_now s) (lp_node s) exHeartbeat).1 s
  | _ => mkLoop 0 exampleNode (mkTimer None false) (mkTicker 0 0 false) 0 []
  end.

Lemma exLoop_runs : runs true 0 exContact exLoop (50 * Millisecond).
Proof.
  unfold exLoop. destruct (Run_start 0 exampleNode 7) as [| | |s0] eqn:Hs; [discriminate Hs..|]. cbv zeta.
  pose proof (runs_start true 0 exContact exampleNode 7 s0 eq_refl ltac:(vm_compute; discriminate) Hs) as H0.
  vm_compute in Hs. injection Hs as Hs. assert (Hw : runs true 0 exContact (wait (50 * Millisecond) s0) 0).
  { apply runs_wait; [done|done|]. rewrite <- Hs. split; [vm_compute; discriminate|done]. }
  pose proof (runs_append true 0 exContact _ _ exHeartbeat Hw) as Ha. by rewrite <- Hs in *.
Qed.

Lemma election_timer_correct_witness :
  Run_case true CaseElection 7 exLoop = Blocked /\
  exists s', Run_case true CaseElection 7 (wait (300 * Millisecond) exLoop) = Continue s' /\ lp_probes s' = 1%nat.
Proof.
  destruct (election_timer_correct true 0 exContact exLoop (50 * Millisecond) exLoop_runs) as [H1 H2];
    [vm_compute; repeat split; discriminate|].
  split.
  - apply (H1 (50 * Millisecond) (10 * Millisecond)); [vm_compute; discriminate..|done|vm_compute; reflexivity].
  - destruct (H2 (300 * Millisecond) 7) as (s' & Hs & Hp & _); [vm_compute; reflexivity|vm_compute; discriminate|].
    exists s'. split; [exact Hs|]. exact Hp.
Defined.
