(* ===== verification/KVStore.v ===== *)
(** * The key-value store (kvstore/kvstore.go)

    The state machine ([kv_Apply], [kv_Snapshot], [kv_Restore]) as an instance
    of [StateMachine]; the local read [kv_Get]; and the routing of results from
    the apply channel to the blocked callers.  A blocked [call] is split at its
    blocking points; its buffered channel is an entry of [kv_chans]. *)

From S2P Require Import Prelude RaftLog Rpc Disk Node Replication Snapshot Client Apply.

(** ** encoding/gob

    What the store uses of the package: an encoder that may fail and a decoder
    that returns what was encoded. *)
Class GobCodec (A : Type) := {
  gob_Encode : A -> option bytes;
  gob_Decode : bytes -> option A;
  gob_roundtrip : forall a b, gob_Encode a = Some b -> gob_Decode b = Some a
}.

(** ** Data *)

Record op := mkOp { op_Type : string; op_Key : string; op_Value : string }.

#[export] Instance op_eq_dec : EqDecision op.
Proof. solve_decision. Defined.

#[export] Instance op_countable : Countable op.
Proof.
  refine (inj_countable' (λ o, (op_Type o, op_Key o, op_Value o))
            (λ '(t, k, v), mkOp t k v) _). by intros [].
Defined.

(** The errors of the package; [KErrGob] stands for a decoding error. *)
Inductive kv_error :=
  | KErrNotLeader | KErrKeyNotFound | KErrTimeout | KErrGob | KErrUnknownOp (t : string).

#[export] Instance kv_error_eq_dec : EqDecision kv_error.
Proof. solve_decision. Defined.

Record applyResult := mkApplyResult { ar_Value : string; ar_Err : option kv_error }.

#[export] Instance applyResult_eq_dec : EqDecision applyResult.
Proof. solve_decision. Defined.

(** [applyResult{}]. *)
Definition zeroApplyResult : applyResult := mkApplyResult "" None.

(** The buffered channel of a call is named by the call's number. *)
Record pendingCall := mkPendingCall { pc_term : Z; pc_ch : nat }.

(** Where a [call] stands: [Submit] has returned; blocked in the [select];
    returned. *)
Inductive call_state :=
  | CallSubmitted (index term : Z)
  | CallWaiting (index term : Z)
  | CallDone (r : applyResult).

(** The fields of [KVStore] but the Raft node, the local variable [applied] of
    [readApplyCh], and the calls in progress with their channels' buffers. *)
Record KVStore := mkKVStore {
  kv_data : gmap string string;
  kv_pending : gmap Z pendingCall;
  kv_snapshotThreshold : Z;
  kv_applied : Z;
  kv_calls : gmap nat call_state;
  kv_chans : gmap nat applyResult
}.

Definition kv_new : KVStore := mkKVStore ∅ ∅ 100 0 ∅ ∅.

Definition SetSnapshotThreshold (v : Z) (kv : KVStore) : KVStore :=
  mkKVStore (kv_data kv) (kv_pending kv) v (kv_applied kv) (kv_calls kv) (kv_chans kv).

Definition set_kv_data (v : gmap string string) (kv : KVStore) : KVStore :=
  mkKVStore v (kv_pending kv) (kv_snapshotThreshold kv) (kv_applied kv) (kv_calls kv) (kv_chans kv).
Definition set_kv_pending (v : gmap Z pendingCall) (kv : KVStore) : KVStore :=
  mkKVStore (kv_data kv) v (kv_snapshotThreshold kv) (kv_applied kv) (kv_calls kv) (kv_chans kv).
Definition set_kv_applied (v : Z) (kv : KVStore) : KVStore :=
  mkKVStore (kv_data kv) (kv_pending kv) (kv_snapshotThreshold kv) v (kv_calls kv) (kv_chans kv).
Definition set_kv_calls (v : gmap nat call_state) (kv : KVStore) : KVStore :=
  mkKVStore (kv_data kv) (kv_pending kv) (kv_snapshotThreshold kv) (kv_applied kv) v (kv_chans kv).
Definition set_kv_chans (v : gmap nat applyResult) (kv : KVStore) : KVStore :=
  mkKVStore (kv_data kv) (kv_pending kv) (kv_snapshotThreshold kv) (kv_applied kv) (kv_calls kv) v.

(** ** Local reads *)

Definition kv_Get (data : gmap string string) (key : string) : string + kv_error :=
  match data !! key with
  | Some v => inl v
  | None => inr KErrKeyNotFound
  end.

(** ** The state machine *)

Section codec.
Context `{!GobCodec op, !GobCodec (gmap string string)}.

Definition encodeOp (o : op) : option bytes := gob_Encode o.
Definition decodeOp (data : bytes) : option op := gob_Decode data.

Definition kv_Apply (command : bytes) (data : gmap string string)
  : applyResult * gmap string string :=
  match decodeOp command with
  | None => (mkApplyResult "" (Some KErrGob), data)
  | Some o =>
      if String.eqb (op_Type o) "SET" then (zeroApplyResult, <[op_Key o := op_Value o]> data)
      else if String.eqb (op_Type o) "DEL" then (zeroApplyResult, delete (op_Key o) data)
      else (mkApplyResult "" (Some (KErrUnknownOp (op_Type o))), data)
  end.

Definition kv_Snapshot (data : gmap string string) : option bytes := gob_Encode data.

(** The new map and whether the call succeeded. *)
Definition kv_Restore (snapshot : bytes) (data : gmap string string) : gmap string string * bool :=
  match gob_Decode snapshot with
  | Some d => (d, true)
  | None => (data, false)
  end.

#[export] Instance kv_StateMachine : StateMachine (gmap string string) applyResult := {
  sm_Apply := kv_Apply;
  sm_Snapshot := kv_Snapshot;
  sm_Restore := kv_Restore
}.

(** ** Calls *)

(** [Set] and [Delete] are [call] on these operations. *)
Definition setOp (key value : string) : op := mkOp "SET" key value.
Definition delOp (key : string) : op := mkOp "DEL" key "".

(** [call] up to the return of [Submit], for a call numbered [c]. *)
Definition call_submit (c : nat) (o : op) (kv : KVStore) (n : RaftNode)
  : KVStore * RaftNode * list Goroutine :=
  match encodeOp o with
  | None => (set_kv_calls (<[c := CallDone (mkApplyResult "" (Some KErrGob))]> (kv_calls kv)) kv, n, [])
  | Some data =>
      match Submit n data with
      | (n, inr _, gs) =>
          (set_kv_calls (<[c := CallDone (mkApplyResult "" (Some KErrNotLeader))]> (kv_calls kv)) kv, n, gs)
      | (n, inl (index, term), gs) =>
          (set_kv_calls (<[c := CallSubmitted index term]> (kv_calls kv)) kv, n, gs)
      end
  end.
End codec.

(** Registering the call under [pendingMu]. *)
Definition call_register (c : nat) (kv : KVStore) : option KVStore :=
  match kv_calls kv !! c with
  | Some (CallSubmitted index term) =>
      Some (set_kv_calls (<[c := CallWaiting index term]> (kv_calls kv))
             (set_kv_pending (<[index := mkPendingCall term c]> (kv_pending kv)) kv))
  | _ => None
  end.

(** The first case of the [select]: a result is in the channel. *)
Definition call_receive (c : nat) (kv : KVStore) : option KVStore :=
  match kv_calls kv !! c, kv_chans kv !! c with
  | Some (CallWaiting _ _), Some r =>
      Some (set_kv_calls (<[c := CallDone r]> (kv_calls kv))
             (set_kv_chans (delete c (kv_chans kv)) kv))
  | _, _ => None
  end.

(** The second case: five seconds have passed. *)
Definition call_timeout (c : nat) (kv : KVStore) : option KVStore :=
  match kv_calls kv !! c with
  | Some (CallWaiting index _) =>
      Some (set_kv_calls (<[c := CallDone (mkApplyResult "" (Some KErrTimeout))]> (kv_calls kv))
             (set_kv_pending (delete index (kv_pending kv)) kv))
  | _ => None
  end.

(** ** Routing results *)

(** A send on a channel of capacity one: [None] when it would block. *)
Definition chan_send (c : nat) (r : applyResult) (chans : gmap nat applyResult)
  : option (gmap nat applyResult) :=
  match chans !! c with
  | Some _ => None
  | None => Some (<[c := r]> chans)
  end.

Fixpoint failAll_loop (l : list (Z * pendingCall)) (chans : gmap nat applyResult)
  : option (gmap nat applyResult) :=
  match l with
  | [] => Some chans
  | (_, call) :: rest =>
      match chan_send (pc_ch call) (mkApplyResult "" (Some KErrNotLeader)) chans with
      | Some chans => failAll_loop rest chans
      | None => None
      end
  end.

Definition failAllPending (kv : KVStore) : option KVStore :=
  match failAll_loop (map_to_list (kv_pending kv)) (kv_chans kv) with
  | Some chans => Some (set_kv_pending ∅ (set_kv_chans chans kv))
  | None => None
  end.

(** Whether the loop goes on to take a snapshot after a message. *)
Definition snapshotDue (kv : KVStore) : bool :=
  (kv_snapshotThreshold kv >? 0) && (kv_applied kv mod kv_snapshotThreshold kv =? 0).

(** One iteration of [readApplyCh]; the boolean says that
    [kv.node.TakeSnapshot(kv.Snapshot())] follows.  [None] when a send blocks. *)
Definition readApplyCh_step (msg : ApplyMsg applyResult) (kv : KVStore) : option (KVStore * bool) :=
  if am_IsSnapshot msg then
    match failAllPending kv with
    | Some kv => Some (set_kv_applied (am_SnapshotIndex msg) kv, false)
    | None => None
    end
  else
    let r := default zeroApplyResult (am_Result msg) in
    let kv := set_kv_applied (kv_applied kv ⊕ 1) kv in
    match kv_pending kv !! am_Index msg with
    | None => Some (kv, snapshotDue kv)
    | Some call =>
        let kv := set_kv_pending (delete (am_Index msg) (kv_pending kv)) kv in
        let r := if negb (pc_term call =? am_Term msg)
                 then mkApplyResult "" (Some KErrNotLeader) else r in
        match chan_send (pc_ch call) r (kv_chans kv) with
        | Some chans => let kv := set_kv_chans chans kv in Some (kv, snapshotDue kv)
        | None => None
        end
    end.

(** ** The callers and the router together

    Any interleaving of new calls, registrations, deliveries, timeouts and
    messages on the apply channel. *)
Section system.
Context `{!GobCodec op, !GobCodec (gmap string string)}.

Inductive kv_step : KVStore -> KVStore -> Prop :=
  | ks_submit c o n kv :
      kv_calls kv !! c = None -> kv_step kv (call_submit c o kv n).1.1
  | ks_register c kv kv' : call_register c kv = Some kv' -> kv_step kv kv'
  | ks_receive c kv kv' : call_receive c kv = Some kv' -> kv_step kv kv'
  | ks_timeout c kv kv' : call_timeout c kv = Some kv' -> kv_step kv kv'
  | ks_message msg kv kv' b : readApplyCh_step msg kv = Some (kv', b) -> kv_step kv kv'
  | ks_apply command kv :
      kv_step kv (set_kv_data (kv_Apply command (kv_data kv)).2 kv)
  | ks_restore snapshot kv :
      kv_step kv (set_kv_data (kv_Restore snapshot (kv_data kv)).1 kv).

(** A pending entry is a waiting call with an empty channel, and only
    waiting or finished calls have something in their channel. *)
Record kv_inv (kv : KVStore) : Prop := {
  ki_pending : forall i p, kv_pending kv !! i = Some p ->
    kv_calls kv !! pc_ch p = Some (CallWaiting i (pc_term p)) /\ kv_chans kv !! pc_ch p = None;
  ki_chans : forall c r, kv_chans kv !! c = Some r ->
    match kv_calls kv !! c with
    | Some (CallWaiting _ _) | Some (CallDone _) => True
    | _ => False
    end
}.

Lemma kv_inv_new : kv_inv kv_new.
Proof. split; simpl; intros ??; by rewrite lookup_empty. Qed.

(** A call that moves on and is not pending keeps the invariant. *)
Lemma kv_inv_call c s kv :
  kv_inv kv -> (forall i p, kv_pending kv !! i = Some p -> pc_ch p <> c) ->
  (kv_chans kv !! c = None \/ match s with CallSubmitted _ _ => False | _ => True end) ->
  kv_inv (set_kv_calls (<[c := s]> (kv_calls kv)) kv).
Proof.
  intros [Hp Hc] Hne Hs. split; simpl.
  - intros i p Hi. rewrite lookup_insert_ne by (intros ->; by eapply Hne). by apply Hp.
  - intros d r Hd. destruct (decide (c = d)) as [->|].
    + rewrite lookup_insert_eq. destruct Hs as [Hs|Hs]; [congruence|by destruct s].
    + rewrite lookup_insert_ne by done. by eapply Hc.
Qed.

(** Failing every pending call never blocks, and fills only their channels. *)
Lemma failAll_loop_ok l chans :
  NoDup (map (λ x, pc_ch x.2) l) -> Forall (λ x, chans !! pc_ch x.2 = None) l ->
  exists chans', failAll_loop l chans = Some chans' /\
    forall c, chans' !! c = if decide (c ∈ map (λ x, pc_ch x.2) l)
                            then Some (mkApplyResult "" (Some KErrNotLeader)) else chans !! c.
Proof.
  revert chans. induction l as [|[i p] l IH]; intros chans; cbn [failAll_loop map].
  - intros _ _. by exists chans.
  - rewrite NoDup_cons, Forall_cons. simpl. intros [Hni Hnd] [Hp Hall].
    unfold chan_send. rewrite Hp.
    destruct (IH (<[pc_ch p := mkApplyResult "" (Some KErrNotLeader)]> chans)) as (chans' & -> & Hc').
    { done. }
    { rewrite Forall_forall in Hall |- *. intros x Hx. rewrite lookup_insert_ne; [by apply Hall|].
      intros Heq. apply Hni. rewrite Heq. apply list_elem_of_In, in_map_iff.
      exists x. split; [done|]. by apply list_elem_of_In. }
    exists chans'. split; [done|]. intros c. rewrite Hc'.
    destruct (decide (c ∈ map (λ x, pc_ch x.2) l)) as [Hin|Hnin].
    + by rewrite decide_True by (apply elem_of_cons; by right).
    + destruct (decide (c = pc_ch p)) as [->|Hne].
      * by rewrite lookup_insert_eq, decide_True by (apply elem_of_cons; by left).
      * rewrite lookup_insert_ne, decide_False; [done| |done].
        rewrite elem_of_cons. by intros [?|?].
Qed.

Lemma pending_nodup kv : kv_inv kv -> NoDup (map (λ x, pc_ch x.2) (map_to_list (kv_pending kv))).
Proof.
  intros [Hp _]. apply NoDup_alt. intros j k c Hj Hk.
  rewrite list_lookup_fmap in Hj, Hk.
  destruct (map_to_list _ !! j) as [[i1 p1]|] eqn:E1; [|done].
  destruct (map_to_list _ !! k) as [[i2 p2]|] eqn:E2; [|done]. simplify_eq/=.
  pose proof E1 as E1'. pose proof E2 as E2'.
  apply list_elem_of_lookup_2, elem_of_map_to_list in E1', E2'.
  pose proof (Hp _ _ E1') as [Hc1 _]. pose proof (Hp _ _ E2') as [Hc2 _].
  assert (i1 = i2 /\ p1 = p2) as [-> ->] by (split; congruence).
  eapply NoDup_lookup; [apply (NoDup_map_to_list (kv_pending kv))|done|done].
Qed.

Lemma failAllPending_ok kv :
  kv_inv kv -> exists kv', failAllPending kv = Some kv' /\ kv_inv kv' /\ kv_pending kv' = ∅ /\
    kv_calls kv' = kv_calls kv /\
    (forall i p, kv_pending kv !! i = Some p ->
       kv_chans kv' !! pc_ch p = Some (mkApplyResult "" (Some KErrNotLeader))).
Proof.
  intros Hinv. pose proof (pending_nodup kv Hinv) as Hnd. destruct Hinv as [Hp Hc].
  destruct (failAll_loop_ok (map_to_list (kv_pending kv)) (kv_chans kv) Hnd) as (chans & Hl & Hch).
  { apply Forall_forall. intros [i p] Hin%elem_of_map_to_list. by apply (Hp i p). }
  assert (Hin : forall i p, kv_pending kv !! i = Some p ->
    pc_ch p ∈ map (λ x : Z * pendingCall, pc_ch x.2) (map_to_list (kv_pending kv))).
  { intros i p Hi. apply list_elem_of_In, in_map_iff. exists (i, p). split; [done|].
    by apply list_elem_of_In, elem_of_map_to_list. }
  unfold failAllPending. rewrite Hl. eexists. split; [done|]. split_and!; [|done|done|].
  - split; simpl; [intros ??; by rewrite lookup_empty|]. intros c r. rewrite Hch.
    case_decide as Hd; [|apply Hc]. intros _.
    apply list_elem_of_In, in_map_iff in Hd as ([i p] & <- & Hi%list_elem_of_In%elem_of_map_to_list).
    simpl. by rewrite (proj1 (Hp _ _ Hi)).
  - intros i p Hi. simpl. rewrite Hch, decide_True; [done|]. by eapply Hin.
Qed.

(** The router never blocks, and keeps the invariant. *)
Lemma readApplyCh_ok msg kv :
  kv_inv kv -> exists kv' b, readApplyCh_step msg kv = Some (kv', b) /\ kv_inv kv'.
Proof.
  intros Hinv. unfold readApplyCh_step. destruct (am_IsSnapshot msg).
  - destruct (failAllPending_ok kv Hinv) as (kv' & -> & [Hp Hc] & _). eexists _, _. split; [done|].
    by split.
  - simpl. destruct Hinv as [Hp Hc]. destruct (kv_pending kv !! am_Index msg) as [p|] eqn:Hi.
    + destruct (Hp _ _ Hi) as [Hcall Hch]. unfold chan_send; simpl. rewrite Hch.
      eexists _, _. split; [done|]. split; simpl.
      * intros j q [Hne Hj]%lookup_delete_Some. destruct (Hp _ _ Hj) as [Hcq Hchq]. split; [done|].
        rewrite lookup_insert_ne; [done|]. intros Heq. rewrite Heq in Hcall. congruence.
      * intros c r'. destruct (decide (pc_ch p = c)) as [<-|]; [by rewrite Hcall|].
        rewrite lookup_insert_ne by done. apply Hc.
    + eexists _, _. split; [done|]. by split.
Qed.

Lemma kv_inv_step kv kv' : kv_inv kv -> kv_step kv kv' -> kv_inv kv'.
Proof.
  intros Hinv Hstep. pose proof Hinv as [Hp Hc].
  destruct Hstep as [c o n kv Hnew|c kv kv' H|c kv kv' H|c kv kv' H|msg kv kv' b H|command kv|snapshot kv].
  - assert (Hne : forall i p, kv_pending kv !! i = Some p -> pc_ch p <> c).
    { intros i p Hi Heq. destruct (Hp _ _ Hi). congruence. }
    assert (Hnc : kv_chans kv !! c = None).
    { destruct (kv_chans kv !! c) eqn:E; [|done]. apply Hc in E. by rewrite Hnew in E. }
    unfold call_submit. repeat case_match; simplify_eq/=; apply kv_inv_call; auto.
  - unfold call_register in H. destruct (kv_calls kv !! c) as [[i t| |]|] eqn:Hcall; simplify_eq.
    assert (Hnc : kv_chans kv !! c = None).
    { destruct (kv_chans kv !! c) eqn:E; [|done]. apply Hc in E. by rewrite Hcall in E. }
    split; simpl.
    + intros j p. destruct (decide (i = j)) as [->|].
      * rewrite lookup_insert_eq. intros ?; simplify_eq/=. by rewrite lookup_insert_eq.
      * rewrite lookup_insert_ne by done. intros Hj. destruct (Hp _ _ Hj) as [Hcj ?]. split; [|done].
        rewrite lookup_insert_ne by congruence. done.
    + intros d r Hd. destruct (decide (c = d)) as [->|]; [congruence|].
      rewrite lookup_insert_ne by done. by eapply Hc.
  - unfold call_receive in H. destruct (kv_calls kv !! c) as [[|i t|]|] eqn:Hcall; simplify_eq.
    destruct (kv_chans kv !! c) as [r|] eqn:Hch; simplify_eq. split; simpl.
    + intros j p Hj. destruct (Hp _ _ Hj) as [Hcj Hchj].
      assert (c <> pc_ch p) by congruence. by rewrite lookup_insert_ne, lookup_delete_ne.
    + intros d r' [Hne Hd]%lookup_delete_Some. rewrite lookup_insert_ne by done. by eapply Hc.
  - unfold call_timeout in H. destruct (kv_calls kv !! c) as [[|i t|]|] eqn:Hcall; simplify_eq.
    split; simpl.
    + intros j p [Hne Hj]%lookup_delete_Some. destruct (Hp _ _ Hj) as [Hcj Hchj]. split; [|done].
      rewrite lookup_insert_ne by congruence. done.
    + intros d r Hd. destruct (decide (c = d)) as [->|]; [by rewrite lookup_insert_eq|].
      rewrite lookup_insert_ne by done. by eapply Hc.
  - destruct (readApplyCh_ok msg kv Hinv) as (kv2 & b2 & H2 & ?). congruence.
  - done.
  - done.
Qed.

Lemma kv_inv_reachable kv : rtc kv_step kv_new kv -> kv_inv kv.
Proof.
  intros H. assert (Hi := kv_inv_new). revert Hi. generalize kv_new H. clear H.
  induction 1; eauto using kv_inv_step.
Qed.
End system.

(** ** Properties *)

(** A codec of any countable type, for the examples: one byte per bit of the
    number that encodes the value. *)
Fixpoint pos_bytes (p : positive) : bytes :=
  match p with
  | xH => []
  | xO p => Byte.x00 :: pos_bytes p
  | xI p => Byte.x01 :: pos_bytes p
  end.

Fixpoint bytes_pos (b : bytes) : option positive :=
  match b with
  | [] => Some xH
  | Byte.x00 :: b => xO <$> bytes_pos b
  | Byte.x01 :: b => xI <$> bytes_pos b
  | _ => None
  end.

Lemma bytes_pos_bytes p : bytes_pos (pos_bytes p) = Some p.
Proof. induction p as [p IH|p IH|]; simpl; [by rewrite IH|by rewrite IH|done]. Qed.

Program Definition bitCodec {A} `{Countable A} : GobCodec A := {|
  gob_Encode := λ a, Some (pos_bytes (encode a));
  gob_Decode := λ b, bytes_pos b ≫= decode
|}.
Next Obligation. intros A ? ? a b [= <-]. rewrite bytes_pos_bytes. simpl. apply decode_encode. Qed.

Section properties.
Context `{!GobCodec op, !GobCodec (gmap string string)}.

(** The value of a key after a sequence of operations: the last write wins. *)
Fixpoint last_write (ops : list op) (key : string) (init : option string) : option string :=
  match ops with
  | [] => init
  | o :: rest =>
      last_write rest key
        (if bool_decide (op_Key o = key)
         then if String.eqb (op_Type o) "SET" then Some (op_Value o)
              else if String.eqb (op_Type o) "DEL" then None else init
         else init)
  end.

(** The store is the map the log describes: after any sequence of encoded
    operations every key has the value of the last [SET] or [DEL] of it, and
    each operation returns the empty result, or an error if its type is
    unknown, in which case it changes nothing. *)
Theorem kv_Apply_last_write (ops : list op) (cmds : list bytes) (data : gmap string string) (key : string) :
  Forall2 (λ o c, encodeOp o = Some c) ops cmds ->
  foldl (λ d c, (kv_Apply c d).2) data cmds !! key = last_write ops key (data !! key) /\
  Forall2 (λ o c, (kv_Apply c data).1 =
    if String.eqb (op_Type o) "SET" || String.eqb (op_Type o) "DEL" then zeroApplyResult
    else mkApplyResult "" (Some (KErrUnknownOp (op_Type o)))) ops cmds.
Proof using Type*.
  intros Hops. split.
  - revert data. induction Hops as [|o c ops cmds Ho Hops IH]; intros data; [done|]. simpl. rewrite IH. f_equal.
    unfold kv_Apply, decodeOp. rewrite (gob_roundtrip _ _ Ho).
    destruct (String.eqb (op_Type o) "SET"); simpl; [|destruct (String.eqb (op_Type o) "DEL"); simpl];
      case_bool_decide as Hk; try done.
    + by rewrite Hk, lookup_insert_eq.
    + by rewrite lookup_insert_ne.
    + by rewrite Hk, lookup_delete_eq.
    + by rewrite lookup_delete_ne.
  - eapply Forall2_impl; [exact Hops|]. simpl. intros o c Ho. unfold kv_Apply, decodeOp.
    rewrite (gob_roundtrip _ _ Ho).
    destruct (String.eqb (op_Type o) "SET"); [done|]. by destruct (String.eqb (op_Type o) "DEL").
Qed.

(** The operations of a list of entries; configuration entries and commands that
    do not decode have none. *)
Definition entries_ops (es : list LogEntry) : list op :=
  omap (λ e, if le_IsConfig e then None else decodeOp (le_Command e)) es.

Lemma last_write_app ops ops' key init : last_write (ops ++ ops') key init = last_write ops' key (last_write ops key init).
Proof using. revert init. induction ops as [|o ops IH]; intros init; simpl; [done|apply IH]. Qed.

(** The store after a list of entries is the map the list describes. *)
Lemma execute_last_write es (data : gmap string string) key :
  (apply_entries es data).2 !! key = last_write (entries_ops es) key (data !! key).
Proof using Type*.
  revert data. induction es as [|e es IH]; intros data; [done|]. simpl. destruct (le_IsConfig e); simpl; [apply IH|].
  unfold kv_Apply. destruct (decodeOp (le_Command e)) as [o|] eqn:Ho; simpl.
  - destruct (String.eqb (op_Type o) "SET") eqn:HS; [|destruct (String.eqb (op_Type o) "DEL") eqn:HD].
    + specialize (IH (<[op_Key o := op_Value o]> data)). destruct (apply_entries es _) as [ms d]. simpl in *. rewrite IH. f_equal.
      case_bool_decide as Hk; [by rewrite Hk, lookup_insert_eq|by rewrite lookup_insert_ne].
    + specialize (IH (delete (op_Key o) data)). destruct (apply_entries es _) as [ms d]. simpl in *. rewrite IH. f_equal.
      case_bool_decide as Hk; [by rewrite Hk, lookup_delete_eq|by rewrite lookup_delete_ne].
    + specialize (IH data). destruct (apply_entries es _) as [ms d]. simpl in *. rewrite IH. f_equal. by case_bool_decide.
  - specialize (IH data). by destruct (apply_entries es _) as [ms d].
Qed.

(** C27. A snapshot restores to the map it was taken of: a store rebuilt from a
    snapshot, whatever it held before, and the entries after it has for every key
    what the last write of all the entries made of it, those before the snapshot
    included.  A snapshot that does not decode leaves the store alone. *)
Theorem kv_snapshot_recovery (es fs : list LogEntry) (data0 stale : gmap string string) (snapshot : bytes) (key : string) :
  kv_Snapshot (apply_entries es data0).2 = Some snapshot ->
  (apply_entries fs (kv_Restore snapshot stale).1).2 !! key =
    last_write (entries_ops (es ++ fs)) key (data0 !! key) /\
  (kv_Restore snapshot stale).2 = true /\
  (forall junk, gob_Decode (A := gmap string string) junk = None -> kv_Restore junk stale = (stale, false)).
Proof using Type*.
  intros Hs. unfold kv_Restore. rewrite (gob_roundtrip _ _ Hs). split_and!; [|done|by intros junk ->].
  unfold entries_ops. rewrite omap_app, last_write_app. simpl. by rewrite !execute_last_write.
Qed.

End properties.

Definition exOp : op := setOp "x" "1".
Definition exCommand : bytes := pos_bytes (encode exOp).

Lemma kv_Apply_last_write_witness :
  foldl (λ d c, (@kv_Apply bitCodec c d).2) ∅ [exCommand] !! "x" = Some "1".
Proof.
  destruct (@kv_Apply_last_write bitCodec [exOp] [exCommand] ∅ "x") as [H _]; [by repeat constructor|].
  rewrite H. reflexivity.
Defined.

(** A store with other contents, restored from the snapshot of one write. *)
Lemma kv_snapshot_recovery_witness :
  let snapshot := pos_bytes (encode ({["x" := "1"]} : gmap string string)) in
  (@kv_Restore bitCodec snapshot {["y" := "9"]}).1 !! "x" = Some "1".
Proof.
  cbv zeta. exact (proj1 (@kv_snapshot_recovery bitCodec bitCodec [mkLogEntry 1 1 exCommand false "" ""] []
    ∅ {["y" := "9"]} _ "x" ltac:(vm_compute; reflexivity))).
Defined.

(** A call that has been registered at index 1 of term 1. *)
Definition exPending : KVStore :=
  mkKVStore ∅ {[1 := mkPendingCall 1 0]} 100 0 {[0%nat := CallWaiting 1 1]} ∅.

Definition exKVLeader : RaftNode := set_state Leader (set_currentTerm 1 exampleNode).

