(* ===== verification/KVWrite.v ===== *)
(** * A write, end to end

    The path of one write through the leader's process and the followers'
    handlers: [call], [Submit], the AppendEntries messages and their replies, the
    commit, the apply loop, the reader of the apply channel, the return of the
    call, and a local read. *)

From S2P Require Import Prelude RaftLog Rpc Disk Node Replication ReplicationSafety Snapshot Client Apply KVStore.

(** ** Reading several messages *)

(** [readApplyCh] on a sequence of messages; taking a snapshot does not change
    the store. *)
Fixpoint readApplyCh_run (msgs : list (ApplyMsg applyResult)) (kv : KVStore) : option KVStore :=
  match msgs with
  | [] => Some kv
  | msg :: rest =>
      match readApplyCh_step msg kv with
      | Some (kv, _) => readApplyCh_run rest kv
      | None => None
      end
  end.

Lemma readApplyCh_run_app msgs msgs' kv :
  readApplyCh_run (msgs ++ msgs') kv = readApplyCh_run msgs kv ≫= readApplyCh_run msgs'.
Proof. revert kv. induction msgs as [|m ms IH]; intros kv; simpl; [done|]. repeat case_match; done. Qed.

(** Messages for other indices leave a registered call alone. *)
Lemma read_others index p msgs : forall kv,
  kv_inv kv -> kv_pending kv !! index = Some p ->
  Forall (λ m, am_IsSnapshot m = false /\ am_Index m <> index) msgs ->
  exists kv', readApplyCh_run msgs kv = Some kv' /\ kv_inv kv' /\ kv_pending kv' !! index = Some p /\ kv_data kv' = kv_data kv.
Proof.
  induction msgs as [|m ms IH]; intros kv Hinv Hp Hms; [by exists kv|]. apply Forall_cons in Hms as [[Hs Hi] Hms].
  destruct (readApplyCh_ok m kv Hinv) as (kv1 & b & Hr & Hinv1). simpl. rewrite Hr.
  assert (Hk : kv_pending kv1 !! index = Some p /\ kv_data kv1 = kv_data kv).
  { unfold readApplyCh_step in Hr. rewrite Hs in Hr. simpl in Hr.
    repeat case_match; simplify_eq; simpl; split; done || by rewrite lookup_delete_ne. }
  destruct Hk as [Hp1 Hd1]. destruct (IH kv1 Hinv1 Hp1 Hms) as (kv' & ? & ? & ? & ?). exists kv'. split_and!; congruence.
Qed.

(** A waiting call gets the result of its entry and returns it. *)
Lemma waiting_call_served c kv e r :
  kv_inv kv -> kv_pending kv !! le_Index e = Some (mkPendingCall (le_Term e) c) ->
  exists kv4 kv5, readApplyCh_run [entryMsg e r] kv = Some kv4 /\ call_receive c kv4 = Some kv5 /\
    kv_calls kv5 !! c = Some (CallDone r) /\ kv_data kv5 = kv_data kv.
Proof.
  intros Hinv Hp. destruct (ki_pending kv Hinv _ _ Hp) as [Hc Hch]. simpl in Hc, Hch.
  simpl. unfold readApplyCh_step. simpl. rewrite Hp. simpl. rewrite Z.eqb_refl. simpl.
  unfold chan_send. rewrite Hch. eexists _, _. split; [reflexivity|]. unfold call_receive. simpl.
  rewrite Hc, lookup_insert_eq. split; [reflexivity|]. simpl. by rewrite lookup_insert_eq.
Qed.

(** ** The entries the loop applies *)

(** A slice up to the end of the log ends with its last entry, and the others
    have smaller indices. *)
Lemma slice_last l i :
  log_wf l -> log_snapshotIndex l <= i < log_lastIndex l ->
  exists pre, log_slice l (i + 1) (log_lastIndex l + 1) = pre ++ [log_get l (log_lastIndex l)] /\
    Forall (λ e, le_Index e < log_lastIndex l) pre.
Proof.
  intros Hwf Hi. pose proof (wf_lastIndex_range _ Hwf). pose proof (wf_snapshotIndex _ Hwf).
  exists (log_slice l (i + 1) (log_lastIndex l)). split.
  - rewrite (slice_split _ (i + 1) (log_lastIndex l)) by (done || unfold is_u64; lia). f_equal.
    by rewrite slice_cons, slice_nil by (done || unfold is_u64; lia).
  - apply Forall_lookup_2. intros k e. rewrite slice_lookup by (done || unfold is_u64; lia). cbv zeta.
    case_decide; [|done]. intros He. rewrite (view_index _ Hwf _ _ He). lia.
Qed.

(** The messages of a list of entries carry their indices. *)
Lemma apply_entries_msgs {S R} `{!StateMachine S R} (P : Z -> Prop) (es : list LogEntry) (sm : S) :
  Forall (λ e, P (le_Index e)) es ->
  Forall (λ m, am_IsSnapshot m = false /\ P (am_Index m)) (apply_entries es sm).1.
Proof.
  intros Hes. revert sm. induction Hes as [|e es He Hes IH]; intros sm; simpl; [done|].
  destruct (le_IsConfig e); [apply IH|]. destruct (sm_Apply (le_Command e) sm) as [r sm1]. specialize (IH sm1).
  destruct (apply_entries es sm1). by apply Forall_cons.
Qed.

(** ** Replication to a majority *)

(** A follower that takes what the leader [L] sends to it under the name [p]. *)
Record accepts (L : RaftNode) (p : string) (F : RaftNode) : Prop := {
  ac_peer : p ∈ peers L;
  ac_send : sendable L p;
  ac_wf : log_wf (rlog F);
  ac_term : currentTerm F <= currentTerm L;
  ac_match : log_matches (rlog F) (ae_PrevLogIndex (buildArgsLocked L p)) (ae_PrevLogTerm (buildArgsLocked L p))
}.

(** The reply of follower [F] to the message [L] has sent to it comes back to the
    leader, now in state [m]. *)
Definition replicate (now : Z) (L m : RaftNode) (follower : string * RaftNode) : RaftNode :=
  let args := buildArgsLocked L follower.1 in
  sendToPeer_reply now m follower.1 (currentTerm L) args (HandleAppendEntries now follower.2 args).2.

(** What the replies leave of the leader, and what they add up to. *)
Record replicated_to (L m : RaftNode) (ps : list string) : Prop := {
  rt_state : state m = Leader;
  rt_term : currentTerm m = currentTerm L;
  rt_log : rlog m = rlog L;
  rt_peers : peers m = peers L;
  rt_applied : lastApplied m = lastApplied L;
  rt_bound : forall p, p ∈ peers L -> mget (matchIndex m) p <= log_lastIndex (rlog L);
  rt_match : forall p, p ∈ ps -> mget (matchIndex m) p = log_lastIndex (rlog L);
  rt_settled : ps <> [] -> settled m;
  rt_commit : commitIndex m = commitIndex L \/ commitIndex m <= log_lastIndex (rlog L) /\ commitNotifyC m = true
}.

Lemma replicate_one now L m ps p F :
  log_wf (rlog L) -> le_Term (log_get (rlog L) (log_lastIndex (rlog L))) = currentTerm L ->
  replicated_to L m ps -> accepts L p F -> replicated_to L (replicate now L m (p, F)) (p :: ps).
Proof.
  intros Hwf Hlast [] []. unfold replicate. simpl. set (args := buildArgsLocked L p) in *.
  assert (Hrep : (HandleAppendEntries now F args).2 = mkAppendEntriesReply (currentTerm L) true 0 0).
  { by destruct (accept_fields now F args ac_wf0 (build_wf L p ac_send0) ac_term0 ac_match0) as (_ & -> & _). }
  rewrite Hrep, <- rt_term0.
  destruct (reply_accept_commit now m p args (mkAppendEntriesReply (currentTerm m) true 0 0))
    as (R1 & R2 & R3 & R4 & _ & _ & R7 & _ & R9 & R10 & R11 & R12); rewrite ?rt_log0, ?rt_term0, ?rt_peers0; try done.
  { by apply build_length. }
  rewrite rt_log0, rt_term0, rt_peers0, rt_applied0 in *. set (m' := sendToPeer_reply _ _ _ _ _ _) in *. clearbody m'.
  split; try done.
  - intros q Hq. destruct (decide (q = p)) as [->|Hqp]; [lia|]. destruct (R9 q Hqp) as [-> _]. auto.
  - intros q [->|Hq]%elem_of_cons; [done|]. destruct (decide (q = p)) as [->|Hqp]; [done|]. destruct (R9 q Hqp) as [-> _]. auto.
  - destruct R11 as [[E1 E2]|?]; [|by right]. rewrite E1, E2. done.
Qed.

Lemma replicate_all now L Fs : forall m ps,
  log_wf (rlog L) -> le_Term (log_get (rlog L) (log_lastIndex (rlog L))) = currentTerm L ->
  replicated_to L m ps -> (forall p F, (p, F) ∈ Fs -> accepts L p F) ->
  replicated_to L (foldl (replicate now L) m Fs) (rev Fs.*1 ++ ps).
Proof.
  induction Fs as [|[p F] Fs IH]; intros m ps Hwf Hlast Hm HF; simpl; [done|]. rewrite <- app_assoc. simpl.
  apply IH; [done|done| |intros q G Hq; apply HF; by right]. apply replicate_one; [done|done|done|]. apply HF. by left.
Qed.

(** The replies of a majority commit the whole log and wake the apply loop. *)
Lemma majority_commits now L Fs :
  state L = Leader -> log_wf (rlog L) -> le_Term (log_get (rlog L) (log_lastIndex (rlog L))) = currentTerm L ->
  (forall p, p ∈ peers L -> mget (matchIndex L) p <= log_lastIndex (rlog L)) -> commitIndex L < log_lastIndex (rlog L) ->
  peers L <> [] -> NoDup Fs.*1 -> (length (peers L) + 1 < 2 * (1 + length Fs))%nat -> (forall p F, (p, F) ∈ Fs -> accepts L p F) ->
  let m := foldl (replicate now L) L Fs in
  rlog m = rlog L /\ lastApplied m = lastApplied L /\ commitIndex m = log_lastIndex (rlog L) /\ commitNotifyC m = true.
Proof.
  intros Hs Hwf Hlast Hb Hc Hps Hnd Hmaj HF m.
  pose proof (replicate_all now L Fs L []) as HR. fold m in HR. clearbody m.
  destruct HR as []; [done|done|split; try done; [set_solver|by left]|done|].
  assert (Hne : rev Fs.*1 ++ [] <> []).
  { rewrite app_nil_r. intros E. assert (Hl : length (rev Fs.*1) = 0%nat) by (by rewrite E).
    rewrite length_rev, length_fmap in Hl. destruct (peers L); [done|]. simpl in Hmaj. lia. }
  assert (Hacks : log_lastIndex (rlog m) <= commitIndex m).
  { apply rt_settled0; [done|]. rewrite rt_peers0. assert (S (length Fs.*1) <= acks m (log_lastIndex (rlog m)))%nat.
    - apply acks_quorum; [done| |done|].
      + intros p ([q F] & -> & Hin)%list_elem_of_fmap. rewrite rt_peers0. by apply (HF q F).
      + intros p Hp. rewrite rt_log0, rt_match0; [done|]. rewrite app_nil_r. by rewrite list_elem_of_In, <- in_rev, <- list_elem_of_In.
    - rewrite length_fmap in *. lia. }
  rewrite rt_log0 in Hacks. destruct rt_commit0 as [E|[? ?]]; [lia|]. split_and!; [done|done|lia|done].
Qed.

(** ** The write *)

Section write.
Context `{!GobCodec op, !GobCodec (gmap string string)}.

(** A leader with a log of sound indices, peers to replicate to, and not more to
    apply than the apply channel takes. *)
Record serving (n : RaftNode) : Prop := {
  sv_state : state n = Leader;
  sv_wf : log_wf (rlog n);
  sv_term : 1 <= currentTerm n < u64_size;
  sv_room : log_lastIndex (rlog n) + 2 < u64_size;
  sv_applied : log_snapshotIndex (rlog n) <= lastApplied n <= commitIndex n;
  sv_commit : commitIndex n <= log_lastIndex (rlog n);
  sv_backlog : (Z.to_nat (log_lastIndex (rlog n) + 1 - lastApplied n) <= applyCh_cap)%nat;
  sv_peers : peers n <> [];
  sv_match : forall p, p ∈ peers n -> mget (matchIndex n) p <= log_lastIndex (rlog n)
}.

(** The leader after [Submit]. *)
Lemma submit_write n cmd :
  serving n ->
  let e := mkLogEntry (currentTerm n) (log_lastIndex (rlog n) + 1) cmd false "" "" in
  exists n1, Submit n cmd = (n1, inl (log_lastIndex (rlog n) + 1, currentTerm n), map (dispatch n1 (currentTerm n)) (peers n)) /\
    log_wf (rlog n1) /\ log_lastIndex (rlog n1) = log_lastIndex (rlog n) + 1 /\
    log_snapshotIndex (rlog n1) = log_snapshotIndex (rlog n) /\ log_get (rlog n1) (log_lastIndex (rlog n) + 1) = e /\
    state n1 = Leader /\ currentTerm n1 = currentTerm n /\ peers n1 = peers n /\ lastApplied n1 = lastApplied n /\
    commitIndex n1 = commitIndex n /\ matchIndex n1 = matchIndex n.
Proof using.
  intros [] e. pose proof (wf_lastIndex_range _ sv_wf0). pose proof (wf_snapshotIndex _ sv_wf0).
  destruct (append_one (rlog n) e sv_wf0 eq_refl sv_term0 sv_room0) as (Hwf & Hla & Hsn & Hv).
  unfold Submit. rewrite sv_state0. simpl negb. cbv iota. rewrite (u64_small (log_lastIndex (rlog n) + 1)) by (unfold is_u64; lia).
  fold e. eexists. split; [reflexivity|].
  assert (Hget : log_get (log_append (rlog n) [e]) (log_lastIndex (rlog n) + 1) = e).
  { rewrite get_view by (done || unfold is_u64; lia). rewrite Hv. by rewrite lookup_insert_eq. }
  by split_and!.
Qed.

(** The loop, woken by the commit, and the messages it sends: the write's comes
    last. *)
Lemma apply_write now n e key value cmd (data : gmap string string) :
  log_wf (rlog n) -> log_snapshotIndex (rlog n) <= lastApplied n < log_lastIndex (rlog n) ->
  commitIndex n = log_lastIndex (rlog n) -> commitNotifyC n = true ->
  (Z.to_nat (log_lastIndex (rlog n) - lastApplied n) <= applyCh_cap)%nat ->
  log_get (rlog n) (log_lastIndex (rlog n)) = e -> le_IsConfig e = false -> le_Command e = cmd ->
  encodeOp (setOp key value) = Some cmd ->
  exists st fuel n3 msgs data', 
    apply_step now TakeCommitSignal (mkApplyState n data [] PSelect) = Some st /\
    apply_run now fuel st = mkApplyState n3 (<[key := value]> data') (msgs ++ [entryMsg e zeroApplyResult]) PSelect /\
    lastApplied n3 = log_lastIndex (rlog n) /\
    Forall (λ m, am_IsSnapshot m = false /\ am_Index m < log_lastIndex (rlog n)) msgs.
Proof using Type*.
  intros Hwf Hla Hc Hn Hcap He Hcfg Hcmd Henc.
  destruct (slice_last (rlog n) (lastApplied n)) as (pre & Hpre & Hidx); [done|lia|]. rewrite He in Hpre.
  destruct (apply_drain now (Z.to_nat (log_lastIndex (rlog n) - lastApplied n)) (set_commitNotifyC false n) data [])
    as (fuel & n3 & _ & Hrun & _ & _ & Hla3); [done|simpl; lia|simpl; lia|simpl; lia|simpl; lia|].
  simpl in Hrun, Hla3. rewrite Hc, Hpre, apply_entries_app in Hrun. simpl in Hrun. rewrite Hcfg, Hcmd in Hrun.
  assert (Happ : forall d, kv_Apply cmd d = (zeroApplyResult, <[key := value]> d)).
  { intros d. unfold kv_Apply, decodeOp. by rewrite (gob_roundtrip _ _ Henc). }
  rewrite !Happ in Hrun. simpl in Hrun. eexists _, fuel, n3, _, _.
  split; [simpl; by rewrite Hn|]. split; [exact Hrun|]. split; [congruence|].
  apply (apply_entries_msgs (λ i, i < log_lastIndex (rlog n))). exact Hidx.
Qed.

(** C19. A write through the leader, end to end: the call submits it and is
    registered; messages go to all peers; when the followers that take them are a
    majority with the leader, their replies commit it and wake the apply loop,
    which applies it after all that was committed before; the reader of the apply
    channel takes every message of the loop without blocking, and the call
    returns success; a local read of the store then returns the value. *)
Theorem kv_write_then_read (c : nat) (key value : string) (kv : KVStore) (n : RaftNode) (cmd : bytes) (now : Z) :
  rtc kv_step kv_new kv -> kv_calls kv !! c = None -> serving n -> encodeOp (setOp key value) = Some cmd ->
  let '(kv1, n1, gs) := call_submit c (setOp key value) kv n in
  gs = map (dispatch n1 (currentTerm n)) (peers n) /\
  forall Fs : list (string * RaftNode),
  NoDup Fs.*1 -> (length (peers n) + 1 < 2 * (1 + length Fs))%nat -> (forall p F, (p, F) ∈ Fs -> accepts n1 p F) ->
  exists kv2 st fuel n3 data msgs kv4 kv5,
    call_register c kv1 = Some kv2 /\
    apply_step now TakeCommitSignal (mkApplyState (foldl (replicate now n1) n1 Fs) (kv_data kv2) [] PSelect) = Some st /\
    apply_run now fuel st = mkApplyState n3 data msgs PSelect /\ lastApplied n3 = log_lastIndex (rlog n1) /\
    readApplyCh_run msgs (set_kv_data data kv2) = Some kv4 /\ call_receive c kv4 = Some kv5 /\
    kv_calls kv5 !! c = Some (CallDone zeroApplyResult) /\ kv_Get (kv_data kv5) key = inl value.
Proof using Type*.
  intros Hr Hc Hsv Henc. unfold call_submit. rewrite Henc.
  destruct (submit_write n cmd Hsv) as (n1 & Hsub & Hwf & Hla & Hsn & Hget & Hs & HT & Hp & Ha & Hci & Hm).
  rewrite Hsub. destruct Hsv. split; [done|]. intros Fs Hnd Hmaj HF. set (e := mkLogEntry _ _ cmd _ _ _) in Hget.
  set (kv1 := set_kv_calls _ kv). rewrite <- Hla in Hget.
  destruct (majority_commits now n1 Fs) as (C1 & C2 & C3 & C4); try done.
  { by rewrite Hget. }
  { intros p. rewrite Hp, Hm, Hla. intros Hin. specialize (sv_match0 p Hin). lia. }
  { lia. }
  { congruence. }
  { by rewrite Hp. }
  set (n2 := foldl (replicate now n1) n1 Fs) in *. clearbody n2.
  assert (Hreg : exists kv2, call_register c kv1 = Some kv2 /\ kv_pending kv2 !! le_Index e = Some (mkPendingCall (le_Term e) c)).
  { unfold call_register, kv1. simpl. rewrite lookup_insert_eq. eexists. split; [done|]. simpl. by rewrite lookup_insert_eq. }
  destruct Hreg as (kv2 & Hreg & Hpend). exists kv2.
  assert (Hinv : kv_inv kv2).
  { apply kv_inv_reachable. eapply rtc_r; [|by eapply (ks_register c kv1)]. eapply rtc_r; [exact Hr|].
    pose proof (ks_submit c (setOp key value) n kv Hc) as Hst. unfold call_submit in Hst. by rewrite Henc, Hsub in Hst. }
  destruct (apply_write now n2 e key value cmd (kv_data kv2)) as (st & fuel & n3 & msgs & data & A1 & A2 & A3 & A4);
    rewrite ?C1; try done; [by rewrite C2, Ha, Hla, Hsn; lia|rewrite C2, Ha, Hla; lia|].
  rewrite C1 in A3, A4. set (data' := <[key := value]> data) in *.
  assert (Hinv' : kv_inv (set_kv_data data' kv2)) by (by destruct Hinv).
  destruct (read_others (le_Index e) (mkPendingCall (le_Term e) c) msgs (set_kv_data data' kv2)) as (kv3 & R1 & R2 & R3 & R4);
    [done|done|eapply Forall_impl; [exact A4|]; intros m [? ?]; split; [done|simpl; lia]|].
  destruct (waiting_call_served c kv3 e zeroApplyResult R2 R3) as (kv4 & kv5 & S1 & S2 & S3 & S4).
  exists st, fuel, n3, data', (msgs ++ [entryMsg e zeroApplyResult]), kv4, kv5.
  split_and!; try done; [by rewrite readApplyCh_run_app, R1|].
  rewrite S4, R4. unfold kv_Get, data'. simpl. by rewrite lookup_insert_eq.
Qed.
End write.

(** A leader with an empty log and the peers "b" and "c", of which "b" answers. *)
Definition exServing : RaftNode := set_nextIndex (<["b" := 1]> (<["c" := 1]> ∅)) exKVLeader.

Lemma exServing_ok : serving exServing.
Proof. split; try done; [exact newLog_wf|vm_compute; lia]. Qed.

Definition exSubmitted : KVStore * RaftNode * list Goroutine := @call_submit bitCodec 0 exOp kv_new exServing.

Lemma exAccepts : accepts exSubmitted.1.2 "b" exampleNode.
Proof.
  split; [by left| |exact newLog_wf|done|by left]. split; [|vm_compute; done].
  split; [done|by left|done|by repeat constructor|done].
Qed.

Lemma kv_write_then_read_witness :
  exists kv2 kv5, call_register 0 exSubmitted.1.1 = Some kv2 /\ kv_calls kv5 !! 0%nat = Some (CallDone zeroApplyResult) /\
    kv_Get (kv_data kv5) "x" = inl "1".
Proof.
  pose proof (@kv_write_then_read bitCodec bitCodec 0 "x" "1" kv_new exServing exCommand 5
    (rtc_refl _ _) eq_refl exServing_ok eq_refl) as H.
  pose proof exAccepts as Ha. unfold exSubmitted in *. change (setOp "x" "1") with exOp in H.
  destruct (call_submit 0 exOp kv_new exServing) as [[kv1 n1] gs].
  destruct (proj2 H [("b", exampleNode)]) as (kv2 & st & fuel & n3 & data & msgs & kv4 & kv5 & H1 & _ & _ & _ & _ & _ & H2 & H3).
  - apply NoDup_singleton.
  - vm_compute. lia.
  - intros p F [[= -> ->]|[]%elem_of_nil]%elem_of_cons. exact Ha.
  - exists kv2, kv5. split; [exact H1|]. split; [exact H2|exact H3].
Defined.
