(* ===== verification/Transport.v ===== *)
(** * Transports (raft/transport.go, raft/transport_memory.go)

    The interface [Transport] as a class: its three calls act on the nodes of a
    cluster, and its laws say what a node may rely on: a call that returns a
    reply ran the addressed node's handler exactly once, a call that returns an
    error ran it at most once.  The in-memory network of the tests implements
    the interface. *)

From S2P Require Import Prelude RaftLog Rpc Disk Node Election Replication Snapshot.

Inductive net_error :=
  | ErrSelfDisconnected | ErrPeerDisconnected | ErrNotRegistered | ErrContext | ErrDropped
  | ErrMarshal | ErrStatus (code : Z) | ErrDecode.

#[export] Instance net_error_eq_dec : EqDecision net_error.
Proof. solve_decision. Defined.

Abbreviation nodes := (gmap string RaftNode).

(** What a call to [addr] may do, for the handler it stands for. *)
Definition rpc_spec {Rep : Type} (handler : RaftNode -> RaftNode * Rep) (addr : string)
    (ns : nodes) (res : nodes * (Rep + net_error)) : Prop :=
  match res.2 with
  | inl reply =>
      exists n, ns !! addr = Some n /\ reply = (handler n).2 /\ res.1 = <[addr := (handler n).1]> ns
  | inr _ =>
      res.1 = ns \/ exists n, ns !! addr = Some n /\ res.1 = <[addr := (handler n).1]> ns
  end.

(** [W] is the state of the network; [self] and [addr] the two ends, [expired]
    whether the context of the call is done, [now] the time at the receiver. *)
Class Transport (W : Type) := {
  tr_RequestVote : W -> string -> string -> bool -> Z -> RequestVoteArgs -> nodes ->
    nodes * (RequestVoteReply + net_error);
  tr_AppendEntries : W -> string -> string -> bool -> Z -> AppendEntriesArgs -> nodes ->
    nodes * (AppendEntriesReply + net_error);
  tr_InstallSnapshot : W -> string -> string -> bool -> InstallSnapshotArgs -> nodes ->
    nodes * (InstallSnapshotReply + net_error);
  tr_RequestVote_spec : forall w self addr expired now args ns,
    rpc_spec (λ n, HandleRequestVote now n args) addr ns
      (tr_RequestVote w self addr expired now args ns);
  tr_AppendEntries_spec : forall w self addr expired now args ns,
    rpc_spec (λ n, HandleAppendEntries now n args) addr ns
      (tr_AppendEntries w self addr expired now args ns);
  tr_InstallSnapshot_spec : forall w self addr expired args ns,
    rpc_spec (λ n, HandleInstallSnapshot n args) addr ns
      (tr_InstallSnapshot w self addr expired args ns)
}.

(** ** The in-memory network (transport_memory.go) *)

(** The registry of [MemoryNetwork.nodes] maps an identifier to a pointer; the
    node behind the pointer is the entry of that identifier in the cluster, so
    the registry is the set of its keys.  [disconnected] only ever holds [true]. *)
Record MemoryNetwork := mkMemoryNetwork {
  mn_nodes : gset string;
  mn_disconnected : gset string
}.

Definition NewMemoryNetwork : MemoryNetwork := mkMemoryNetwork ∅ ∅.

Definition mn_Register (id : string) (net : MemoryNetwork) : MemoryNetwork :=
  mkMemoryNetwork ({[id]} ∪ mn_nodes net) (mn_disconnected net).

Definition mn_Disconnect (id : string) (net : MemoryNetwork) : MemoryNetwork :=
  mkMemoryNetwork (mn_nodes net) ({[id]} ∪ mn_disconnected net).

Definition mn_Reconnect (id : string) (net : MemoryNetwork) : MemoryNetwork :=
  mkMemoryNetwork (mn_nodes net) (mn_disconnected net ∖ {[id]}).

(** The error of [lookup], if any. *)
Definition mt_lookup (net : MemoryNetwork) (self addr : string) : option net_error :=
  if decide (self ∈ mn_disconnected net) then Some ErrSelfDisconnected
  else if decide (addr ∈ mn_disconnected net) then Some ErrPeerDisconnected
  else if decide (addr ∈ mn_nodes net) then None
  else Some ErrNotRegistered.

(** The common body of the three calls. *)
Definition mt_call {Rep : Type} (handler : RaftNode -> RaftNode * Rep) (net : MemoryNetwork)
    (self addr : string) (expired : bool) (ns : nodes) : nodes * (Rep + net_error) :=
  match mt_lookup net self addr with
  | Some e => (ns, inr e)
  | None =>
      if expired then (ns, inr ErrContext)
      else match ns !! addr with
           | Some n => (<[addr := (handler n).1]> ns, inl (handler n).2)
           | None => (ns, inr ErrNotRegistered)
           end
  end.

Definition mt_RequestVote (net : MemoryNetwork) (self addr : string) (expired : bool) (now : Z)
    (args : RequestVoteArgs) (ns : nodes) : nodes * (RequestVoteReply + net_error) :=
  mt_call (λ n, HandleRequestVote now n args) net self addr expired ns.

Definition mt_AppendEntries (net : MemoryNetwork) (self addr : string) (expired : bool) (now : Z)
    (args : AppendEntriesArgs) (ns : nodes) : nodes * (AppendEntriesReply + net_error) :=
  mt_call (λ n, HandleAppendEntries now n args) net self addr expired ns.

Definition mt_InstallSnapshot (net : MemoryNetwork) (self addr : string) (expired : bool)
    (args : InstallSnapshotArgs) (ns : nodes) : nodes * (InstallSnapshotReply + net_error) :=
  mt_call (λ n, HandleInstallSnapshot n args) net self addr expired ns.

Lemma mt_call_spec {Rep} (handler : RaftNode -> RaftNode * Rep) net self addr expired ns :
  rpc_spec handler addr ns (mt_call handler net self addr expired ns).
Proof.
  unfold mt_call, rpc_spec. destruct (mt_lookup net self addr); [by left|].
  destruct expired; [by left|]. destruct (ns !! addr) as [n|] eqn:Hn; simpl; [|by left].
  by exists n.
Qed.

#[export] Instance MemoryTransport : Transport MemoryNetwork := {
  tr_RequestVote := mt_RequestVote;
  tr_AppendEntries := mt_AppendEntries;
  tr_InstallSnapshot := mt_InstallSnapshot;
  tr_RequestVote_spec := λ net self addr expired now args, mt_call_spec _ net self addr expired;
  tr_AppendEntries_spec := λ net self addr expired now args, mt_call_spec _ net self addr expired;
  tr_InstallSnapshot_spec := λ net self addr expired args, mt_call_spec _ net self addr expired
}.

(** ** Properties *)

(** Reachability between two nodes does not depend on a third one. *)
Lemma mt_lookup_disconnect net id self addr :
  mt_lookup (mn_Disconnect id net) self addr =
  if decide (self = id) then Some ErrSelfDisconnected
  else if decide (self ∈ mn_disconnected net) then Some ErrSelfDisconnected
  else if decide (addr = id) then Some ErrPeerDisconnected
  else mt_lookup net self addr.
Proof.
  unfold mt_lookup, mn_Disconnect. simpl. repeat case_decide; try done; set_solver.
Qed.

Lemma mt_lookup_reconnect net id self :
  self <> id -> id ∈ mn_nodes net -> mt_lookup (mn_Reconnect id net) self id = None <-> self ∉ mn_disconnected net.
Proof.
  intros Hne Hreg. unfold mt_lookup, mn_Reconnect. simpl. repeat case_decide; set_solver.
Qed.

(** The in-memory network partitions cleanly: once a node is disconnected
    no RPC of any kind from it or to it reaches a handler (no state anywhere
    changes, and the caller gets an error), the other nodes talk as before, and
    once it is reconnected an RPC to it runs its handler exactly once. *)
Theorem memory_network_partition (net : MemoryNetwork) (id self addr : string) (expired : bool) (now : Z)
    (rv : RequestVoteArgs) (ae : AppendEntriesArgs) (snap : InstallSnapshotArgs) (ns : nodes) :
  let cut := mn_Disconnect id net in
  let healed := mn_Reconnect id cut in
  (self = id \/ addr = id ->
     (exists e, tr_RequestVote cut self addr expired now rv ns = (ns, inr e)) /\
     (exists e, tr_AppendEntries cut self addr expired now ae ns = (ns, inr e)) /\
     (exists e, tr_InstallSnapshot cut self addr expired snap ns = (ns, inr e))) /\
  (self <> id -> addr <> id ->
     tr_RequestVote cut self addr expired now rv ns = tr_RequestVote net self addr expired now rv ns /\
     tr_AppendEntries cut self addr expired now ae ns = tr_AppendEntries net self addr expired now ae ns /\
     tr_InstallSnapshot cut self addr expired snap ns = tr_InstallSnapshot net self addr expired snap ns) /\
  (self <> id -> self ∉ mn_disconnected net -> id ∈ mn_nodes net -> forall n, ns !! id = Some n ->
     let r := HandleAppendEntries now n ae in
     tr_AppendEntries healed self id false now ae ns = (<[id := r.1]> ns, inl r.2)).
Proof.
  cbv zeta. cbn [tr_RequestVote tr_AppendEntries tr_InstallSnapshot MemoryTransport].
  unfold mt_RequestVote, mt_AppendEntries, mt_InstallSnapshot, mt_call. split_and!.
  - intros Hor. rewrite mt_lookup_disconnect. repeat case_decide; naive_solver.
  - intros Hs Ha. assert (Heq : mt_lookup (mn_Disconnect id net) self addr = mt_lookup net self addr).
    { rewrite mt_lookup_disconnect. unfold mt_lookup. repeat case_decide; done. }
    by rewrite Heq.
  - intros Hs Hd Hreg n Hn. rewrite (proj2 (mt_lookup_reconnect (mn_Disconnect id net) id self Hs Hreg)).
    + by rewrite Hn.
    + unfold mn_Disconnect. simpl. set_solver.
Qed.

(** Three nodes, of which "c" is cut off and comes back. *)
Definition exNet : MemoryNetwork := mn_Register "c" (mn_Register "b" (mn_Register "a" NewMemoryNetwork)).

Lemma memory_network_partition_witness :
  let cut := mn_Disconnect "c" exNet in
  exists e, tr_RequestVote cut "a" "c" false 0 (mkRequestVoteArgs 1 "a" 0 0 false) ∅ = (∅, inr e).
Proof.
  refine (proj1 (proj1 (memory_network_partition exNet "c" "a" "c" false 0 (mkRequestVoteArgs 1 "a" 0 0 false)
    (mkAppendEntriesArgs 1 "a" 0 0 [] 0) (mkInstallSnapshotArgs 1 "a" 1 1 []) ∅) _)). right. reflexivity.
Defined.
