(* ===== verification/Chaos.v ===== *)
(** * Fault injection (chaos/network.go, chaos/injector.go)

    The rule engine that drops, loses or delays messages in front of the
    in-memory network, as a second implementation of [Transport], and the
    injector that adds and removes its rules. *)

From Stdlib Require Import QArith.QArith Strings.Ascii.
From stdpp Require Import pretty.
From S2P Require Import Prelude RaftLog Rpc Disk Node Election Replication Snapshot Transport.

(** ** Rules (network.go) *)

Inductive action := actionDrop | actionLoss | actionDelay.

(** [prob] is a finite [float64], that is, a rational; [d] a duration. *)
Record rule := mkRule {
  r_id : string;
  r_from : string;
  r_to : string;
  r_act : action;
  r_prob : Q;
  r_d : Z
}.

(** [cn_rand] is what [rand.Float64] returns next, in [0, 1). *)
Record ChaosNetwork := mkChaosNetwork {
  cn_base : MemoryNetwork;
  cn_rules : list rule;
  cn_rand : Q
}.

Definition NewChaosNetwork : ChaosNetwork := mkChaosNetwork NewMemoryNetwork [] 0.

Definition cn_Register (id : string) (cn : ChaosNetwork) : ChaosNetwork :=
  mkChaosNetwork (mn_Register id (cn_base cn)) (cn_rules cn) (cn_rand cn).

Definition addRule (r : rule) (cn : ChaosNetwork) : ChaosNetwork :=
  mkChaosNetwork (cn_base cn) (cn_rules cn ++ [r]) (cn_rand cn).

Definition removeRule (id : string) (cn : ChaosNetwork) : ChaosNetwork :=
  mkChaosNetwork (cn_base cn) (List.filter (λ r, negb (String.eqb (r_id r) id)) (cn_rules cn)) (cn_rand cn).

Definition clearRules (cn : ChaosNetwork) : ChaosNetwork :=
  mkChaosNetwork (cn_base cn) [] (cn_rand cn).

Inductive evalResult := evalForward | evalDrop.

#[export] Instance evalResult_eq_dec : EqDecision evalResult.
Proof. solve_decision. Defined.

(** Both guards of the loop: the rule is not skipped for this pair. *)
Definition ruleMatches (r : rule) (from to : string) : bool :=
  (String.eqb (r_from r) "" || String.eqb (r_from r) from) &&
  (String.eqb (r_to r) "" || String.eqb (r_to r) to).

(** The verdict, and how long the call sleeps before it. *)
Fixpoint evalRules (rules : list rule) (from to : string) (draw : Q) : evalResult * Z :=
  match rules with
  | [] => (evalForward, 0)
  | r :: rest =>
      if negb (ruleMatches r from to) then evalRules rest from to draw
      else match r_act r with
           | actionDrop => (evalDrop, 0)
           | actionLoss => if negb (Qle_bool (r_prob r) draw) then (evalDrop, 0) else (evalForward, 0)
           | actionDelay => (evalForward, r_d r)
           end
  end.

Definition evaluate (cn : ChaosNetwork) (from to : string) : evalResult :=
  (evalRules (cn_rules cn) from to (cn_rand cn)).1.

(** ** The transport *)

(** The common body of the three calls of [ChaosTransport]. *)
Definition ct_call {Rep : Type} (call : MemoryNetwork -> nodes * (Rep + net_error)) (cn : ChaosNetwork)
    (self addr : string) (ns : nodes) : nodes * (Rep + net_error) :=
  match evaluate cn self addr with
  | evalDrop => (ns, inr ErrDropped)
  | evalForward => call (cn_base cn)
  end.

Definition ct_RequestVote (cn : ChaosNetwork) (self addr : string) (expired : bool) (now : Z)
    (args : RequestVoteArgs) (ns : nodes) : nodes * (RequestVoteReply + net_error) :=
  ct_call (λ net, mt_RequestVote net self addr expired now args ns) cn self addr ns.

Definition ct_AppendEntries (cn : ChaosNetwork) (self addr : string) (expired : bool) (now : Z)
    (args : AppendEntriesArgs) (ns : nodes) : nodes * (AppendEntriesReply + net_error) :=
  ct_call (λ net, mt_AppendEntries net self addr expired now args ns) cn self addr ns.

Definition ct_InstallSnapshot (cn : ChaosNetwork) (self addr : string) (expired : bool)
    (args : InstallSnapshotArgs) (ns : nodes) : nodes * (InstallSnapshotReply + net_error) :=
  ct_call (λ net, mt_InstallSnapshot net self addr expired args ns) cn self addr ns.

Lemma ct_call_spec {Rep} (handler : RaftNode -> RaftNode * Rep) call cn self addr ns :
  (forall net, rpc_spec handler addr ns (call net)) -> rpc_spec handler addr ns (ct_call call cn self addr ns).
Proof. intros H. unfold ct_call. destruct (evaluate cn self addr); [apply H|]. by left. Qed.

#[export] Instance ChaosTransport : Transport ChaosNetwork := {
  tr_RequestVote := ct_RequestVote;
  tr_AppendEntries := ct_AppendEntries;
  tr_InstallSnapshot := ct_InstallSnapshot;
  tr_RequestVote_spec := λ cn self addr expired now args ns,
    ct_call_spec _ _ cn self addr ns (λ net, mt_call_spec _ net self addr expired ns);
  tr_AppendEntries_spec := λ cn self addr expired now args ns,
    ct_call_spec _ _ cn self addr ns (λ net, mt_call_spec _ net self addr expired ns);
  tr_InstallSnapshot_spec := λ cn self addr expired args ns,
    ct_call_spec _ _ cn self addr ns (λ net, mt_call_spec _ net self addr expired ns)
}.

(** ** The injector (injector.go) *)

(** What [record] is called with: the format and its arguments. *)
Inductive Observation :=
  | OPartition (node : string) | OHealed (node : string)
  | OPartitionAsym (src dst : string) | OHealedAsym (src dst : string)
  | OHealAll
  | OLoss (src dst : string) (prob : Q) | OLossRemoved (src dst : string)
  | ODelay (src dst : string) (d : Z) | ODelayRemoved (src dst : string)
  | OCrash (node : string).

(** [ci_nodes] maps an identifier to its node; the nodes' own states are those
    of the cluster. *)
Record ChaosInjector := mkChaosInjector {
  ci_net : ChaosNetwork;
  ci_nodes : gset string;
  ci_obs : list Observation;
  ci_rseq : Z
}.

Definition NewInjector (net : ChaosNetwork) (nodes : gset string) : ChaosInjector :=
  mkChaosInjector net nodes [] 0.

Definition record (o : Observation) (ci : ChaosInjector) : ChaosInjector :=
  mkChaosInjector (ci_net ci) (ci_nodes ci) (ci_obs ci ++ [o]) (ci_rseq ci).

Definition Observations (ci : ChaosInjector) : list Observation := ci_obs ci.

Definition set_ci_net (net : ChaosNetwork) (ci : ChaosInjector) : ChaosInjector :=
  mkChaosInjector net (ci_nodes ci) (ci_obs ci) (ci_rseq ci).

(** [fmt.Sprintf("%s-%d", prefix, ci.rseq.Add(1))]. *)
Definition nextID (prefix : string) (ci : ChaosInjector) : string * ChaosInjector :=
  let seq := ci_rseq ci ⊕ 1 in
  ((prefix +:+ "-" +:+ pretty (Z.to_N seq))%string,
   mkChaosInjector (ci_net ci) (ci_nodes ci) (ci_obs ci) seq).

(** A cleanup function is what it captures: the rules it removes and the
    observation it records. *)
Record cleanup := mkCleanup { cl_rules : list string; cl_obs : Observation }.

Definition run_cleanup (f : cleanup) (ci : ChaosInjector) : ChaosInjector :=
  record (cl_obs f) (set_ci_net (foldl (λ net id, removeRule id net) (ci_net ci) (cl_rules f)) ci).

Definition PartitionNode (nodeID : string) (ci : ChaosInjector) : ChaosInjector * cleanup :=
  let '(outID, ci) := nextID "part-out" ci in
  let '(inID, ci) := nextID "part-in" ci in
  let ci := set_ci_net (addRule (mkRule outID nodeID "" actionDrop 0 0) (ci_net ci)) ci in
  let ci := set_ci_net (addRule (mkRule inID "" nodeID actionDrop 0 0) (ci_net ci)) ci in
  (record (OPartition nodeID) ci, mkCleanup [outID; inID] (OHealed nodeID)).

Definition PartitionAsymmetric (src dst : string) (ci : ChaosInjector) : ChaosInjector * cleanup :=
  let '(id, ci) := nextID "part-asym" ci in
  let ci := set_ci_net (addRule (mkRule id src dst actionDrop 0 0) (ci_net ci)) ci in
  (record (OPartitionAsym src dst) ci, mkCleanup [id] (OHealedAsym src dst)).

Definition HealAll (ci : ChaosInjector) : ChaosInjector :=
  record OHealAll (set_ci_net (clearRules (ci_net ci)) ci).

Definition InjectPacketLoss (src dst : string) (prob : Q) (ci : ChaosInjector) : ChaosInjector * cleanup :=
  let '(id, ci) := nextID "loss" ci in
  let ci := set_ci_net (addRule (mkRule id src dst actionLoss prob 0) (ci_net ci)) ci in
  (record (OLoss src dst prob) ci, mkCleanup [id] (OLossRemoved src dst)).

Definition InjectDelay (src dst : string) (d : Z) (ci : ChaosInjector) : ChaosInjector * cleanup :=
  let '(id, ci) := nextID "delay" ci in
  let ci := set_ci_net (addRule (mkRule id src dst actionDelay 0 d) (ci_net ci)) ci in
  (record (ODelay src dst d) ci, mkCleanup [id] (ODelayRemoved src dst)).

(** Also the nodes of the cluster: the crashed one has its [stopCh] closed;
    [None] when closing it a second time panics. *)
Definition CrashNode (nodeID : string) (ci : ChaosInjector) (ns : nodes) : option (ChaosInjector * nodes) :=
  if decide (nodeID ∈ ci_nodes ci) then
    match ns !! nodeID with
    | Some n =>
        match Stop n with
        | Some n =>
            let net := ci_net ci in
            let net := mkChaosNetwork (mn_Disconnect nodeID (cn_base net)) (cn_rules net) (cn_rand net) in
            Some (record (OCrash nodeID) (set_ci_net net ci), <[nodeID := n]> ns)
        | None => None
        end
    | None => Some (ci, ns)
    end
  else Some (ci, ns).

(** ** Rule identifiers *)

(** What follows the last dash of a string. *)
Fixpoint after_dash (s : string) : option string :=
  match s with
  | "" => None
  | String a s' =>
      match after_dash s' with
      | Some t => Some t
      | None => if decide (a = "-"%char) then Some s' else None
      end
  end.

Lemma after_dash_app p t : after_dash t = None -> after_dash (p +:+ "-" +:+ t)%string = Some t.
Proof.
  intros Ht. induction p as [|a p IH].
  - change (after_dash (String "-"%char t) = Some t). cbn [after_dash]. by rewrite Ht.
  - change (after_dash (String a (p +:+ "-" +:+ t)) = Some t). cbn [after_dash]. by rewrite IH.
Qed.

Lemma after_dash_pretty (k : N) : after_dash (pretty k) = None.
Proof.
  unfold pretty, pretty_N. case_decide; [done|]. clear.
  enough (H : forall s, after_dash s = None -> after_dash (pretty_N_go k s) = None) by by apply H.
  induction (N.lt_wf_0 k) as [k _ IH]. intros s Hs.
  destruct (decide (k = 0%N)) as [->|Hk]; [by rewrite pretty_N_go_0|].
  rewrite pretty_N_go_step by lia. apply IH; [apply N.div_lt; lia|]. simpl. rewrite Hs.
  rewrite decide_False; [done|]. unfold pretty_N_char. repeat case_match; done.
Qed.

Lemma ruleID_inj p q (j k : N) :
  (p +:+ "-" +:+ pretty j)%string = (q +:+ "-" +:+ pretty k)%string -> j = k.
Proof.
  intros H. apply (f_equal after_dash) in H. rewrite !after_dash_app in H by apply after_dash_pretty.
  injection H as H. by apply (inj pretty) in H.
Qed.

(** Every rule carries an identifier the injector has already issued. *)
Definition injector_ok (ci : ChaosInjector) : Prop :=
  0 <= ci_rseq ci /\
  forall r, r ∈ cn_rules (ci_net ci) ->
    exists p k, r_id r = (p +:+ "-" +:+ pretty k)%string /\ Z.of_N k <= ci_rseq ci.

(** Removing fresh identifiers removes exactly the rules that were added. *)
Lemma filter_fresh id rules :
  Forall (λ r, r_id r <> id) rules ->
  List.filter (λ r, negb (String.eqb (r_id r) id)) rules = rules.
Proof.
  induction 1 as [|r rules Hr H IH]; [done|]. simpl. rewrite (proj2 (eqb_string_false _ _) Hr). simpl. by rewrite IH.
Qed.

Lemma filter_heal id1 id2 r1 r2 rules :
  r_id r1 = id1 -> r_id r2 = id2 -> id1 <> id2 ->
  Forall (λ r, r_id r <> id1) rules -> Forall (λ r, r_id r <> id2) rules ->
  List.filter (λ r, negb (String.eqb (r_id r) id2))
    (List.filter (λ r, negb (String.eqb (r_id r) id1)) ((rules ++ [r1]) ++ [r2])) = rules.
Proof.
  intros H1 H2 Hne Hf1 Hf2. rewrite !List.filter_app, (filter_fresh id1 rules Hf1). simpl.
  rewrite H1, H2, String.eqb_refl. simpl. rewrite (proj2 (eqb_string_false id2 id1)) by done. simpl.
  rewrite app_nil_r, (filter_fresh id2 rules Hf2). simpl.
  rewrite H2, String.eqb_refl. apply app_nil_r.
Qed.

Lemma evalRules_app rules rest from to draw :
  Forall (λ r, ruleMatches r from to = false) rules ->
  evalRules (rules ++ rest) from to draw = evalRules rest from to draw.
Proof. induction 1 as [|r rules Hr H IH]; [done|]. simpl. by rewrite Hr. Qed.

Lemma evalRules_skip rules rest from to draw :
  Forall (λ r, ruleMatches r from to = false) rest ->
  evalRules (rules ++ rest) from to draw = evalRules rules from to draw.
Proof.
  intros H. induction rules as [|r rules IH]; simpl; [|by rewrite IH].
  rewrite <- (app_nil_r rest). by rewrite evalRules_app.
Qed.

(** [PartitionNode] isolates a node and its cleanup undoes exactly that:
    afterwards no message from or to the node is forwarded, provided no older
    rule speaks for the pair (the first matching rule wins); the verdict for
    every other pair is what it was; and running the cleanup restores the rules
    the network had before, whatever they are, and keeps rule identifiers
    unique. *)
Theorem PartitionNode_isolates (ci : ChaosInjector) (node other x y : string) :
  injector_ok ci -> node <> "" -> ci_rseq ci + 2 < u64_size ->
  let ci' := (PartitionNode node ci).1 in
  let heal := (PartitionNode node ci).2 in
  let verdict c := evaluate (ci_net c) in
  (Forall (λ r, ruleMatches r node other = false) (cn_rules (ci_net ci)) -> verdict ci' node other = evalDrop) /\
  (Forall (λ r, ruleMatches r other node = false) (cn_rules (ci_net ci)) -> verdict ci' other node = evalDrop) /\
  (x <> node -> y <> node -> verdict ci' x y = verdict ci x y) /\
  ci_net (run_cleanup heal ci') = ci_net ci /\ injector_ok ci'.
Proof.
  intros [H0 Hok] Hne Hb. cbv zeta. unfold PartitionNode, nextID. simpl.
  rewrite (u64_small (ci_rseq ci + 1)) by (unfold is_u64; lia).
  rewrite (u64_small (ci_rseq ci + 1 + 1)) by (unfold is_u64; lia).
  set (id1 := ("part-out" +:+ "-" +:+ pretty (Z.to_N (ci_rseq ci + 1)))%string).
  set (id2 := ("part-in" +:+ "-" +:+ pretty (Z.to_N (ci_rseq ci + 1 + 1)))%string).
  set (r1 := mkRule _ node "" _ _ _). set (r2 := mkRule _ "" node _ _ _).
  unfold evaluate. simpl. rewrite <- app_assoc. simpl.
  assert (M1 : forall a b, ruleMatches r1 a b = String.eqb node a).
  { intros a b. unfold ruleMatches. simpl. by rewrite (proj2 (eqb_string_false _ _) Hne), andb_true_r. }
  assert (M2 : forall a b, ruleMatches r2 a b = String.eqb node b).
  { intros a b. unfold ruleMatches. simpl. by rewrite (proj2 (eqb_string_false _ _) Hne). }
  split_and!.
  - intros Hf. rewrite evalRules_app by done. cbn [evalRules]. by rewrite M1, String.eqb_refl.
  - intros Hf. rewrite evalRules_app by done. cbn [evalRules]. rewrite M1, M2, String.eqb_refl. by case_match.
  - intros Hx Hy. rewrite evalRules_skip; [done|].
    repeat constructor; [rewrite M1|rewrite M2]; by apply eqb_string_false.
  - unfold removeRule. simpl. destruct (ci_net ci) as [base rules rand]. simpl in *. f_equal.
    assert (Hfresh : forall r j p, r ∈ rules -> ci_rseq ci < j -> r_id r <> (p +:+ "-" +:+ pretty (Z.to_N j))%string).
    { intros r j p Hr Hj He. destruct (Hok r Hr) as (q & k & Hid & Hk). rewrite Hid in He.
      apply ruleID_inj in He. lia. }
    apply filter_heal; [done|done| | |]; [|apply Forall_forall; intros r Hr; apply Hfresh; [done|lia]..].
    intros He. apply ruleID_inj in He. lia.
  - split; [simpl; lia|]. simpl. intros r Hr. rewrite !elem_of_app, !list_elem_of_singleton in Hr.
    destruct Hr as [[Hr| ->]| ->].
    + destruct (Hok r Hr) as (p & k & ? & ?). exists p, k. split; [done|lia].
    + exists "part-out", (Z.to_N (ci_rseq ci + 1)). split; [done|lia].
    + exists "part-in", (Z.to_N (ci_rseq ci + 1 + 1)). split; [done|lia].
Qed.

Lemma PartitionNode_isolates_witness :
  let ci := NewInjector NewChaosNetwork {["a"; "b"]} in
  evaluate (ci_net (PartitionNode "a" ci).1) "a" "b" = evalDrop.
Proof.
  refine (proj1 (PartitionNode_isolates (NewInjector NewChaosNetwork {["a"; "b"]}) "a" "b" "b" "b" _ _ _) _).
  - split; [done|]. intros r Hr. by apply elem_of_nil in Hr.
  - done.
  - done.
  - constructor.
Defined.
