(* ===== verification/Grpc.v ===== *)
(** * The gRPC transport (raft/transport_grpc.go)

    The client methods and the server handler of [GRPCTransport], over the
    message types of proto/raft.proto.  The gRPC library is a parameter
    ([GrpcLib]): a unary call delivers the request to the server's method at
    most once, and a call that returns a response returns the one that method
    produced.  With it the transport satisfies the contract of [Transport]:
    no field of a message is lost or exchanged on the way. *)

From S2P Require Import Prelude RaftLog Rpc Disk Node Election Replication Snapshot Transport.

(** ** Messages (proto/raft.pb.go) *)

Record pbLogEntry := mkPbLogEntry {
  pb_Term : Z; pb_Index : Z; pb_Command : bytes;
  pb_IsConfig : bool; pb_ConfigOp : string; pb_ConfigPeer : string
}.

Record pbRequestVoteArgs := mkPbRequestVoteArgs {
  pbrv_Term : Z; pbrv_CandidateId : string; pbrv_LastLogIndex : Z; pbrv_LastLogTerm : Z; pbrv_IsPreVote : bool
}.

Record pbRequestVoteReply := mkPbRequestVoteReply { pbrvr_Term : Z; pbrvr_VoteGranted : bool }.

Record pbAppendEntriesArgs := mkPbAppendEntriesArgs {
  pbae_Term : Z; pbae_LeaderId : string; pbae_PrevLogIndex : Z; pbae_PrevLogTerm : Z;
  pbae_Entries : list pbLogEntry; pbae_LeaderCommit : Z
}.

Record pbAppendEntriesReply := mkPbAppendEntriesReply {
  pbaer_Term : Z; pbaer_Success : bool; pbaer_ConflictTerm : Z; pbaer_ConflictIndex : Z
}.

Record pbInstallSnapshotArgs := mkPbInstallSnapshotArgs {
  pbis_Term : Z; pbis_LeaderId : string; pbis_LastIncludedIndex : Z; pbis_LastIncludedTerm : Z; pbis_Data : bytes
}.

Record pbInstallSnapshotReply := mkPbInstallSnapshotReply { pbisr_Term : Z }.

(** ** The library *)

(** [W] is the state of the network; a call names both ends and whether its
    context is done.  [ErrContext] and [ErrDropped] stand for the errors of
    dialling and of the call. *)
Class GrpcLib (W : Type) := {
  grpc_unary : forall {Req Rep : Type}, W -> string -> string -> bool ->
    (Req -> RaftNode -> RaftNode * Rep) -> Req -> nodes -> nodes * (Rep + net_error);
  grpc_unary_spec : forall {Req Rep : Type} w self addr expired
      (method : Req -> RaftNode -> RaftNode * Rep) req ns,
    rpc_spec (method req) addr ns (grpc_unary w self addr expired method req ns)
}.

(** ** Conversions *)

Definition toProtoEntries (es : list LogEntry) : list pbLogEntry :=
  map (λ e, mkPbLogEntry (le_Term e) (le_Index e) (le_Command e) (le_IsConfig e) (le_ConfigOp e)
              (le_ConfigPeer e)) es.

Definition fromProtoEntries (es : list pbLogEntry) : list LogEntry :=
  map (λ e, mkLogEntry (pb_Term e) (pb_Index e) (pb_Command e) (pb_IsConfig e) (pb_ConfigOp e)
              (pb_ConfigPeer e)) es.

(** ** The server side *)

Definition grpcHandler_RequestVote (now : Z) (req : pbRequestVoteArgs) (n : RaftNode)
  : RaftNode * pbRequestVoteReply :=
  let '(n, reply) := HandleRequestVote now n
    (mkRequestVoteArgs (pbrv_Term req) (pbrv_CandidateId req) (pbrv_LastLogIndex req) (pbrv_LastLogTerm req)
       (pbrv_IsPreVote req)) in
  (n, mkPbRequestVoteReply (rvr_Term reply) (rvr_VoteGranted reply)).

Definition grpcHandler_AppendEntries (now : Z) (req : pbAppendEntriesArgs) (n : RaftNode)
  : RaftNode * pbAppendEntriesReply :=
  let '(n, reply) := HandleAppendEntries now n
    (mkAppendEntriesArgs (pbae_Term req) (pbae_LeaderId req) (pbae_PrevLogIndex req) (pbae_PrevLogTerm req)
       (fromProtoEntries (pbae_Entries req)) (pbae_LeaderCommit req)) in
  (n, mkPbAppendEntriesReply (aer_Term reply) (aer_Success reply) (aer_ConflictTerm reply)
        (aer_ConflictIndex reply)).

Definition grpcHandler_InstallSnapshot (req : pbInstallSnapshotArgs) (n : RaftNode)
  : RaftNode * pbInstallSnapshotReply :=
  let '(n, reply) := HandleInstallSnapshot n
    (mkInstallSnapshotArgs (pbis_Term req) (pbis_LeaderId req) (pbis_LastIncludedIndex req)
       (pbis_LastIncludedTerm req) (pbis_Data req)) in
  (n, mkPbInstallSnapshotReply (isr_Term reply)).

(** ** The client side *)

Section client.
Context {W : Type} `{!GrpcLib W}.

(** A call's error is returned as it is, a response converted. *)
Definition convert {A B : Type} (f : A -> B) (r : nodes * (A + net_error)) : nodes * (B + net_error) :=
  match r with
  | (ns, inl a) => (ns, inl (f a))
  | (ns, inr e) => (ns, inr e)
  end.

Definition grpc_RequestVote (w : W) (self addr : string) (expired : bool) (now : Z)
    (args : RequestVoteArgs) (ns : nodes) : nodes * (RequestVoteReply + net_error) :=
  convert (λ resp, mkRequestVoteReply (pbrvr_Term resp) (pbrvr_VoteGranted resp))
    (grpc_unary w self addr expired (grpcHandler_RequestVote now)
      (mkPbRequestVoteArgs (rv_Term args) (rv_CandidateID args) (rv_LastLogIndex args) (rv_LastLogTerm args)
         (rv_IsPreVote args)) ns).

Definition grpc_AppendEntries (w : W) (self addr : string) (expired : bool) (now : Z)
    (args : AppendEntriesArgs) (ns : nodes) : nodes * (AppendEntriesReply + net_error) :=
  convert (λ resp, mkAppendEntriesReply (pbaer_Term resp) (pbaer_Success resp) (pbaer_ConflictTerm resp)
                     (pbaer_ConflictIndex resp))
    (grpc_unary w self addr expired (grpcHandler_AppendEntries now)
      (mkPbAppendEntriesArgs (ae_Term args) (ae_LeaderID args) (ae_PrevLogIndex args) (ae_PrevLogTerm args)
         (toProtoEntries (ae_Entries args)) (ae_LeaderCommit args)) ns).

Definition grpc_InstallSnapshot (w : W) (self addr : string) (expired : bool)
    (args : InstallSnapshotArgs) (ns : nodes) : nodes * (InstallSnapshotReply + net_error) :=
  convert (λ resp, mkInstallSnapshotReply (pbisr_Term resp))
    (grpc_unary w self addr expired grpcHandler_InstallSnapshot
      (mkPbInstallSnapshotArgs (is_Term args) (is_LeaderID args) (is_LastIncludedIndex args)
         (is_LastIncludedTerm args) (is_Data args)) ns).

Lemma entries_roundtrip es : fromProtoEntries (toProtoEntries es) = es.
Proof. unfold fromProtoEntries, toProtoEntries. induction es as [|[] es IH]; simpl; [done|]. by rewrite IH. Qed.

(** A converted call keeps the contract, if the handlers correspond. *)
Lemma convert_spec {A B : Type} (f : A -> B) (h : RaftNode -> RaftNode * A) (g : RaftNode -> RaftNode * B)
    addr ns r :
  (forall n, g n = ((h n).1, f (h n).2)) -> rpc_spec h addr ns r -> rpc_spec g addr ns (convert f r).
Proof.
  intros Hg. destruct r as [ns' [a|e]]; unfold rpc_spec; simpl.
  - intros (n & Hn & -> & ->). exists n. by rewrite Hg.
  - intros [->|(n & Hn & ->)]; [by left|right]. exists n. by rewrite Hg.
Qed.

Lemma grpc_RequestVote_law w self addr expired now args ns :
  rpc_spec (λ n, HandleRequestVote now n args) addr ns (grpc_RequestVote w self addr expired now args ns).
Proof.
  eapply convert_spec; [|apply grpc_unary_spec]. intros n. unfold grpcHandler_RequestVote. simpl.
  destruct args. by destruct (HandleRequestVote now n _) as [? []].
Qed.

Lemma grpc_AppendEntries_law w self addr expired now args ns :
  rpc_spec (λ n, HandleAppendEntries now n args) addr ns (grpc_AppendEntries w self addr expired now args ns).
Proof.
  eapply convert_spec; [|apply grpc_unary_spec]. intros n. unfold grpcHandler_AppendEntries. simpl.
  rewrite entries_roundtrip. destruct args. by destruct (HandleAppendEntries now n _) as [? []].
Qed.

Lemma grpc_InstallSnapshot_law w self addr expired args ns :
  rpc_spec (λ n, HandleInstallSnapshot n args) addr ns (grpc_InstallSnapshot w self addr expired args ns).
Proof.
  eapply convert_spec; [|apply grpc_unary_spec]. intros n. unfold grpcHandler_InstallSnapshot. simpl.
  destruct args. by destruct (HandleInstallSnapshot n _) as [? []].
Qed.

#[export] Instance GRPCTransport : Transport W | 20 := {
  tr_RequestVote := grpc_RequestVote;
  tr_AppendEntries := grpc_AppendEntries;
  tr_InstallSnapshot := grpc_InstallSnapshot;
  tr_RequestVote_spec := grpc_RequestVote_law;
  tr_AppendEntries_spec := grpc_AppendEntries_law;
  tr_InstallSnapshot_spec := grpc_InstallSnapshot_law
}.
End client.

(** ** A network for the library *)

(** What happens to a call between two addresses. *)
Inductive wire := WireDown | WireLosesReply | WireUp.

Definition wires : Type := string -> string -> wire.

Definition wires_unary {Req Rep : Type} (w : wires) (self addr : string) (expired : bool)
    (method : Req -> RaftNode -> RaftNode * Rep) (req : Req) (ns : nodes) : nodes * (Rep + net_error) :=
  if expired then (ns, inr ErrContext)
  else match w self addr, ns !! addr with
       | WireDown, _ | _, None => (ns, inr ErrDropped)
       | WireLosesReply, Some n => (<[addr := (method req n).1]> ns, inr ErrContext)
       | WireUp, Some n => (<[addr := (method req n).1]> ns, inl (method req n).2)
       end.

#[export, refine] Instance wires_GrpcLib : GrpcLib wires := { grpc_unary := @wires_unary }.
Proof.
  intros Req Rep w self addr expired method req ns. unfold wires_unary, rpc_spec.
  destruct expired; [by left|]. destruct (w self addr), (ns !! addr) as [n|] eqn:Hn; simpl; eauto.
Defined.

(** ** Properties *)

(** C30. The gRPC transport is transparent: whatever the gRPC library does with
    the calls within its documented behaviour, an RPC that returns a reply ran
    the peer's handler exactly once on exactly the caller's arguments and
    returns exactly its reply, and one that fails ran it at most once; every
    log entry, with its configuration fields, survives the conversion. *)
Theorem grpc_transparent {W : Type} `{!GrpcLib W} (w : W) (self addr : string) (expired : bool) (now : Z)
    (rv : RequestVoteArgs) (ae : AppendEntriesArgs) (snap : InstallSnapshotArgs) (ns : nodes) :
  rpc_spec (λ n, HandleRequestVote now n rv) addr ns (grpc_RequestVote w self addr expired now rv ns) /\
  rpc_spec (λ n, HandleAppendEntries now n ae) addr ns (grpc_AppendEntries w self addr expired now ae ns) /\
  rpc_spec (λ n, HandleInstallSnapshot n snap) addr ns (grpc_InstallSnapshot w self addr expired snap ns) /\
  fromProtoEntries (toProtoEntries (ae_Entries ae)) = ae_Entries ae.
Proof.
  split_and!; [apply grpc_RequestVote_law|apply grpc_AppendEntries_law|apply grpc_InstallSnapshot_law|
    apply entries_roundtrip].
Qed.

Lemma grpc_transparent_witness :
  let ns := {["b" := exampleNode]} : nodes in
  rpc_spec (λ n, HandleRequestVote 0 n (mkRequestVoteArgs 1 "a" 0 0 false)) "b" ns
    (grpc_RequestVote ((λ _ _, WireUp) : wires) "a" "b" false 0 (mkRequestVoteArgs 1 "a" 0 0 false) ns).
Proof.
  exact (proj1 (grpc_transparent ((λ _ _, WireUp) : wires) "a" "b" false 0 (mkRequestVoteArgs 1 "a" 0 0 false)
    (mkAppendEntriesArgs 1 "a" 0 0 [] 0) (mkInstallSnapshotArgs 1 "a" 1 1 []) {["b" := exampleNode]})).
Defined.
