(* ===== verification/Http.v ===== *)
(** * The HTTP transport (raft/transport_http.go)

    The client calls and the server routes of [HTTPTransport].  encoding/json
    ([JsonMsg]) and net/http ([HttpLib]) are parameters: a request is served at
    most once, by the route of its path on the addressed node, and a response
    that arrives is the one that route wrote.

    The three calls end in [return reply, t.post(..., &reply)].  Go leaves open
    whether the variable [reply] is read before or after the call in the same
    statement, so the order is a parameter ([late]). *)

From Stdlib Require Import Strings.Ascii.
From S2P Require Import Prelude RaftLog Rpc Disk Node Election Replication Snapshot Transport Grpc.

(** ** The libraries *)

(** JSON documents [J] and one message type [A]; [None] is an error. *)
Class JsonMsg (J A : Type) := {
  json_Marshal : A -> option J;
  json_Decode : J -> option A
}.

(** What is written is read back, for the messages in [text]. *)
Class JsonRoundtrip (J A : Type) `{!JsonMsg J A} (text : A -> Prop) :=
  json_roundtrip : forall a, text a -> exists j, json_Marshal a = Some j /\ json_Decode j = Some a.

(** A response: its status and its body, [None] for a text that is no JSON. *)
Definition response (J : Type) : Type := Z * option J.

Definition StatusOK : Z := 200.
Definition StatusBadRequest : Z := 400.
Definition StatusNotFound : Z := 404.

(** A POST of [body] to [http://addr path], where [serve] is the server of each
    node. *)
Class HttpLib (W J : Type) := {
  http_Do : W -> string -> string -> bool -> (string -> J -> RaftNode -> RaftNode * response J) ->
    string -> J -> nodes -> nodes * (response J + net_error);
  http_Do_spec : forall w self addr expired serve path body ns,
    rpc_spec (serve path body) addr ns (http_Do w self addr expired serve path body ns)
}.

(** encoding/json replaces bytes that are not UTF-8; on ASCII text it is exact. *)
Definition ascii_text (s : string) : bool :=
  forallb (λ c, (nat_of_ascii c <? 128)%nat) (String.list_ascii_of_string s).

Definition rv_text (a : RequestVoteArgs) : Prop := ascii_text (rv_CandidateID a) = true.
Definition ae_text (a : AppendEntriesArgs) : Prop :=
  ascii_text (ae_LeaderID a) = true /\
  Forall (λ e, ascii_text (le_ConfigOp e) = true /\ ascii_text (le_ConfigPeer e) = true) (ae_Entries a).
Definition is_text (a : InstallSnapshotArgs) : Prop := ascii_text (is_LeaderID a) = true.
Definition no_text {A : Type} (a : A) : Prop := True.

Section http.
Context {W J : Type} `{!HttpLib W J}.
Context `{!JsonMsg J RequestVoteArgs, !JsonMsg J RequestVoteReply}.
Context `{!JsonMsg J AppendEntriesArgs, !JsonMsg J AppendEntriesReply}.
Context `{!JsonMsg J InstallSnapshotArgs, !JsonMsg J InstallSnapshotReply}.

(** ** The server side *)

(** The common body of the three routes: decode, handle, encode. *)
Definition http_route {A R : Type} `{!JsonMsg J A, !JsonMsg J R} (handler : A -> RaftNode -> RaftNode * R)
    (body : J) (n : RaftNode) : RaftNode * response J :=
  match json_Decode body with
  | None => (n, (StatusBadRequest, None))
  | Some args => let '(n', reply) := handler args n in (n', (StatusOK, json_Marshal reply))
  end.

(** The routes [Register] installs. *)
Definition http_Register (now : Z) (path : string) (body : J) (n : RaftNode) : RaftNode * response J :=
  if String.eqb path "/raft/request-vote" then http_route (λ args n, HandleRequestVote now n args) body n
  else if String.eqb path "/raft/append-entries" then http_route (λ args n, HandleAppendEntries now n args) body n
  else if String.eqb path "/raft/install-snapshot" then http_route (λ args n, HandleInstallSnapshot n args) body n
  else (n, (StatusNotFound, None)).

(** ** The client side *)

(** What [post] leaves in [*reply], or its error. *)
Definition http_post {A R : Type} `{!JsonMsg J A, !JsonMsg J R} (w : W) (self addr : string) (expired : bool) (now : Z)
    (path : string) (args : A) (ns : nodes) : nodes * (R + net_error) :=
  match json_Marshal args with
  | None => (ns, inr ErrMarshal)
  | Some data =>
      match http_Do w self addr expired (http_Register now) path data ns with
      | (ns, inr e) => (ns, inr e)
      | (ns, inl (status, body)) =>
          if negb (status =? StatusOK) then (ns, inr (ErrStatus status))
          else match body ≫= json_Decode with
               | Some reply => (ns, inl reply)
               | None => (ns, inr ErrDecode)
               end
      end
  end.

(** [return reply, t.post(..., &reply)], with [zero] the initial value. *)
Definition http_return {R : Type} (late : bool) (zero : R) (res : nodes * (R + net_error)) : nodes * (R + net_error) :=
  match res with
  | (ns, inl reply) => (ns, inl (if late then reply else zero))
  | (ns, inr e) => (ns, inr e)
  end.

Definition http_RequestVote (late : bool) (w : W) (self addr : string) (expired : bool) (now : Z)
    (args : RequestVoteArgs) (ns : nodes) : nodes * (RequestVoteReply + net_error) :=
  http_return late (mkRequestVoteReply 0 false)
    (http_post w self addr expired now "/raft/request-vote" args ns).

Definition http_AppendEntries (late : bool) (w : W) (self addr : string) (expired : bool) (now : Z)
    (args : AppendEntriesArgs) (ns : nodes) : nodes * (AppendEntriesReply + net_error) :=
  http_return late (mkAppendEntriesReply 0 false 0 0)
    (http_post w self addr expired now "/raft/append-entries" args ns).

Definition http_InstallSnapshot (late : bool) (w : W) (self addr : string) (expired : bool) (now : Z)
    (args : InstallSnapshotArgs) (ns : nodes) : nodes * (InstallSnapshotReply + net_error) :=
  http_return late (mkInstallSnapshotReply 0)
    (http_post w self addr expired now "/raft/install-snapshot" args ns).

(** ** The contract of a transport *)

(** A post to a route with a given handler. *)
Lemma http_post_spec {A R : Type} `{!JsonMsg J A, !JsonMsg J R, !JsonRoundtrip J R no_text}
    (text : A -> Prop) `{!JsonRoundtrip J A text} w self addr expired now path (args : A)
    (handler : A -> RaftNode -> RaftNode * R) ns :
  text args -> (forall body n, http_Register now path body n = http_route handler body n) ->
  rpc_spec (handler args) addr ns (http_post w self addr expired now path args ns).
Proof.
  intros Ht Hroute. unfold http_post. destruct (json_roundtrip args Ht) as (data & -> & Hdec).
  assert (Hh : forall n, http_Register now path data n = ((handler args n).1, (StatusOK, json_Marshal (handler args n).2))).
  { intros n. rewrite Hroute. unfold http_route. rewrite Hdec. by destruct (handler args n). }
  pose proof (http_Do_spec w self addr expired (http_Register now) path data ns) as Hspec.
  destruct (http_Do _ _ _ _ _ _ _ _) as [ns' [[status body]|e]]; unfold rpc_spec in *; simpl in Hspec.
  - destruct Hspec as (n & Hn & Hrep & ->). rewrite Hh in Hrep |- *. injection Hrep as -> ->. simpl.
    destruct (json_roundtrip (handler args n).2) as (j & -> & Hj); [done|]. simpl. rewrite Hj. by exists n.
  - destruct Hspec as [->|(n & Hn & ->)]; [by left|right]. exists n. by rewrite Hh.
Qed.

Lemma http_return_late {R : Type} (zero : R) res : http_return true zero res = res.
Proof. by destruct res as [? []]. Qed.

Lemma http_return_early {R : Type} (zero reply : R) res ns : http_return false zero res = (ns, inl reply) -> reply = zero.
Proof. destruct res as [? []]; simpl; congruence. Qed.
End http.

(** ** A network and a codec *)

(** Documents that remember the message they came from. *)
Inductive exDoc :=
  | DVote (a : RequestVoteArgs) | DVoteReply (r : RequestVoteReply)
  | DAppend (a : AppendEntriesArgs) | DAppendReply (r : AppendEntriesReply)
  | DSnap (a : InstallSnapshotArgs) | DSnapReply (r : InstallSnapshotReply).

#[export] Instance exVote : JsonMsg exDoc RequestVoteArgs :=
  { json_Marshal a := Some (DVote a); json_Decode d := match d with DVote a => Some a | _ => None end }.
#[export] Instance exVoteReply : JsonMsg exDoc RequestVoteReply :=
  { json_Marshal r := Some (DVoteReply r); json_Decode d := match d with DVoteReply r => Some r | _ => None end }.
#[export] Instance exAppend : JsonMsg exDoc AppendEntriesArgs :=
  { json_Marshal a := Some (DAppend a); json_Decode d := match d with DAppend a => Some a | _ => None end }.
#[export] Instance exAppendReply : JsonMsg exDoc AppendEntriesReply :=
  { json_Marshal r := Some (DAppendReply r); json_Decode d := match d with DAppendReply r => Some r | _ => None end }.
#[export] Instance exSnap : JsonMsg exDoc InstallSnapshotArgs :=
  { json_Marshal a := Some (DSnap a); json_Decode d := match d with DSnap a => Some a | _ => None end }.
#[export] Instance exSnapReply : JsonMsg exDoc InstallSnapshotReply :=
  { json_Marshal r := Some (DSnapReply r); json_Decode d := match d with DSnapReply r => Some r | _ => None end }.

#[export] Instance exVote_rt text : JsonRoundtrip exDoc RequestVoteArgs text.
Proof. intros a _. by eexists. Qed.
#[export] Instance exVoteReply_rt text : JsonRoundtrip exDoc RequestVoteReply text.
Proof. intros a _. by eexists. Qed.
#[export] Instance exAppend_rt text : JsonRoundtrip exDoc AppendEntriesArgs text.
Proof. intros a _. by eexists. Qed.
#[export] Instance exAppendReply_rt text : JsonRoundtrip exDoc AppendEntriesReply text.
Proof. intros a _. by eexists. Qed.
#[export] Instance exSnap_rt text : JsonRoundtrip exDoc InstallSnapshotArgs text.
Proof. intros a _. by eexists. Qed.
#[export] Instance exSnapReply_rt text : JsonRoundtrip exDoc InstallSnapshotReply text.
Proof. intros a _. by eexists. Qed.

(** The wires of Grpc.v, carrying documents. *)
#[export, refine] Instance wires_HttpLib : HttpLib wires exDoc := {
  http_Do w self addr expired serve path body ns := wires_unary w self addr expired (serve path) body ns
}.
Proof. intros w self addr expired serve path body ns. exact (grpc_unary_spec w self addr expired (serve path) body ns). Defined.

(** ** Properties *)

(** The HTTP transport: if [reply] is read after [post], every call keeps
    the contract of a transport for messages of ASCII text: a call that returns
    a reply ran the peer's handler exactly once on exactly the caller's
    arguments and returns exactly its reply, and a call that fails ran it at
    most once, whatever the failure.  If [reply] is read before [post], as Go
    also allows, a call that succeeds returns the zero reply, whatever the peer
    answered. *)
Theorem http_transparent {W J : Type} `{!HttpLib W J,
    !JsonMsg J RequestVoteArgs, !JsonMsg J RequestVoteReply, !JsonMsg J AppendEntriesArgs, !JsonMsg J AppendEntriesReply,
    !JsonMsg J InstallSnapshotArgs, !JsonMsg J InstallSnapshotReply,
    !JsonRoundtrip J RequestVoteArgs rv_text, !JsonRoundtrip J RequestVoteReply no_text,
    !JsonRoundtrip J AppendEntriesArgs ae_text, !JsonRoundtrip J AppendEntriesReply no_text,
    !JsonRoundtrip J InstallSnapshotArgs is_text, !JsonRoundtrip J InstallSnapshotReply no_text}
    (w : W) (self addr : string) (expired : bool) (now : Z)
    (rv : RequestVoteArgs) (ae : AppendEntriesArgs) (snap : InstallSnapshotArgs) (ns ns' : nodes) :
  (rv_text rv -> rpc_spec (λ n, HandleRequestVote now n rv) addr ns (http_RequestVote true w self addr expired now rv ns)) /\
  (ae_text ae -> rpc_spec (λ n, HandleAppendEntries now n ae) addr ns (http_AppendEntries true w self addr expired now ae ns)) /\
  (is_text snap -> rpc_spec (λ n, HandleInstallSnapshot n snap) addr ns (http_InstallSnapshot true w self addr expired now snap ns)) /\
  (forall r, http_RequestVote false w self addr expired now rv ns = (ns', inl r) -> r = mkRequestVoteReply 0 false) /\
  (forall r, http_AppendEntries false w self addr expired now ae ns = (ns', inl r) -> r = mkAppendEntriesReply 0 false 0 0) /\
  (forall r, http_InstallSnapshot false w self addr expired now snap ns = (ns', inl r) -> r = mkInstallSnapshotReply 0).
Proof.
  unfold http_RequestVote, http_AppendEntries, http_InstallSnapshot. rewrite !http_return_late. split_and!.
  - intros Ht. by apply (http_post_spec rv_text w self addr expired now _ rv (λ args n, HandleRequestVote now n args)).
  - intros Ht. by apply (http_post_spec ae_text w self addr expired now _ ae (λ args n, HandleAppendEntries now n args)).
  - intros Ht. by apply (http_post_spec is_text w self addr expired now _ snap (λ args n, HandleInstallSnapshot n args)).
  - intros r. apply http_return_early.
  - intros r. apply http_return_early.
  - intros r. apply http_return_early.
Qed.

Lemma http_transparent_witness :
  let ns := {["b" := exampleNode]} : nodes in
  rpc_spec (λ n, HandleRequestVote 0 n (mkRequestVoteArgs 1 "a" 0 0 false)) "b" ns
    (http_RequestVote (J := exDoc) true ((λ _ _, WireUp) : wires) "a" "b" false 0 (mkRequestVoteArgs 1 "a" 0 0 false) ns).
Proof.
  refine (proj1 (http_transparent (J := exDoc) ((λ _ _, WireUp) : wires) "a" "b" false 0 (mkRequestVoteArgs 1 "a" 0 0 false)
    (mkAppendEntriesArgs 1 "a" 0 0 [] 0) (mkInstallSnapshotArgs 1 "a" 1 1 []) {["b" := exampleNode]} ∅) _). reflexivity.
Defined.

(** On a healthy network a vote that the peer grants is lost by the early read. *)
Lemma early_read_loses_vote :
  let ns := {["b" := exampleNode]} : nodes in
  let args := mkRequestVoteArgs 1 "a" 0 0 false in
  let w : wires := λ _ _, WireUp in
  (http_RequestVote (J := exDoc) true w "a" "b" false 0 args ns).2 = inl (mkRequestVoteReply 1 true) /\
  (http_RequestVote (J := exDoc) false w "a" "b" false 0 args ns).2 = inl (mkRequestVoteReply 0 false).
Proof. by split; vm_compute. Qed.
