(* ===== verification/Lifecycle.v ===== *)
(** * Starting and stopping the network transports

    The construction, registration, start and end of [GRPCTransport]
    (raft/transport_grpc.go) and [HTTPTransport] (raft/transport_http.go).  The
    servers inside are those of grpc-go, a parameter with the behaviour its
    documentation promises, and of net/http.  [Serve] blocks: it is the call
    together with the value it returns once the server has ended. *)

From S2P Require Import Prelude.

(** ** The gRPC server *)

(** [None] of [grpc_RegisterService] is the fatal error of grpc-go for a service
    that is registered twice or too late; [grpc_result] is what the call of
    [Serve] has returned, if it has. *)
Class GrpcServer (Srv : Type) := {
  grpc_NewServer : Srv;
  grpc_RegisterService : Srv -> option Srv;
  grpc_Serve : Srv -> Srv;
  grpc_GracefulStop : Srv -> Srv;
  grpc_accepts : Srv -> bool;
  grpc_result : Srv -> option (option string)
}.

(** A service can be registered before [Serve]; a server that serves accepts
    calls until [GracefulStop], after which [Serve] returns nil. *)
Class GrpcServerLaws (Srv : Type) `{!GrpcServer Srv} := {
  grpc_register : exists s, grpc_RegisterService grpc_NewServer = Some s;
  grpc_serving : forall s, grpc_RegisterService grpc_NewServer = Some s ->
    grpc_accepts (grpc_Serve s) = true /\ grpc_result (grpc_Serve s) = None;
  grpc_register_late : forall s, grpc_RegisterService grpc_NewServer = Some s -> grpc_RegisterService (grpc_Serve s) = None;
  grpc_register_twice : forall s, grpc_RegisterService grpc_NewServer = Some s -> grpc_RegisterService s = None;
  grpc_stopped : forall s, grpc_RegisterService grpc_NewServer = Some s ->
    grpc_accepts (grpc_GracefulStop (grpc_Serve s)) = false /\
    grpc_result (grpc_GracefulStop (grpc_Serve s)) = Some None
}.

Section grpc.
Context {Srv : Type} `{!GrpcServer Srv}.

(** The struct [GRPCTransport]; [grpcHandler] is the node its calls go to. *)
Record GrpcTransport := mkGrpcTransport {
  gt_listenAddr : string; gt_server : Srv; gt_handler : option string
}.

Definition NewGRPCTransport (listenAddr : string) : GrpcTransport := mkGrpcTransport listenAddr grpc_NewServer None.

Definition grpc_Register (node : string) (t : GrpcTransport) : option GrpcTransport :=
  srv ← grpc_RegisterService (gt_server t);
  Some (mkGrpcTransport (gt_listenAddr t) srv (Some node)).

(** [listenErr] is the error of [net.Listen] on the address. *)
Definition grpc_transport_Serve (listenErr : string -> option string) (t : GrpcTransport) : GrpcTransport * option string :=
  match listenErr (gt_listenAddr t) with
  | Some err => (t, Some ("grpc transport listen " ++ gt_listenAddr t ++ ": " ++ err)%string)
  | None => (mkGrpcTransport (gt_listenAddr t) (grpc_Serve (gt_server t)) (gt_handler t), None)
  end.

Definition grpc_Close (t : GrpcTransport) : GrpcTransport * option string :=
  (mkGrpcTransport (gt_listenAddr t) (grpc_GracefulStop (gt_server t)) (gt_handler t), None).
End grpc.
Arguments GrpcTransport Srv : clear implicits.

(** ** The HTTP server *)

Inductive http_phase := HttpIdle | HttpServing | HttpClosed.

(** The struct [HTTPTransport] with its server: the node the three routes of the
    mux go to, the requests that are being served, and what [Serve] has returned,
    if it has. *)
Record HttpTransport := mkHttpTransport {
  ht_listenAddr : string; ht_node : option string; ht_phase : http_phase; ht_conns : nat;
  ht_result : option (option string)
}.

Definition ErrServerClosed : string := "http: Server closed".

Definition NewHTTPTransport (listenAddr : string) : HttpTransport := mkHttpTransport listenAddr None HttpIdle 0 None.

(** [HandleFunc] panics for a pattern that is registered already: [None]. *)
Definition http_transport_Register (node : string) (t : HttpTransport) : option HttpTransport :=
  match ht_node t with
  | Some _ => None
  | None => Some (mkHttpTransport (ht_listenAddr t) (Some node) (ht_phase t) (ht_conns t) (ht_result t))
  end.

(** [ListenAndServe]: refused after [Close]. *)
Definition http_transport_Serve (listenErr : string -> option string) (t : HttpTransport) : HttpTransport * option string :=
  match ht_phase t with
  | HttpClosed => (t, Some ErrServerClosed)
  | _ =>
      match listenErr (ht_listenAddr t) with
      | Some err => (t, Some err)
      | None => (mkHttpTransport (ht_listenAddr t) (ht_node t) HttpServing (ht_conns t) None, None)
      end
  end.

(** [Server.Close]: the listeners and the open connections are closed at once. *)
Definition http_transport_Close (t : HttpTransport) : HttpTransport * option string :=
  (mkHttpTransport (ht_listenAddr t) (ht_node t) HttpClosed 0
     (match ht_phase t with HttpServing => Some (Some ErrServerClosed) | _ => ht_result t end), None).

(** ** The documented use *)

(** The two transports used as their documentation says, [Register] before
    [Serve], then [Close].  Both serve the registered node in between.  They end
    differently: [Serve] of the gRPC transport returns nil, and [Serve] of the HTTP
    transport [http.ErrServerClosed], which its caller takes for a failure; and
    the HTTP transport drops the requests that are being served. *)
Theorem transport_lifecycle {Srv : Type} `{!GrpcServer Srv, !GrpcServerLaws Srv} (addr node : string) (conns : nat)
    (listenErr : string -> option string) :
  listenErr addr = None ->
  (exists t, grpc_Register node (NewGRPCTransport (Srv := Srv) addr) = Some t /\ grpc_Register node t = None /\
     let t1 := (grpc_transport_Serve listenErr t).1 in
     let t2 := (grpc_Close t1).1 in
     gt_handler t1 = Some node /\ grpc_accepts (gt_server t1) = true /\ grpc_result (gt_server t1) = None /\
     grpc_Register node t1 = None /\
     grpc_accepts (gt_server t2) = false /\ grpc_result (gt_server t2) = Some None) /\
  (exists t, http_transport_Register node (NewHTTPTransport addr) = Some t /\ http_transport_Register node t = None /\
     let t1 := (http_transport_Serve listenErr t).1 in
     let busy := mkHttpTransport addr (ht_node t1) (ht_phase t1) conns (ht_result t1) in
     let t2 := (http_transport_Close busy).1 in
     ht_node t1 = Some node /\ ht_phase t1 = HttpServing /\ ht_result t1 = None /\
     ht_conns t2 = 0%nat /\ ht_result t2 = Some (Some ErrServerClosed) /\
     (http_transport_Serve listenErr t2).2 = Some ErrServerClosed).
Proof.
  intros Hl. split.
  - destruct grpc_register as [s Hs]. destruct (grpc_serving s Hs) as [H1 H2]. destruct (grpc_stopped s Hs) as [H3 H4].
    eexists. unfold grpc_Register at 1, NewGRPCTransport. simpl. rewrite Hs. split; [done|].
    unfold grpc_transport_Serve, grpc_Register. simpl. rewrite Hl, (grpc_register_twice s Hs). simpl.
    by rewrite (grpc_register_late s Hs).
  - eexists. split; [done|]. unfold http_transport_Serve. simpl. by rewrite Hl.
Qed.

(** A server that does what the laws say. *)
Inductive demoServer := DemoNew | DemoRegistered | DemoServing | DemoStopped.

#[export] Instance demo_server : GrpcServer demoServer := {|
  grpc_NewServer := DemoNew;
  grpc_RegisterService s := match s with DemoNew => Some DemoRegistered | _ => None end;
  grpc_Serve s := match s with DemoStopped => DemoStopped | _ => DemoServing end;
  grpc_GracefulStop _ := DemoStopped;
  grpc_accepts s := match s with DemoServing => true | _ => false end;
  grpc_result s := match s with DemoStopped => Some None | _ => None end
|}.

#[export] Instance demo_laws : GrpcServerLaws demoServer.
Proof. split; simpl; [by exists DemoRegistered|intros s [= <-]; done..]. Qed.

Lemma transport_lifecycle_witness :
  exists t, grpc_Register "a" (NewGRPCTransport (Srv := demoServer) ":7001") = Some t /\ grpc_Register "a" t = None.
Proof.
  destruct (transport_lifecycle (Srv := demoServer) ":7001" "a" 3 (λ _, None) eq_refl) as [(t & H1 & H2 & _) _].
  exists t. split; [exact H1|exact H2].
Defined.
