(* ===== verification/Server.v ===== *)
(** * The key-value server (cmd/kvstore/main.go)

    The configuration read from the environment and the HTTP handlers.  A
    response is the call of net/http or fmt that writes it.  A handler reads the
    node several times, each time under its own lock, so it takes one node for
    each read; a handler that goes on to a blocking write ([store.Set],
    [store.Delete]) is split there.  URLs are parsed by net/url and bodies by
    encoding/json: both are parameters. *)

From Stdlib Require Import Strings.Ascii.
From S2P Require Import Prelude RaftLog Rpc Disk Node Replication Snapshot Client Apply KVStore.

(** ** Strings *)

(** [strings.HasPrefix] is [String.prefix]. *)
Definition TrimPrefix (s prefix : string) : string :=
  if String.prefix prefix s then String.substring (String.length prefix) (String.length s - String.length prefix) s
  else s.

(** [strings.SplitN] with a separator of one byte and a limit of two. *)
Fixpoint cut (sep : ascii) (s : string) : string * option string :=
  match s with
  | EmptyString => (EmptyString, None)
  | String c s =>
      if Ascii.eqb c sep then (EmptyString, Some s)
      else let '(a, r) := cut sep s in (String c a, r)
  end.

(** [strings.Split] with a separator of one byte. *)
Fixpoint Split (sep : ascii) (s : string) : list string :=
  match s with
  | EmptyString => [EmptyString]
  | String c s =>
      if Ascii.eqb c sep then EmptyString :: Split sep s
      else match Split sep s with
           | w :: ws => String c w :: ws
           | [] => [String c EmptyString]
           end
  end.

(** The UTF-8 encodings of the code points of [unicode.IsSpace]. *)
Definition spaces : list (list Z) :=
  [[9]; [10]; [11]; [12]; [13]; [32]; [194; 133]; [194; 160]; [225; 154; 128]] ++
  map (λ k, [226; 128; 128 + Z.of_nat k]) (seq 0 11) ++
  [[226; 128; 168]; [226; 128; 169]; [226; 128; 175]; [226; 129; 159]; [227; 128; 128]].

Definition spaceBytes : list (list ascii) := map (map (λ z, ascii_of_nat (Z.to_nat z))) spaces.

Fixpoint strip (p s : list ascii) : option (list ascii) :=
  match p, s with
  | [], s => Some s
  | a :: p, b :: s => if Ascii.eqb a b then strip p s else None
  | _ :: _, [] => None
  end.

(** The rest after the first of the prefixes [ps] that [s] has. *)
Fixpoint strip_any (ps : list (list ascii)) (s : list ascii) : option (list ascii) :=
  match ps with
  | [] => None
  | p :: ps => match strip p s with Some r => Some r | None => strip_any ps s end
  end.

Fixpoint trimLeft (fuel : nat) (ps : list (list ascii)) (s : list ascii) : list ascii :=
  match fuel with
  | O => s
  | S fuel => match strip_any ps s with Some r => trimLeft fuel ps r | None => s end
  end.

(** [strings.TrimSpace]: no encoding of a space is a prefix of another one's
    continuation bytes, so both ends are found by matching encodings; each round
    removes a byte at least. *)
Definition TrimSpace (s : string) : string :=
  let l := String.list_ascii_of_string s in
  let l := trimLeft (length l) spaceBytes l in
  String.string_of_list_ascii (rev (trimLeft (length l) (map (@rev ascii) spaceBytes) (rev l))).

Definition splitNonEmpty (s : string) (sep : ascii) : list string :=
  if String.eqb s "" then [] else Split sep s.

(** ** Configuration *)

Definition comma : ascii := ",".
Definition equals : ascii := "=".
Definition slash : ascii := "/".
Definition quote : string := String (ascii_of_nat 34) EmptyString.

Definition parsePeerHTTPAddrs (raw : string) : gmap string string :=
  foldl (λ m pair,
    match cut equals pair with
    | (id, Some addr) => <[TrimSpace id := TrimSpace addr]> m
    | (_, None) => m
    end) ∅ (splitNonEmpty raw comma).

Fixpoint digits (acc : Z) (s : string) : option Z :=
  match s with
  | EmptyString => Some acc
  | String c s =>
      let d := Z.of_nat (nat_of_ascii c) - 48 in
      if (0 <=? d) && (d <=? 9) then digits (10 * acc + d) s else None
  end.

(** [strconv.Atoi] on a 64-bit platform. *)
Definition Atoi (s : string) : option Z :=
  let parse (sign : Z) (t : string) :=
    if String.eqb t "" then None
    else match digits 0 t with
         | Some v => if (minDuration <=? sign * v) && (sign * v <=? maxDuration) then Some (sign * v) else None
         | None => None
         end in
  match s with
  | String c t => if Ascii.eqb c "-" then parse (-1) t else if Ascii.eqb c "+" then parse 1 t else parse 1 s
  | EmptyString => None
  end.

(** The environment of the process; [os.Getenv] of an unset variable is empty. *)
Abbreviation environment := (gmap string string).
Definition Getenv (env : environment) (key : string) : string := default "" (env !! key).

(** [None]: [log.Fatalf] has ended the process. *)
Definition mustEnv (env : environment) (key : string) : option string :=
  let v := Getenv env key in if String.eqb v "" then None else Some v.

Definition envIntOrDefault (env : environment) (key : string) (def : Z) : Z :=
  let v := Getenv env key in
  if String.eqb v "" then def
  else match Atoi v with
       | Some n => if n >? 0 then n else def
       | None => def
       end.

(** [main] up to the start of the servers: the node's configuration, the address
    it serves HTTP on and the HTTP addresses of its peers; [mkdirOk] says whether
    the data directory could be created. *)
Definition main_config (env : environment) (mkdirOk : bool) : option (Config * string * gmap string string) :=
  nodeID ← mustEnv env "NODE_ID";
  raftRPCAddr ← mustEnv env "RAFT_RPC_ADDR";
  httpAddr ← mustEnv env "HTTP_ADDR";
  dataDir ← mustEnv env "DATA_DIR";
  let peers := splitNonEmpty (Getenv env "RAFT_PEERS") comma in
  let peerHTTPAddrs := parsePeerHTTPAddrs (Getenv env "PEER_HTTP_ADDRS") in
  let selfAddr := Getenv env "NODE_RPC_ADDR" in
  let selfAddr := if String.eqb selfAddr "" && String.prefix ":" raftRPCAddr
                  then (nodeID ++ raftRPCAddr)%string else selfAddr in
  if negb mkdirOk then None else
  Some (mkConfig nodeID peers (envIntOrDefault env "ELECTION_TIMEOUT_MIN_MS" 150)
          (envIntOrDefault env "ELECTION_TIMEOUT_MAX_MS" 300) (envIntOrDefault env "HEARTBEAT_INTERVAL_MS" 50)
          dataDir selfAddr, httpAddr, peerHTTPAddrs).

(** ** Requests and responses *)

(** [rq_URI] is [r.URL.RequestURI()]. *)
Record http_request := mkRequest { rq_Method : string; rq_URI : string; rq_Body : string }.

(** The text of a response: a literal, or that of an error. *)
Inductive message :=
  | Text (s : string)
  | StoreError (e : kv_error)
  | RaftError (e : raft_error).

Record statusReport := mkStatusReport {
  st_node_id : string; st_state : string; st_term : Z; st_leader : string; st_commit_index : Z;
  st_last_applied : Z; st_heartbeats_received : Z; st_heartbeats_sent : Z; st_peers : list string;
  st_snapshot_index : Z
}.

Record logEntryReport := mkLogEntryReport {
  lr_Index : Z; lr_Term : Z; lr_IsConfig : bool; lr_ConfigOp : string; lr_ConfigPeer : string; lr_Command : bytes
}.

Inductive http_response :=
  | HttpError (msg : message) (code : Z)
  | HttpRedirect (target : string) (code : Z)
  | Println (s : string)
  | EncodeStatus (s : statusReport)
  | EncodeLog (l : list logEntryReport)
  | WriteHeader (code : Z).

(** What a handler of [/keys/] does: it answers, or performs a write first. *)
Inductive keys_outcome :=
  | Respond (r : http_response)
  | Perform (o : op).

(** ** Handlers *)

(** The answer of a node that is not the leader, common to both handlers. *)
Definition redirectToLeader (peerHTTPAddrs : gmap string string) (leaderID uri : string) : http_response :=
  if String.eqb leaderID "" then HttpError (Text "no leader elected yet, retry shortly") 503
  else match peerHTTPAddrs !! leaderID with
       | None => HttpError (Text "unknown leader address") 500
       | Some leaderAddr => HttpRedirect ("http://" ++ leaderAddr ++ uri)%string 307
       end.

Section handlers.
(** [r.URL.Path] and [r.URL.Query().Get], by net/url. *)
Context (url_Path : string -> string) (url_Query : string -> string -> string).

(** [n1] is the node when [State] reads it, [n2] when [LeaderID] does, [data] the
    map when [Get] does. *)
Definition makeHandler (peerHTTPAddrs : gmap string string) (r : http_request) (n1 n2 : RaftNode)
    (data : gmap string string) : keys_outcome :=
  let key := TrimPrefix (url_Path (rq_URI r)) "/keys/" in
  if String.eqb key "" then Respond (HttpError (Text "missing key in path") 400)
  else if negb (String.eqb (rq_Method r) "GET") && negb (NodeState_eqb (State n1) Leader)
  then Respond (redirectToLeader peerHTTPAddrs (LeaderID n2) (rq_URI r))
  else if String.eqb (rq_Method r) "GET" then
    Respond (match kv_Get data key with
             | inr KErrKeyNotFound => HttpError (Text "not found") 404
             | inr err => HttpError (StoreError err) 503
             | inl val => Println val
             end)
  else if String.eqb (rq_Method r) "PUT" then
    let value := TrimSpace (rq_Body r) in
    let value := if String.eqb value "" then url_Query (rq_URI r) "value" else value in
    Perform (setOp key value)
  else if String.eqb (rq_Method r) "DELETE" then Perform (delOp key)
  else Respond (HttpError (Text "method not allowed") 405).

(** The rest of the handler, when the write has returned. *)
Definition makeHandler_written (err : option kv_error) : http_response :=
  match err with
  | Some err => HttpError (StoreError err) 503
  | None => Println "OK"
  end.

(** [decodeAddr] is the JSON decoder for the field [addr]: [None] on an error,
    the empty string when the field is missing; [n3] is the node that
    [AddPeer] or [RemovePeer] acts on. *)
Definition makeAdminHandler (decodeAddr : string -> option string) (peerHTTPAddrs : gmap string string)
    (opname : string) (now : Z) (r : http_request) (n1 n2 n3 : RaftNode)
  : RaftNode * http_response * list Goroutine :=
  if negb (String.eqb (rq_Method r) "POST") then (n3, HttpError (Text "method not allowed") 405, [])
  else if negb (NodeState_eqb (State n1) Leader)
  then (n3, redirectToLeader peerHTTPAddrs (LeaderID n2) (rq_URI r), [])
  else match decodeAddr (rq_Body r) with
       | None | Some EmptyString =>
           (n3, HttpError (Text ("body must be JSON with an " ++ quote ++ "addr" ++ quote ++ " field")%string) 400, [])
       | Some addr =>
           let '(n, err, gs) :=
             if String.eqb opname "add" then AddPeer now n3 addr
             else if String.eqb opname "remove" then RemovePeer now n3 addr
             else (n3, None, []) in
           match err with
           | Some err => (n, HttpError (RaftError err) 500, gs)
           | None => (n, Println "OK", gs)
           end
       end.
End handlers.

(** [read k] is the node at the [k]-th of the handler's reads. *)
Definition makeStatusHandler (nodeID : string) (read : nat -> RaftNode) : http_response :=
  EncodeStatus (mkStatusReport nodeID (NodeState_String (State (read 0%nat))) (CurrentTerm (read 1%nat))
    (LeaderID (read 2%nat)) (CommitIndex (read 3%nat)) (LastApplied (read 4%nat))
    (HeartbeatsReceived (read 5%nat)) (HeartbeatsSent (read 6%nat)) (Peers (read 7%nat))
    (SnapshotIndex (read 8%nat))).

Definition makeLogHandler (n : RaftNode) : http_response :=
  EncodeLog (map (λ e, mkLogEntryReport (le_Index e) (le_Term e) (le_IsConfig e) (le_ConfigOp e)
                         (le_ConfigPeer e) (le_Command e)) (LogEntries n)).

(** The headers that are set before the request is passed on. *)
Definition corsHeaders : list (string * string) :=
  [("Access-Control-Allow-Origin", "*");
   ("Access-Control-Allow-Methods", "GET, PUT, DELETE, POST, OPTIONS");
   ("Access-Control-Allow-Headers", "Content-Type")].

Definition corsMiddleware {A : Type} (answer : http_response -> A) (next : http_request -> A) (r : http_request)
  : list (string * string) * A :=
  (corsHeaders, if String.eqb (rq_Method r) "OPTIONS" then answer (WriteHeader 204) else next r).

(** ** Lemmas *)

Fixpoint contains (c : ascii) (s : string) : bool :=
  match s with
  | EmptyString => false
  | String a s => Ascii.eqb a c || contains c s
  end.

Lemma append_nil b : ("" ++ b)%string = b.
Proof. done. Qed.

Lemma append_cons x a b : (String x a ++ b)%string = String x (a ++ b).
Proof. done. Qed.

Lemma cut_at c a b : contains c a = false -> cut c (a ++ String c b) = (a, Some b).
Proof.
  induction a as [|x a IH]; [by rewrite append_nil; simpl; rewrite Ascii.eqb_refl|].
  rewrite append_cons. simpl. intros [-> H]%orb_false_iff. by rewrite IH.
Qed.

Lemma Split_none c a : contains c a = false -> Split c a = [a].
Proof. induction a as [|x a IH]; simpl; [done|]. intros [-> H]%orb_false_iff. by rewrite IH. Qed.

Lemma Split_at c a b : contains c a = false -> Split c (a ++ String c b) = a :: Split c b.
Proof.
  induction a as [|x a IH]; [by rewrite append_nil; simpl; rewrite Ascii.eqb_refl|].
  rewrite append_cons. simpl. intros [-> H]%orb_false_iff. by rewrite IH.
Qed.

Lemma contains_app c a b : contains c (a ++ b) = contains c a || contains c b.
Proof. induction a as [|x a IH]; [done|]. rewrite append_cons. simpl. by rewrite IH, orb_assoc. Qed.

(** A list of words joined with the separator is split into the words again. *)
Lemma Split_concat c ws :
  ws <> [] -> Forall (λ w, contains c w = false) ws -> Split c (String.concat (String c EmptyString) ws) = ws.
Proof.
  intros Hne Hws. induction ws as [|w ws IH]; [done|]. apply Forall_cons in Hws as [Hw Hws].
  destruct ws as [|w' ws]; [by apply Split_none|].
  change (String.concat (String c "") (w :: w' :: ws)) with
    (w ++ String c (String.concat (String c "") (w' :: ws)))%string.
  rewrite Split_at by done. by rewrite IH.
Qed.

Lemma envIntOrDefault_pos env key def : 0 < def -> 0 < envIntOrDefault env key def.
Proof.
  intros. unfold envIntOrDefault. destruct (String.eqb _ _); [done|]. destruct (Atoi _) as [v|]; [|done].
  destruct (v >? 0) eqn:E; lia.
Qed.

Lemma substring_all s : String.substring 0 (String.length s) s = s.
Proof. induction s as [|c s IH]; simpl; [done|]. by rewrite IH. Qed.

Lemma TrimPrefix_http s : TrimPrefix ("http://" ++ s) "http://" = s.
Proof.
  change ("http://" ++ s)%string with
    (String "h" (String "t" (String "t" (String "p" (String ":" (String "/" (String "/" s))))))).
  unfold TrimPrefix. simpl. replace (String.prefix "" s) with true by (by destruct s). rewrite ?Nat.sub_0_r. apply substring_all.
Qed.

(** ** Properties *)

(** An address list in the format of [PEER_HTTP_ADDRS]. *)
Definition formatAddrs (l : list (string * string)) : string :=
  String.concat "," (map (λ '(id, addr), (id ++ "=" ++ addr)%string) l).

(** A pair the format can express. *)
Definition pair_ok (p : string * string) : Prop :=
  contains comma p.1 = false /\ contains equals p.1 = false /\ contains comma p.2 = false /\
  TrimSpace p.1 = p.1 /\ TrimSpace p.2 = p.2.

(** The address map is read back from its textual form: a list of distinct
    identifiers with their addresses, written as [id=host:port] pairs with
    commas between them, is parsed into exactly that map. *)
Theorem parsePeerHTTPAddrs_roundtrip (l : list (string * string)) :
  NoDup l.*1 -> Forall pair_ok l -> parsePeerHTTPAddrs (formatAddrs l) = list_to_map l.
Proof.
  intros Hnd Hok. unfold parsePeerHTTPAddrs, splitNonEmpty, formatAddrs.
  set (ws := map (λ '(id, addr), (id ++ "=" ++ addr)%string) l).
  assert (Hws : (if String.eqb (String.concat "," ws) "" then [] else Split comma (String.concat "," ws)) = ws).
  { destruct l as [|[id addr] l]; [done|]. destruct (String.eqb_spec (String.concat "," ws) "") as [E|].
    - exfalso. subst ws. revert E. simpl. destruct l; destruct id; done.
    - apply (Split_concat comma); [done|]. subst ws. apply Forall_fmap. eapply Forall_impl; [exact Hok|].
      intros [i a] (H1 & _ & H3 & _). simpl in *. by rewrite !contains_app, H1, H3. }
  rewrite Hws. clear Hws. subst ws. rewrite <- (right_id_L ∅ (∪) (list_to_map l)).
  generalize (∅ : gmap string string). revert Hnd Hok.
  induction l as [|[id addr] l IH]; intros Hnd Hok m; simpl; [by rewrite (left_id_L ∅ (∪))|].
  apply NoDup_cons in Hnd as [Hni Hnd]. apply Forall_cons in Hok as [(H1 & H2 & H3 & H4 & H5) Hok]. simpl in *.
  change (id ++ "=" ++ addr)%string with (id ++ String equals addr)%string. rewrite cut_at by done.
  rewrite H4, H5, IH by done. rewrite <- insert_union_l, insert_union_r; [done|].
  by apply not_elem_of_list_to_map_1.
Qed.

Lemma parsePeerHTTPAddrs_roundtrip_witness :
  parsePeerHTTPAddrs "node1=localhost:8081,node2=localhost:8082" =
  list_to_map [("node1", "localhost:8081"); ("node2", "localhost:8082")].
Proof.
  apply (parsePeerHTTPAddrs_roundtrip [("node1", "localhost:8081"); ("node2", "localhost:8082")]).
  - apply (bool_decide_unpack _). vm_compute. exact I.
  - repeat constructor; vm_compute; reflexivity.
Defined.

(** C33. The election timer of a configured server: every timeout lies in the
    interval the environment gives, or in the default one of 150 to 300 ms, for
    values below 9 * 10^12 ms, whose nanoseconds fit an int64; the timer panics
    exactly when the environment puts the maximum at or below the minimum, which
    nothing at the start rejects. *)
Theorem main_config_timer (env : environment) (cfg : Config) (http : string) (addrs : gmap string string)
    (d : Disk) (r : Z) :
  let lo := envIntOrDefault env "ELECTION_TIMEOUT_MIN_MS" 150 in
  let hi := envIntOrDefault env "ELECTION_TIMEOUT_MAX_MS" 300 in
  main_config env true = Some (cfg, http, addrs) -> lo < 9000000000000 -> hi < 9000000000000 ->
  0 < lo /\ 0 < hi /\ 0 < cfg_HeartbeatIntervalMs cfg /\ cfg_ID cfg <> "" /\ cfg_DataDir cfg <> "" /\
  match randomElectionTimeout (NewRaftNode cfg d) r with
  | Some t => lo * Millisecond <= t < hi * Millisecond /\ lo < hi
  | None => hi <= lo
  end.
Proof.
  cbv zeta. intros Hcfg Hlo Hhi. unfold main_config in Hcfg.
  destruct (mustEnv env "NODE_ID") as [i|] eqn:Hi; [|done].
  destruct (mustEnv env "RAFT_RPC_ADDR") as [a|]; [|done]. destruct (mustEnv env "HTTP_ADDR") as [h|]; [|done].
  destruct (mustEnv env "DATA_DIR") as [dd|] eqn:Hd; [|done]. simpl in Hcfg. injection Hcfg as <- _ _.
  pose proof (envIntOrDefault_pos env "ELECTION_TIMEOUT_MIN_MS" 150 eq_refl).
  pose proof (envIntOrDefault_pos env "ELECTION_TIMEOUT_MAX_MS" 300 eq_refl).
  pose proof (envIntOrDefault_pos env "HEARTBEAT_INTERVAL_MS" 50 eq_refl) as Hhb.
  set (cfg := mkConfig _ _ _ _ _ _ _). split_and!; try done.
  - intros E. simpl in E. subst i. unfold mustEnv in Hi. by destruct (String.eqb_spec (Getenv env "NODE_ID") ""); simplify_eq.
  - intros E. simpl in E. subst dd. unfold mustEnv in Hd.
    by destruct (String.eqb_spec (Getenv env "DATA_DIR") ""); simplify_eq.
  - assert (Hc : config (NewRaftNode cfg d) = cfg).
    { unfold NewRaftNode, defaultConfig, withDefault. subst cfg. simpl.
      repeat (rewrite (proj2 (Z.eqb_neq _ _)) by lia). done. }
    pose proof (randomElectionTimeout_range (NewRaftNode cfg d) r) as Hr. rewrite Hc in Hr. apply Hr; simpl; lia.
Qed.

Definition exEnv : environment :=
  {["NODE_ID" := "node1"; "RAFT_RPC_ADDR" := ":7001"; "HTTP_ADDR" := ":8081"; "DATA_DIR" := "/data"]}.

Lemma main_config_timer_witness :
  exists cfg, main_config exEnv true = Some (cfg, ":8081", ∅) /\ cfg_SelfAddr cfg = "node1:7001" /\ cfg_ID cfg <> "".
Proof.
  eexists. split; [vm_compute; reflexivity|]. split; [reflexivity|].
  refine (proj1 (proj2 (proj2 (proj2 (main_config_timer exEnv _ ":8081" ∅ (mkDisk ∅ []) 0 _ _ _))))); vm_compute; reflexivity.
Defined.
