(* ===== verification/Loops.v ===== *)
(** * State passing and polling loops

    [ST S] is the monad in which the sidecar and the scenario harness are
    written: a computation over a state [S].  Both wait in the same way, with a
    deadline and a sleep between attempts.  [poll] is that loop with fuel, and
    [polls] the loop itself as a relation; where the clock behaves as a clock the
    two agree, for the fuel that [poll_for] takes. *)

From S2P Require Import Prelude Node.

Definition ST (S A : Type) : Type := S -> S * A.

#[export] Instance ST_ret S : MRet (ST S) := λ A a s, (s, a).
#[export] Instance ST_bind S : MBind (ST S) := λ A B f m s, let '(s, a) := m s in f a s.

Definition Second : Z := 1000 * Millisecond.

(** [time.Now] and [time.Sleep], in nanoseconds. *)
Class Clock (S : Type) := {
  Now : ST S Z;
  Sleep : Z -> ST S ()
}.

Arguments Now {_ _} : simpl never.
Arguments Sleep {_ _} : simpl never.

(** The clock never goes back, and [Sleep] lasts at least as long as asked. *)
Class ClockLaws (S : Type) `{!Clock S} := {
  wclock : S -> Z;
  wclock_Now : forall s, wclock s <= (Now s).2 <= wclock (Now s).1;
  wclock_Sleep : forall d s, wclock s + d <= wclock (Sleep d s).1
}.

Arguments wclock {_ _ _} : simpl never.

Section poll.
Context {S : Type} `{!Clock S}.

(** [time.Since(start).Milliseconds()]. *)
Definition sinceMs (start : Z) : ST S Z := t ← Now; mret (time_Sub t start `quot` Millisecond).

(** [for time.Now().Before(deadline) { ...; time.Sleep(interval) }]: an attempt
    ends the loop with a result, or goes on with a new value of the variables
    it assigns. *)
Fixpoint poll {A V : Type} (fuel : nat) (deadline interval : Z) (attempt : V -> ST S (A + V)) (v : V) : ST S (A + V) :=
  match fuel with
  | O => mret (inr v)
  | Datatypes.S fuel =>
      now ← Now;
      if now <? deadline then
        r ← attempt v;
        match r with
        | inl a => mret (inl a)
        | inr v => Sleep interval ;; poll fuel deadline interval attempt v
        end
      else mret (inr v)
  end.

(** Enough for every attempt before the deadline and the check that ends the
    loop. *)
Definition poll_fuel (timeout interval : Z) : nat := Z.to_nat (timeout / interval + 2).

Definition poll_for {A V : Type} (timeout interval : Z) (attempt : V -> ST S (A + V)) (v : V) : ST S (A + V) :=
  now ← Now;
  poll (poll_fuel timeout interval) (now + timeout) interval attempt v.

(** The loop without fuel. *)
Inductive polls {A V : Type} (deadline interval : Z) (attempt : V -> ST S (A + V)) : V -> S -> S -> A + V -> Prop :=
  | polls_late v s s' now : Now s = (s', now) -> deadline <= now -> polls deadline interval attempt v s s' (inr v)
  | polls_found v s s1 s2 now a :
      Now s = (s1, now) -> now < deadline -> attempt v s1 = (s2, inl a) ->
      polls deadline interval attempt v s s2 (inl a)
  | polls_again v v' s s1 s2 s3 s' now r :
      Now s = (s1, now) -> now < deadline -> attempt v s1 = (s2, inr v') -> Sleep interval s2 = (s3, ()) ->
      polls deadline interval attempt v' s3 s' r -> polls deadline interval attempt v s s' r.

(** A loop has one outcome. *)
Lemma polls_det {A V : Type} deadline interval (attempt : V -> ST S (A + V)) v s s1 s2 r1 r2 :
  polls deadline interval attempt v s s1 r1 -> polls deadline interval attempt v s s2 r2 -> s1 = s2 /\ r1 = r2.
Proof.
  intros Hp. revert s2 r2. induction Hp; intros s2' r2' Hq; inversion Hq; clear Hq; simplify_eq;
    repeat match goal with H1 : ?x = _, H2 : ?x = _ |- _ => rewrite H1 in H2; simplify_eq end; try (lia || done); eauto.
Qed.

(** A loop that ends with a result ends with the attempt that gave it, made in a
    state that satisfies what every step of the loop keeps. *)
Lemma poll_found {A V : Type} (I : S -> Prop) fuel deadline interval (attempt : V -> ST S (A + V)) v s s' a :
  (forall s, I s -> I (Now s).1) -> (forall d s, I s -> I (Sleep d s).1) -> (forall v s, I s -> I (attempt v s).1) ->
  I s -> poll fuel deadline interval attempt v s = (s', inl a) ->
  exists v1 s1, I s1 /\ attempt v1 s1 = (s', inl a).
Proof.
  intros HN HS HA. revert v s. induction fuel as [|fuel IH]; intros v s Hi; [done|]. simpl. unfold mbind, ST_bind.
  pose proof (HN s Hi) as H1. destruct (Now s) as [s1 now]. simpl in H1. destruct (now <? deadline); [|done].
  destruct (attempt v s1) as [s2 [a'|v']] eqn:Ha; [intros [= <- <-]; by exists v, s1|].
  pose proof (HA v s1 H1) as H2. rewrite Ha in H2. simpl in H2.
  pose proof (HS interval s2 H2) as H3. destruct (Sleep interval s2) as [s3 []]. simpl in H3. by apply IH.
Qed.

Context {HC : ClockLaws S}.

(** A computation during which time does not run backwards. *)
Definition forward {A} (m : ST S A) : Prop := forall s, wclock s <= wclock (m s).1.

Lemma forward_bind {A B} (m : ST S A) (f : A -> ST S B) : forward m -> (forall a, forward (f a)) -> forward (m ≫= f).
Proof.
  intros Hm Hf s. unfold mbind, ST_bind. specialize (Hm s). destruct (m s) as [s1 a]. specialize (Hf a s1). simpl in *. lia.
Qed.

Lemma forward_ret {A} (a : A) : forward (mret a : ST S A).
Proof. intros s. simpl. lia. Qed.

(** With fuel for the time that is left, [poll] is the loop. *)
Lemma poll_polls {A V : Type} deadline interval (attempt : V -> ST S (A + V)) :
  0 < interval -> (forall v, forward (attempt v)) ->
  forall fuel v s, 1 <= Z.of_nat fuel -> deadline - wclock s <= (Z.of_nat fuel - 1) * interval ->
  let '(s', r) := poll fuel deadline interval attempt v s in polls deadline interval attempt v s s' r.
Proof.
  intros Hi Hf. induction fuel as [|fuel IH]; intros v s Hfuel Hd; [lia|].
  simpl. unfold mbind, ST_bind. pose proof (wclock_Now s) as Hnow. destruct (Now s) as [s1 now] eqn:Ew. simpl in Hnow.
  destruct (now <? deadline) eqn:Hlt.
  - specialize (Hf v s1). destruct (attempt v s1) as [s2 [a|v']] eqn:Ea; [apply (polls_found _ _ _ _ _ s1 _ now); [done|lia|done]|].
    pose proof (wclock_Sleep interval s2) as Hs. destruct (Sleep interval s2) as [s3 []] eqn:Es. simpl in Hs, Hf.
    specialize (IH v' s3). destruct (poll fuel deadline interval attempt v' s3) as [s' r].
    eapply (polls_again _ _ _ _ v' _ s1 s2 s3); [done|lia|done..|]. apply IH; nia.
  - eapply polls_late; [done|lia].
Qed.

Lemma poll_for_polls {A V : Type} timeout interval (attempt : V -> ST S (A + V)) (v : V) (s : S) :
  0 < interval -> 0 <= timeout -> (forall v, forward (attempt v)) ->
  let '(s', r) := poll_for timeout interval attempt v s in
  polls ((Now s).2 + timeout) interval attempt v (Now s).1 s' r.
Proof.
  intros Hi Ht Hf. unfold poll_for, mbind, ST_bind. pose proof (wclock_Now s) as Hn. destruct (Now s) as [s1 now]. simpl in *.
  pose proof (poll_polls (now + timeout) interval attempt Hi Hf (poll_fuel timeout interval) v s1) as Hp.
  destruct (poll _ _ _ _ _ _) as [s' r]. unfold poll_fuel in Hp.
  assert (0 <= timeout / interval) by (apply Z.div_pos; lia).
  pose proof (Z.div_mod timeout interval ltac:(lia)). pose proof (Z.mod_pos_bound timeout interval Hi).
  apply Hp; rewrite Z2Nat.id by lia; nia.
Qed.

(** A loop that is given up has reached its deadline. *)
Lemma polls_given_up {A V : Type} deadline interval (attempt : V -> ST S (A + V)) v s s' v' :
  polls deadline interval attempt v s s' (inr v') -> deadline <= wclock s'.
Proof.
  remember (inr v') as r eqn:Hr. induction 1 as [v s s' now Hn Hl| |]; simplify_eq; [|auto].
  pose proof (wclock_Now s) as Hc. rewrite Hn in Hc. simpl in Hc. lia.
Qed.

(** A loop is left soon after its deadline: where a look at the clock takes at
    most [j], a sleep at most [j] more than asked and an attempt at most [D],
    the attempt that began just before the deadline is the last. *)
Lemma polls_bounded {A V : Type} (I : S -> Prop) (j D deadline interval : Z) (attempt : V -> ST S (A + V)) v s s' r :
  0 <= j -> 0 <= D -> 0 <= interval ->
  (forall s, I s -> I (Now s).1 /\ wclock (Now s).1 <= wclock s + j) ->
  (forall s, I s -> I (Sleep interval s).1 /\ wclock (Sleep interval s).1 <= wclock s + interval + j) ->
  (forall v s, I s -> I (attempt v s).1 /\ wclock (attempt v s).1 <= wclock s + D) ->
  polls deadline interval attempt v s s' r -> I s -> wclock s <= deadline + D + interval + 2 * j ->
  wclock s' <= deadline + D + interval + 3 * j.
Proof.
  intros Hj HD Hi HN HS HA. induction 1 as [v s s' now Hn Hl|v s s1 s2 now a Hn Hl Ha|v v' s s1 s2 s3 s' now r Hn Hl Ha Hs _ IH];
    intros Hs0 Hb; destruct (HN s Hs0) as [H1 H2]; pose proof (wclock_Now s) as Hc; rewrite Hn in H1, H2, Hc; simpl in *; [lia| |].
  - destruct (HA v s1 H1) as [_ H3]. rewrite Ha in H3. simpl in H3. lia.
  - destruct (HA v s1 H1) as [H3 H4]. rewrite Ha in H3, H4. destruct (HS s2 H3) as [H5 H6]. rewrite Hs in H5, H6. simpl in *.
    apply IH; [done|lia].
Qed.

Lemma poll_for_bounded {A V : Type} (I : S -> Prop) (j D timeout interval : Z) (attempt : V -> ST S (A + V)) v s :
  0 <= j -> 0 <= D -> 0 < interval -> 0 <= timeout -> (forall v, forward (attempt v)) ->
  (forall s, I s -> I (Now s).1 /\ wclock (Now s).1 <= wclock s + j) ->
  (forall s, I s -> I (Sleep interval s).1 /\ wclock (Sleep interval s).1 <= wclock s + interval + j) ->
  (forall v s, I s -> I (attempt v s).1 /\ wclock (attempt v s).1 <= wclock s + D) -> I s ->
  let '(s', r) := poll_for timeout interval attempt v s in
  wclock s' <= wclock s + timeout + D + interval + 4 * j /\
  (match r with inl _ => True | inr _ => wclock s + timeout <= wclock s' end).
Proof.
  intros Hj HD Hi Ht Hf HN HS HA Hs. pose proof (poll_for_polls timeout interval attempt v s Hi Ht Hf) as Hp.
  destruct (poll_for _ _ _ _ _) as [s' r]. destruct (HN s Hs) as [H1 H2]. pose proof (wclock_Now s) as Hc.
  pose proof (polls_bounded I j D _ interval attempt v _ s' r Hj HD ltac:(lia) HN HS HA Hp H1 ltac:(lia)). split; [lia|].
  destruct r as [a|v']; [done|]. apply polls_given_up in Hp. lia.
Qed.
End poll.
