(* ===== verification/Sidecar.v ===== *)
(** * The sidecar (cmd/sidecar/main.go): registry, containers and cluster membership

    The sidecar keeps a registry of nodes, starts and stops their containers with
    the docker command line and adds and removes them from the cluster over
    HTTP.  The machine it runs on is a parameter ([Host]): the clock, docker, the
    HTTP endpoints of the nodes and the JSON codec.  A function of the program
    is a function of the [World] it acts on; [w_trace] is history only.  Requests
    are served one at a time here, and the text written with [log.Printf] is
    left out. *)

From Stdlib Require Import Strings.Ascii.
From stdpp Require Import pretty.
From S2P Require Import Prelude Loops Node Server.

(** ** Data *)

Record raftStatus := mkRaftStatus {
  rs_State : string; rs_Term : Z; rs_Leader : string; rs_Peers : list string; rs_CommitIndex : Z;
  rs_LastApplied : Z; rs_HeartbeatsSent : Z; rs_HeartbeatsReceived : Z; rs_SnapshotIndex : Z
}.

Record NodeDef := mkNodeDef {
  nd_ID : string; nd_RPCAddr : string; nd_HTTPPort : Z; nd_RPCPort : Z; nd_Bootstrap : bool; nd_Dynamic : bool
}.

Record NodeInfo := mkNodeInfo {
  ni_Def : NodeDef; ni_Running : bool; ni_InCluster : bool; ni_Paused : bool; ni_RaftState : string; ni_Term : Z;
  ni_Leader : string; ni_Peers : list string; ni_CommitIndex : Z; ni_LastApplied : Z; ni_HeartbeatsSent : Z;
  ni_HeartbeatsReceived : Z; ni_SnapshotIndex : Z
}.

Definition presetNodes : list NodeDef :=
  [mkNodeDef "node1" "node1:7001" 8081 0 true false;
   mkNodeDef "node2" "node2:7001" 8082 0 true false;
   mkNodeDef "node3" "node3:7001" 8083 0 true false;
   mkNodeDef "node4" "node4:7001" 8084 0 false false;
   mkNodeDef "node5" "node5:7001" 8085 0 false false].

(** ** The machine *)

(** What was asked of docker and of the nodes, and whether it succeeded. *)
Inductive Event :=
  | EvDocker (args : list string) (ok : bool)
  | EvPost (url body : string) (ok : bool).

(** [host_docker] runs docker and returns its combined output and its error,
    [host_get] the body of a response, [host_post] the status of one;
    [json_status] decodes a status, [json_addr] is the encoding of
    [{"addr": a}]. *)
Class Host (E : Type) := {
  host_Now : E -> E * Z;
  host_Sleep : Z -> E -> E;
  host_docker : list string -> E -> E * (string * option string);
  host_get : string -> E -> E * option string;
  host_post : string -> string -> E -> E * (Z + string);
  json_status : string -> option raftStatus;
  json_addr : string -> string
}.

(** The clock never goes back, and [time.Sleep] lasts at least as long as asked. *)
Class HostClock (E : Type) `{!Host E} := {
  clock : E -> Z;
  clock_Now : forall e, clock e <= (host_Now e).2 <= clock (host_Now e).1;
  clock_Sleep : forall d e, clock e + d <= clock (host_Sleep d e);
  clock_docker : forall args e, clock e <= clock (host_docker args e).1;
  clock_get : forall url e, clock e <= clock (host_get url e).1;
  clock_post : forall url body e, clock e <= clock (host_post url body e).1
}.

Record World (E : Type) := mkWorld {
  w_env : E;
  w_nodes : list NodeDef;
  w_paused : gset string;
  w_trace : list Event
}.
Arguments mkWorld {E}.
Arguments w_env {E}.
Arguments w_nodes {E}.
Arguments w_paused {E}.
Arguments w_trace {E}.

(** [init]: the registry starts with the preset nodes. *)
Definition newWorld {E : Type} (e : E) : World E := mkWorld e presetNodes ∅ [].

Abbreviation M E := (ST (World E)).

(** [error]: [None] is nil. *)
Abbreviation error := (option string).

Definition newline : string := String (ascii_of_nat 10) EmptyString.

(** [time.Duration.String] for whole seconds below a minute. *)
Definition secondsString (d : Z) : string := (pretty (d / Second) ++ "s")%string.

Section sidecar.
Context {E : Type} `{!Host E}.

(** ** Registry and pause tracking *)

Definition isPaused (id : string) : M E bool := λ w, (w, bool_decide (id ∈ w_paused w)).

Definition setPaused (id : string) (v : bool) : M E () := λ w,
  (mkWorld (w_env w) (w_nodes w) (if v then {[id]} ∪ w_paused w else w_paused w ∖ {[id]}) (w_trace w), ()).

Definition allNodes : M E (list NodeDef) := λ w, (w, w_nodes w).

Definition findNode (id : string) : M E (option NodeDef) := λ w,
  (w, List.find (λ n, String.eqb (nd_ID n) id) (w_nodes w)).

Definition addDynamicNode (n : NodeDef) : M E () := λ w,
  (mkWorld (w_env w) (w_nodes w ++ [n]) (w_paused w) (w_trace w), ()).

(** The first dynamic node of that identifier. *)
Fixpoint removeFirst (id : string) (l : list NodeDef) : list NodeDef :=
  match l with
  | [] => []
  | n :: l => if String.eqb (nd_ID n) id && nd_Dynamic n then l else n :: removeFirst id l
  end.

Definition removeDynamicNode (id : string) : M E () := λ w,
  (mkWorld (w_env w) (removeFirst id (w_nodes w)) (w_paused w) (w_trace w), ()).

(** ** Calls to the machine *)

Definition set_env (e : E) (w : World E) : World E := mkWorld e (w_nodes w) (w_paused w) (w_trace w).

Definition record_event (ev : Event) (w : World E) : World E :=
  mkWorld (w_env w) (w_nodes w) (w_paused w) (w_trace w ++ [ev]).

#[export] Instance world_clock : Clock (World E) := {|
  Now w := let '(e, t) := host_Now (w_env w) in (set_env e w, t);
  Sleep d w := (set_env (host_Sleep d (w_env w)) w, ())
|}.

Definition docker (args : list string) : M E (string * error) := λ w,
  let '(e, r) := host_docker args (w_env w) in
  (record_event (EvDocker args (bool_decide (r.2 = None))) (set_env e w), r).

Definition fetchRaftStatus (port : Z) : M E (option raftStatus) := λ w,
  let '(e, body) := host_get ("http://localhost:" +:+ pretty port +:+ "/status") (w_env w) in
  (set_env e w, body ≫= json_status).

Definition http_Post (url body : string) : M E (Z + string) := λ w,
  let '(e, r) := host_post url body (w_env w) in
  (record_event (EvPost url body (match r with inl code => code <? 300 | inr _ => false end)) (set_env e w), r).

(** ** Waiting *)

Definition waitForHTTP (port timeout : Z) : M E error :=
  r ← poll_for timeout (500 * Millisecond) (λ _ : (),
        st ← fetchRaftStatus port;
        mret (match st with Some _ => inl () | None => inr () end)) ();
  mret (match r with inl _ => None | inr _ => Some ("timed out after " +:+ secondsString timeout)%string end).

(** ** The cluster, over HTTP *)

(** The statuses of the nodes that answer, without the excluded port. *)
Fixpoint liveNodes (exclude : Z) (l : list NodeDef) : M E (list (NodeDef * raftStatus)) :=
  match l with
  | [] => mret []
  | n :: l =>
      if nd_HTTPPort n =? exclude then liveNodes exclude l
      else
        st ← fetchRaftStatus (nd_HTTPPort n);
        live ← liveNodes exclude l;
        mret (match st with Some st => (n, st) :: live | None => live end)
  end.

Definition colon : ascii := ":".

(** The port of the leader one of the nodes names, among the registered ones. *)
Fixpoint knownLeader (exclude : Z) (all : list NodeDef) (live : list (NodeDef * raftStatus)) : option Z :=
  match live with
  | [] => None
  | (_, st) :: live =>
      if String.eqb (rs_Leader st) "" then knownLeader exclude all live
      else
        let leaderID := default "" (head (Split colon (rs_Leader st))) in
        match List.find (λ n, String.eqb (nd_ID n) leaderID && negb (nd_HTTPPort n =? exclude)) all with
        | Some n => Some (nd_HTTPPort n)
        | None => knownLeader exclude all live
        end
  end.

(** Who is asked, once the statuses are known. *)
Definition choosePort (exclude : Z) (all : list NodeDef) (live : list (NodeDef * raftStatus)) : Z :=
  match List.find (λ r, String.eqb (rs_State r.2) "leader") live with
  | Some r => nd_HTTPPort r.1
  | None =>
      match knownLeader exclude all live with
      | Some port => port
      | None => match live with r :: _ => nd_HTTPPort r.1 | [] => 0 end
      end
  end.

Definition findOnlinePortExcluding (exclude : Z) : M E Z :=
  all ← allNodes;
  live ← liveNodes exclude all;
  mret (choosePort exclude all live).

(** The common body of [raftAddNode] and [raftRemoveNode]. *)
Definition raftAdmin (opname : string) (port : Z) (rpcAddr : string) : M E error :=
  r ← http_Post ("http://localhost:" +:+ pretty port +:+ "/admin/" +:+ opname) (json_addr rpcAddr);
  mret (match r with
        | inr err => Some err
        | inl code => if 300 <=? code then Some (opname +:+ " returned HTTP " +:+ pretty code)%string else None
        end).

Definition raftAddNode : Z -> string -> M E error := raftAdmin "add-node".
Definition raftRemoveNode : Z -> string -> M E error := raftAdmin "remove-node".

(** The body of the loop of [retryAddNode]; its state is [lastErr]. *)
Definition retryAddNode_attempt (excludePort : Z) (rpcAddr : string) (lastErr : error) : M E (() + error) :=
  port ← findOnlinePortExcluding excludePort;
  if port =? 0 then mret (inr lastErr)
  else
    err ← raftAddNode port rpcAddr;
    mret (match err with Some err => inr (Some err) | None => inl () end).

Definition retryAddNode (excludePort : Z) (rpcAddr : string) (timeout : Z) : M E error :=
  r ← poll_for timeout (500 * Millisecond) (retryAddNode_attempt excludePort rpcAddr) None;
  mret (match r with
        | inl _ => None
        | inr (Some lastErr) => Some ("add-node timed out for " +:+ rpcAddr +:+ ": " +:+ lastErr)%string
        | inr None => Some ("add-node timed out for " +:+ rpcAddr +:+ ": no cluster leader found")%string
        end).

(** ** Docker *)

(** The compose file, the value of [projectDir]/infra/docker-compose.yml. *)
Context (composeFile : string).

(** [filepath.Base(filepath.Dir(composeFile))]. *)
Definition projectName : string :=
  match rev (Split slash composeFile) with
  | _ :: dir :: _ => dir
  | _ => "."
  end.

Definition compose (args : list string) : M E error :=
  r ← docker ("compose" :: "-f" :: composeFile :: args);
  mret (match r with
        | (out, Some err) => Some (err +:+ newline +:+ out)%string
        | (_, None) => None
        end).

Definition composeNetworkName : string := projectName +:+ "_default".

(** Both errors are only logged. *)
Definition clearNodeData (nodeID : string) : M E () :=
  docker ["compose"; "-f"; composeFile; "rm"; "-f"; "-s"; nodeID] ;;
  docker ["volume"; "rm"; (projectName +:+ "_" +:+ nodeID +:+ "-data")%string] ;;
  mret ().

Fixpoint inspectImages (l : list NodeDef) : M E (option string) :=
  match l with
  | [] => mret None
  | n :: l =>
      let imageName := (projectName +:+ "-" +:+ nd_ID n)%string in
      r ← docker ["image"; "inspect"; imageName];
      match r.2 with None => mret (Some imageName) | Some _ => inspectImages l end
  end.

Fixpoint composeImages (l : list NodeDef) : M E (option string) :=
  match l with
  | [] => mret None
  | n :: l =>
      r ← docker ["compose"; "-f"; composeFile; "images"; "-q"; nd_ID n];
      match r with
      | (out, None) =>
          let img := TrimSpace out in
          if String.eqb img "" then composeImages l else mret (Some img)
      | (_, Some _) => composeImages l
      end
  end.

Definition getBuiltImage : M E (string + string) :=
  img ← inspectImages presetNodes;
  match img with
  | Some img => mret (inl img)
  | None =>
      img ← composeImages presetNodes;
      mret (match img with
            | Some img => inl img
            | None => inr "no built image found — run docker compose build (or start any node first) to build the image"%string
            end)
  end.

Definition peerPair (id : string) (port : Z) : string := id +:+ "=localhost:" +:+ pretty port.

Definition buildPeerHTTPAddrs (newID : string) (newHTTPPort : Z) : M E string :=
  all ← allNodes;
  let parts := map (λ n, peerPair (nd_ID n) (nd_HTTPPort n)) all in
  let parts := if existsb (λ n, String.eqb (nd_ID n) newID) all then parts else parts ++ [peerPair newID newHTTPPort] in
  mret (String.concat "," parts).

(** ** Starting and stopping *)

Definition startPresetNode (node : NodeDef) : M E error :=
  existingPort ← findOnlinePortExcluding (nd_HTTPPort node);
  (if existingPort =? 0 then clearNodeData (nd_ID node) else mret ()) ;;
  err ← compose ["up"; "-d"; "--no-deps"; "--build"; nd_ID node];
  match err with
  | Some err => mret (Some ("docker compose up: " +:+ err)%string)
  | None =>
      err ← waitForHTTP (nd_HTTPPort node) (30 * Second);
      match err with
      | Some err => mret (Some (nd_ID node +:+ " did not come online: " +:+ err)%string)
      | None =>
          if nd_Bootstrap node && (existingPort =? 0) then mret None
          else if existingPort =? 0 then mret (Some "no cluster nodes online; start at least one node first"%string)
          else
            err ← retryAddNode (nd_HTTPPort node) (nd_RPCAddr node) (30 * Second);
            mret (match err with
                  | Some err => if nd_Bootstrap node then None else Some ("add-node: " +:+ err)%string
                  | None => None
                  end)
      end
  end.

Definition runArgs (id : string) (httpPort rpcPort : Z) (peerHTTPAddrs image : string) : list string :=
  ["run"; "-d"; "--name"; ("raft-" +:+ id)%string; "--network"; composeNetworkName; "--hostname"; id;
   "-p"; (pretty httpPort +:+ ":" +:+ pretty httpPort)%string; "-p"; (pretty rpcPort +:+ ":7001")%string;
   "-e"; ("NODE_ID=" +:+ id)%string; "-e"; "RAFT_RPC_ADDR=:7001"; "-e"; ("HTTP_ADDR=:" +:+ pretty httpPort)%string;
   "-e"; "RAFT_PEERS="; "-e"; "DATA_DIR=/data"; "-e"; ("PEER_HTTP_ADDRS=" +:+ peerHTTPAddrs)%string;
   "-e"; "ELECTION_TIMEOUT_MIN_MS=250"; "-e"; "ELECTION_TIMEOUT_MAX_MS=500"; "-e"; "HEARTBEAT_INTERVAL_MS=50"; image].

Definition createDynamicNode (id : string) (httpPort rpcPort : Z) : M E error :=
  image ← getBuiltImage;
  match image with
  | inr err => mret (Some err)
  | inl image =>
      let rpcAddr := (id +:+ ":7001")%string in
      peerHTTPAddrs ← buildPeerHTTPAddrs id httpPort;
      r ← docker (runArgs id httpPort rpcPort peerHTTPAddrs image);
      match r with
      | (out, Some err) => mret (Some ("docker run: " +:+ err +:+ newline +:+ out)%string)
      | (_, None) =>
          addDynamicNode (mkNodeDef id rpcAddr httpPort rpcPort false true) ;;
          err ← waitForHTTP httpPort (30 * Second);
          match err with
          | Some err => mret (Some (id +:+ " did not come online: " +:+ err)%string)
          | None =>
              err ← retryAddNode httpPort rpcAddr (30 * Second);
              mret (match err with Some err => Some ("add-node: " +:+ err)%string | None => None end)
          end
      end
  end.

(** A failed [remove-node] is only logged, and so are the errors of the two
    docker commands for a dynamic node. *)
Definition stopNode (node : NodeDef) : M E error :=
  (if negb (nd_Bootstrap node) then
     port ← findOnlinePortExcluding (nd_HTTPPort node);
     if negb (port =? 0) then
       err ← raftRemoveNode port (nd_RPCAddr node);
       match err with Some _ => mret () | None => Sleep (2 * Second) end
     else mret ()
   else mret ()) ;;
  if nd_Dynamic node then
    docker ["stop"; ("raft-" +:+ nd_ID node)%string] ;;
    docker ["rm"; ("raft-" +:+ nd_ID node)%string] ;;
    removeDynamicNode (nd_ID node) ;;
    mret None
  else
    err ← compose ["stop"; nd_ID node];
    mret (match err with Some err => Some ("docker compose stop: " +:+ err)%string | None => None end).

(** [pauseNode] and [unpauseNode]: [verb] is pause or unpause. *)
Definition setContainerPaused (verb : string) (v : bool) (node : NodeDef) : M E error :=
  err ← (if nd_Dynamic node then
           r ← docker [verb; ("raft-" +:+ nd_ID node)%string];
           mret (match r with
                 | (out, Some err) => Some ("docker " +:+ verb +:+ ": " +:+ err +:+ newline +:+ out)%string
                 | (_, None) => None
                 end)
         else
           err ← compose [verb; nd_ID node];
           mret (match err with
                 | Some err => Some ("docker compose " +:+ verb +:+ ": " +:+ err)%string
                 | None => None
                 end));
  match err with
  | Some err => mret (Some err)
  | None => setPaused (nd_ID node) v ;; mret None
  end.

Definition pauseNode : NodeDef -> M E error := setContainerPaused "pause" true.
Definition unpauseNode : NodeDef -> M E error := setContainerPaused "unpause" false.

Definition restartNode (node : NodeDef) : M E error :=
  paused ← isPaused (nd_ID node);
  (if (paused : bool) then unpauseNode node ;; mret () else mret ()) ;;
  err ← stopNode node;
  match err with
  | Some err => mret (Some ("restart: stop failed: " +:+ err)%string)
  | None =>
      Sleep (1 * Second) ;;
      if nd_Dynamic node then createDynamicNode (nd_ID node) (nd_HTTPPort node) (nd_RPCPort node)
      else startPresetNode node
  end.
End sidecar.
