(* ===== verification/Polling.v ===== *)
(** * Waiting for a node (cmd/sidecar/main.go)

    The clock of the machine drives the loops of the sidecar.  On a machine that
    is prompt, waiting for a node that comes online within the timeout succeeds;
    a node that never answers is given up.  The file ends with simulated
    machines, on which the examples run. *)

From Stdlib Require Import Strings.Ascii.
From stdpp Require Import pretty.
From S2P Require Import Prelude Loops Node Server Sidecar.

Section polling.
Context {E : Type} `{!Host E}.

Context {HC : HostClock E}.

#[export] Instance world_clock_laws : ClockLaws (World E).
Proof using HC.
  refine (Build_ClockLaws (World E) _ (λ w, clock (w_env w)) _ _).
  - intros w. pose proof (clock_Now (w_env w)). unfold Now, world_clock. by destruct (host_Now _).
  - intros d w. apply clock_Sleep.
Defined.

Lemma forward_fetch port : forward (fetchRaftStatus port).
Proof.
  intros w. unfold fetchRaftStatus, wclock. pose proof (clock_get ("http://localhost:" +:+ pretty port +:+ "/status") (w_env w)).
  by destruct (host_get _ _).
Qed.

Lemma forward_post url body : forward (http_Post url body).
Proof. intros w. unfold http_Post, wclock. pose proof (clock_post url body (w_env w)). by destruct (host_post _ _ _). Qed.

Lemma forward_liveNodes exclude l : forward (liveNodes exclude l).
Proof.
  induction l as [|n l IH]; [apply forward_ret|]. simpl. case_match; [done|].
  apply forward_bind; [apply forward_fetch|intros st]. apply forward_bind; [done|intros]. apply forward_ret.
Qed.

Lemma forward_findOnlinePortExcluding exclude : forward (findOnlinePortExcluding exclude).
Proof.
  apply forward_bind; [|intros all]; [intros w; simpl; lia|]. apply forward_bind; [apply forward_liveNodes|intros].
  apply forward_ret.
Qed.

(** ** Waiting for a node *)

(** [waitForHTTP] is a loop. *)
Lemma waitForHTTP_polls port timeout (w : World E) :
  0 <= timeout ->
  exists w' r, polls ((Now w).2 + timeout) (500 * Millisecond)
      (λ _ : (), st ← fetchRaftStatus port; mret (match st with Some _ => inl () | None => inr () end)) () (Now w).1 w' r /\
    waitForHTTP port timeout w =
      (w', match r with inl _ => None | inr _ => Some ("timed out after " +:+ secondsString timeout)%string end).
Proof using HC.
  intros Ht. unfold waitForHTTP. set (attempt := λ _ : (), _).
  assert (Hf : forall s, forward (attempt s)).
  { intros []. apply forward_bind; [apply forward_fetch|intros; apply forward_ret]. }
  pose proof (poll_for_polls timeout (500 * Millisecond) attempt () w ltac:(done) Ht Hf) as Hp. unfold mbind, ST_bind.
  destruct (poll_for _ _ _ _ _) as [w' r]. by exists w', r.
Qed.

Definition statusURL (port : Z) : string := "http://localhost:" +:+ pretty port +:+ "/status".

(** What one attempt does. *)
Lemma attempt_inv port (w1 w2 : World E) (r : () + ()) :
  (st ← fetchRaftStatus port; mret (match st with Some _ => inl () | None => inr () end)) w1 = (w2, r) ->
  let '(e, body) := host_get (statusURL port) (w_env w1) in
  w_env w2 = e /\ (r = inr () <-> body ≫= json_status = None).
Proof.
  unfold fetchRaftStatus, mbind at 1, ST_bind, statusURL. destruct (host_get _ _) as [e body]. intros [= <- <-].
  split; [done|]. destruct (body ≫= json_status); naive_solver.
Qed.

(** A machine that loses at most [j] on each call: a request is given up after a
    second, a sleep lasts as long as asked, a look at the clock takes no time. *)
Class HostPrompt (j : Z) := {
  prompt_Now : forall e, clock (host_Now e).1 <= clock e + j;
  prompt_Sleep : forall d e, 0 <= d -> clock (host_Sleep d e) <= clock e + d + j;
  prompt_get : forall url e, clock (host_get url e).1 <= clock e + Second + j
}.

Lemma wclock_Now_prompt {j : Z} `{!HostPrompt j} (w : World E) : wclock (Now w).1 <= wclock w + j.
Proof. pose proof (prompt_Now (w_env w)). unfold wclock, Now, world_clock_laws, world_clock. by destruct (host_Now _). Qed.

Lemma wait_succeeds {j : Z} `{!HostPrompt j} port T deadline w w' r :
  (forall e, T <= clock e -> (host_get (statusURL port) e).2 ≫= json_status <> None) ->
  T + 1500 * Millisecond + 3 * j <= deadline ->
  polls deadline (500 * Millisecond)
    (λ _ : (), st ← fetchRaftStatus port; mret (match st with Some _ => inl () | None => inr () end)) () w w' r ->
  wclock w + j < deadline -> r = inl ().
Proof.
  intros HT HD Hp. change (1500 * Millisecond) with 1500000000 in HD.
  remember (500 * Millisecond) as interval eqn:Hi. change (500 * Millisecond) with 500000000 in Hi.
  induction Hp as [s w w1 now Hn Hl|s w w1 w2 now [] Hn Hl Ha|s s' w w1 w2 w3 w' now r Hn Hl Ha Hs _ IH]; intros Hw.
  - pose proof (wclock_Now w) as Hc. pose proof (wclock_Now_prompt w) as Hq. rewrite Hn in Hc, Hq. simpl in *. lia.
  - by destruct s.
  - destruct s, s'. apply IH. apply attempt_inv in Ha. specialize (HT (w_env w1)).
    pose proof (prompt_get (statusURL port) (w_env w1)). destruct (host_get _ _) as [e body]. destruct Ha as [He [Ha _]].
    specialize (Ha eq_refl). simpl in *.
    assert (clock (w_env w1) < T) by (destruct (Z.lt_ge_cases (clock (w_env w1)) T); [done|tauto]).
    injection Hs as <-. unfold wclock, world_clock_laws in *. simpl. pose proof (prompt_Sleep interval (w_env w2) ltac:(lia)).
    rewrite He in *. change Second with 1000000000 in *. lia.
Qed.

(** C37. A node that comes online in time is waited for: on a prompt machine, when
    the node answers every request from time [T] on and [T] leaves the loop one
    more round before the deadline, [waitForHTTP] reports success. *)
Theorem waitForHTTP_succeeds {j : Z} `{!HostPrompt j} port timeout T (w : World E) :
  (forall e, T <= clock e -> (host_get (statusURL port) e).2 ≫= json_status <> None) ->
  2 * j < timeout -> 0 <= timeout -> T + 1500 * Millisecond + 3 * j <= wclock w + timeout ->
  (waitForHTTP port timeout w).2 = None.
Proof.
  intros HT Hj Ht HD. destruct (waitForHTTP_polls port timeout w Ht) as (w' & r & Hp & ->).
  pose proof (wclock_Now w). apply (wait_succeeds port T) in Hp; [by subst r|done|lia|].
  pose proof (wclock_Now_prompt w). lia.
Qed.

(** A node that never answers is given up, no earlier than the timeout and
    with the error that names it. *)
Theorem waitForHTTP_gives_up port timeout (w : World E) :
  (forall e, (host_get (statusURL port) e).2 ≫= json_status = None) -> 0 <= timeout ->
  (waitForHTTP port timeout w).2 = Some ("timed out after " +:+ secondsString timeout)%string /\
  wclock w + timeout <= wclock (waitForHTTP port timeout w).1.
Proof using HC.
  intros HT Ht. destruct (waitForHTTP_polls port timeout w Ht) as (w' & r & Hp & ->). cbn [fst snd].
  assert (r = inr () /\ (Now w).2 + timeout <= wclock w') as [-> ?];
    [|split; [done|]; pose proof (wclock_Now w); lia].
  induction Hp as [s w0 w1 now Hn Hl|s w0 w1 w2 now [] Hn Hl Ha|s s' w0 w1 w2 w3 w' now r Hn Hl Ha Hs _ IH];
    [| |by destruct s, s'].
  - pose proof (wclock_Now w0) as Hc. rewrite Hn in Hc. cbn [fst snd] in Hc. split; [done|lia].
  - apply attempt_inv in Ha. specialize (HT (w_env w1)). destruct (host_get _ _). destruct Ha as [_ [_ Ha]].
    destruct s. by specialize (Ha HT).
Qed.
End polling.

(** ** A simulated machine *)

(** Nodes as pairs of their HTTP port and their container; the first one that is
    up and not paused leads.  Resuming a container of [sim_stuck] fails.  A look
    at the clock takes a nanosecond, a request a millisecond. *)
Record Sim := mkSim {
  sim_now : Z; sim_nodes : list (Z * string); sim_up : gset string; sim_paused : gset string; sim_stuck : gset string
}.

Definition sim_serves (s : Sim) (c : string) : bool := bool_decide (c ∈ sim_up s) && negb (bool_decide (c ∈ sim_paused s)).

Definition sim_get (url : string) (s : Sim) : option string :=
  p ← List.find (λ p : Z * string, String.eqb url (statusURL p.1) && sim_serves s p.2) (sim_nodes s);
  l ← List.find (λ q : Z * string, sim_serves s q.2) (sim_nodes s);
  Some (if String.eqb (p : Z * string).2 (l : Z * string).2 then "leader" else "follower")%string.

Definition sim_tick (d : Z) (s : Sim) : Sim :=
  mkSim (sim_now s + Z.max d 0) (sim_nodes s) (sim_up s) (sim_paused s) (sim_stuck s).

(** [docker verb c]. *)
Definition sim_do (verb c : string) (s : Sim) : Sim * (string * option string) :=
  let with_ (up paused : gset string) := (mkSim (sim_now s) (sim_nodes s) up paused (sim_stuck s), (""%string, None)) in
  if String.eqb verb "pause" then with_ (sim_up s) ({[c]} ∪ sim_paused s)
  else if String.eqb verb "unpause" then
    if bool_decide (c ∈ sim_stuck s) then (s, ("no such container"%string, Some "exit status 1"%string))
    else with_ (sim_up s) (sim_paused s ∖ {[c]})
  else if String.eqb verb "stop" then with_ (sim_up s ∖ {[c]}) (sim_paused s)
  else if String.eqb verb "up" then with_ ({[c]} ∪ sim_up s) (sim_paused s)
  else (s, (""%string, None)).

Definition sim_docker (args : list string) (s : Sim) : Sim * (string * option string) :=
  match args with
  | [verb; c] => sim_do verb c s
  | [_; _; _; verb; c] => sim_do verb c s
  | [_; _; _; verb; _; _; _; c] => sim_do verb c s
  | cmd :: _ :: _ :: c :: _ => if String.eqb cmd "run" then sim_do "up" c s else (s, (""%string, None))
  | _ => (s, (""%string, None))
  end.

#[export] Instance sim_host : Host Sim := {|
  host_Now s := (sim_tick 1 s, sim_now s);
  host_Sleep := sim_tick;
  host_docker := sim_docker;
  host_get url s := (sim_tick Millisecond s, sim_get url s);
  host_post _ _ s := (sim_tick Millisecond s, inl 200);
  json_status body :=
    if String.eqb body "leader" || String.eqb body "follower"
    then Some (mkRaftStatus body 1 "" [] 0 0 0 0 0) else None;
  json_addr a := ("{" +:+ quote +:+ "addr" +:+ quote +:+ ":" +:+ quote +:+ a +:+ quote +:+ "}")%string
|}.

Lemma sim_docker_now args s : sim_now (sim_docker args s).1 = sim_now s.
Proof. unfold sim_docker, sim_do. repeat case_match; done. Qed.

#[export] Instance sim_clock : HostClock Sim.
Proof.
  refine (Build_HostClock Sim sim_host sim_now _ _ _ _ _).
  - intros s. simpl. lia.
  - intros d s. simpl. lia.
  - intros args s. by rewrite sim_docker_now.
  - intros url s. simpl. lia.
  - intros url body s. simpl. lia.
Defined.

(** Five preset nodes, all of them up. *)
Definition exSim : Sim :=
  mkSim 0 (map (λ n, (nd_HTTPPort n, nd_ID n)) presetNodes) (list_to_set (map nd_ID presetNodes)) ∅ ∅.

Definition exWorld : World Sim := newWorld exSim.

(** A machine with one node, on port 8081, that comes online after five seconds. *)
Record Boot := mkBoot { boot_now : Z }.

#[export] Instance boot_host : Host Boot := {|
  host_Now b := (mkBoot (boot_now b + 1), boot_now b);
  host_Sleep d b := mkBoot (boot_now b + d);
  host_docker _ b := (b, (""%string, None));
  host_get url b :=
    (mkBoot (boot_now b + Millisecond),
     if String.eqb url (statusURL 8081) && (5 * Second <=? boot_now b) then Some "follower"%string else None);
  host_post _ _ b := (b, inl 200);
  json_status body := Some (mkRaftStatus body 1 "" [] 0 0 0 0 0);
  json_addr a := a
|}.

#[export] Instance boot_clock : HostClock Boot.
Proof. refine (Build_HostClock Boot boot_host boot_now _ _ _ _ _); intros; simpl; unfold Millisecond; lia. Defined.

#[export] Instance boot_prompt : HostPrompt (E := Boot) 1.
Proof. split; intros; simpl; unfold Second, Millisecond; lia. Qed.

Lemma waitForHTTP_succeeds_witness : (waitForHTTP 8081 (30 * Second) (newWorld (mkBoot 0))).2 = None.
Proof.
  apply (waitForHTTP_succeeds (E := Boot) (j := 1) 8081 (30 * Second) (5 * Second)); [|vm_compute; done..].
  intros e He. simpl in He |- *. by rewrite (proj2 (Z.leb_le _ _) He).
Defined.

Lemma waitForHTTP_gives_up_witness :
  secondsString (30 * Second) = "30s"%string /\
  (waitForHTTP 9999 (30 * Second) (newWorld (mkBoot 0))).2 =
    Some ("timed out after " +:+ secondsString (30 * Second))%string /\
  wclock (newWorld (E := Boot) (mkBoot 0)) + 30 * Second <= wclock (waitForHTTP 9999 (30 * Second) (newWorld (mkBoot 0))).1.
Proof.
  split; [vm_compute; reflexivity|].
  apply (waitForHTTP_gives_up (E := Boot) 9999 (30 * Second) (newWorld (mkBoot 0))); [|done].
  intros e. reflexivity.
Defined.
