(* ===== verification/LiveScenarios.v ===== *)
(** * The live scenarios of the sidecar (cmd/sidecar/main.go)

    The four scenarios that pause containers of a running cluster, watch it and
    resume them.  A line of a scenario's log is its time and its text.  The
    theorems hold for every machine: whatever docker, the network and the nodes
    answer, a container that a scenario has paused is asked to resume before the
    scenario returns. *)

From stdpp Require Import pretty.
From S2P Require Import Prelude Loops Node Server Sidecar Polling.

Record LiveScenarioMeta := mkLiveScenarioMeta { lm_ID : string; lm_Label : string; lm_Desc : string; lm_MinNodes : Z }.

Definition logLine : Type := Z * string.

Record LiveScenarioResult := mkLiveScenarioResult {
  ls_Name : string; ls_Passed : bool; ls_Error : string; ls_DurMs : Z; ls_Logs : list logLine
}.

Definition liveScenarioList : list LiveScenarioMeta :=
  [mkLiveScenarioMeta "isolate_leader" "Isolate Leader"
     "Pauses the current leader container. The cluster elects a new leader. After 3 seconds the old leader is restored and rejoins as follower." 3;
   mkLiveScenarioMeta "lose_follower" "Lose a Follower"
     "Pauses one follower. The remaining nodes still hold quorum and the cluster continues. Follower is restored after 3 seconds." 3;
   mkLiveScenarioMeta "quorum_loss" "Quorum Loss"
     "Pauses the majority of nodes so the cluster drops below quorum. The leader cannot commit new entries. All nodes are restored after 4 seconds." 3;
   mkLiveScenarioMeta "leader_churn" "Leader Churn"
     "Performs 3 rapid leader-failover cycles in a row. Each round pauses the current leader, waits for a new one, then restores. Watch the term counter climb." 3].

Section scenarios.
Context {E : Type} `{!Host E} (composeFile : string).

#[local] Abbreviation pauseNode := (pauseNode composeFile).
#[local] Abbreviation unpauseNode := (unpauseNode composeFile).

(** ** The closures of a scenario *)

Definition logf (logs : list logLine) (msg : string) : M E (list logLine) :=
  t ← Now; mret (logs ++ [(t, msg)]).

Definition fail (name : string) (start : Z) (logs : list logLine) (msg : string) : M E LiveScenarioResult :=
  d ← sinceMs start; mret (mkLiveScenarioResult name false msg d logs).

Definition pass (name : string) (start : Z) (logs : list logLine) : M E LiveScenarioResult :=
  d ← sinceMs start; mret (mkLiveScenarioResult name true "" d logs).

(** ** Looking at the cluster *)

(** The first node that is not paused, is not [except], and says it leads; with
    its term. *)
Fixpoint findLeader (except : option string) (l : list NodeDef) : M E (option (NodeDef * Z)) :=
  match l with
  | [] => mret None
  | n :: l =>
      p ← isPaused (nd_ID n);
      if bool_decide (except = Some (nd_ID n)) || (p : bool) then findLeader except l
      else
        st ← fetchRaftStatus (nd_HTTPPort n);
        match st with
        | Some st => if String.eqb (rs_State st) "leader" then mret (Some (n, rs_Term st)) else findLeader except l
        | None => findLeader except l
        end
  end.

(** The loop that waits for another leader. *)
Definition waitNewLeader (all : list NodeDef) (old : NodeDef) (timeout interval : Z) : M E (option (NodeDef * Z)) :=
  r ← poll_for timeout interval (λ _ : (),
        l ← findLeader (Some (nd_ID old)) all;
        mret (match l with
              | Some (n, t) => if String.eqb (nd_ID n) "" then inr () else inl (n, t)
              | None => inr ()
              end)) ();
  mret (match r with inl l => Some l | inr _ => None end).

(** ** Isolate the leader *)

Definition runScenarioIsolateLeader : M E LiveScenarioResult :=
  let name := "isolate_leader" in
  start ← Now;
  all ← allNodes;
  leader ← findLeader None all;
  match leader with
  | None => fail name start [] "no leader found — is the cluster running?"
  | Some (leaderNode, leaderTerm) =>
      logs ← logf [] ("Found leader: " +:+ nd_ID leaderNode +:+ " (term " +:+ pretty leaderTerm +:+ ")");
      err ← pauseNode leaderNode;
      match err with
      | Some err => fail name start logs ("pause failed: " +:+ err)
      | None =>
          logs ← logf logs ("Paused " +:+ nd_ID leaderNode +:+ " — waiting for the cluster to elect a new leader…");
          new ← waitNewLeader all leaderNode (12 * Second) (300 * Millisecond);
          match new with
          | None =>
              unpauseNode leaderNode ;;
              fail name start logs "new leader not elected within timeout — not enough nodes online?"
          | Some (newLeader, _) =>
              logs ← logf logs ("New leader elected: " +:+ nd_ID newLeader);
              logs ← logf logs "Holding partition for 3 s so the topology is visible…";
              Sleep (3 * Second) ;;
              err ← unpauseNode leaderNode;
              match err with
              | Some err => fail name start logs ("unpause failed: " +:+ err)
              | None =>
                  logs ← logf logs ("Restored " +:+ nd_ID leaderNode +:+
                    " — it will receive a higher-term heartbeat and step down");
                  Sleep (800 * Millisecond) ;;
                  logs ← logf logs "Scenario complete ✓  old leader rejoined as follower";
                  pass name start logs
              end
          end
      end
  end.

(** ** Lose a follower *)

(** The first follower and the number of nodes that answer. *)
Fixpoint countOnline (l : list NodeDef) (follower : option NodeDef) (online : Z) : M E (option NodeDef * Z) :=
  match l with
  | [] => mret (follower, online)
  | n :: l =>
      p ← isPaused (nd_ID n);
      if (p : bool) then countOnline l follower online
      else
        st ← fetchRaftStatus (nd_HTTPPort n);
        match st with
        | None => countOnline l follower online
        | Some st =>
            let follower := match follower with
                            | None => if String.eqb (rs_State st) "follower" then Some n else None
                            | Some f => Some f
                            end in
            countOnline l follower (online + 1)
        end
  end.

Definition runScenarioLoseFollower : M E LiveScenarioResult :=
  let name := "lose_follower" in
  start ← Now;
  all ← allNodes;
  found ← countOnline all None 0;
  let onlineCount := found.2 in
  match found.1 with
  | None => fail name start [] "no follower found — need at least 2 nodes online"
  | Some follower =>
      if onlineCount <? 2 then
        fail name start [] "only 1 node online; need at least 2 to maintain quorum after partition"
      else
        logs ← logf [] ("Found follower: " +:+ nd_ID follower +:+ " (" +:+ pretty onlineCount +:+ " nodes online)");
        err ← pauseNode follower;
        match err with
        | Some err => fail name start logs ("pause failed: " +:+ err)
        | None =>
            logs ← logf logs ("Paused " +:+ nd_ID follower +:+ " — cluster still holds quorum with " +:+
              pretty (onlineCount - 1) +:+ "/" +:+ pretty onlineCount +:+ " nodes");
            logs ← logf logs "Holding partition for 3 s so the topology is visible…";
            Sleep (3 * Second) ;;
            leader ← findLeader (Some (nd_ID follower)) all;
            match leader with
            | None =>
                unpauseNode follower ;;
                fail name start logs "leader was lost after follower partition — unexpected quorum failure"
            | Some (l, _) =>
                logs ← logf logs ("Leader " +:+ nd_ID l +:+ " is still serving — quorum maintained ✓");
                err ← unpauseNode follower;
                match err with
                | Some err => fail name start logs ("unpause failed: " +:+ err)
                | None =>
                    logs ← logf logs ("Restored " +:+ nd_ID follower +:+ " — it will catch up via log replication");
                    Sleep (600 * Millisecond) ;;
                    logs ← logf logs "Scenario complete ✓";
                    pass name start logs
                end
            end
        end
  end.

(** ** Lose the quorum *)

Fixpoint onlineNodes (l : list NodeDef) : M E (list NodeDef) :=
  match l with
  | [] => mret []
  | n :: l =>
      p ← isPaused (nd_ID n);
      if (p : bool) then onlineNodes l
      else
        st ← fetchRaftStatus (nd_HTTPPort n);
        rest ← onlineNodes l;
        mret (match st with Some _ => n :: rest | None => rest end)
  end.

(** [for _, p := range paused { unpauseNode(p) }]. *)
Fixpoint unpauseAll (l : list NodeDef) : M E () :=
  match l with
  | [] => mret ()
  | n :: l => unpauseNode n ;; unpauseAll l
  end.

(** The loop that pauses [toPause] nodes; [i] counts those done.  It returns the
    paused nodes, or the error after having resumed them. *)
Fixpoint pauseAll (l paused : list NodeDef) (i toPause : Z) (logs : list logLine)
  : M E ((list NodeDef + string) * list logLine) :=
  match l with
  | [] => mret (inl paused, logs)
  | nd :: l =>
      err ← pauseNode nd;
      match err with
      | Some err => unpauseAll paused ;; mret (inr ("pause " +:+ nd_ID nd +:+ ": " +:+ err), logs)
      | None =>
          logs ← logf logs ("Paused " +:+ nd_ID nd +:+ " (" +:+ pretty (i + 1) +:+ "/" +:+ pretty toPause +:+ ")");
          pauseAll l (paused ++ [nd]) (i + 1) toPause logs
      end
  end.

(** The loop that restores them; a failure is only logged. *)
Fixpoint restoreAll (l : list NodeDef) (logs : list logLine) : M E (list logLine) :=
  match l with
  | [] => mret logs
  | nd :: l =>
      err ← unpauseNode nd;
      logs ← logf logs (match err with
                        | Some err => "WARNING: unpause " +:+ nd_ID nd +:+ " failed: " +:+ err
                        | None => "Restored " +:+ nd_ID nd
                        end);
      restoreAll l logs
  end.

Definition runScenarioQuorumLoss : M E LiveScenarioResult :=
  let name := "quorum_loss" in
  start ← Now;
  all ← allNodes;
  online ← onlineNodes all;
  let n := lenZ online in
  if n <? 3 then fail name start [] ("need at least 3 running nodes, found " +:+ pretty n)
  else
    let quorum := n `quot` 2 + 1 in
    let toPause := (n + 1) `quot` 2 in
    logs ← logf [] ("Cluster: " +:+ pretty n +:+ " nodes, quorum=" +:+ pretty quorum +:+ " — pausing " +:+
      pretty toPause +:+ " to break quorum");
    r ← pauseAll (take (Z.to_nat toPause) online) [] 0 toPause logs;
    match r with
    | (inr msg, logs) => fail name start logs msg
    | (inl paused, logs) =>
        logs ← logf logs ("Quorum lost — only " +:+ pretty (n - toPause) +:+ "/" +:+ pretty n +:+
          " nodes reachable, leader cannot commit new entries");
        logs ← logf logs "Holding for 4 s so the topology is visible…";
        Sleep (4 * Second) ;;
        logs ← restoreAll paused logs;
        Sleep (800 * Millisecond) ;;
        logs ← logf logs "Scenario complete ✓  cluster is recovering quorum";
        pass name start logs
    end.

(** ** Leader churn *)

(** A second look after a moment. *)
Definition findLeaderRetry (all : list NodeDef) : M E (option (NodeDef * Z)) :=
  leader ← findLeader None all;
  match leader with
  | Some l => mret (Some l)
  | None => Sleep (600 * Millisecond) ;; findLeader None all
  end.

(** One round: the log so far, or the text of the failure with it. *)
Definition churnRound (all : list NodeDef) (round rounds : Z) (logs : list logLine) : M E (option string * list logLine) :=
  logs ← logf logs ("── Round " +:+ pretty round +:+ "/" +:+ pretty rounds +:+ " ──────────────────────────");
  let pre := "round " +:+ pretty round +:+ ": " in
  leader ← findLeaderRetry all;
  match leader with
  | None => mret (Some (pre +:+ "no leader found"), logs)
  | Some (leaderNode, leaderTerm) =>
      logs ← logf logs ("Current leader: " +:+ nd_ID leaderNode +:+ " (term " +:+ pretty leaderTerm +:+ ")");
      err ← pauseNode leaderNode;
      match err with
      | Some err => mret (Some (pre +:+ "pause " +:+ nd_ID leaderNode +:+ ": " +:+ err), logs)
      | None =>
          logs ← logf logs ("Paused " +:+ nd_ID leaderNode +:+ " — waiting for new election…");
          new ← waitNewLeader all leaderNode (10 * Second) (250 * Millisecond);
          match new with
          | None =>
              unpauseNode leaderNode ;;
              mret (Some (pre +:+ "new leader not elected within timeout"), logs)
          | Some (newLeader, newTerm) =>
              logs ← logf logs ("New leader: " +:+ nd_ID newLeader +:+ " (term " +:+ pretty leaderTerm +:+ " → " +:+
                pretty newTerm +:+ ", +" +:+ pretty (newTerm ⊖ leaderTerm) +:+ ")");
              Sleep (1500 * Millisecond) ;;
              err ← unpauseNode leaderNode;
              match err with
              | Some err => mret (Some (pre +:+ "unpause " +:+ nd_ID leaderNode +:+ ": " +:+ err), logs)
              | None =>
                  logs ← logf logs ("Restored " +:+ nd_ID leaderNode +:+ " — stepping down as follower");
                  Sleep (700 * Millisecond) ;;
                  mret (None, logs)
              end
          end
      end
  end.

(** Rounds [round], [round + 1], ... [todo] of them. *)
Fixpoint churnRounds (all : list NodeDef) (todo : nat) (round rounds : Z) (logs : list logLine)
  : M E (option string * list logLine) :=
  match todo with
  | O => mret (None, logs)
  | S todo =>
      r ← churnRound all round rounds logs;
      match r with
      | (Some msg, logs) => mret (Some msg, logs)
      | (None, logs) => churnRounds all todo (round + 1) rounds logs
      end
  end.

Definition runScenarioLeaderChurn : M E LiveScenarioResult :=
  let name := "leader_churn" in
  start ← Now;
  all ← allNodes;
  let rounds := 3 in
  r ← churnRounds all (Z.to_nat rounds) 1 rounds [];
  match r with
  | (Some msg, logs) => fail name start logs msg
  | (None, logs) =>
      logs ← logf logs ("Leader churn complete ✓  " +:+ pretty rounds +:+ " elections triggered");
      pass name start logs
  end.

(** The scenarios by their identifiers, the [switch] of [handleRunLiveScenario]. *)
Definition scenario_of (id : string) : option (M E LiveScenarioResult) :=
  if String.eqb id "isolate_leader" then Some runScenarioIsolateLeader
  else if String.eqb id "lose_follower" then Some runScenarioLoseFollower
  else if String.eqb id "quorum_loss" then Some runScenarioQuorumLoss
  else if String.eqb id "leader_churn" then Some runScenarioLeaderChurn
  else None.
End scenarios.

(** ** What a run leaves paused *)

(** A pause that succeeded holds a container; any attempt to resume it lets it
    go. *)
Definition hold (s : gset string) (ev : Event) : gset string :=
  let step (verb c : string) (ok : bool) :=
    if String.eqb verb "pause" && ok then {[c]} ∪ s
    else if String.eqb verb "unpause" then s ∖ {[c]} else s in
  match ev with
  | EvDocker [verb; c] ok => step verb c ok
  | EvDocker [_; _; _; verb; c] ok => step verb c ok
  | _ => s
  end.

Definition held {E} (w : World E) : gset string := foldl hold ∅ (w_trace w).

(** The name docker knows a node under. *)
Definition container (n : NodeDef) : string :=
  if nd_Dynamic n then ("raft-" +:+ nd_ID n)%string else nd_ID n.

(** ** Weakest preconditions *)

Section wp.
Context {E : Type} `{!Host E}.

Definition wp {A} (m : M E A) (Q : A -> World E -> Prop) (w : World E) : Prop := Q (m w).2 (m w).1.

Lemma wp_bind {A B} (m : M E A) (f : A -> M E B) Q w : wp m (λ a w, wp (f a) Q w) w -> wp (m ≫= f) Q w.
Proof. unfold wp, mbind, ST_bind. by destruct (m w). Qed.

Lemma wp_ret {A} (a : A) Q w : Q a w -> wp (mret a : M E A) Q w.
Proof. done. Qed.

Lemma wp_mono {A} (m : M E A) (P Q : A -> World E -> Prop) w : wp m P w -> (forall a w, P a w -> Q a w) -> wp m Q w.
Proof. unfold wp. auto. Qed.

(** What the scenarios change of a world. *)
Definition same (w w' : World E) : Prop := w_nodes w' = w_nodes w /\ w_paused w' = w_paused w /\ held w' = held w.

#[export] Instance same_preorder : PreOrder same.
Proof. split; [done|]. intros w1 w2 w3 (? & ? & ?) (? & ? & ?). unfold same. split_and!; congruence. Qed.

(** A computation that only looks. *)
Definition looks {A} (m : M E A) : Prop := forall w, same w (m w).1.

Lemma looks_bind {A B} (m : M E A) (f : A -> M E B) : looks m -> (forall a, looks (f a)) -> looks (m ≫= f).
Proof.
  intros Hm Hf w. unfold mbind, ST_bind. specialize (Hm w). destruct (m w) as [w1 a]. etransitivity; [exact Hm|apply Hf].
Qed.

Lemma looks_ret {A} (a : A) : looks (mret a : M E A).
Proof. done. Qed.

Lemma looks_Now : looks Now.
Proof. intros w. unfold Now, world_clock. by destruct (host_Now (w_env w)). Qed.

Lemma looks_Sleep d : looks (Sleep d).
Proof. done. Qed.

Lemma looks_fetch port : looks (fetchRaftStatus port).
Proof. intros w. unfold fetchRaftStatus. by destruct (host_get _ _). Qed.

Lemma looks_isPaused id : looks (isPaused id).
Proof. done. Qed.

Lemma looks_allNodes : looks allNodes.
Proof. done. Qed.

Lemma wp_looks {A} (m : M E A) Q w : looks m -> (forall a w', same w w' -> Q a w') -> wp m Q w.
Proof. intros Hm HQ. apply HQ, Hm. Qed.
End wp.

Create HintDb looks.
#[export] Hint Resolve looks_ret looks_Now looks_Sleep looks_fetch looks_isPaused looks_allNodes : looks.
Ltac looks := repeat first [by auto with looks | apply looks_bind; [by auto with looks|intros ?] | case_match].

Section scenario_lemmas.
Context {E : Type} `{!Host E} (composeFile : string).

Lemma looks_poll {A S} fuel deadline interval (attempt : S -> M E (A + S)) :
  (forall s, looks (attempt s)) -> forall s, looks (poll fuel deadline interval attempt s).
Proof.
  intros Ha. induction fuel as [|fuel IH]; intros s; [looks|]. cbn [poll]. apply looks_bind; [looks|intros now].
  case_match; [|looks]. apply looks_bind; [done|intros [a|s']]; [looks|]. apply looks_bind; [looks|done].
Qed.

Lemma looks_poll_for {A S} timeout interval (attempt : S -> M E (A + S)) s :
  (forall s, looks (attempt s)) -> looks (poll_for timeout interval attempt s).
Proof. intros Ha. apply looks_bind; [looks|intros now]. by apply looks_poll. Qed.

Lemma looks_logf logs msg : looks (logf (E := E) logs msg).
Proof. looks. Qed.

Lemma looks_findLeader except l : looks (findLeader (E := E) except l).
Proof.
  induction l as [|n l IH]; [looks|]. simpl. apply looks_bind; [looks|intros p]. case_match; [done|].
  apply looks_bind; [looks|intros [st|]]; [|done]. case_match; [looks|done].
Qed.

Lemma looks_waitNewLeader all old timeout interval : looks (waitNewLeader (E := E) all old timeout interval).
Proof.
  apply looks_bind; [|looks]. apply looks_poll_for. intros []. apply looks_bind; [apply looks_findLeader|looks].
Qed.

Lemma looks_countOnline l : forall f k, looks (countOnline (E := E) l f k).
Proof.
  induction l as [|n l IH]; intros f k; [looks|]. simpl. apply looks_bind; [looks|intros p]. case_match; [done|].
  apply looks_bind; [looks|intros [st|]]; apply IH.
Qed.

Lemma looks_onlineNodes l : looks (onlineNodes (E := E) l).
Proof.
  induction l as [|n l IH]; [looks|]. simpl. apply looks_bind; [looks|intros p]. case_match; [done|].
  apply looks_bind; [looks|intros st]. apply looks_bind; [done|looks].
Qed.

Lemma looks_sinceMs start : looks (E := E) (sinceMs start).
Proof. unfold sinceMs. looks. Qed.

Lemma looks_fail name start logs msg : looks (fail (E := E) name start logs msg).
Proof. apply looks_bind; [apply looks_sinceMs|looks]. Qed.

Lemma looks_pass name start logs : looks (pass (E := E) name start logs).
Proof. apply looks_bind; [apply looks_sinceMs|looks]. Qed.

(** Pausing and resuming a node. *)
Lemma wp_pause n w :
  wp (pauseNode composeFile n) (λ err w', w_nodes w' = w_nodes w /\
    match err with
    | Some _ => same w w'
    | None => w_paused w' = {[nd_ID n]} ∪ w_paused w /\ held w' = {[container n]} ∪ held w
    end) w.
Proof.
  unfold wp, pauseNode, setContainerPaused, compose, docker, held, container, same, mbind, ST_bind, mret, ST_ret.
  destruct (nd_Dynamic n); destruct (host_docker _ _) as [e [out [err|]]]; simpl;
    unfold held; simpl; rewrite ?foldl_app, ?(bool_decide_eq_true_2 (None = None)), ?(bool_decide_eq_false_2 (Some _ = None)) by done; done.
Qed.

Lemma wp_unpause n w :
  wp (unpauseNode composeFile n) (λ err w', w_nodes w' = w_nodes w /\ held w' = held w ∖ {[container n]} /\
    w_paused w' = match err with Some _ => w_paused w | None => w_paused w ∖ {[nd_ID n]} end) w.
Proof.
  unfold wp, unpauseNode, setContainerPaused, compose, docker, held, container, mbind, ST_bind, mret, ST_ret.
  destruct (nd_Dynamic n); destruct (host_docker _ _) as [e [out [err|]]]; simpl;
    unfold held; simpl; rewrite ?foldl_app, ?(bool_decide_eq_true_2 (None = None)), ?(bool_decide_eq_false_2 (Some _ = None)) by done; done.
Qed.
End scenario_lemmas.
#[export] Hint Resolve looks_logf looks_findLeader looks_waitNewLeader looks_countOnline looks_onlineNodes looks_fail looks_pass : looks.

(** ** The scenarios, step by step *)

Section runs.
Context {E : Type} `{!Host E} (composeFile : string).

#[local] Abbreviation pauseNode := (pauseNode composeFile).
#[local] Abbreviation unpauseNode := (unpauseNode composeFile).

(** The registry, the paused nodes and the held containers of a world. *)
Definition stands (N : list NodeDef) (P H : gset string) (w : World E) : Prop :=
  w_nodes w = N /\ w_paused w = P /\ held w = H.

Lemma stands_same N P H w w' : stands N P H w -> same w w' -> stands N P H w'.
Proof. unfold stands, same. intros (? & ? & ?) (? & ? & ?). split_and!; congruence. Qed.

Lemma wp_look {A B} (m : M E A) (f : A -> M E B) N P H Q w :
  looks m -> stands N P H w -> (forall a w', stands N P H w' -> wp (f a) Q w') -> wp (m ≫= f) Q w.
Proof.
  intros Hm Hw HQ. apply wp_bind, wp_looks; [done|]. intros a w' Hs. apply HQ. by eapply stands_same.
Qed.

(** The same, when what was seen matters. *)
Lemma wp_see {A B} (R : gset string -> A -> Prop) (m : M E A) (f : A -> M E B) N P H Q w :
  wp m (λ a w', same w w' /\ R (w_paused w) a) w -> stands N P H w ->
  (forall a w', R P a -> stands N P H w' -> wp (f a) Q w') -> wp (m ≫= f) Q w.
Proof.
  intros Hm Hw HQ. apply wp_bind. eapply wp_mono; [exact Hm|]. intros a w' [Hs HR]. apply HQ.
  - by destruct Hw as (_ & <- & _).
  - by eapply stands_same.
Qed.

Lemma wp_pausing {B} n (f : option string -> M E B) N P H Q w :
  stands N P H w -> (forall err w', stands N P H w' -> wp (f (Some err)) Q w') ->
  (forall w', stands N ({[nd_ID n]} ∪ P) ({[container n]} ∪ H) w' -> wp (f None) Q w') ->
  wp (pauseNode n ≫= f) Q w.
Proof.
  intros Hw HS HN. apply wp_bind. eapply wp_mono; [apply wp_pause|]. intros [err|] w' [Hn Hw'].
  - apply HS. by eapply stands_same.
  - apply HN. destruct Hw as (<- & <- & <-), Hw' as [Hp Hh]. by split_and!.
Qed.

Lemma wp_resuming {B} n (f : option string -> M E B) N P H Q w :
  stands N P H w -> (forall err w', stands N P (H ∖ {[container n]}) w' -> wp (f (Some err)) Q w') ->
  (forall w', stands N (P ∖ {[nd_ID n]}) (H ∖ {[container n]}) w' -> wp (f None) Q w') ->
  wp (unpauseNode n ≫= f) Q w.
Proof.
  intros (<- & <- & <-) HS HN. apply wp_bind. eapply wp_mono; [apply wp_unpause|].
  intros [err|] w' (Hn & Hh & Hp); [apply HS|apply HN]; by split_and!.
Qed.

(** What a scenario promises of its final world, when the nodes [P] were paused
    and the containers [H] held at its start. *)
Definition resumed (N : list NodeDef) (P H : gset string) (passed : bool) (w' : World E) : Prop :=
  w_nodes w' = N /\ held w' ⊆ H /\ (passed = true -> w_paused w' = P).

Lemma resumed_stands N P H P' H' passed w' :
  stands N P' H' w' -> H' ⊆ H -> (passed = true -> P' = P) -> resumed N P H passed w'.
Proof. intros (<- & <- & <-) ??. by split_and!. Qed.

Lemma wp_fails N P H Q name start logs msg w :
  stands N P H w -> (forall r w', ls_Passed r = false -> stands N P H w' -> Q r w') ->
  wp (fail (E := E) name start logs msg) Q w.
Proof.
  intros Hw HQ. eapply wp_look; [apply looks_sinceMs|done|]. intros d w' Hw'. by apply wp_ret, HQ.
Qed.

Lemma wp_passes N P H Q name start logs w :
  stands N P H w -> (forall r w', stands N P H w' -> Q r w') -> wp (pass (E := E) name start logs) Q w.
Proof.
  intros Hw HQ. eapply wp_look; [apply looks_sinceMs|done|]. intros d w' Hw'. by apply wp_ret, HQ.
Qed.

(** The node a search returns was not paused. *)
Lemma wp_findLeader except l w :
  wp (findLeader except l) (λ r w', same w w' /\ (forall n t, r = Some (n, t) -> nd_ID n ∉ w_paused w)) w.
Proof.
  revert w. induction l as [|n l IH]; intros w; [by apply wp_ret|]. simpl.
  apply wp_bind. unfold wp at 1. simpl. case_match eqn:Hc; [apply IH|].
  apply orb_false_iff in Hc as [_ Hp%bool_decide_eq_false].
  apply wp_bind, wp_looks; [looks|]. intros st w' Hs.
  assert (Hrest : wp (findLeader except l) (λ r w', same w w' /\ (forall n t, r = Some (n, t) -> nd_ID n ∉ w_paused w)) w').
  { eapply wp_mono; [apply IH|]. intros r w'' [Hs' Hr]. split; [by etransitivity|]. intros n' t Hr'.
    destruct Hs as (_ & <- & _). by eapply Hr. }
  destruct st as [st|]; [|done]. case_match; [|done]. apply wp_ret. split; [done|]. by intros n' t [= <- <-].
Qed.

Lemma wp_findLeaderRetry l w :
  wp (findLeaderRetry l) (λ r w', same w w' /\ (forall n t, r = Some (n, t) -> nd_ID n ∉ w_paused w)) w.
Proof.
  apply wp_bind. eapply wp_mono; [apply wp_findLeader|]. intros [p|] w1 [Hs Hr]; [by apply wp_ret|].
  apply wp_bind, wp_looks; [looks|]. intros _ w2 Hs2. eapply wp_mono; [apply wp_findLeader|]. intros r w3 [Hs3 Hr3].
  assert (H12 : same w w2) by (by etransitivity). destruct (H12) as (_ & <- & _). split; [by etransitivity|done].
Qed.

Lemma wp_countOnline l : forall f k w,
  (forall n, f = Some n -> nd_ID n ∉ w_paused w) ->
  wp (countOnline l f k) (λ r w', same w w' /\ (forall n, r.1 = Some n -> nd_ID n ∉ w_paused w)) w.
Proof.
  induction l as [|n l IH]; intros f k w Hf; [by apply wp_ret|]. simpl.
  apply wp_bind. unfold wp at 1. simpl. case_bool_decide as Hp; [by apply IH|].
  apply wp_bind, wp_looks; [looks|]. intros st w' Hs.
  assert (Hrest : forall f' k', (forall n, f' = Some n -> nd_ID n ∉ w_paused w) ->
    wp (countOnline l f' k') (λ r w', same w w' /\ (forall n, r.1 = Some n -> nd_ID n ∉ w_paused w)) w').
  { intros f' k' Hf'. destruct Hs as (S1 & S2 & S3). eapply wp_mono; [apply IH; by rewrite S2|].
    intros r w'' [Hs' Hr]. rewrite S2 in Hr. split; [|done]. etransitivity; [|exact Hs']. done. }
  destruct st as [st|]; [|by apply Hrest]. apply Hrest. intros n'. destruct f as [f0|]; [by apply Hf|].
  case_match; [|done]. by intros [= <-].
Qed.

Lemma wp_onlineNodes l : forall w,
  wp (onlineNodes l) (λ r w', same w w' /\ Forall (λ n, nd_ID n ∉ w_paused w) r) w.
Proof.
  induction l as [|n l IH]; intros w; [apply wp_ret; split; [done|constructor]|]. simpl.
  apply wp_bind. unfold wp at 1. simpl. case_bool_decide as Hp; [apply IH|].
  apply wp_bind, wp_looks; [looks|]. intros st w' Hs. apply wp_bind. eapply wp_mono; [apply IH|].
  intros rest w'' [Hs' Hr]. apply wp_ret. split; [by etransitivity|].
  destruct Hs as (_ & S2 & _). rewrite S2 in Hr. destruct st; [by constructor|done].
Qed.
End runs.

(** One step of a scenario that only looks, pauses or resumes. *)
Ltac look := eapply wp_look; [solve [auto with looks]|eassumption|]; intros ? ? ?.
Ltac fails := eapply wp_fails; [eassumption|]; intros ? ? ? ?; eapply resumed_stands; [eassumption|set_solver|congruence].

Ltac stands := match goal with Hs : stands _ _ _ ?w |- _ ?w = _ => apply Hs | Hs : stands _ _ _ ?w |- held ?w ⊆ _ => destruct Hs as (_ & _ & ->); set_solver end.

Section theorems.
Context {E : Type} `{!Host E} (composeFile : string).

(** Whatever happens after a pause, the run resumes the container. *)
Lemma wp_isolate N P H w :
  stands N P H w -> wp (runScenarioIsolateLeader composeFile) (λ r, resumed N P H (ls_Passed r)) w.
Proof.
  intros Hw. unfold runScenarioIsolateLeader. look. look.
  eapply (wp_see (λ P r, forall n t, r = Some (n, t) -> nd_ID n ∉ P)); [apply wp_findLeader|eassumption|]. intros [[n t]|] w1 Hn Hw1; [|fails].
  specialize (Hn n t eq_refl).
  look. eapply wp_pausing; [eassumption|intros; fails|]. intros w2 Hw2. look. look.
  case_match; [|eapply wp_resuming; [eassumption|intros; fails..]]. case_match. look. look. look.
  eapply wp_resuming; [eassumption|intros; fails|]. intros w3 Hw3. look. look. look.
  eapply wp_passes; [eassumption|]. intros. eapply resumed_stands; [eassumption|set_solver|set_solver].
Qed.

Lemma wp_lose N P H w :
  stands N P H w -> wp (runScenarioLoseFollower composeFile) (λ r, resumed N P H (ls_Passed r)) w.
Proof.
  intros Hw. unfold runScenarioLoseFollower. look. look.
  eapply (wp_see (λ P r, forall n, r.1 = Some n -> nd_ID n ∉ P)); [by apply wp_countOnline|eassumption|]. intros [[n|] k] w1 Hn Hw1; [|fails]. simpl in *.
  specialize (Hn n eq_refl).
  case_match; [fails|]. look. eapply wp_pausing; [eassumption|intros; fails|]. intros w2 Hw2. look. look. look. look.
  case_match; [|eapply wp_resuming; [eassumption|intros; fails..]]. case_match. look.
  eapply wp_resuming; [eassumption|intros; fails|]. intros w3 Hw3. look. look. look.
  eapply wp_passes; [eassumption|]. intros. eapply resumed_stands; [eassumption|set_solver|set_solver].
Qed.

Lemma wp_churnRound all round rounds logs N P H w :
  stands N P H w -> wp (churnRound composeFile all round rounds logs) (λ r, resumed N P H (bool_decide (r.1 = None))) w.
Proof.
  intros Hw. unfold churnRound. look.
  assert (Hret : forall msg logs w', w_nodes w' = N -> held w' ⊆ H ->
    wp (E := E) (mret (Some msg, logs)) (λ r : option string * list logLine, resumed N P H (bool_decide (r.1 = None))) w')
    by (intros; by apply wp_ret).
  eapply (wp_see (λ P r, forall n t, r = Some (n, t) -> nd_ID n ∉ P)); [apply wp_findLeaderRetry|eassumption|].
  intros [[n t]|] w1 Hn Hw1; [|apply Hret; stands].
  specialize (Hn n t eq_refl). look.
  eapply wp_pausing; [eassumption|intros; apply Hret; stands|]. intros w2 Hw2. look. look.
  case_match; [|eapply wp_resuming; [eassumption|intros; apply Hret; stands..]]. case_match. look. look.
  eapply wp_resuming; [eassumption|intros; apply Hret; stands|]. intros w3 Hw3. look. look.
  apply wp_ret. eapply resumed_stands; [eassumption|set_solver|set_solver].
Qed.

Lemma wp_churnRounds all todo rounds N P : forall H round logs w,
  stands N P H w ->
  wp (churnRounds composeFile all todo round rounds logs) (λ r, resumed N P H (bool_decide (r.1 = None))) w.
Proof.
  induction todo as [|todo IH]; intros H round logs w Hw; simpl.
  { apply wp_ret. by eapply resumed_stands. }
  apply wp_bind. eapply wp_mono; [by apply wp_churnRound|].
  intros [[msg|] logs'] w' (Hn & Hh & Hp); [by apply wp_ret|]. specialize (Hp eq_refl).
  eapply wp_mono; [by apply (IH (held w'))|]. intros r w'' (Hn' & Hh' & Hp'). split_and!; [done|set_solver|done].
Qed.

Lemma wp_churn N P H w :
  stands N P H w -> wp (runScenarioLeaderChurn composeFile) (λ r, resumed N P H (ls_Passed r)) w.
Proof.
  intros Hw. unfold runScenarioLeaderChurn. look. look. apply wp_bind.
  eapply wp_mono; [by eapply wp_churnRounds|]. intros [[msg|] logs] w1 (Hn & Hh & Hp).
  - eapply wp_fails; [by split_and!|]. intros ? ? ? ?. eapply resumed_stands; [eassumption|done|congruence].
  - specialize (Hp eq_refl). assert (stands N P (held w1) w1) by done. look.
    eapply wp_passes; [eassumption|]. intros. by eapply resumed_stands.
Qed.

(** *** Quorum loss: many nodes at once. *)

#[local] Abbreviation containers l := (list_to_set (C := gset string) (container <$> l)).

Lemma wp_unpauseAll N H l : forall w,
  w_nodes w = N -> held w ⊆ H ∪ containers l -> wp (unpauseAll composeFile l) (λ _ w', w_nodes w' = N /\ held w' ⊆ H) w.
Proof.
  induction l as [|n l IH]; intros w Hn Hh; [apply wp_ret; set_solver|]. apply wp_bind.
  eapply wp_mono; [apply wp_unpause|]. intros _ w' (Hn' & Hh' & _). apply IH; [congruence|]. rewrite Hh'.
  rewrite fmap_cons in Hh. set_solver.
Qed.

Lemma wp_restoreAll N H l : forall logs w,
  w_nodes w = N -> held w ⊆ H ∪ containers l -> wp (restoreAll composeFile l logs) (λ _ w', w_nodes w' = N /\ held w' ⊆ H) w.
Proof.
  induction l as [|n l IH]; intros logs w Hn Hh; [apply wp_ret; set_solver|]. apply wp_bind.
  eapply wp_mono; [apply wp_unpause|]. intros err w' (Hn' & Hh' & _). apply wp_bind, wp_looks; [looks|].
  intros logs' w'' (S1 & _ & S3). apply IH; [congruence|]. rewrite S3, Hh'. rewrite fmap_cons in Hh. set_solver.
Qed.

(** After the loop, the containers held are those of the nodes it returns; after
    an error, none. *)
Lemma wp_pauseAll N H toPause l : forall paused i logs w,
  w_nodes w = N -> held w ⊆ H ∪ containers paused ->
  wp (pauseAll composeFile l paused i toPause logs) (λ r w', w_nodes w' = N /\
    match r.1 with inl paused => held w' ⊆ H ∪ containers paused | inr _ => held w' ⊆ H end) w.
Proof.
  induction l as [|n l IH]; intros paused i logs w Hn Hh; [by apply wp_ret|]. apply wp_bind.
  eapply wp_mono; [apply wp_pause|]. intros [err|] w' [Hn' Hw'].
  - destruct Hw' as (S1 & _ & S3). apply wp_bind. eapply wp_mono; [apply (wp_unpauseAll N H); [congruence|by rewrite S3]|]. done.
  - destruct Hw' as [_ Hh']. apply wp_bind, wp_looks; [looks|]. intros logs' w'' (S1 & _ & S3).
    apply IH; [congruence|]. rewrite S3, Hh', fmap_app. set_solver.
Qed.

Lemma wp_quorum N P H w :
  stands N P H w -> wp (runScenarioQuorumLoss composeFile) (λ _ w', w_nodes w' = N /\ held w' ⊆ H) w.
Proof.
  intros Hw. unfold runScenarioQuorumLoss. look. look. look.
  case_match; [eapply wp_fails; [eassumption|]; intros ? ? _ (? & ? & ->); done|]. look.
  match goal with Hs : stands N P H ?w |- wp _ _ ?w => destruct Hs as (? & ? & Hheld) end.
  apply wp_bind. eapply wp_mono; [apply (wp_pauseAll N H); [done|rewrite Hheld; set_solver]|].
  intros [[paused|msg] logs] w1 [Hn Hh]; simpl in Hh.
  - assert (Hw1 : stands N (w_paused w1) (held w1) w1) by done. look. look. look.
    match goal with Hs : stands N _ (held w1) ?w |- wp _ _ ?w => destruct Hs as (? & ? & Hh2) end.
    apply wp_bind. eapply wp_mono; [apply (wp_restoreAll N H paused); [done|by rewrite Hh2]|].
    intros ? w3 [Hn3 Hh3]. assert (Hw3 : stands N (w_paused w3) (held w3) w3) by done. look. look.
    eapply wp_passes; [eassumption|]. intros ? ? (? & ? & ->). done.
  - eapply wp_fails; [by split_and!|]. intros ? ? _ (? & ? & ->). done.
Qed.

(** The scenarios of the [switch], all at once. *)
Lemma scenario_resumes id m (w : World E) :
  scenario_of composeFile id = Some m ->
  wp m (λ r w', w_nodes w' = w_nodes w /\ held w' ⊆ held w /\
    (id <> "quorum_loss" -> ls_Passed r = true -> w_paused w' = w_paused w)) w.
Proof.
  assert (Hst : stands (w_nodes w) (w_paused w) (held w) w) by done. unfold scenario_of.
  assert (Hex : forall m : M E LiveScenarioResult,
    wp m (λ r, resumed (w_nodes w) (w_paused w) (held w) (ls_Passed r)) w ->
    wp m (λ r w', w_nodes w' = w_nodes w /\ held w' ⊆ held w /\
      (id <> "quorum_loss" -> ls_Passed r = true -> w_paused w' = w_paused w)) w).
  { intros m' Hm. eapply wp_mono; [exact Hm|]. intros r w' (? & ? & ?). by split_and!. }
  case_match; [intros [= <-]; by apply Hex, wp_isolate|]. case_match; [intros [= <-]; by apply Hex, wp_lose|].
  case_match eqn:Hq; [|case_match; [intros [= <-]; by apply Hex, wp_churn|done]].
  intros [= <-]. apply String.eqb_eq in Hq. eapply wp_mono; [by eapply wp_quorum|]. intros r w' []. by split_and!.
Qed.

(** C35. Every live scenario undoes its faults, whatever the machine answers: the
    registry is unchanged, each container that was successfully paused during
    the run has been asked to resume before the run returns, and, except for
    quorum loss, a run that reports success leaves exactly the nodes paused that
    were paused before it. *)
Theorem live_scenarios_resume id m (w : World E) :
  scenario_of composeFile id = Some m ->
  let '(w', r) := m w in
  w_nodes w' = w_nodes w /\ held w' ⊆ held w /\
  (id <> "quorum_loss" -> ls_Passed r = true -> w_paused w' = w_paused w).
Proof. intros Hm. apply (scenario_resumes id m w) in Hm. unfold wp in Hm. by destruct (m w). Qed.
End theorems.

(** On the simulated cluster of five nodes the leader is isolated and restored. *)
Lemma live_scenarios_resume_witness :
  ls_Passed (runScenarioIsolateLeader "infra/docker-compose.yml" exWorld).2 = true /\
  let '(w', r) := runScenarioIsolateLeader "infra/docker-compose.yml" exWorld in
  w_nodes w' = w_nodes exWorld /\ held w' ⊆ held exWorld /\
  ("isolate_leader"%string <> "quorum_loss"%string -> ls_Passed r = true -> w_paused w' = w_paused exWorld).
Proof.
  split; [vm_compute; reflexivity|].
  apply (live_scenarios_resume "infra/docker-compose.yml" "isolate_leader"
    (runScenarioIsolateLeader "infra/docker-compose.yml") exWorld). reflexivity.
Defined.

(** The same machine, on which node1 cannot be resumed. *)
Definition stuckWorld : World Sim :=
  newWorld (mkSim 0 (sim_nodes exSim) (sim_up exSim) ∅ {["node1"%string]}).

(** Quorum loss reports success with a node still paused: the loop that restores
    the nodes only logs a failure.  The other scenarios report it. *)
Theorem quorum_loss_passes_paused :
  let lost := runScenarioQuorumLoss "infra/docker-compose.yml" stuckWorld in
  let isolated := runScenarioIsolateLeader "infra/docker-compose.yml" stuckWorld in
  (ls_Passed lost.2 = true /\ w_paused lost.1 = {["node1"%string]} /\ sim_paused (w_env lost.1) = {["node1"%string]}) /\
  (ls_Passed isolated.2 = false /\ w_paused isolated.1 = {["node1"%string]}).
Proof. repeat split; vm_compute; reflexivity. Qed.
