(* ===== verification/SidecarServer.v ===== *)
(** * The HTTP server of the sidecar (cmd/sidecar/main.go)

    The handlers and their routes; what an operation leaves alone ([kept]); the
    registry keeps its shape whatever is requested.  More of what the sidecar
    promises is in SidecarSafety.v. *)

From Stdlib Require Import Strings.Ascii.
From stdpp Require Import pretty.
From S2P Require Import Prelude Loops Node Server Sidecar Polling LiveScenarios.

(** ** Requests and responses *)

(** The text of an error; the verb [%q] keeps its argument. *)
Inductive sidecar_message :=
  | MText (s : string)
  | MAlreadyRunning (id : string).

Inductive sidecar_response :=
  | SError (msg : sidecar_message) (code : Z)
  | SNodes (l : list NodeInfo)
  | SOk (id : string)
  | SScenarios (l : list LiveScenarioMeta)
  | SResult (r : LiveScenarioResult)
  | SNoContent
  | SNotFound.

(** The body of [POST /nodes/create]. *)
Record createRequest := mkCreateRequest { cr_ID : string; cr_HTTPPort : Z; cr_RPCPort : Z }.

Definition methodNotAllowed : sidecar_response := SError (MText "method not allowed") 405.

Definition sidecar_corsHeaders : list (string * string) :=
  [("Access-Control-Allow-Origin", "*");
   ("Access-Control-Allow-Methods", "GET, POST, OPTIONS");
   ("Access-Control-Allow-Headers", "Content-Type")].

Section server.
Context {E : Type} `{!Host E} (composeFile : string).
(** [r.URL.Path], by net/url, and the JSON decoder for the body of a creation. *)
Context (url_Path : string -> string) (json_create : string -> option createRequest).

(** ** GET /nodes *)

Abbreviation statuses := (gmap Z (option raftStatus)).

(** One goroutine of [handleNodes]: what it sends. *)
Definition nodeStatus (nd : NodeDef) : M E (Z * option raftStatus) :=
  p ← isPaused (nd_ID nd);
  if (p : bool) then mret (nd_HTTPPort nd, None)
  else st ← fetchRaftStatus (nd_HTTPPort nd); mret (nd_HTTPPort nd, st).

(** The goroutines run in the order of their sends. *)
Fixpoint collect (order : list NodeDef) (statusByPort : statuses) : M E statuses :=
  match order with
  | [] => mret statusByPort
  | nd :: order => r ← nodeStatus nd; collect order (<[r.1 := r.2]> statusByPort)
  end.

(** A read of the map: a port without an entry has no status. *)
Definition statusOf (statusByPort : statuses) (n : NodeDef) : option raftStatus :=
  default None (statusByPort !! nd_HTTPPort n).

Definition saysLeader (st : option raftStatus) : bool :=
  match st with Some st => String.eqb (rs_State st) "leader" | None => false end.

(** The first node that says it leads, and its peers. *)
Fixpoint leaderPeers (statusByPort : statuses) (all : list NodeDef) : option (gset string) :=
  match all with
  | [] => None
  | n :: all =>
      match statusOf statusByPort n with
      | Some st => if String.eqb (rs_State st) "leader" then Some ({[nd_RPCAddr n]} ∪ list_to_set (rs_Peers st))
                   else leaderPeers statusByPort all
      | None => leaderPeers statusByPort all
      end
  end.

(** The union of all peer lists. *)
Definition fallbackPeers (statusByPort : statuses) : gset string :=
  list_to_set (map_to_list statusByPort ≫= λ p, match p.2 with Some st => rs_Peers st | None => [] end).

Definition nodeInfo (members : gset string) (paused : bool) (st : option raftStatus) (n : NodeDef) : NodeInfo :=
  let running := bool_decide (st <> None) || paused in
  let inCluster := bool_decide (nd_RPCAddr n ∈ members) || paused in
  let inCluster := if saysLeader st then true else inCluster in
  match st with
  | Some st =>
      mkNodeInfo n running inCluster paused (rs_State st) (rs_Term st) (rs_Leader st) (rs_Peers st)
        (rs_CommitIndex st) (rs_LastApplied st) (rs_HeartbeatsSent st) (rs_HeartbeatsReceived st) (rs_SnapshotIndex st)
  | None => mkNodeInfo n running inCluster paused (if paused then "paused" else "") 0 "" [] 0 0 0 0 0
  end.

Fixpoint nodeInfos (members : gset string) (statusByPort : statuses) (l : list NodeDef) : M E (list NodeInfo) :=
  match l with
  | [] => mret []
  | n :: l =>
      paused ← isPaused (nd_ID n);
      infos ← nodeInfos members statusByPort l;
      mret (nodeInfo members paused (statusOf statusByPort n) n :: infos)
  end.

(** [order] is the order in which the goroutines send. *)
Definition handleNodes (order : list NodeDef -> list NodeDef) (r : http_request) : M E sidecar_response :=
  if negb (String.eqb (rq_Method r) "GET") then mret methodNotAllowed
  else
    all ← allNodes;
    statusByPort ← collect (order all) ∅;
    let members := match leaderPeers statusByPort all with Some s => s | None => fallbackPeers statusByPort end in
    infos ← nodeInfos members statusByPort all;
    mret (SNodes infos).

(** ** POST /nodes/create *)

Definition answered (id : string) (err : option string) : sidecar_response :=
  match err with Some err => SError (MText err) 500 | None => SOk id end.

(** The part of the handler for a new dynamic node. *)
Definition createNew (req : createRequest) : M E sidecar_response :=
  if cr_HTTPPort req =? 0 then mret (SError (MText "http_port is required for new nodes") 400)
  else
    let rpcPort := if cr_RPCPort req =? 0 then i64 (cr_HTTPPort req + 100) else cr_RPCPort req in
    err ← createDynamicNode composeFile (cr_ID req) (cr_HTTPPort req) rpcPort;
    mret (answered (cr_ID req) err).

Definition handleCreateNode (r : http_request) : M E sidecar_response :=
  if negb (String.eqb (rq_Method r) "POST") then mret methodNotAllowed
  else
    let bad := SError (MText ("body must be JSON with at least {" +:+ quote +:+ "id" +:+ quote +:+ ":" +:+
                 quote +:+ "..." +:+ quote +:+ "}")%string) 400 in
    match json_create (rq_Body r) with
    | None => mret bad
    | Some req =>
        if String.eqb (cr_ID req) "" then mret bad
        else
          found ← findNode (cr_ID req);
          match found with
          | None => createNew req
          | Some existing =>
              st ← fetchRaftStatus (nd_HTTPPort existing);
              match st with
              | Some _ => mret (SError (MAlreadyRunning (cr_ID req)) 409)
              | None =>
                  if negb (nd_Dynamic existing) then
                    err ← startPresetNode composeFile existing;
                    mret (answered (cr_ID req) err)
                  else removeDynamicNode (cr_ID req) ;; createNew req
              end
          end
    end.

(** ** POST /nodes/{id}/{action} *)

Definition nodeAction (action : string) (node : NodeDef) : option (M E (option string)) :=
  if String.eqb action "stop" then Some (stopNode composeFile node)
  else if String.eqb action "pause" then Some (pauseNode composeFile node)
  else if String.eqb action "unpause" then Some (unpauseNode composeFile node)
  else if String.eqb action "restart" then Some (restartNode composeFile node)
  else None.

Definition handleNodeAction (r : http_request) : M E sidecar_response :=
  if negb (String.eqb (rq_Method r) "POST") then mret methodNotAllowed
  else
    match Split slash (TrimPrefix (url_Path (rq_URI r)) "/nodes/") with
    | [nodeID; action] =>
        found ← findNode nodeID;
        match found with
        | None => mret (SError (MText ("unknown node: " +:+ nodeID)%string) 404)
        | Some node =>
            match nodeAction action node with
            | None => mret (SError (MText "action must be stop, pause, unpause, or restart") 400)
            | Some act => err ← act; mret (answered nodeID err)
            end
        end
    | _ => mret (SError (MText "path must be /nodes/{id}/stop|pause|unpause") 400)
    end.

(** ** Live scenarios *)

Definition handleListLiveScenarios (r : http_request) : M E sidecar_response :=
  if negb (String.eqb (rq_Method r) "GET") then mret methodNotAllowed else mret (SScenarios liveScenarioList).

Definition handleRunLiveScenario (r : http_request) : M E sidecar_response :=
  if negb (String.eqb (rq_Method r) "POST") then mret methodNotAllowed
  else
    let id := TrimPrefix (url_Path (rq_URI r)) "/live-scenarios/" in
    if String.eqb id "" then mret (SError (MText "missing scenario id") 400)
    else
      match scenario_of composeFile id with
      | None => mret (SError (MText ("unknown scenario: " +:+ id)%string) 404)
      | Some run => result ← run; mret (SResult result)
      end.

(** ** Routes *)

(** [http.ServeMux] on the patterns of [main], for a path without empty, [.] and
    [..] segments: an exact pattern first, then the longest prefix. *)
Definition sidecar_mux (order : list NodeDef -> list NodeDef) (r : http_request) : M E sidecar_response :=
  let path := url_Path (rq_URI r) in
  if String.eqb path "/nodes" then handleNodes order r
  else if String.eqb path "/nodes/create" then handleCreateNode r
  else if String.eqb path "/live-scenarios" then handleListLiveScenarios r
  else if String.prefix "/nodes/" path then handleNodeAction r
  else if String.prefix "/live-scenarios/" path then handleRunLiveScenario r
  else mret SNotFound.

Definition sidecar_corsMiddleware (next : http_request -> M E sidecar_response) (r : http_request)
  : M E (list (string * string) * sidecar_response) :=
  if String.eqb (rq_Method r) "OPTIONS" then mret (sidecar_corsHeaders, SNoContent)
  else resp ← next r; mret (sidecar_corsHeaders, resp).

Definition sidecar_serve (order : list NodeDef -> list NodeDef) : http_request -> M E (list (string * string) * sidecar_response) :=
  sidecar_corsMiddleware (sidecar_mux order).
End server.

(** ** The registry *)

(** A node made by [createDynamicNode]. *)
Definition dynamic_ok (n : NodeDef) : Prop :=
  nd_Dynamic n = true /\ nd_Bootstrap n = false /\ nd_RPCAddr n = (nd_ID n +:+ ":7001")%string /\
  nd_ID n <> "" /\ nd_HTTPPort n <> 0.

(** The preset nodes, then dynamic ones; no identifier twice. *)
Definition registry_ok (N : list NodeDef) : Prop :=
  take 5 N = presetNodes /\ Forall dynamic_ok (drop 5 N) /\ NoDup (nd_ID <$> N).

#[export] Instance NodeDef_eq_dec : EqDecision NodeDef.
Proof. solve_decision. Defined.

#[export] Instance dynamic_ok_dec n : Decision (dynamic_ok n).
Proof. unfold dynamic_ok. apply _. Defined.

#[export] Instance registry_ok_dec N : Decision (registry_ok N).
Proof. unfold registry_ok. apply _. Defined.

Lemma registry_split N : registry_ok N <-> exists dyn, N = presetNodes ++ dyn /\ Forall dynamic_ok dyn /\ NoDup (nd_ID <$> N).
Proof.
  split.
  - intros (Ht & Hd & Hn). exists (drop 5 N). rewrite <- Ht, take_drop. done.
  - intros (dyn & -> & Hd & Hn). split_and!; [done|exact Hd|done].
Qed.

Lemma removeFirst_notin id l : (forall n, n ∈ l -> nd_Dynamic n = true -> nd_ID n <> id) -> removeFirst id l = l.
Proof.
  induction l as [|n l IH]; intros Hl; [done|]. simpl. destruct (String.eqb_spec (nd_ID n) id) as [E|].
  - destruct (nd_Dynamic n) eqn:Hd; [exfalso; eapply Hl; [left|done|done]|]. simpl. f_equal. apply IH. set_solver.
  - simpl. f_equal. apply IH. set_solver.
Qed.

Lemma removeFirst_app id l1 l2 :
  (forall n, n ∈ l1 -> nd_Dynamic n = false) -> removeFirst id (l1 ++ l2) = l1 ++ removeFirst id l2.
Proof.
  induction l1 as [|n l1 IH]; intros Hl; [done|]. simpl. rewrite (Hl n ltac:(left)), andb_false_r. f_equal. apply IH. set_solver.
Qed.

Lemma removeFirst_sublist id l : removeFirst id l `sublist_of` l.
Proof. induction l as [|n l IH]; [done|]. simpl. case_match; by constructor. Qed.

Lemma sublist_fmap {A B} (f : A -> B) l k : l `sublist_of` k -> f <$> l `sublist_of` f <$> k.
Proof. induction 1; by constructor. Qed.

(** Under one identifier there is one node. *)
Lemma removeFirst_gone n l :
  NoDup (nd_ID <$> l) -> n ∈ l -> nd_Dynamic n = true -> nd_ID n ∉ (nd_ID <$> removeFirst (nd_ID n) l).
Proof.
  induction l as [|m l IH]; intros Hn Hin Hd; [set_solver|]. rewrite fmap_cons in Hn. apply NoDup_cons in Hn as [Hm Hn].
  simpl. destruct (String.eqb_spec (nd_ID m) (nd_ID n)) as [E|E].
  - apply list_elem_of_In in Hin as [<-|Hin%list_elem_of_In]; [by rewrite Hd|].
    exfalso. apply Hm. rewrite E. by apply list_elem_of_fmap_2.
  - apply list_elem_of_In in Hin as [->|Hin%list_elem_of_In]; [done|]. simpl. apply not_elem_of_cons. split; [done|].
    by apply IH.
Qed.

Lemma registry_remove id N : registry_ok N -> registry_ok (removeFirst id N).
Proof.
  rewrite !registry_split. intros (dyn & -> & Hd & Hn). exists (removeFirst id dyn).
  rewrite removeFirst_app by (intros n Hin; revert n Hin; apply Forall_forall; by repeat constructor).
  pose proof (removeFirst_sublist id dyn) as Hs. split_and!; [done| |].
  - apply Forall_forall. intros n Hin. rewrite Forall_forall in Hd. apply Hd. by eapply elem_of_sublist.
  - eapply sublist_NoDup; [exact Hn|]. by apply sublist_fmap, sublist_app.
Qed.

Lemma registry_add N id httpPort rpcPort :
  registry_ok N -> id ∉ (nd_ID <$> N) -> id <> "" -> httpPort <> 0 ->
  registry_ok (N ++ [mkNodeDef id (id +:+ ":7001") httpPort rpcPort false true]).
Proof.
  rewrite !registry_split. intros (dyn & -> & Hd & Hn) Hid Hne Hp.
  exists (dyn ++ [mkNodeDef id (id +:+ ":7001") httpPort rpcPort false true]). split_and!.
  - by rewrite <- app_assoc.
  - apply Forall_app. split; [done|]. by repeat constructor.
  - rewrite fmap_app. apply NoDup_app. split_and!; [done| |apply NoDup_singleton]. set_solver.
Qed.

(** ** What operations leave alone *)

(** A view [f] of the world that waiting and asking over HTTP do not change, nor
    a docker command in [ok]. *)
Class View {E X : Type} (f : World E -> X) (ok : list string -> bool) := {
  view_env : forall e w, f (set_env e w) = f w;
  view_post : forall url body b w, f (record_event (EvPost url body b) w) = f w;
  view_docker : forall args b w, ok args = true -> f (record_event (EvDocker args b) w) = f w;
  view_paused : forall id v w, f (setPaused id v w).1 = f w
}.

#[export] Instance view_nodes {E} : View (E := E) w_nodes (λ _, true).
Proof. by split. Qed.

Section kept.
Context {E X : Type} `{!Host E} (f : World E -> X) {ok : list string -> bool} `{HV : !View f ok}.

Definition kept {A} (m : M E A) : Prop := forall w, f (m w).1 = f w.

Lemma kept_bind {A B} (m : M E A) (g : A -> M E B) : kept m -> (forall a, kept (g a)) -> kept (m ≫= g).
Proof.
  intros Hm Hg w. unfold mbind, ST_bind. specialize (Hm w). destruct (m w) as [w1 a]. by rewrite Hg.
Qed.

Lemma kept_ret {A} (a : A) : kept (mret a).
Proof. done. Qed.

Lemma wp_kept {A} (m : M E A) Q w : kept m -> (forall a w', f w' = f w -> Q a w') -> wp m Q w.
Proof. intros Hm HQ. apply HQ, Hm. Qed.

Lemma kept_Now : kept Now.
Proof using HV. intros w. unfold Now, world_clock. destruct (host_Now _). apply view_env. Qed.

Lemma kept_Sleep d : kept (Sleep d).
Proof using HV. intros w. apply view_env. Qed.

Lemma kept_fetch port : kept (fetchRaftStatus port).
Proof using HV. intros w. unfold fetchRaftStatus. destruct (host_get _ _). apply view_env. Qed.

Lemma kept_docker args : ok args = true -> kept (docker args).
Proof using HV. intros Ha w. unfold docker. destruct (host_docker _ _). simpl. by rewrite view_docker, view_env. Qed.

Lemma kept_post url body : kept (http_Post url body).
Proof using HV. intros w. unfold http_Post. destruct (host_post _ _ _). simpl. by rewrite view_post, view_env. Qed.

Lemma kept_setPaused id v : kept (setPaused id v).
Proof using HV. intros w. apply view_paused. Qed.

Lemma kept_isPaused id : kept (isPaused id).
Proof. done. Qed.

Lemma kept_allNodes : kept allNodes.
Proof. done. Qed.

Lemma kept_findNode id : kept (findNode id).
Proof. done. Qed.

Lemma kept_poll_for {A S} timeout interval (attempt : S -> M E (A + S)) s :
  (forall s, kept (attempt s)) -> kept (poll_for timeout interval attempt s).
Proof using HV.
  intros Ha. apply kept_bind; [apply kept_Now|intros now]. generalize (poll_fuel timeout interval) as fuel. revert s.
  intros s fuel. revert s. induction fuel as [|fuel IH]; intros s; [done|]. cbn [poll].
  apply kept_bind; [apply kept_Now|intros now']. case_match; [|done].
  apply kept_bind; [done|intros [a|s']]; [done|]. apply kept_bind; [apply kept_Sleep|intros _; apply IH].
Qed.
End kept.

Create HintDb kept.
#[export] Hint Resolve kept_ret kept_Now kept_Sleep kept_fetch kept_post kept_setPaused kept_isPaused kept_allNodes
  kept_findNode : kept.
#[export] Hint Extern 1 (kept _ (docker _)) => (refine (kept_docker _ _ _); by auto) : kept.
Ltac kept :=
  repeat first [by eauto with kept typeclass_instances | refine (kept_poll_for _ _ _ _ _ _); intros ? | apply kept_bind; [|intros ?] | case_match].

Section operations.
Context {E X : Type} `{!Host E} (f : World E -> X) {ok : list string -> bool} `{HV : !View f ok} (composeFile : string).

Lemma kept_liveNodes exclude l : kept f (liveNodes exclude l).
Proof using HV. induction l as [|n l IH]; simpl; [kept|]. case_match; [done|]. kept. Qed.
#[local] Hint Resolve kept_liveNodes : kept.

Lemma kept_findOnline exclude : kept f (findOnlinePortExcluding exclude).
Proof using HV. unfold findOnlinePortExcluding. kept. Qed.
#[local] Hint Resolve kept_findOnline : kept.

Lemma kept_admin name port addr : kept f (raftAdmin name port addr).
Proof using HV. unfold raftAdmin. kept. Qed.
#[local] Hint Resolve kept_admin : kept.

Lemma kept_retry port addr timeout : kept f (retryAddNode port addr timeout).
Proof using HV. unfold retryAddNode, raftAddNode. kept. Qed.

Lemma kept_wait port timeout : kept f (waitForHTTP port timeout).
Proof using HV. unfold waitForHTTP. kept. Qed.
#[local] Hint Resolve kept_retry kept_wait : kept.

Context (Hcompose : forall args, ok ("compose" :: args)%string = true).
Context (Hverb : forall verb c, ok [verb; c] = true).
Context (Himage : forall img, ok ["image"; "inspect"; img]%string = true).

Lemma kept_compose args : kept f (compose composeFile args).
Proof using HV Hcompose. unfold compose. kept. Qed.
#[local] Hint Resolve kept_compose : kept.

Lemma kept_pause verb v n : kept f (setContainerPaused composeFile verb v n).
Proof using HV Hcompose Hverb. unfold setContainerPaused. kept. Qed.

(** The start of a preset node after the decision on its data. *)
Lemma kept_start n : (forall v, ok ["volume"; "rm"; v]%string = true) -> kept f (startPresetNode composeFile n).
Proof using HV Hcompose. intros Hv. unfold startPresetNode, clearNodeData. kept. Qed.

Lemma kept_image : kept f (getBuiltImage composeFile).
Proof using HV Hcompose Himage.
  assert (H1 : forall l, kept f (inspectImages composeFile l)) by (induction l; simpl; kept).
  assert (H2 : forall l, kept f (composeImages composeFile l)) by (induction l; simpl; kept).
  unfold getBuiltImage. kept.
Qed.

Lemma kept_collect l : forall m, kept f (collect l m).
Proof using HV. induction l as [|n l IH]; intros m; simpl; unfold nodeStatus; kept. Qed.

Lemma kept_infos members sts l : kept f (nodeInfos members sts l).
Proof using HV. induction l as [|n l IH]; simpl; kept. Qed.

(** The live scenarios. *)
#[local] Hint Resolve kept_pause : kept.

Lemma kept_logf logs msg : kept f (logf logs msg).
Proof using HV. unfold logf. kept. Qed.
#[local] Hint Resolve kept_logf : kept.

Lemma kept_fail name start logs msg : kept f (fail name start logs msg).
Proof using HV. unfold fail. kept. Qed.

Lemma kept_pass name start logs : kept f (pass name start logs).
Proof using HV. unfold pass. kept. Qed.
#[local] Hint Resolve kept_fail kept_pass : kept.

Lemma kept_findLeader except l : kept f (findLeader except l).
Proof using HV. induction l as [|n l IH]; simpl; kept. Qed.
#[local] Hint Resolve kept_findLeader : kept.

Lemma kept_waitNewLeader all old timeout interval : kept f (waitNewLeader all old timeout interval).
Proof using HV. unfold waitNewLeader. kept. Qed.
#[local] Hint Resolve kept_waitNewLeader : kept.

Lemma kept_countOnline l : forall follower online, kept f (countOnline l follower online).
Proof using HV. induction l as [|n l IH]; intros; simpl; kept. Qed.

Lemma kept_onlineNodes l : kept f (onlineNodes l).
Proof using HV. induction l as [|n l IH]; simpl; kept. Qed.
#[local] Hint Resolve kept_countOnline kept_onlineNodes : kept.

Lemma kept_unpauseAll l : kept f (unpauseAll composeFile l).
Proof using HV Hcompose Hverb. induction l as [|n l IH]; simpl; unfold unpauseNode in *; kept. Qed.
#[local] Hint Resolve kept_unpauseAll : kept.

Lemma kept_pauseAll l : forall paused i toPause logs, kept f (pauseAll composeFile l paused i toPause logs).
Proof using HV Hcompose Hverb. induction l as [|n l IH]; intros; simpl; unfold pauseNode in *; kept. Qed.

Lemma kept_restoreAll l : forall logs, kept f (restoreAll composeFile l logs).
Proof using HV Hcompose Hverb. induction l as [|n l IH]; intros; simpl; unfold unpauseNode in *; kept. Qed.
#[local] Hint Resolve kept_pauseAll kept_restoreAll : kept.

Lemma kept_churnRounds all todo : forall round rounds logs, kept f (churnRounds composeFile all todo round rounds logs).
Proof using HV Hcompose Hverb.
  induction todo as [|todo IH]; intros; simpl; unfold churnRound, findLeaderRetry, pauseNode, unpauseNode in *; kept.
Qed.
#[local] Hint Resolve kept_churnRounds : kept.

Lemma kept_scenario id m : scenario_of composeFile id = Some m -> kept f m.
Proof using HV Hcompose Hverb.
  unfold scenario_of, runScenarioIsolateLeader, runScenarioLoseFollower, runScenarioQuorumLoss, runScenarioLeaderChurn,
    pauseNode, unpauseNode.
  intros Hm. repeat (case_match; simplify_eq); kept.
Qed.
End operations.
#[export] Hint Resolve kept_findOnline kept_admin kept_retry kept_wait kept_compose kept_pause kept_start kept_image kept_collect
  kept_infos : kept.

Section changes.
Context {E : Type} `{!Host E} (composeFile : string).

(** The two operations that change it. *)
Lemma wp_stopNode n (w : World E) :
  wp (stopNode composeFile n)
    (λ _ w', w_nodes w' = if nd_Dynamic n then removeFirst (nd_ID n) (w_nodes w) else w_nodes w) w.
Proof.
  apply wp_bind, (wp_kept w_nodes); [unfold raftRemoveNode; kept|]. intros _ w1 H1. destruct (nd_Dynamic n).
  - apply wp_bind, (wp_kept w_nodes); [kept|]. intros _ w2 H2. apply wp_bind, (wp_kept w_nodes); [kept|]. intros _ w3 H3.
    unfold wp. simpl. congruence.
  - apply (wp_kept w_nodes); [kept|]. congruence.
Qed.

Lemma wp_createDynamicNode id httpPort rpcPort (w : World E) :
  wp (createDynamicNode composeFile id httpPort rpcPort) (λ _ w', w_nodes w' = w_nodes w \/
    w_nodes w' = w_nodes w ++ [mkNodeDef id (id +:+ ":7001") httpPort rpcPort false true]) w.
Proof.
  apply wp_bind, (wp_kept w_nodes); [by refine (kept_image _ _ _ _)|]. intros [image|err] w1 H1; [|by left].
  apply wp_bind, (wp_kept w_nodes); [unfold buildPeerHTTPAddrs; kept|]. intros peers w2 H2.
  apply wp_bind, (wp_kept w_nodes); [kept|]. intros [out [err|]] w3 H3; [left; simpl; congruence|].
  apply wp_bind. unfold wp at 1. simpl. apply (wp_kept w_nodes); [kept|]. simpl. intros _ w4 H4. right. congruence.
Qed.
End changes.

(** ** The registry stays well formed *)

Section registry.
Context {E : Type} `{!Host E} (composeFile : string) (url_Path : string -> string) (json_create : string -> option createRequest).

#[local] Abbreviation keeps m := (forall w, registry_ok (w_nodes w) -> wp m (λ _ w', registry_ok (w_nodes w')) w).

Lemma keeps_kept {A} (m : M E A) : kept w_nodes m -> keeps m.
Proof. intros Hm w Hw. apply (wp_kept w_nodes); [done|]. intros _ w' Hw'. by rewrite Hw'. Qed.

Lemma find_node N id :
  match List.find (λ n, String.eqb (nd_ID n) id) N with
  | Some n => n ∈ N /\ nd_ID n = id
  | None => id ∉ (nd_ID <$> N)
  end.
Proof.
  destruct (List.find _ N) as [n|] eqn:Hf.
  - apply find_some in Hf as [Hin Heq]. apply String.eqb_eq in Heq. split; [by apply list_elem_of_In|done].
  - intros (n & -> & Hin)%list_elem_of_fmap. eapply find_none in Hf; [|by apply list_elem_of_In].
    simpl in Hf. by rewrite String.eqb_refl in Hf.
Qed.

(** A dynamic node of the registry is one that was created. *)
Lemma registry_dynamic N n : registry_ok N -> n ∈ N -> nd_Dynamic n = true -> dynamic_ok n.
Proof.
  rewrite registry_split. intros (dyn & -> & Hd & _) Hin Hn. apply elem_of_app in Hin as [Hin|Hin].
  - exfalso. revert Hn. revert n Hin. apply (Forall_forall (λ n, nd_Dynamic n = true -> False)). by repeat constructor.
  - by eapply Forall_forall in Hd.
Qed.

Lemma keeps_create id httpPort rpcPort (w : World E) :
  registry_ok (w_nodes w) -> id ∉ (nd_ID <$> w_nodes w) -> id <> "" -> httpPort <> 0 ->
  wp (createDynamicNode composeFile id httpPort rpcPort) (λ _ w', registry_ok (w_nodes w')) w.
Proof.
  intros Hw Hid Hne Hp. eapply wp_mono; [apply wp_createDynamicNode|]. intros _ w' [->| ->]; [done|].
  by apply registry_add.
Qed.

Lemma keeps_restart n (w : World E) :
  registry_ok (w_nodes w) -> n ∈ w_nodes w -> wp (restartNode composeFile n) (λ _ w', registry_ok (w_nodes w')) w.
Proof.
  intros Hw Hn. apply wp_bind, (wp_kept w_nodes); [kept|]. intros p w1 H1. apply wp_bind, (wp_kept w_nodes).
  { unfold unpauseNode. kept. }
  intros _ w2 H2. apply wp_bind. eapply wp_mono; [apply wp_stopNode|]. intros [err|] w3 H3.
  { apply wp_ret. rewrite H3, H2, H1. case_match; [by apply registry_remove|done]. }
  apply wp_bind. unfold wp at 1. simpl. destruct (nd_Dynamic n) eqn:Hd.
  - destruct (registry_dynamic _ n Hw Hn Hd) as (_ & _ & _ & Hid & Hp). rewrite H2, H1 in H3.
    apply keeps_create; simpl; rewrite ?H3; [by apply registry_remove|by apply removeFirst_gone; [apply Hw|..]|done..].
  - apply (wp_kept w_nodes); [kept|]. simpl. intros _ w' Hw'. by rewrite Hw', H3, H2, H1.
Qed.

Lemma keeps_createNew req (w : World E) :
  registry_ok (w_nodes w) -> cr_ID req ∉ (nd_ID <$> w_nodes w) -> cr_ID req <> "" ->
  wp (createNew composeFile req) (λ _ w', registry_ok (w_nodes w')) w.
Proof.
  intros Hw Hid Hne. unfold createNew. destruct (Z.eqb_spec (cr_HTTPPort req) 0); [by apply wp_ret|].
  apply wp_bind. eapply wp_mono; [by apply keeps_create|]. intros err w' Hw'. by apply wp_ret.
Qed.

Lemma keeps_handleCreateNode r : keeps (handleCreateNode (E := E) composeFile json_create r).
Proof.
  intros w Hw. unfold handleCreateNode. case_match; [by apply wp_ret|]. destruct (json_create _) as [req|]; [|by apply wp_ret].
  destruct (String.eqb_spec (cr_ID req) "") as [|Hne]; [by apply wp_ret|].
  apply wp_bind. unfold wp at 1. simpl. pose proof (find_node (w_nodes w) (cr_ID req)) as Hf.
  destruct (List.find _ _) as [n|]; [|by apply keeps_createNew]. destruct Hf as [Hin Hid].
  apply wp_bind, (wp_kept w_nodes); [kept|]. intros [st|] w1 H1; [apply wp_ret; by rewrite H1|].
  destruct (nd_Dynamic n) eqn:Hd; simpl.
  - apply wp_bind. unfold wp at 1. simpl. rewrite <- Hid.
    apply keeps_createNew; simpl; rewrite ?H1; [by apply registry_remove| |congruence].
    rewrite <- Hid. by apply removeFirst_gone; [apply Hw|..].
  - eapply keeps_kept; [|by rewrite H1]. kept.
Qed.

Lemma keeps_handleNodeAction r : keeps (handleNodeAction (E := E) composeFile url_Path r).
Proof.
  intros w Hw. unfold handleNodeAction. case_match; [by apply wp_ret|]. repeat (case_match; try by apply wp_ret).
  apply wp_bind. unfold wp at 1. simpl. pose proof (find_node (w_nodes w) s) as Hf.
  destruct (List.find _ _) as [n|]; [|by apply wp_ret]. destruct Hf as [Hin Hid]. unfold nodeAction.
  assert (Hret : forall m : M E (option string), wp m (λ _ w', registry_ok (w_nodes w')) w ->
    wp (err ← m; mret (answered s err)) (λ _ w', registry_ok (w_nodes w')) w).
  { intros m Hm. apply wp_bind. eapply wp_mono; [exact Hm|]. intros err w' Hw'. by apply wp_ret. }
  repeat (case_match; simplify_eq); [apply Hret..|by apply wp_ret].
  - eapply wp_mono; [apply wp_stopNode|]. intros _ w' ->. case_match; [by apply registry_remove|done].
  - apply keeps_kept; [unfold pauseNode; kept|done].
  - apply keeps_kept; [unfold unpauseNode; kept|done].
  - by apply keeps_restart.
Qed.

(** The handler of a request. *)
Lemma keeps_mux order r : keeps (sidecar_mux (E := E) composeFile url_Path json_create order r).
Proof.
  intros w Hw. unfold sidecar_mux.
  case_match; [apply keeps_kept; [unfold handleNodes; kept|done]|].
  case_match; [by apply keeps_handleCreateNode|].
  case_match; [apply keeps_kept; [unfold handleListLiveScenarios; kept|done]|].
  case_match; [by apply keeps_handleNodeAction|]. case_match; [|by apply wp_ret].
  unfold handleRunLiveScenario. repeat (case_match; try by apply wp_ret).
  apply wp_bind. eapply wp_mono; [by eapply scenario_resumes|]. intros res w' [Hn _]. apply wp_ret. by rewrite Hn.
Qed.

(** Requests served one after the other. *)
Fixpoint sidecar_run (order : list NodeDef -> list NodeDef) (rs : list http_request) (w : World E) : World E :=
  match rs with
  | [] => w
  | r :: rs => sidecar_run order rs (sidecar_serve composeFile url_Path json_create order r w).1
  end.

(** C34. The registry of the sidecar is well formed after any requests, whatever
    docker and the nodes answered to them: the five preset nodes come first and
    as they were defined, every other node is one that was created (dynamic, not
    bootstrap, addressed by its name, with a name and a port), and no identifier
    occurs twice, so that a node's name determines it. *)
Theorem sidecar_registry order rs (e : E) : registry_ok (w_nodes (sidecar_run order rs (newWorld e))).
Proof.
  assert (Hw : registry_ok (w_nodes (newWorld e))) by (apply (bool_decide_unpack _); vm_compute; exact I).
  revert Hw. generalize (newWorld e) as w. induction rs as [|r rs IH]; intros w Hw; [done|]. simpl. apply IH.
  unfold sidecar_serve, sidecar_corsMiddleware. case_match; [done|].
  apply (wp_bind (sidecar_mux composeFile url_Path json_create order r) _ (λ _ w', registry_ok (w_nodes w'))).
  eapply wp_mono; [by apply keeps_mux|]. intros resp w' Hw'. by apply wp_ret.
Qed.
End registry.
