(* ===== verification/SidecarSafety.v ===== *)
(** * What the sidecar guarantees (cmd/sidecar/main.go)

    Whom it asks, when it wipes a node's data, how long its waits take, what it
    tells a new node about the others, and what it reports about the cluster. *)

From Stdlib Require Import Strings.Ascii.
From stdpp Require Import pretty.
From S2P Require Import Prelude Loops Node Server Sidecar Polling LiveScenarios SidecarServer.

(** ** Whom to ask *)

Section ports.
Context {E : Type} `{!Host E}.

Lemma liveNodes_in exclude l (w : World E) :
  Forall (λ r, r.1 ∈ l /\ nd_HTTPPort r.1 <> exclude) (liveNodes exclude l w).2.
Proof.
  revert w. induction l as [|n l IH]; intros w; simpl; [constructor|]. destruct (Z.eqb_spec (nd_HTTPPort n) exclude).
  - eapply Forall_impl; [apply IH|]. simpl. set_solver.
  - unfold mbind, ST_bind. destruct (fetchRaftStatus _ w) as [w1 st]. specialize (IH w1).
    destruct (liveNodes exclude l w1) as [w2 live]. simpl in *.
    assert (Forall (λ r : NodeDef * raftStatus, r.1 ∈ n :: l /\ nd_HTTPPort r.1 <> exclude) live).
    { eapply Forall_impl; [apply IH|]. set_solver. }
    destruct st; [|done]. constructor; [|done]. simpl. split; [left|done].
Qed.

Lemma knownLeader_in exclude all live port :
  knownLeader exclude all live = Some port -> exists n, n ∈ all /\ nd_HTTPPort n = port /\ port <> exclude.
Proof.
  induction live as [|[m st] live IH]; simpl; [done|]. case_match; [done|]. destruct (List.find _ all) as [n|] eqn:Hf; [|done].
  intros [= <-]. apply find_some in Hf as [Hin [_ Hp]%andb_prop]. exists n. split; [by apply list_elem_of_In|].
  split; [done|]. by apply negb_true_iff, Z.eqb_neq in Hp.
Qed.

(** The choice is the port of a registered node, not the excluded one, unless
    nobody answered. *)
Lemma choosePort_in exclude all live :
  Forall (λ r, r.1 ∈ all /\ nd_HTTPPort r.1 <> exclude) live -> live <> [] ->
  exists n, n ∈ all /\ nd_HTTPPort n = choosePort exclude all live /\ nd_HTTPPort n <> exclude.
Proof.
  intros Hl Hne. unfold choosePort. destruct (List.find _ live) as [r|] eqn:Hf.
  - apply find_some in Hf as [Hin _]. rewrite Forall_forall in Hl. apply list_elem_of_In, Hl in Hin as [??].
    by exists r.1.
  - destruct (knownLeader exclude all live) as [port|] eqn:Hk.
    + apply knownLeader_in in Hk as (n & ? & <- & ?). by exists n.
    + destruct live as [|r live]; [done|]. apply Forall_cons in Hl as [[??] _]. by exists r.1.
Qed.

Lemma findOnlinePortExcluding_port exclude (w : World E) :
  (findOnlinePortExcluding exclude w).2 = choosePort exclude (w_nodes w) (liveNodes exclude (w_nodes w) w).2.
Proof. unfold findOnlinePortExcluding, mbind, ST_bind. simpl. by destruct (liveNodes _ _ w). Qed.

Lemma findOnlinePortExcluding_zero exclude (w : World E) :
  Forall (λ n, nd_HTTPPort n <> 0) (w_nodes w) ->
  (findOnlinePortExcluding exclude w).2 = 0 <-> (liveNodes exclude (w_nodes w) w).2 = [].
Proof.
  intros Hz. rewrite findOnlinePortExcluding_port. split; [|by intros ->]. intros H0.
  pose proof (liveNodes_in exclude (w_nodes w) w) as Hl. destruct (liveNodes _ _ w).2 as [|r live]; [done|].
  destruct (choosePort_in exclude (w_nodes w) (r :: live) Hl ltac:(done)) as (n & Hn & Hp & _).
  rewrite Forall_forall in Hz. destruct (Hz n Hn). congruence.
Qed.

(** The node that is asked to change the membership: [findOnlinePortExcluding]
    returns 0 exactly when no other registered node answers, and otherwise the
    port of a registered node, never the excluded one; when a node that answers
    says it leads, the port is one of a node that says so. *)
Theorem findOnlinePortExcluding_correct exclude (w : World E) :
  Forall (λ n, nd_HTTPPort n <> 0) (w_nodes w) ->
  let live := (liveNodes exclude (w_nodes w) w).2 in
  let port := (findOnlinePortExcluding exclude w).2 in
  (port = 0 <-> live = []) /\
  (port <> 0 -> port <> exclude /\ exists n, n ∈ w_nodes w /\ nd_HTTPPort n = port) /\
  (forall n st, (n, st) ∈ live -> rs_State st = "leader" ->
     exists n' st', (n', st') ∈ live /\ rs_State st' = "leader" /\ nd_HTTPPort n' = port).
Proof.
  intros Hz live port. assert (Hport : port = choosePort exclude (w_nodes w) live) by apply findOnlinePortExcluding_port.
  split_and!; [by apply findOnlinePortExcluding_zero| |].
  - intros Hp. assert (live <> []) as Hne by (intros Hnil; apply Hp; by rewrite Hport, Hnil).
    destruct (choosePort_in exclude (w_nodes w) live (liveNodes_in _ _ _) Hne) as (n & Hn & Hp' & Hx).
    rewrite Hport, <- Hp'. split; [done|by exists n].
  - intros n st Hn Hs. rewrite Hport. unfold choosePort. destruct (List.find _ live) as [[n' st']|] eqn:Hf.
    + apply find_some in Hf as [Hf Hs']. exists n', st'. split_and!; [by apply list_elem_of_In|by apply String.eqb_eq|done].
    + eapply find_none in Hf; [|by apply list_elem_of_In, Hn]. simpl in Hf. by rewrite Hs in Hf.
Qed.
End ports.

Lemma findOnlinePortExcluding_correct_witness :
  (findOnlinePortExcluding 8081 exWorld).2 = 8082 /\
  exists n, n ∈ w_nodes exWorld /\ nd_HTTPPort n = (findOnlinePortExcluding 8081 exWorld).2.
Proof.
  split; [vm_compute; reflexivity|].
  apply (findOnlinePortExcluding_correct 8081 exWorld); [|vm_compute; done].
  apply (bool_decide_unpack _). vm_compute. exact I.
Defined.

(** ** The data of a preset node *)

(** [docker volume rm]. *)
Definition is_wipe (ev : Event) : bool :=
  match ev with
  | EvDocker [a; b; _] _ => String.eqb a "volume" && String.eqb b "rm"
  | _ => false
  end.

Definition wipes {E} (w : World E) : list Event := List.filter is_wipe (w_trace w).

#[export] Instance view_wipes {E} : View (E := E) wipes (λ args, negb (is_wipe (EvDocker args true))).
Proof.
  split; [done| | |done]; intros; unfold wipes; simpl; rewrite List.filter_app; simpl; [by rewrite app_nil_r|].
  match goal with H : negb _ = true |- _ => apply negb_true_iff in H; simpl in H; rewrite H end. by rewrite app_nil_r.
Qed.

Lemma compose_wipes args : negb (is_wipe (EvDocker ("compose" :: args)%string true)) = true.
Proof. by destruct args as [|? [|? []]]. Qed.

Section data.
Context {E : Type} `{!Host E} (composeFile : string).

Definition volumeName (node : NodeDef) : string := projectName composeFile +:+ "_" +:+ nd_ID node +:+ "-data".

Lemma clearNodeData_wipes node (w : World E) :
  exists ok, wipes (clearNodeData composeFile (nd_ID node) w).1 = wipes w ++ [EvDocker ["volume"; "rm"; volumeName node]%string ok].
Proof.
  unfold clearNodeData, mbind at 1, ST_bind at 1.
  assert (Hk : kept wipes (docker (E := E) ["compose"; "-f"; composeFile; "rm"; "-f"; "-s"; nd_ID node]%string)) by kept.
  specialize (Hk w). destruct (docker _ w) as [w1 r1]. simpl in Hk. rewrite <- Hk.
  unfold mbind, ST_bind, docker. destruct (host_docker _ _) as [e r]. simpl. eexists. unfold wipes, record_event. simpl.
  by rewrite List.filter_app.
Qed.

(** Nothing is wiped on the way from [w] to [w'], or the volume of [node] is, once,
    and at a moment at which no other registered node answered. *)
Definition wiped_alone (node : NodeDef) (w w' : World E) : Prop :=
  wipes w' = wipes w \/
  exists w1 ok, w_nodes w1 = w_nodes w /\ (liveNodes (nd_HTTPPort node) (w_nodes w1) w1).2 = [] /\
    wipes w' = wipes w ++ [EvDocker ["volume"; "rm"; volumeName node]%string ok].

Lemma startPresetNode_wipes node (w : World E) :
  Forall (λ n, nd_HTTPPort n <> 0) (w_nodes w) ->
  exists ok, wipes (startPresetNode composeFile node w).1 = wipes w ++
    match (liveNodes (nd_HTTPPort node) (w_nodes w) w).2 with
    | [] => [EvDocker ["volume"; "rm"; volumeName node]%string ok]
    | _ :: _ => []
    end.
Proof.
  intros Hz. pose proof (findOnlinePortExcluding_zero (nd_HTTPPort node) w Hz) as Hp.
  unfold startPresetNode, mbind at 1, ST_bind at 1.
  pose proof (kept_findOnline wipes (nd_HTTPPort node) w) as Hk.
  destruct (findOnlinePortExcluding (nd_HTTPPort node) w) as [w1 port]. simpl in Hp, Hk.
  unfold mbind at 1, ST_bind at 1.
  assert (Hrest : forall w' (m : M E (option string)) evs, kept wipes m -> wipes w' = wipes w ++ evs -> wipes (m w').1 = wipes w ++ evs).
  { intros w' m evs Hm <-. apply Hm. }
  destruct (Z.eqb_spec port 0) as [H0|H0].
  - rewrite (proj1 Hp H0). destruct (clearNodeData_wipes node w1) as [ok Hc].
    destruct (clearNodeData _ _ w1) as [w2 []]. exists ok. apply Hrest; [kept|]. simpl in Hc. congruence.
  - destruct (liveNodes _ _ _).2; [naive_solver|]. exists true. apply Hrest; [kept|]. simpl. by rewrite app_nil_r.
Qed.

Lemma wp_startPresetNode node (w w0 : World E) :
  Forall (λ n, nd_HTTPPort n <> 0) (w_nodes w) -> wipes w = wipes w0 -> w_nodes w = w_nodes w0 ->
  wp (startPresetNode composeFile node) (λ _, wiped_alone node w0) w.
Proof.
  intros Hz Hw Hn. unfold wp. destruct (startPresetNode_wipes node w Hz) as [ok Hs]. rewrite Hw in Hs. unfold wiped_alone.
  destruct (liveNodes _ _ _).2 eqn:Hl; [right; by exists w, ok|left]. by rewrite app_nil_r in Hs.
Qed.

Lemma verb_wipes verb c : negb (is_wipe (EvDocker [verb; c] true)) = true.
Proof. done. Qed.

Lemma stop_wipes node : kept wipes (stopNode (E := E) composeFile node).
Proof. unfold stopNode, raftRemoveNode. kept. Qed.

Lemma create_wipes id httpPort rpcPort : kept wipes (createDynamicNode (E := E) composeFile id httpPort rpcPort).
Proof.
  assert (Hi : kept wipes (getBuiltImage composeFile)) by by apply (kept_image wipes composeFile compose_wipes).
  unfold createDynamicNode, buildPeerHTTPAddrs. kept.
Qed.

Lemma pause_wipes verb v node : kept wipes (setContainerPaused (E := E) composeFile verb v node).
Proof. by apply (kept_pause wipes composeFile compose_wipes). Qed.

Lemma registry_ports N : registry_ok N -> Forall (λ n, nd_HTTPPort n <> 0) N.
Proof.
  rewrite registry_split. intros (dyn & -> & Hd & _). apply Forall_app. split; [by repeat constructor|].
  eapply Forall_impl; [exact Hd|]. by intros n (_ & _ & _ & _ & ?).
Qed.

Lemma wp_restart_wipes node (w : World E) :
  Forall (λ n, nd_HTTPPort n <> 0) (w_nodes w) ->
  wp (restartNode composeFile node)
    (λ _ w', wiped_alone node w w' /\ (nd_Dynamic node = true -> wipes w' = wipes w)) w.
Proof.
  intros Hz. apply wp_bind. unfold wp at 1. cbn [isPaused fst snd]. apply wp_bind.
  assert (Hu : kept (λ w, (w_nodes w, wipes w)) (if bool_decide (nd_ID node ∈ w_paused w)
    then unpauseNode (E := E) composeFile node ;; mret () else mret ())).
  { intros w0. assert (Hk := kept_pause w_nodes composeFile (ltac:(done)) (ltac:(done)) "unpause" false node w0).
    assert (Hk' := pause_wipes "unpause" false node w0). case_bool_decide; [|done]. unfold mbind, ST_bind, unpauseNode.
    destruct (setContainerPaused _ _ _ _ w0). simpl in *. congruence. }
  apply (wp_kept _ _ _ _ Hu). intros _ w1 [= Hn1 Hw1].
  apply wp_bind. unfold wp at 1. pose proof (stop_wipes node w1) as Hs. pose proof (wp_stopNode composeFile node w1) as Hsn.
  unfold wp in Hsn. destruct (stopNode composeFile node w1) as [w2 [err|]]; simpl in Hs, Hsn |- *.
  - apply wp_ret. split; [left|intros _]; congruence.
  - apply wp_bind. unfold wp at 1. simpl. destruct (nd_Dynamic node).
    + apply (wp_kept wipes); [apply create_wipes|]. intros _ w' Hw'.
      assert (wipes w' = wipes w) by (rewrite Hw'; change (wipes w2 = wipes w); congruence). split; [by left|done].
    + eapply wp_mono; [apply (wp_startPresetNode node _ w)|]; simpl; [by rewrite Hsn, Hn1|change (wipes w2 = wipes w); congruence|congruence|].
      intros _ w' Hw'. by split.
Qed.

Section requests.
Context (url_Path : string -> string) (json_create : string -> option createRequest).

(** The requests that start [node] again. *)
Definition restarts (r : http_request) (node : NodeDef) : Prop :=
  (url_Path (rq_URI r) = "/nodes/create"%string /\ exists req, json_create (rq_Body r) = Some req /\ cr_ID req = nd_ID node) \/
  Split slash (TrimPrefix (url_Path (rq_URI r)) "/nodes/") = [nd_ID node; "restart"%string].

Definition wiped_by (r : http_request) (w w' : World E) : Prop :=
  wipes w' = wipes w \/
  exists node, node ∈ w_nodes w /\ nd_Dynamic node = false /\ restarts r node /\ wiped_alone node w w'.

Lemma wp_createNew_wipes req (w0 w : World E) : wipes w = wipes w0 ->
  wp (createNew (E := E) composeFile req) (λ _ w', wipes w' = wipes w0) w.
Proof.
  intros Hw. unfold createNew. case_match; [by apply wp_ret|]. apply wp_bind, (wp_kept wipes); [apply create_wipes|].
  intros err w' Hw'. apply wp_ret. congruence.
Qed.

Lemma wp_create_wipes r (w : World E) : registry_ok (w_nodes w) -> url_Path (rq_URI r) = "/nodes/create"%string ->
  wp (handleCreateNode (E := E) composeFile json_create r) (λ _, wiped_by r w) w.
Proof.
  intros Hw Hu. unfold handleCreateNode. case_match; [by left|]. destruct (json_create _) as [req|] eqn:Hj; [|by left].
  case_match; [by left|]. apply wp_bind. unfold wp at 1. simpl. pose proof (find_node (w_nodes w) (cr_ID req)) as Hf.
  destruct (List.find _ _) as [n|]; [|by eapply wp_mono; [by apply wp_createNew_wipes|intros; by left]].
  destruct Hf as [Hin Hid]. apply wp_bind. unfold wp at 1.
  pose proof (kept_fetch wipes (nd_HTTPPort n) w) as Hk. pose proof (kept_fetch w_nodes (nd_HTTPPort n) w) as Hk'.
  destruct (fetchRaftStatus _ w) as [w1 [st|]]; simpl in Hk, Hk' |- *; [by left|]. destruct (nd_Dynamic n) eqn:Hd; simpl.
  - apply wp_bind. unfold wp at 1. simpl. by eapply wp_mono; [by apply wp_createNew_wipes|intros; by left].
  - apply wp_bind. eapply wp_mono; [apply (wp_startPresetNode n w1 w); [|done..]|].
    { rewrite Hk'. by apply registry_ports. }
    intros err w2 H2. apply wp_ret. right. exists n. split_and!; [done..| |done]. left. by eauto.
Qed.

Lemma wp_action_wipes r (w : World E) : registry_ok (w_nodes w) ->
  wp (handleNodeAction (E := E) composeFile url_Path r) (λ _, wiped_by r w) w.
Proof.
  intros Hw. unfold handleNodeAction. case_match; [by left|]. repeat (case_match; try by left).
  apply wp_bind. unfold wp at 1. simpl. pose proof (find_node (w_nodes w) s) as Hf.
  destruct (List.find _ _) as [n|]; [|by left]. destruct Hf as [Hin Hid]. unfold nodeAction.
  assert (Hret : forall m : M E (option string), kept wipes m -> wp (err ← m; mret (answered s err)) (λ _, wiped_by r w) w).
  { intros m Hm. apply wp_bind, (wp_kept wipes); [done|]. intros err w' Hw'. by left. }
  destruct (String.eqb s0 "stop"); [apply Hret, stop_wipes|]. destruct (String.eqb s0 "pause"); [apply Hret, pause_wipes|].
  destruct (String.eqb s0 "unpause"); [apply Hret, pause_wipes|].
  destruct (String.eqb_spec s0 "restart") as [->|]; [|by left]. apply wp_bind.
  eapply wp_mono; [by apply wp_restart_wipes, registry_ports|]. intros err w' [Ha Hd']. apply wp_ret.
  destruct (nd_Dynamic n) eqn:Hd; [left; auto|]. right. exists n. split_and!; [done..| |done]. right. by subst.
Qed.

Lemma wp_mux_wipes order r (w : World E) : registry_ok (w_nodes w) ->
  wp (sidecar_mux (E := E) composeFile url_Path json_create order r) (λ _, wiped_by r w) w.
Proof.
  intros Hw. unfold sidecar_mux.
  assert (Hk : forall m : M E sidecar_response, kept wipes m -> wp m (λ _, wiped_by r w) w).
  { intros m Hm. apply (wp_kept wipes); [done|]. intros _ w' Hw'. by left. }
  case_match; [apply Hk; unfold handleNodes; kept|].
  case_match eqn:Hc; [by apply wp_create_wipes; [|apply String.eqb_eq]|].
  case_match; [apply Hk; unfold handleListLiveScenarios; kept|].
  case_match; [by apply wp_action_wipes|]. case_match; [|by left].
  unfold handleRunLiveScenario. repeat (case_match; try by left). apply Hk. apply kept_bind; [|intros; apply kept_ret].
  by eapply (kept_scenario wipes composeFile compose_wipes verb_wipes).
Qed.

(** C36. When the sidecar destroys data: [startPresetNode] removes the volume of
    the node it starts exactly when no other registered node answers, and
    removes no other volume.  A whole request, whatever docker and the nodes
    answer, removes a volume only if it creates or restarts a registered preset
    node, then that node's alone and at most once, and at a moment when no other
    registered node answered; stopping, pausing, resuming, creating a new node,
    restarting a dynamic one, listing nodes and the live scenarios remove none.
    (The comment of [clearNodeData] and the README speak of every restart.) *)
Theorem startPresetNode_data (w : World E) :
  registry_ok (w_nodes w) ->
  (forall node, exists ok, wipes (startPresetNode composeFile node w).1 = wipes w ++
     match (liveNodes (nd_HTTPPort node) (w_nodes w) w).2 with
     | [] => [EvDocker ["volume"; "rm"; volumeName node]%string ok]
     | _ :: _ => []
     end) /\
  (forall order r, let w' := (sidecar_serve composeFile url_Path json_create order r w).1 in
     wipes w' = wipes w \/
     exists node w1 ok, node ∈ w_nodes w /\ nd_Dynamic node = false /\ restarts r node /\
       w_nodes w1 = w_nodes w /\ (liveNodes (nd_HTTPPort node) (w_nodes w1) w1).2 = [] /\
       wipes w' = wipes w ++ [EvDocker ["volume"; "rm"; volumeName node]%string ok]).
Proof.
  intros Hw. split; [intros node; by apply startPresetNode_wipes, registry_ports|]. intros order r. cbv zeta.
  enough (wiped_by r w (sidecar_serve composeFile url_Path json_create order r w).1) as
    [H|(node & H1 & H2 & H3 & [H|(w1 & ok & H4 & H5 & H6)])] by first [by left | right; exists node, w1, ok; by split_and!].
  unfold sidecar_serve, sidecar_corsMiddleware. case_match; [by left|].
  apply (wp_bind (sidecar_mux composeFile url_Path json_create order r) _ (λ _, wiped_by r w)).
  eapply wp_mono; [by apply wp_mux_wipes|]. intros resp w' Hw'. by apply wp_ret.
Qed.
End requests.
End data.

(** ** The waits end *)

(** A request to change the membership is given up after ten seconds. *)
Class HostPosts {E : Type} `{!Host E} `{!HostClock E} (j : Z) := {
  prompt_post : forall url body e, clock (host_post url body e).1 <= clock e + 10 * Second + j
}.

Section waits.
Context {E : Type} `{!Host E} {HC : HostClock E} {j : Z} {HP : HostPrompt (E := E) j} {HQ : HostPosts (E := E) j} (Hj : 0 <= j).

(** [m] takes at most [D]. *)
Definition lasts {A} (D : Z) (m : M E A) : Prop := forall w, wclock (m w).1 <= wclock w + D.

Lemma lasts_bind {A B} D D' (m : M E A) (f : A -> M E B) : lasts D m -> (forall a, lasts D' (f a)) -> lasts (D + D') (m ≫= f).
Proof using Type.
  intros Hm Hf w. unfold mbind, ST_bind. specialize (Hm w). destruct (m w) as [w1 a]. specialize (Hf a w1). simpl in *. lia.
Qed.

Lemma lasts_ret {A} (a : A) : lasts 0 (mret a).
Proof using Type. intros w. simpl. lia. Qed.

Lemma lasts_mono {A} D D' (m : M E A) : D <= D' -> lasts D m -> lasts D' m.
Proof using Type. intros HD Hm w. specialize (Hm w). lia. Qed.

Lemma lasts_then {A B} D (m : M E A) (f : A -> M E B) : lasts D m -> (forall a, lasts 0 (f a)) -> lasts D (m ≫= f).
Proof using Type. intros Hm Hf. eapply lasts_mono; [|by apply lasts_bind]. lia. Qed.

Lemma lasts_fetch port : lasts (Second + j) (fetchRaftStatus port).
Proof using HP.
  intros w. unfold fetchRaftStatus, wclock, world_clock_laws.
  pose proof (prompt_get (statusURL port) (w_env w)) as H. unfold statusURL in H. destruct (host_get _ _). simpl in *. lia.
Qed.

Lemma lasts_liveNodes exclude l : lasts (lenZ l * (Second + j)) (liveNodes exclude l).
Proof using HP Hj.
  assert (0 < Second) by done. induction l as [|n l IH]; [apply lasts_ret|]. rewrite lenZ_cons. simpl. case_match.
  - eapply lasts_mono; [|exact IH]. lia.
  - eapply lasts_mono; [|apply lasts_bind; [apply lasts_fetch|intros; apply lasts_then; [exact IH|intros; apply lasts_ret]]]. lia.
Qed.

Lemma lasts_findLeader except l : lasts (lenZ l * (Second + j)) (findLeader except l).
Proof using HP Hj.
  assert (0 < Second) by done. induction l as [|n l IH]; [apply lasts_ret|]. rewrite lenZ_cons. simpl.
  pose proof (lenZ_nonneg l). apply (lasts_mono (0 + ((Second + j) + lenZ l * (Second + j)))); [lia|].
  apply lasts_bind; [intros w; simpl; lia|intros p]. case_match; [eapply lasts_mono; [|exact IH]; lia|].
  apply lasts_bind; [apply lasts_fetch|]. intros st. repeat case_match; try exact IH.
  eapply lasts_mono; [|apply lasts_ret]. nia.
Qed.

Lemma lasts_post url body : lasts (10 * Second + j) (http_Post (E := E) url body).
Proof using HQ.
  intros w. unfold http_Post, wclock, world_clock_laws. pose proof (prompt_post url body (w_env w)).
  destruct (host_post _ _ _). simpl in *. lia.
Qed.

Lemma forward_findLeader except l : forward (findLeader (E := E) except l).
Proof using Type.
  induction l as [|n l IH]; simpl; [apply forward_ret|]. apply forward_bind; [intros w; simpl; lia|intros p]. case_match; [done|].
  apply forward_bind; [apply forward_fetch|intros st]. repeat case_match; try done. apply forward_ret.
Qed.

(** The time an attempt of [retryAddNode] takes on [k] registered nodes. *)
Definition attempt_time (k : Z) : Z := k * (Second + j) + (10 * Second + j).

Lemma retry_time k exclude addr lastErr (w : World E) : lenZ (w_nodes w) = k ->
  wclock (retryAddNode_attempt exclude addr lastErr w).1 <= wclock w + attempt_time k.
Proof using HP HQ Hj.
  intros Hk. pose proof (lasts_liveNodes exclude (w_nodes w) w) as Hl. rewrite Hk in Hl.
  assert (Hw : wclock (findOnlinePortExcluding exclude w).1 <= wclock w + k * (Second + j)).
  { unfold findOnlinePortExcluding, mbind, ST_bind, allNodes. by destruct (liveNodes exclude (w_nodes w) w). }
  unfold retryAddNode_attempt, mbind at 1, ST_bind at 1. destruct (findOnlinePortExcluding exclude w) as [w1 port].
  cbn [fst] in Hw. assert (0 < Second) by done. unfold attempt_time. destruct (port =? 0); [simpl; lia|].
  assert (Hp : forall port, lasts (10 * Second + j) (err ← raftAddNode port addr; mret (match err with Some err => inr (Some err) | None => inl () end))).
  { intros q. apply lasts_then; [|intros; apply lasts_ret]. unfold raftAddNode, raftAdmin.
    apply lasts_then; [apply lasts_post|]. intros a. repeat case_match; apply lasts_ret. }
  specialize (Hp port w1). lia.
Qed.

Lemma forward_retry exclude addr lastErr : forward (retryAddNode_attempt (E := E) exclude addr lastErr).
Proof using Type.
  apply forward_bind; [apply forward_findOnlinePortExcluding|intros port]. case_match; [apply forward_ret|].
  apply forward_bind; [|intros; apply forward_ret]. unfold raftAddNode, raftAdmin.
  apply forward_bind; [apply forward_post|]. intros a. repeat case_match; apply forward_ret.
Qed.

(** A wait of the sidecar on a prompt machine. *)
Lemma wait_bounded {A V : Type} D timeout interval (attempt : V -> M E (A + V)) v (w : World E) :
  0 <= D -> 0 < interval -> 0 <= timeout -> (forall v, forward (attempt v)) -> (forall v, kept w_nodes (attempt v)) ->
  (forall v w', w_nodes w' = w_nodes w -> wclock (attempt v w').1 <= wclock w' + D) ->
  let '(w', r) := poll_for timeout interval attempt v w in
  wclock w' <= wclock w + timeout + D + interval + 4 * j /\
  (match r with inl _ => True | inr _ => wclock w + timeout <= wclock w' end).
Proof using HP Hj.
  intros HD Hi Ht Hf Hk HA. apply (poll_for_bounded (λ w', w_nodes w' = w_nodes w)); try done.
  - intros w' <-. split; [apply (kept_Now w_nodes)|apply wclock_Now_prompt].
  - intros w' <-. split; [done|]. unfold wclock, world_clock_laws. apply prompt_Sleep. lia.
  - intros v' w' Hw'. split; [by rewrite (Hk v' w')|by apply HA].
Qed.

(** C38. The waits of the sidecar end in time.  On a machine with a clock that does
    not go back, whose calls lose at most [j] each (a status request is given up
    after one second, a membership request after ten, a sleep lasts as long as
    asked): [waitForHTTP] returns at most one request and one sleep after its
    timeout; [retryAddNode] at most one round over the registered nodes, one
    membership request and one sleep after it; and the wait of a live scenario
    for a new leader at most one round over the nodes and one sleep after it.
    None of them gives up before its timeout has passed. *)
Theorem sidecar_waits_end (timeout : Z) (w : World E) : 0 <= timeout ->
  (forall port, let '(w', err) := waitForHTTP port timeout w in
     wclock w' <= wclock w + timeout + Second + 500 * Millisecond + 5 * j /\
     (err <> None -> wclock w + timeout <= wclock w')) /\
  (forall exclude addr, let '(w', err) := retryAddNode exclude addr timeout w in
     wclock w' <= wclock w + timeout + lenZ (w_nodes w) * (Second + j) + 10 * Second + 500 * Millisecond + 5 * j /\
     (err <> None -> wclock w + timeout <= wclock w')) /\
  (forall all old interval, 0 < interval -> let '(w', new) := waitNewLeader all old timeout interval w in
     wclock w' <= wclock w + timeout + lenZ all * (Second + j) + interval + 4 * j /\
     (new = None -> wclock w + timeout <= wclock w')).
Proof using HP HQ Hj.
  intros Ht. assert (0 < Second) by done. split_and!.
  - intros port. unfold waitForHTTP, mbind at 1, ST_bind at 1.
    pose proof (wait_bounded (Second + j) timeout (500 * Millisecond) (λ _ : (), st ← fetchRaftStatus (E := E) port;
      mret (match st with Some _ => inl () | None => inr () end)) () w ltac:(lia) ltac:(done) Ht) as Hb.
    destruct (poll_for _ _ _ _ w) as [w' r]. destruct Hb as [H1 H2].
    + intros _. apply forward_bind; [apply forward_fetch|intros; apply forward_ret].
    + intros _. kept.
    + intros _ w0 _. apply lasts_then; [apply lasts_fetch|intros; apply lasts_ret].
    + simpl. split; [lia|]. by destruct r.
  - intros exclude addr. unfold retryAddNode, mbind at 1, ST_bind at 1. pose proof (lenZ_nonneg (w_nodes w)).
    pose proof (wait_bounded (attempt_time (lenZ (w_nodes w))) timeout (500 * Millisecond) (retryAddNode_attempt exclude addr) None w
      ltac:(unfold attempt_time; nia) ltac:(done) Ht) as Hb.
    destruct (poll_for _ _ _ _ w) as [w' r]. destruct Hb as [H1 H2].
    + intros v. apply forward_retry.
    + intros v. unfold retryAddNode_attempt, raftAddNode. kept.
    + intros v w0 Hw'. apply retry_time. by rewrite Hw'.
    + unfold attempt_time in H1. simpl. split; [lia|]. destruct r; [done|auto].
  - intros all old interval Hi. unfold waitNewLeader, mbind at 1, ST_bind at 1. pose proof (lenZ_nonneg all).
    pose proof (wait_bounded (lenZ all * (Second + j)) timeout interval (λ _ : (), l ← findLeader (Some (nd_ID old)) all;
      mret (match l with Some (n, t) => if String.eqb (nd_ID n) "" then inr () else inl (n, t) | None => inr () end)) () w
      ltac:(nia) Hi Ht) as Hb.
    destruct (poll_for _ _ _ _ w) as [w' r]. destruct Hb as [H1 H2].
    + intros _. apply forward_bind; [apply forward_findLeader|intros; apply forward_ret].
    + intros _. apply kept_bind; [apply (kept_findLeader w_nodes)|intros; apply kept_ret].
    + intros _ w0 _. apply lasts_then; [apply lasts_findLeader|intros; apply lasts_ret].
    + simpl. split; [lia|]. by destruct r.
Qed.
End waits.

#[export] Instance boot_posts : HostPosts (E := Boot) 1.
Proof. split; intros; simpl; unfold Second, Millisecond; lia. Qed.

(** Nobody listens on port 9999; node1, on port 8081, answers from the fifth
    second on. *)
Lemma sidecar_waits_end_witness :
  (waitForHTTP 8081 (30 * Second) (newWorld (mkBoot 0))).2 = None /\
  (waitForHTTP 9999 (30 * Second) (newWorld (mkBoot 0))).2 <> None /\
  30 * Second <= wclock (waitForHTTP 9999 (30 * Second) (newWorld (mkBoot 0))).1 <= 31500 * Millisecond + 5.
Proof.
  split; [vm_compute; reflexivity|]. split; [vm_compute; discriminate|].
  destruct (sidecar_waits_end (E := Boot) (j := 1) ltac:(done) (30 * Second) (newWorld (mkBoot 0)) ltac:(done)) as [H _].
  specialize (H 9999). destruct (waitForHTTP 9999 (30 * Second) (newWorld (mkBoot 0))) as [w' err] eqn:Hr.
  destruct H as [H1 H2]. cbn [fst]. split.
  - apply H2. vm_compute in Hr. injection Hr as _ <-. discriminate.
  - exact H1.
Defined.

(** ** What a new node is told *)

(** A character that the address list keeps: visible ASCII, no comma, no equals
    sign. *)
Definition word_char (c : ascii) : bool :=
  ((32 <? nat_of_ascii c) && (nat_of_ascii c <? 127))%nat && negb (Ascii.eqb c comma) && negb (Ascii.eqb c equals).

Fixpoint word (s : string) : bool :=
  match s with
  | EmptyString => true
  | String c s => word_char c && word s
  end.

Lemma word_app a b : word (a ++ b) = word a && word b.
Proof. induction a as [|c a IH]; [done|]. rewrite append_cons. simpl. by rewrite IH, andb_assoc. Qed.

Lemma word_contains c s : word_char c = false -> word s = true -> contains c s = false.
Proof.
  intros Hc. induction s as [|x s IH]; [done|]. simpl. intros [Hx Hs]%andb_prop. rewrite IH by done.
  destruct (Ascii.eqb_spec x c) as [->|]; [congruence|done].
Qed.

Lemma word_list s : word s = forallb word_char (String.list_ascii_of_string s).
Proof. induction s as [|c s IH]; [done|]. simpl. by rewrite IH. Qed.

(** No encoding of a space starts or ends with such a character. *)
Lemma trimLeft_word fuel ps l :
  forallb (λ p, match p with c :: _ => negb (word_char c) | [] => false end) ps = true ->
  forallb word_char l = true -> trimLeft fuel ps l = l.
Proof.
  intros Hps Hl. destruct fuel as [|fuel]; [done|]. simpl.
  assert (strip_any ps l = None) as ->; [|done]. induction ps as [|[|c p] ps IH]; [done|done|].
  simpl in Hps. apply andb_prop in Hps as [Hc Hps]. simpl. destruct l as [|x l]; [by apply IH|].
  destruct (Ascii.eqb_spec c x) as [->|]; [|by apply IH]. simpl in Hl. apply andb_prop in Hl as [Hx _]. by rewrite Hx in Hc.
Qed.

Lemma TrimSpace_word s : word s = true -> TrimSpace s = s.
Proof.
  rewrite word_list. intros Hs. unfold TrimSpace. rewrite (trimLeft_word _ spaceBytes) by done.
  rewrite trimLeft_word; [|done|].
  - by rewrite rev_involutive, String.string_of_list_ascii_of_string.
  - rewrite forallb_forall in *. intros c Hc%in_rev. by apply Hs.
Qed.

Lemma word_pair_ok p : word p.1 = true -> word p.2 = true -> pair_ok p.
Proof. intros H1 H2. unfold pair_ok. split_and!; (by apply word_contains) || by apply TrimSpace_word. Qed.

(** The text of a number is made of digits and a sign. *)
Lemma pretty_chars (P : ascii -> bool) :
  (forall n, P (pretty_N_char n) = true) -> P "-"%char = true ->
  forall z : Z, forallb P (String.list_ascii_of_string (pretty z)) = true.
Proof.
  intros Hd Hm. pose proof (Hd 0%N : P "0"%char = true) as H0.
  assert (Hgo : forall n s, forallb P (String.list_ascii_of_string s) = true ->
    forallb P (String.list_ascii_of_string (pretty_N_go n s)) = true).
  { intros n. induction (N.lt_wf_0 n) as [n _ IH]. intros s Hs. destruct (decide (n = 0)%N) as [->|].
    - by rewrite pretty_N_go_0.
    - rewrite pretty_N_go_step by lia. apply IH; [apply N.div_lt; lia|]. simpl. by rewrite Hd. }
  assert (HN : forall n : N, forallb P (String.list_ascii_of_string (pretty n)) = true).
  { intros n. unfold pretty, pretty_N. case_decide; [simpl; by rewrite H0|]. by apply Hgo. }
  intros [|p|p]; [simpl; by rewrite H0|apply (HN (Npos p))|].
  change (pretty (Zneg p)) with (String "-" (pretty (Npos p))). simpl. by rewrite Hm, (HN (Npos p)).
Qed.

Lemma word_pretty (z : Z) : word (pretty z) = true.
Proof. rewrite word_list. apply pretty_chars; [|done]. intros n. unfold pretty_N_char. by repeat case_match. Qed.

Lemma contains_chars c s :
  forallb (λ x, negb (Ascii.eqb x c)) (String.list_ascii_of_string s) = true -> contains c s = false.
Proof.
  induction s as [|x s IH]; simpl; [done|]. intros [Hx Hs]%andb_prop. apply negb_true_iff in Hx. by rewrite Hx, IH.
Qed.

Definition localAddr (port : Z) : string := ("localhost:" +:+ pretty port)%string.

Lemma localAddr_slash port : contains slash (localAddr port) = false.
Proof.
  unfold localAddr. rewrite contains_app. simpl. apply contains_chars, pretty_chars; [|done].
  intros n. unfold pretty_N_char. by repeat case_match.
Qed.

Section peers.
Context {E : Type} `{!Host E}.

Lemma buildPeerHTTPAddrs_format newID newHTTPPort (w : World E) :
  (buildPeerHTTPAddrs newID newHTTPPort w).2 =
  formatAddrs (((λ n, (nd_ID n, localAddr (nd_HTTPPort n))) <$> w_nodes w) ++
    (if bool_decide (newID ∈ (nd_ID <$> w_nodes w)) then [] else [(newID, localAddr newHTTPPort)])).
Proof.
  unfold buildPeerHTTPAddrs, formatAddrs, mbind, ST_bind. simpl. f_equal. rewrite map_app, map_map.
  assert (existsb (λ n, String.eqb (nd_ID n) newID) (w_nodes w) = bool_decide (newID ∈ (nd_ID <$> w_nodes w))) as ->.
  { apply eq_bool_prop_intro. split.
    - intros (n & Hin & Heq)%Is_true_true%existsb_exists. apply String.eqb_eq in Heq as <-.
      apply Is_true_true, bool_decide_eq_true, list_elem_of_fmap_2, list_elem_of_In, Hin.
    - intros (n & -> & Hin)%bool_decide_spec%list_elem_of_fmap. apply Is_true_true, existsb_exists. exists n.
      split; [by apply list_elem_of_In|apply String.eqb_refl]. }
  case_bool_decide; [by rewrite app_nil_r|done].
Qed.

(** C39. A new node knows where every other one is, identifiers being distinct
    words of visible characters without comma and equals sign: the value of [PEER_HTTP_ADDRS]
    that the sidecar builds is read back by the server as the map that has the
    address of each registered node and of the new one, and nothing else; so a
    request that needs the leader is redirected to the leader's port, whichever
    registered node leads. *)
Theorem new_node_knows_peers newID newHTTPPort (w : World E) :
  NoDup (nd_ID <$> w_nodes w) -> Forall (λ n, word (nd_ID n) = true) (w_nodes w) -> word newID = true ->
  let addrs := parsePeerHTTPAddrs (buildPeerHTTPAddrs newID newHTTPPort w).2 in
  (forall n, n ∈ w_nodes w -> addrs !! nd_ID n = Some (localAddr (nd_HTTPPort n))) /\
  (newID ∉ (nd_ID <$> w_nodes w) -> addrs !! newID = Some (localAddr newHTTPPort)) /\
  (forall id, id ∉ (nd_ID <$> w_nodes w) -> id <> newID -> addrs !! id = None) /\
  (forall n uri, n ∈ w_nodes w -> nd_ID n <> "" ->
     redirectToLeader addrs (nd_ID n) uri = HttpRedirect ("http://" +:+ localAddr (nd_HTTPPort n) +:+ uri) 307).
Proof.
  intros Hnd Hw Hnew addrs. set (l := ((λ n, (nd_ID n, localAddr (nd_HTTPPort n))) <$> w_nodes w) ++
    (if bool_decide (newID ∈ (nd_ID <$> w_nodes w)) then [] else [(newID, localAddr newHTTPPort)])).
  assert (Hfst : l.*1 = (nd_ID <$> w_nodes w) ++ if bool_decide (newID ∈ (nd_ID <$> w_nodes w)) then [] else [newID]).
  { unfold l. rewrite fmap_app, <- list_fmap_compose. f_equal. by case_bool_decide. }
  assert (Hl1 : NoDup l.*1).
  { rewrite Hfst. case_bool_decide; [by rewrite app_nil_r|]. apply NoDup_app. split_and!; [done|set_solver|apply NoDup_singleton]. }
  assert (Haddr : forall port, word (localAddr port) = true) by (intros; unfold localAddr; rewrite word_app; by rewrite word_pretty).
  assert (Haddrs : addrs = list_to_map l).
  { unfold addrs. rewrite buildPeerHTTPAddrs_format. apply parsePeerHTTPAddrs_roundtrip; [done|].
    unfold l. apply Forall_app. split.
    - apply Forall_fmap. eapply Forall_impl; [exact Hw|]. intros n Hn. apply word_pair_ok; [done|apply Haddr].
    - case_bool_decide; [constructor|]. apply Forall_singleton. apply word_pair_ok; [done|apply Haddr]. }
  assert (Hreg : forall n, n ∈ w_nodes w -> addrs !! nd_ID n = Some (localAddr (nd_HTTPPort n))).
  { intros n Hn. rewrite Haddrs. apply elem_of_list_to_map_1; [done|]. unfold l. apply elem_of_app. left.
    apply list_elem_of_fmap. by exists n. }
  split_and!; [done| | |].
  - intros Hin. rewrite Haddrs. apply elem_of_list_to_map_1; [done|]. unfold l. rewrite bool_decide_eq_false_2 by done. set_solver.
  - intros id Hin Hne. rewrite Haddrs. apply not_elem_of_list_to_map_1. rewrite Hfst. case_bool_decide; set_solver.
  - intros n uri Hn Hne. unfold redirectToLeader. rewrite (proj2 (String.eqb_neq _ _) Hne), Hreg by done. done.
Qed.
End peers.

Lemma new_node_knows_peers_witness :
  let addrs := parsePeerHTTPAddrs (buildPeerHTTPAddrs "node6" 8086 exWorld).2 in
  (buildPeerHTTPAddrs "node6" 8086 exWorld).2 =
    "node1=localhost:8081,node2=localhost:8082,node3=localhost:8083,node4=localhost:8084,node5=localhost:8085,node6=localhost:8086"%string /\
  addrs !! "node6"%string = Some (localAddr 8086).
Proof.
  split; [vm_compute; reflexivity|].
  refine (proj1 (proj2 (new_node_knows_peers "node6" 8086 exWorld _ _ _)) _).
  - apply (bool_decide_unpack _). vm_compute. exact I.
  - apply (bool_decide_unpack _). vm_compute. exact I.
  - vm_compute. reflexivity.
  - apply (bool_decide_unpack _). vm_compute. exact I.
Defined.

(** ** What is reported *)

Section report.
Context {E : Type} `{!Host E} (url_Path : string -> string).

(** A machine whose nodes give the same answers throughout a request. *)
Definition stable (e0 : E) : Prop := forall url e, (host_get url e).2 = (host_get url e0).2.

(** The status of a node, as the sidecar sees it. *)
Definition seen (w : World E) (n : NodeDef) : option raftStatus :=
  if bool_decide (nd_ID n ∈ w_paused w) then None
  else (host_get (statusURL (nd_HTTPPort n)) (w_env w)).2 ≫= json_status.

Definition peersOf (st : option raftStatus) : list string := match st with Some st => rs_Peers st | None => [] end.

(** The members: the peers of the first node that says it leads, with that node;
    without one, everybody's peers. *)
Definition membersOf (st : NodeDef -> option raftStatus) (all : list NodeDef) : gset string :=
  match List.find (λ n, saysLeader (st n)) all with
  | Some l => {[nd_RPCAddr l]} ∪ list_to_set (peersOf (st l))
  | None => list_to_set (all ≫= λ n, peersOf (st n))
  end.

Lemma collect_spec (w : World E) order : stable (w_env w) -> forall m w',
  w_paused w' = w_paused w ->
  wp (collect order m) (λ sts w', w_paused w' = w_paused w /\
    sts = foldl (λ m n, <[nd_HTTPPort n := seen w n]> m) m order) w'.
Proof.
  intros Hst. induction order as [|n order IH]; intros m w' Hp; [by apply wp_ret|]. simpl. apply wp_bind.
  unfold nodeStatus, seen. apply wp_bind. unfold wp at 1. simpl. rewrite Hp. case_bool_decide.
  - apply wp_ret. simpl. by apply IH.
  - apply wp_bind. unfold wp at 1, fetchRaftStatus. fold (statusURL (nd_HTTPPort n)).
    pose proof (Hst (statusURL (nd_HTTPPort n)) (w_env w')) as Hs. destruct (host_get _ (w_env w')) as [e body]. simpl in *.
    apply wp_ret. simpl. rewrite <- Hs. by apply IH.
Qed.

Lemma nodeInfos_spec members sts l (w : World E) :
  nodeInfos members sts l w =
  (w, map (λ n, nodeInfo members (bool_decide (nd_ID n ∈ w_paused w)) (statusOf sts n) n) l).
Proof. induction l as [|n l IH]; [done|]. simpl. unfold mbind, ST_bind. simpl. by rewrite IH. Qed.

#[local] Abbreviation pairs f l := ((λ n : NodeDef, (nd_HTTPPort n, f n)) <$> l).

Lemma pairs_fst (f : NodeDef -> option raftStatus) l : (pairs f l).*1 = nd_HTTPPort <$> l.
Proof. by rewrite <- list_fmap_compose. Qed.

Lemma foldl_statuses (f : NodeDef -> option raftStatus) order : NoDup (nd_HTTPPort <$> order) -> forall m,
  foldl (λ m n, <[nd_HTTPPort n := f n]> m) m order = list_to_map (M := gmap Z (option raftStatus)) (pairs f order) ∪ m.
Proof.
  induction order as [|n order IH]; intros Hnd m; simpl; [by rewrite (left_id_L ∅ (∪))|].
  rewrite fmap_cons in Hnd. apply NoDup_cons in Hnd as [Hni Hnd]. rewrite IH by done.
  rewrite <- insert_union_l, insert_union_r; [done|]. apply not_elem_of_list_to_map_1. by rewrite pairs_fst.
Qed.

(** The map of statuses does not depend on the order of arrival. *)
Lemma statuses_order f order all :
  NoDup (nd_HTTPPort <$> all) -> order ≡ₚ all ->
  foldl (λ m n, <[nd_HTTPPort n := f n]> m) ∅ order = list_to_map (M := gmap Z (option raftStatus)) (pairs f all).
Proof.
  intros Hnd Hperm. assert (Hnd' : NoDup (nd_HTTPPort <$> order)) by by rewrite Hperm.
  rewrite foldl_statuses, (right_id_L ∅ (∪)) by done. apply list_to_map_proper; [by rewrite pairs_fst|by rewrite Hperm].
Qed.

Lemma statusOf_all (f : NodeDef -> option raftStatus) all n :
  NoDup (nd_HTTPPort <$> all) -> n ∈ all -> statusOf (list_to_map (pairs f all)) n = f n.
Proof.
  intros Hnd Hn. unfold statusOf. erewrite elem_of_list_to_map_1; [done|by rewrite pairs_fst|].
  apply list_elem_of_fmap. by exists n.
Qed.

Lemma members_all (f : NodeDef -> option raftStatus) all :
  NoDup (nd_HTTPPort <$> all) ->
  let sts := list_to_map (pairs f all) in
  match leaderPeers sts all with Some s => s | None => fallbackPeers sts end = membersOf f all.
Proof.
  intros Hnd sts. assert (Hst : forall n, n ∈ all -> statusOf sts n = f n) by (intros; by apply statusOf_all).
  assert (Hfb : fallbackPeers sts = list_to_set (all ≫= λ n, peersOf (f n))).
  { unfold fallbackPeers. apply set_eq. intros p. rewrite !elem_of_list_to_set, !list_elem_of_bind. split.
    - intros ([port st] & Hp & Hin). simpl in Hp. unfold sts in Hin. rewrite map_to_list_to_map in Hin by by rewrite pairs_fst.
      apply list_elem_of_fmap in Hin as (n & [= -> ->] & Hn). by exists n.
    - intros (n & Hp & Hn). exists (nd_HTTPPort n, f n). split; [done|]. unfold sts.
      rewrite map_to_list_to_map by by rewrite pairs_fst. apply list_elem_of_fmap. by exists n. }
  unfold membersOf. rewrite Hfb. clear Hfb. generalize (list_to_set (C := gset string) (all ≫= λ n, peersOf (f n))) as fb. clear Hnd.
  clearbody sts. intros fb. induction all as [|n all IH]; [done|]. simpl. rewrite (Hst n ltac:(left)).
  destruct (f n) as [st|] eqn:Hf; simpl; [destruct (String.eqb (rs_State st) "leader"); [by rewrite Hf|]|];
    apply IH; intros; apply Hst; by right.
Qed.

(** What is reported of [n]: its definition, whether it is paused, whether it
    runs and is a member, and the fields of its status. *)
Definition reported (members : gset string) (paused : bool) (st : option raftStatus) (n : NodeDef) (i : NodeInfo) : Prop :=
  ni_Def i = n /\ ni_Paused i = paused /\
  (ni_Running i = true <-> st <> None \/ paused = true) /\
  (ni_InCluster i = true <-> paused = true \/ saysLeader st = true \/ nd_RPCAddr n ∈ members) /\
  match st with
  | Some st =>
      ni_RaftState i = rs_State st /\ ni_Term i = rs_Term st /\ ni_Leader i = rs_Leader st /\ ni_Peers i = rs_Peers st /\
      ni_CommitIndex i = rs_CommitIndex st /\ ni_LastApplied i = rs_LastApplied st /\
      ni_HeartbeatsSent i = rs_HeartbeatsSent st /\ ni_HeartbeatsReceived i = rs_HeartbeatsReceived st /\
      ni_SnapshotIndex i = rs_SnapshotIndex st
  | None =>
      ni_RaftState i = (if paused then "paused"%string else ""%string) /\ ni_Term i = 0 /\ ni_Leader i = ""%string /\
      ni_Peers i = [] /\ ni_CommitIndex i = 0 /\ ni_LastApplied i = 0 /\ ni_HeartbeatsSent i = 0 /\
      ni_HeartbeatsReceived i = 0 /\ ni_SnapshotIndex i = 0
  end.

Lemma nodeInfo_reported members paused st n : reported members paused st n (nodeInfo members paused st n).
Proof.
  unfold reported, nodeInfo. destruct st as [st|]; simpl; split_and!; try done.
  - split; [intros _; by left|done].
  - destruct (String.eqb _ _); [split; auto|]. rewrite orb_true_iff, bool_decide_eq_true. intuition congruence.
  - split; [intros ->; by right|intros [?| ->]; done].
  - rewrite orb_true_iff, bool_decide_eq_true. intuition congruence.
Qed.

(** C40. What [GET /nodes] reports, when the machine is stable while it is asked
    and no two registered nodes share an HTTP port: however the answers of the
    nodes arrive, there is one line per registered node, in the order of the
    registry.  It has the node's definition and whether it is paused; running
    means that it is paused or answers; in the cluster means that it is paused,
    says it leads, or is the first leader of the registry or one of its peers
    (one of anybody's peers while nobody leads); the other fields are copied
    from the node's own status, and empty without one, but for the state of a
    paused node.  Serving it changes neither the registry nor what is paused. *)
Theorem handleNodes_correct order r (w : World E) :
  rq_Method r = "GET"%string -> (forall l, order l ≡ₚ l) -> stable (w_env w) -> NoDup (nd_HTTPPort <$> w_nodes w) ->
  let '(w', resp) := handleNodes order r w in
  (exists infos, resp = SNodes infos /\
     Forall2 (λ n, reported (membersOf (seen w) (w_nodes w)) (bool_decide (nd_ID n ∈ w_paused w)) (seen w n) n)
       (w_nodes w) infos) /\
  w_nodes w' = w_nodes w /\ w_paused w' = w_paused w.
Proof.
  intros Hget Hord Hst Hnd. unfold handleNodes. rewrite Hget. simpl. unfold mbind at 1, ST_bind at 1. simpl.
  unfold mbind at 1, ST_bind at 1. pose proof (collect_spec w (order (w_nodes w)) Hst ∅ w eq_refl) as Hc. unfold wp in Hc.
  pose proof (kept_collect w_nodes (order (w_nodes w)) ∅ w) as Hn.
  destruct (collect (order (w_nodes w)) ∅ w) as [w1 sts]. simpl in Hc, Hn. destruct Hc as [Hp ->].
  rewrite (statuses_order (seen w) _ (w_nodes w)) by done. rewrite members_all by done.
  unfold mbind, ST_bind. rewrite nodeInfos_spec. simpl. split_and!; [|done|done]. eexists. split; [done|].
  apply Forall2_fmap_r, Forall_Forall2_diag, Forall_forall. intros n Hin.
  unfold Basics.compose. rewrite statusOf_all by done. rewrite Hp. apply nodeInfo_reported.
Qed.
End report.

(** A machine on which node1 leads and node2 follows, for good. *)
Record Still := mkStill {}.

#[export] Instance still_host : Host Still := {|
  host_Now s := (s, 0);
  host_Sleep _ s := s;
  host_docker _ s := (s, (""%string, None));
  host_get url s :=
    (s, if String.eqb url (statusURL 8081) then Some "leader"%string
        else if String.eqb url (statusURL 8082) then Some "follower"%string else None);
  host_post _ _ s := (s, inl 200);
  json_status body := Some (mkRaftStatus body 1 "node1" ["node1:7001"; "node2:7001"; "node4:7001"]%string 0 0 0 0 0);
  json_addr a := a
|}.

Lemma handleNodes_correct_witness :
  exists infos, (handleNodes reverse (mkRequest "GET" "/nodes" "") (newWorld mkStill)).2 = SNodes infos /\
    map ni_InCluster infos = [true; true; false; true; false] /\
    map ni_Running infos = [true; true; false; false; false] /\ length infos = length presetNodes.
Proof.
  pose proof (handleNodes_correct reverse (mkRequest "GET" "/nodes" "") (newWorld mkStill) eq_refl
    (λ l, reverse_Permutation l) ltac:(intros url []; reflexivity)
    ltac:(apply (bool_decide_unpack _); vm_compute; exact I)) as H.
  destruct (handleNodes reverse _ _) as [w1 r1] eqn:Hr. destruct H as [(infos & -> & Hf) _]. exists infos.
  split; [reflexivity|]. assert (Hl : length infos = length presetNodes) by (symmetry; exact (Forall2_length _ _ _ Hf)).
  vm_compute in Hr. injection Hr as _ Hi. split; [|split; [|exact Hl]]; rewrite <- Hi; reflexivity.
Defined.

(** ** Two slips *)

(** The registry with [node6], created at run time, on the simulated machine. *)
Definition dynSim : Sim :=
  mkSim 0 ((8086, "raft-node6"%string) :: sim_nodes exSim) (sim_up exSim) ∅ ∅.

(** Bodies are names here, with a port for [node6] only. *)
Definition exDecode (body : string) : option createRequest :=
  if String.eqb body "node6 with port" then Some (mkCreateRequest "node6" 8086 0) else Some (mkCreateRequest body 0 0).

Definition exServe (r : http_request) (w : World Sim) : World Sim * sidecar_response :=
  let '(w, resp) := sidecar_serve "infra/docker-compose.yml" id exDecode id r w in (w, resp.2).

Definition exRequests (rs : list http_request) (w : World Sim) : World Sim :=
  sidecar_run "infra/docker-compose.yml" id exDecode id rs w.

(** A preset node that is created while others answer keeps its data; on a
    machine where nobody answers it is wiped. *)
Lemma startPresetNode_data_witness :
  let loneWorld := newWorld (mkSim 0 (sim_nodes exSim) ∅ ∅ ∅) in
  let create := mkRequest "POST" "/nodes/create" "node4" in
  wipes (exServe create exWorld).1 = [] /\
  wipes (exServe create loneWorld).1 = [EvDocker ["volume"; "rm"; "infra_node4-data"]%string true] /\
  exists node, node ∈ w_nodes loneWorld /\ restarts id exDecode create node.
Proof.
  split; [vm_compute; reflexivity|]. split; [vm_compute; reflexivity|].
  assert (Hok : registry_ok (w_nodes (newWorld (mkSim 0 (sim_nodes exSim) ∅ ∅ ∅)))) by (apply (bool_decide_unpack _); vm_compute; exact I).
  destruct (startPresetNode_data "infra/docker-compose.yml" id exDecode (newWorld (mkSim 0 (sim_nodes exSim) ∅ ∅ ∅)) Hok) as [_ H].
  destruct (H id (mkRequest "POST" "/nodes/create" "node4")) as [Hw|(node & w1 & ok & Hin & _ & Hr & _)].
  - vm_compute in Hw. discriminate.
  - by exists node.
Defined.

(** [stopNode] leaves the mark of a pause: a node that was paused and then
    stopped is reported as running and as a member, although its container is
    down and it has been removed from the cluster; started again, its status is
    no longer asked for. *)
Theorem stopped_node_reported_running :
  let w := exRequests [mkRequest "POST" "/nodes/node4/pause" ""; mkRequest "POST" "/nodes/node4/stop" ""] exWorld in
  "node4"%string ∉ sim_up (w_env w) /\
  (exists addr, EvPost "http://localhost:8081/admin/remove-node" addr true ∈ w_trace w) /\
  match (exServe (mkRequest "GET" "/nodes" "") w).2 with
  | SNodes l => match l !! 3%nat with
                | Some n => nd_ID (ni_Def n) = "node4"%string /\ ni_Running n = true /\ ni_InCluster n = true /\
                            ni_RaftState n = "paused"%string
                | None => False
                end
  | _ => False
  end.
Proof.
  split; [apply (bool_decide_unpack _); vm_compute; exact I|]. split.
  - eexists. apply list_elem_of_In. vm_compute. right. left. reflexivity.
  - vm_compute. repeat split.
Qed.

(** [handleCreateNode] forgets a dynamic node before it has checked the request:
    a creation without a port is refused, yet the node, which is only paused, is
    gone from the registry and can no longer be resumed. *)
Theorem refused_create_forgets_node :
  let w0 := exRequests [mkRequest "POST" "/nodes/create" "node6 with port"; mkRequest "POST" "/nodes/node6/pause" ""]
              (newWorld dynSim) in
  let refused := exServe (mkRequest "POST" "/nodes/create" "node6") w0 in
  refused.2 = SError (MText "http_port is required for new nodes") 400 /\
  map nd_ID (w_nodes w0) = map nd_ID presetNodes ++ ["node6"%string] /\ w_nodes refused.1 = presetNodes /\
  bool_decide ("raft-node6"%string ∈ sim_up (w_env refused.1)) = true /\
  bool_decide ("raft-node6"%string ∈ sim_paused (w_env refused.1)) = true /\
  (exServe (mkRequest "POST" "/nodes/node6/unpause" "") refused.1).2 = SError (MText "unknown node: node6") 404.
Proof. split_and!; vm_compute; reflexivity. Qed.
