(* ===== verification/KVServer.v ===== *)
(** * The assembled key-value server and its clients (cmd/kvstore/main.go)

    [main] from the creation of the transport on, the routes of the mux and the
    handler chain that serves a request, and HTTP clients that follow redirects
    across a fleet of such servers.  net/url and the JSON decoder are
    parameters.  A fleet is also a machine for the sidecar ([Host]), which puts
    its membership calls and the servers' handlers together. *)

From Stdlib Require Import Strings.Ascii.
From stdpp Require Import pretty.
From S2P Require Import Prelude RaftLog Rpc Disk Node Election Replication Snapshot Client Apply KVStore Lifecycle Server Loops Sidecar SidecarSafety.

(** ** URLs *)

(** net/url, on the request URI: [r.URL.Path], [r.URL.EscapedPath()],
    [r.URL.RawQuery], [r.URL.Query().Get], the [String] of a URL of a path and a
    query, and the decoding of one path segment. *)
Class NetURL := {
  url_Path : string -> string;
  url_EscapedPath : string -> string;
  url_RawQuery : string -> string;
  url_Query : string -> string -> string;
  url_String : string -> string -> string;
  pathUnescape : string -> string
}.

(** Letters, digits and the punctuation that no rule of the syntax touches. *)
Definition plain_char (c : ascii) : bool :=
  let k := Z.of_nat (nat_of_ascii c) in
  ((45 <=? k) && (k <=? 57)) || ((65 <=? k) && (k <=? 90)) || ((97 <=? k) && (k <=? 122)) || (k =? 95).

Definition plain (s : string) : bool := forallb plain_char (String.list_ascii_of_string s).

Definition question : ascii := "?".

(** What may come after the path of a request URI: nothing, or a question mark
    and pairs of names and values, with their escapes. *)
Definition query_char (c : ascii) : bool :=
  plain_char c || Ascii.eqb c "=" || Ascii.eqb c "&" || Ascii.eqb c "+" || Ascii.eqb c "%".

Definition is_query (q : string) : bool :=
  match q with
  | EmptyString => true
  | String c q => Ascii.eqb c question && forallb query_char (String.list_ascii_of_string q)
  end.

(** Plain text has nothing to decode; the path ends where the query begins. *)
Class NetURLLaws `{!NetURL} := {
  url_Path_of : forall p q, plain p = true -> is_query q = true -> url_Path (p ++ q) = p;
  url_EscapedPath_of : forall p q, plain p = true -> is_query q = true -> url_EscapedPath (p ++ q) = p;
  url_Query_value : forall p v, plain p = true -> plain v = true -> url_Query (p ++ "?value=" ++ v) "value" = v;
  pathUnescape_plain : forall s, plain s = true -> pathUnescape s = s
}.

(** ** The mux of net/http *)

(** [path.Clean] on the segments of a rooted path. *)
Fixpoint cleanSegments (acc segs : list string) : list string :=
  match segs with
  | [] => rev acc
  | s :: segs =>
      if String.eqb s "" || String.eqb s "." then cleanSegments acc segs
      else if String.eqb s ".." then cleanSegments (tail acc) segs
      else cleanSegments (s :: acc) segs
  end.

Definition endsInSlash (p : string) : bool :=
  match rev (String.list_ascii_of_string p) with
  | c :: _ => Ascii.eqb c slash
  | [] => false
  end.

Definition cleanPath (p : string) : string :=
  if String.eqb p "" then "/"
  else
    let p := if String.prefix "/" p then p else ("/" ++ p)%string in
    let np := ("/" ++ String.concat "/" (cleanSegments [] (Split slash p)))%string in
    if endsInSlash p && negb (String.eqb np "/") then (np ++ "/")%string else np.

(** The handlers [main] registers, and the answers of the mux itself. *)
Inductive target :=
  | ToKeys
  | ToStatus
  | ToLog
  | ToAdmin (op : string)
  | MuxAnswer (r : http_response).

Lemma AddPeer_leader now n addr : state n = Leader -> (AddPeer now n addr).1.2 = None.
Proof.
  intros Hs. unfold AddPeer. rewrite Hs. cbn [NodeState_eqb negb]. destruct (String.eqb addr _); [reflexivity|].
  destruct (existsb _ _); [reflexivity|]. by destruct (submitConfigLocked now n "add" addr).
Qed.

Lemma submitConfig_add now n addr : let n' := (submitConfigLocked now n "add" addr).1 in
  state n' = state n /\ peers n' = peers n ++ [addr].
Proof. unfold submitConfigLocked. cbn [String.eqb Ascii.eqb Bool.eqb fst]. node_simpl. unfold persist. by repeat case_match. Qed.

Section server.
Context `{!NetURL}.
(** The status of the redirects of the mux, which depends on the version of
    net/http, and the JSON decoder of the field [addr]. *)
Context (muxRedirect : Z) (decodeAddr : string -> option string).

(** The registered pattern that matches a path, segment by segment. *)
Definition mux_match (path : string) : option target :=
  match map pathUnescape (tail (Split slash path)) with
  | s :: rest =>
      if String.eqb s "keys" then match rest with [] => None | _ => Some ToKeys end
      else if String.eqb s "status" then match rest with [] => Some ToStatus | _ => None end
      else if String.eqb s "log" then match rest with [] => Some ToLog | _ => None end
      else if String.eqb s "admin" then
        match rest with
        | [t] => if String.eqb t "add-node" then Some (ToAdmin "add")
                 else if String.eqb t "remove-node" then Some (ToAdmin "remove") else None
        | _ => None
        end
      else None
  | [] => None
  end.

(** Paths are cleaned first, except for CONNECT; [/keys] is sent to [/keys/], and
    a path that was not clean to the clean one. *)
Definition mux (r : http_request) : target :=
  let uri := rq_URI r in
  if String.eqb uri "*" then MuxAnswer (WriteHeader 400)
  else
    let escaped := url_EscapedPath uri in
    let path := if String.eqb (rq_Method r) "CONNECT" then escaped else cleanPath escaped in
    match mux_match path with
    | Some t =>
        if String.eqb path escaped then t
        else MuxAnswer (HttpRedirect (url_String path (url_RawQuery uri)) muxRedirect)
    | None =>
        if negb (endsInSlash path) && bool_decide (is_Some (mux_match (path ++ "/")))
        then MuxAnswer (HttpRedirect (url_String (cleanPath (url_Path uri) ++ "/") (url_RawQuery uri)) muxRedirect)
        else if String.eqb path escaped then MuxAnswer (HttpError (Text "404 page not found") 404)
        else MuxAnswer (HttpRedirect (url_String path (url_RawQuery uri)) muxRedirect)
    end.

(** ** The handler chain *)

(** A server as a client finds it under its address: its identifier and address
    map, its node and the map of its store, and the goroutines its handlers have
    started. *)
Record server := mkServer {
  sv_id : string; sv_addrs : gmap string string; sv_node : RaftNode; sv_data : gmap string string;
  sv_spawned : list Goroutine
}.

(** What serving a request comes to: an answer, with what the handler left of
    the node and the goroutines it started, or a write that is carried out
    before the answer. *)
Inductive outcome :=
  | Answer (r : http_response)
  | Change (n : RaftNode) (r : http_response) (gs : list Goroutine)
  | Write (o : op).

(** The handler that [main] serves; [read k] is the node at the [k]-th of the
    handler's reads, [data] the map of the store. *)
Definition serveHTTP (nodeID : string) (peerHTTPAddrs : gmap string string) (now : Z) (r : http_request)
    (read : nat -> RaftNode) (data : gmap string string) : list (string * string) * outcome :=
  corsMiddleware Answer (λ r,
    match mux r with
    | ToKeys =>
        match makeHandler url_Path url_Query peerHTTPAddrs r (read 0%nat) (read 1%nat) data with
        | Respond a => Answer a
        | Perform o => Write o
        end
    | ToStatus => Answer (makeStatusHandler nodeID read)
    | ToLog => Answer (makeLogHandler (read 0%nat))
    | ToAdmin op =>
        let '(n, a, gs) := makeAdminHandler decodeAddr peerHTTPAddrs op now r (read 0%nat) (read 1%nat) (read 2%nat) in
        Change n a gs
    | MuxAnswer a => Answer a
    end) r.

(** A request that nothing interrupts. *)
Definition serve (now : Z) (s : server) (r : http_request) : server * (http_response + op) :=
  match (serveHTTP (sv_id s) (sv_addrs s) now r (λ _, sv_node s) (sv_data s)).2 with
  | Answer a => (s, inl a)
  | Change n a gs => (mkServer (sv_id s) (sv_addrs s) n (sv_data s) (sv_spawned s ++ gs), inl a)
  | Write o => (s, inr o)
  end.

(** ** The client of net/http *)

(** How a call ends: an answer, the write it starts on a server, or an error. *)
Inductive reply :=
  | Answered (host : string) (r : http_response)
  | Performs (host : string) (o : op)
  | Failed (err : string).

(** The host and request URI of an absolute URL. *)
Definition splitURL (url : string) : string * string :=
  match cut slash (TrimPrefix url "http://") with
  | (host, Some rest) => (host, String slash rest)
  | (host, None) => (host, "/"%string)
  end.

(** The location of a redirect, and the request that follows it: 307 keeps method
    and body, 301 turns all but GET and HEAD into GET. *)
Definition location (host tgt : string) : string * string :=
  if String.prefix "http://" tgt then splitURL tgt else (host, tgt).

Definition follow (code : Z) (uri : string) (r : http_request) : http_request :=
  if code =? 307 then mkRequest (rq_Method r) uri (rq_Body r)
  else if String.eqb (rq_Method r) "GET" || String.eqb (rq_Method r) "HEAD" then mkRequest (rq_Method r) uri (rq_Body r)
  else mkRequest "GET" uri "".

Abbreviation fleet := (gmap string server).

Fixpoint client_do (hops : nat) (now : Z) (fl : fleet) (host : string) (r : http_request) : fleet * reply :=
  match fl !! host with
  | None => (fl, Failed "connection refused")
  | Some s =>
      let '(s', a) := serve now s r in
      let fl := <[host := s']> fl in
      match a with
      | inr o => (fl, Performs host o)
      | inl (HttpRedirect tgt code) =>
          match hops with
          | O => (fl, Failed "stopped after 10 redirects")
          | S hops =>
              let '(host', uri) := location host tgt in
              client_do hops now fl host' (follow code uri r)
          end
      | inl a => (fl, Answered host a)
      end
  end.

(** [http.Client.Do] without a policy of its own: ten requests at most. *)
Definition client_Do : Z -> fleet -> string -> http_request -> fleet * reply := client_do 9.

(** ** Lemmas *)

(** The write a request stands for. *)
Definition request_key (r : http_request) : string := TrimPrefix (url_Path (rq_URI r)) "/keys/".

Definition request_op (r : http_request) : option op :=
  if String.eqb (rq_Method r) "PUT" then
    let value := TrimSpace (rq_Body r) in
    Some (setOp (request_key r) (if String.eqb value "" then url_Query (rq_URI r) "value" else value))
  else if String.eqb (rq_Method r) "DELETE" then Some (delOp (request_key r)) else None.

Definition isLeader (s : server) : Prop := state (sv_node s) = Leader.

#[export] Instance isLeader_dec s : Decision (isLeader s).
Proof. unfold isLeader. apply _. Defined.

(** A node that does not lead is left as it is and writes nothing. *)
Lemma serve_only_leader now s r :
  ~ isLeader s -> (serve now s r).1 = s /\ forall o, (serve now s r).2 <> inr o.
Proof.
  intros Hs. unfold isLeader in Hs. unfold serve, serveHTTP, corsMiddleware. cbn [snd].
  destruct (String.eqb (rq_Method r) "OPTIONS"); [done|].
  assert (Hf : NodeState_eqb (state (sv_node s)) Leader = false) by (unfold NodeState_eqb; by apply bool_decide_eq_false_2).
  destruct (mux r); try done.
  - unfold makeHandler, State. rewrite Hf. simpl negb. rewrite andb_true_r.
    destruct (String.eqb _ ""); [done|]. destruct (negb _) eqn:Hm; [done|]. apply negb_false_iff in Hm. by rewrite Hm.
  - unfold makeAdminHandler, State. rewrite Hf. simpl. destruct (negb _); simpl; (split; [|done]); rewrite app_nil_r; by destruct s.
Qed.

(** Through however many redirects, only leaders change and only leaders write. *)
Lemma client_only_leader hops now fl host r :
  (forall h s, fl !! h = Some s -> ~ isLeader s -> (client_do hops now fl host r).1 !! h = Some s) /\
  (forall h o, (client_do hops now fl host r).2 = Performs h o -> exists s, fl !! h = Some s /\ isLeader s).
Proof.
  revert fl host r. induction hops as [|hops IH]; intros fl host r; simpl;
    (destruct (fl !! host) as [s|] eqn:Hs; [|by split]);
    pose proof (serve_only_leader now s r) as Hsv; destruct (serve now s r) as [s' a]; simpl in Hsv;
    (assert (Hkeep : forall h s0, fl !! h = Some s0 -> ~ isLeader s0 -> (<[host := s']> fl : fleet) !! h = Some s0);
      [intros h s0 Hh Hn; destruct (decide (h = host)) as [->|]; [|by rewrite lookup_insert_ne by done];
       simplify_eq; rewrite lookup_insert_eq; by rewrite (proj1 (Hsv Hn))|]);
    (destruct a as [a|o]; [destruct a as [msg c|tgt c|t|t|l|c]|]; simpl; try (by split);
     try (split; [done|intros h o' [= <- <-]; exists s; split; [done|];
       destruct (decide (isLeader s)) as [|Hn]; [done|by destruct (proj2 (Hsv Hn) o)]])).
  destruct (location host tgt) as [host' uri].
  destruct (IH (<[host := s']> fl) host' (follow c uri r)) as [IH1 IH2]. split; [auto|]. intros h o Hp.
  destruct (IH2 h o Hp) as (s0 & Hs0 & Hl). destruct (fl !! h) as [s1|] eqn:Hh.
  - exists s1. split; [done|]. destruct (decide (isLeader s1)) as [|Hn]; [done|].
    rewrite (Hkeep h s1 Hh Hn) in Hs0. by simplify_eq.
  - destruct (decide (h = host)) as [->|]; [congruence|]. by rewrite lookup_insert_ne, Hh in Hs0 by done.
Qed.

Lemma plain_cons c s : plain (String c s) = plain_char c && plain s.
Proof. done. Qed.

Lemma plain_app a b : plain (a ++ b) = plain a && plain b.
Proof. induction a as [|c a IH]; [done|]. rewrite append_cons, !plain_cons, IH. by rewrite andb_assoc. Qed.

Lemma string_app_nil_r s : (s ++ "")%string = s.
Proof. induction s as [|c s IH]; [done|]. by rewrite append_cons, IH. Qed.

Lemma plain_query v : plain v = true -> forallb query_char (String.list_ascii_of_string v) = true.
Proof.
  induction v as [|c v IH]; [done|]. rewrite plain_cons. intros [Hc Hv]%andb_prop. simpl. rewrite IH by done.
  unfold query_char. by rewrite Hc.
Qed.

Lemma Split_nonempty c s : Split c s <> [].
Proof. destruct s as [|a s]; simpl; [done|]. destruct (Ascii.eqb a c); [done|]. by destruct (Split c s). Qed.

Definition statusOfResponse (a : http_response) : Z :=
  match a with
  | HttpError _ code | HttpRedirect _ code | WriteHeader code => code
  | _ => 200
  end.

(** No address in a server's map has a path. *)
Definition addrs_ok (fl : fleet) : Prop :=
  map_Forall (λ _ s, map_Forall (λ _ a, contains slash a = false) (sv_addrs s)) fl.

Lemma serve_addrs now s r : sv_addrs (serve now s r).1 = sv_addrs s.
Proof. unfold serve. by destruct (serveHTTP _ _ _ _ _ _).2. Qed.

Lemma client_addrs hops now fl host r : addrs_ok fl -> addrs_ok (client_do hops now fl host r).1.
Proof.
  revert fl host r. induction hops as [|hops IH]; intros fl host r Hok; simpl;
    (destruct (fl !! host) as [s|] eqn:Hs; [|done]); pose proof (serve_addrs now s r) as Ha;
    destruct (serve now s r) as [s' a]; simpl in Ha;
    (assert (Hok' : addrs_ok (<[host := s']> fl)) by (apply map_Forall_insert_2; [rewrite Ha; by apply (Hok host)|done]));
    (destruct a as [a|o]; [destruct a as [msg c|tgt c|t|t|l|c]|]; try done).
  destruct (location host tgt) as [host' uri]. by apply IH.
Qed.

(** The server after [AddPeer]. *)
Definition added (now : Z) (addr : string) (s : server) : server :=
  let '(n, _, gs) := AddPeer now (sv_node s) addr in
  mkServer (sv_id s) (sv_addrs s) n (sv_data s) (sv_spawned s ++ gs).

(** [addr] is a member in the eyes of the leader [s]. *)
Definition counts (addr : string) (s : server) : Prop :=
  isLeader s /\ (addr ∈ peers (sv_node s) \/ addr = cfg_SelfAddr (config (sv_node s))).

Lemma added_counts now addr s : isLeader s -> counts addr (added now addr s).
Proof.
  intros Hs. unfold counts, isLeader, added, AddPeer in *. rewrite Hs. cbn [NodeState_eqb negb].
  destruct (String.eqb_spec addr (cfg_SelfAddr (config (sv_node s)))) as [E|E]; [simpl; auto|].
  destruct (existsb _ _) eqn:Hp.
  - apply existsb_exists in Hp as (p & Hin & ->%String.eqb_eq). simpl. split; [done|]. left. by apply list_elem_of_In.
  - pose proof (submitConfig_add now (sv_node s) addr) as [H1 H2].
    destruct (submitConfigLocked now (sv_node s) "add" addr) as [n gs]. simpl in *. rewrite H1, H2. split; [done|]. left. apply elem_of_app. right. by apply list_elem_of_singleton.
Qed.

Section laws.
Context `{UL : !NetURLLaws}.
#[local] Set Default Proof Using "Type UL".

Lemma mux_of r p q t :
  rq_URI r = (String slash p ++ q)%string -> is_query q = true ->
  plain (String slash p) = true -> cleanPath (String slash p) = String slash p -> mux_match (String slash p) = Some t -> mux r = t.
Proof.
  intros Hu Hq Hp Hc Ht. unfold mux. rewrite Hu, url_EscapedPath_of by done.
  change (String.eqb (String slash p ++ q) "*") with false. cbv iota.
  rewrite Hc. replace (if String.eqb (rq_Method r) "CONNECT" then String slash p else String slash p)
    with (String slash p) by by case_match.
  by rewrite Ht, String.eqb_refl.
Qed.

Lemma mux_plain r p t :
  rq_URI r = String slash p -> plain (String slash p) = true -> cleanPath (String slash p) = String slash p ->
  mux_match (String slash p) = Some t -> mux r = t.
Proof. intros Hu. apply (mux_of r p ""); [|done]. by rewrite Hu, string_app_nil_r. Qed.

Lemma match_add : mux_match "/admin/add-node" = Some (ToAdmin "add").
Proof. unfold mux_match. simpl. by rewrite !pathUnescape_plain. Qed.

Lemma match_remove : mux_match "/admin/remove-node" = Some (ToAdmin "remove").
Proof. unfold mux_match. simpl. by rewrite !pathUnescape_plain. Qed.

Lemma match_status : mux_match "/status" = Some ToStatus.
Proof. unfold mux_match. simpl. by rewrite !pathUnescape_plain. Qed.

Lemma match_keys key : mux_match ("/keys/" ++ key) = Some ToKeys.
Proof.
  unfold mux_match. change ("/keys/" ++ key)%string with ("" ++ String slash ("keys" ++ String slash key))%string.
  rewrite !Split_at by done. simpl. rewrite pathUnescape_plain by done. simpl.
  by destruct (Split slash key) eqn:E; [destruct (Split_nonempty _ _ E)|].
Qed.

Lemma TrimPrefix_keys key : TrimPrefix ("/keys/" ++ key) "/keys/" = key.
Proof.
  change ("/keys/" ++ key)%string with
    (String "/" (String "k" (String "e" (String "y" (String "s" (String "/" key)))))).
  unfold TrimPrefix. simpl. replace (String.prefix "" key) with true by (by destruct key). rewrite ?Nat.sub_0_r. apply substring_all.
Qed.

(** A request every server but the leader sends on. *)
Definition for_leader (r : http_request) : Prop :=
  forall now s, ~ isLeader s -> serve now s r = (s, inl (redirectToLeader (sv_addrs s) (leaderID (sv_node s)) (rq_URI r))).

(** The request URI of a key: a plain and clean path below [/keys/], and any
    query. *)
Definition key_path (key : string) : Prop :=
  key <> ""%string /\ plain key = true /\ cleanPath ("/keys/" ++ key) = ("/keys/" ++ key)%string.

Definition key_uri (uri : string) : Prop :=
  exists key q, uri = (("/keys/" ++ key) ++ q)%string /\ key_path key /\ is_query q = true.

Lemma serve_keys now s r : key_uri (rq_URI r) -> rq_Method r <> "OPTIONS"%string ->
  serve now s r =
  (s, match makeHandler url_Path url_Query (sv_addrs s) r (sv_node s) (sv_node s) (sv_data s) with
      | Respond a => inl a | Perform o => inr o end).
Proof.
  intros (key & q & Hu & (_ & Hp & Hc) & Hq) Hm. unfold serve, serveHTTP, corsMiddleware.
  rewrite (proj2 (String.eqb_neq _ _) Hm). cbn [snd].
  rewrite (mux_of r ("keys/" ++ key) q ToKeys); [by destruct (makeHandler _ _ _ _ _ _ _)|done..|exact (match_keys key)].
Qed.

Lemma request_key_of m key q body : key_path key -> is_query q = true ->
  request_key (mkRequest m (("/keys/" ++ key) ++ q) body) = key.
Proof. intros (_ & Hp & _) Hq. unfold request_key. simpl rq_URI. by rewrite url_Path_of, TrimPrefix_keys. Qed.

Lemma key_uri_key r : key_uri (rq_URI r) -> request_key r <> ""%string.
Proof. destruct r as [m uri body]. intros (key & q & Hu & Hk & Hq). simpl in Hu. subst. rewrite request_key_of by done. by destruct Hk. Qed.

Lemma write_method r o : request_op r = Some o -> rq_Method r = "PUT"%string \/ rq_Method r = "DELETE"%string.
Proof.
  unfold request_op. destruct (String.eqb_spec (rq_Method r) "PUT"); [auto|].
  destruct (String.eqb_spec (rq_Method r) "DELETE"); [auto|done].
Qed.

Lemma write_for_leader r o : key_uri (rq_URI r) -> request_op r = Some o -> for_leader r.
Proof.
  intros Hu Ho now s Hs. pose proof (write_method r o Ho) as Hm.
  rewrite serve_keys by (done || by destruct Hm as [-> | ->]). unfold makeHandler. fold (request_key r).
  rewrite (proj2 (String.eqb_neq _ _) (key_uri_key r Hu)).
  unfold NodeState_eqb, State. rewrite bool_decide_eq_false_2 by done. by destruct Hm as [-> | ->].
Qed.

Lemma write_at_leader now s r o : key_uri (rq_URI r) -> request_op r = Some o -> isLeader s -> serve now s r = (s, inr o).
Proof.
  intros Hu Ho Hs. pose proof (write_method r o Ho) as Hm.
  rewrite serve_keys by (done || by destruct Hm as [-> | ->]). unfold makeHandler. fold (request_key r).
  rewrite (proj2 (String.eqb_neq _ _) (key_uri_key r Hu)). revert Ho. unfold request_op, State. rewrite Hs.
  destruct Hm as [-> | ->]; simpl; by intros [= ->].
Qed.

Lemma read_anywhere now s uri body : key_uri uri ->
  serve now s (mkRequest "GET" uri body) =
  (s, inl (match sv_data s !! request_key (mkRequest "GET" uri body) with
           | Some v => Println v | None => HttpError (Text "not found") 404 end)).
Proof.
  intros Hu. rewrite serve_keys by done. unfold makeHandler. fold (request_key (mkRequest "GET" uri body)).
  rewrite (proj2 (String.eqb_neq _ _) (key_uri_key (mkRequest "GET" uri body) Hu)). simpl. unfold kv_Get.
  by destruct (sv_data s !! _).
Qed.

Definition admin_request (name body : string) : http_request := mkRequest "POST" ("/admin/" ++ name) body.

Lemma add_for_leader body : for_leader (admin_request "add-node" body).
Proof.
  intros now s Hs. unfold serve, serveHTTP, corsMiddleware. simpl. rewrite (mux_plain _ "admin/add-node" (ToAdmin "add")); [|done|done|done|apply match_add].
  unfold makeAdminHandler, NodeState_eqb, State. rewrite bool_decide_eq_false_2 by done. simpl. rewrite app_nil_r. by destruct s.
Qed.

Lemma add_at_leader now s body addr : decodeAddr body = Some addr -> addr <> ""%string -> isLeader s ->
  serve now s (admin_request "add-node" body) = (added now addr s, inl (Println "OK")).
Proof.
  intros Ha Hne Hs. unfold serve, serveHTTP, corsMiddleware. simpl. rewrite (mux_plain _ "admin/add-node" (ToAdmin "add")); [|done|done|done|apply match_add].
  unfold makeAdminHandler, added, State. rewrite Hs. simpl. rewrite Ha. destruct addr as [|c addr]; [done|].
  pose proof (AddPeer_leader now (sv_node s) (String c addr) Hs) as Hn.
  destruct (AddPeer now (sv_node s) (String c addr)) as [[n err] gs]. simpl in Hn. by subst err.
Qed.

(** A request for the leader, sent to a server that knows where the leader is,
    is one hop away from it. *)
Lemma redirected hops now fl host leaderHost F r path :
  for_leader r -> fl !! host = Some F -> ~ isLeader F -> leaderID (sv_node F) <> ""%string ->
  sv_addrs F !! leaderID (sv_node F) = Some leaderHost -> contains slash leaderHost = false ->
  rq_URI r = String slash path ->
  client_do (S hops) now fl host r = client_do hops now fl leaderHost r.
Proof.
  intros Hr HF Hn Hl Ha Hs Hu. cbn [client_do]. rewrite HF, (Hr now F Hn). unfold redirectToLeader.
  rewrite (proj2 (String.eqb_neq _ _) Hl), Ha, (insert_id fl host F HF). cbv iota beta.
  assert (Hloc : location host ("http://" ++ leaderHost ++ rq_URI r) = (leaderHost, rq_URI r)).
  { unfold location. change (String.prefix "http://" ("http://" ++ leaderHost ++ rq_URI r)) with
      (String.prefix "" (leaderHost ++ rq_URI r)). replace (String.prefix "" _) with true by by destruct (_ ++ _)%string.
    unfold splitURL. rewrite TrimPrefix_http, Hu, cut_at by done. done. }
  rewrite Hloc. unfold follow. simpl. by destruct r.
Qed.

(** C31. A request finds its leader through any follower of the assembled server:
    whichever handler it goes to, a client that sends it to a follower that
    knows a leader, and whose address map knows where that leader serves, comes
    to the leader after one redirect.  A write of a key (a plain and clean path
    below /keys/, with or without a query) arrives as the very operation it
    stands for; in particular PUT /keys/K?value=V without a body arrives as the
    write of V, for the redirect keeps the query.  A request to add a node is
    carried out by the leader, which answers OK, and changes no other server; a
    read is answered where it arrives.  Whatever is requested and wherever the
    redirects go, no server but a leader performs a write or is changed. *)
Theorem requests_reach_leader (now : Z) (fl : fleet) (host leaderHost : string) (F L : server) :
  fl !! host = Some F -> ~ isLeader F -> leaderID (sv_node F) <> ""%string ->
  sv_addrs F !! leaderID (sv_node F) = Some leaderHost -> contains slash leaderHost = false ->
  fl !! leaderHost = Some L -> isLeader L ->
  (forall r o, key_uri (rq_URI r) -> request_op r = Some o ->
     client_Do now fl host r = (fl, Performs leaderHost o)) /\
  (forall key val body, key_path key -> plain val = true -> TrimSpace body = ""%string ->
     client_Do now fl host (mkRequest "PUT" (("/keys/" ++ key) ++ "?value=" ++ val) body) =
     (fl, Performs leaderHost (setOp key val))) /\
  (forall body addr, decodeAddr body = Some addr -> addr <> ""%string ->
     client_Do now fl host (admin_request "add-node" body) =
     (<[leaderHost := added now addr L]> fl, Answered leaderHost (Println "OK"))) /\
  (forall uri body, key_uri uri -> let r := mkRequest "GET" uri body in
     client_Do now fl host r =
     (fl, Answered host (match sv_data F !! request_key r with
                         | Some v => Println v | None => HttpError (Text "not found") 404 end))) /\
  (forall start r, let '(fl', rep) := client_Do now fl start r in
     (forall h s, fl !! h = Some s -> ~ isLeader s -> fl' !! h = Some s) /\
     (forall h o, rep = Performs h o -> exists s, fl !! h = Some s /\ isLeader s)).
Proof.
  intros HF Hn Hl Ha Hs HL HLs.
  assert (Hw : forall r o, key_uri (rq_URI r) -> request_op r = Some o -> client_Do now fl host r = (fl, Performs leaderHost o)).
  { intros r o Hu Ho. pose proof Hu as (key & q & Hk & _).
    unfold client_Do. rewrite (redirected _ now fl host leaderHost F r (("keys/" ++ key) ++ q)); try done; [|by eapply write_for_leader].
    cbn [client_do]. rewrite HL, (write_at_leader now L r o) by done. by rewrite (insert_id fl leaderHost L HL). }
  split_and!; [done| | | |].
  - intros key val body Hk Hv Hb. assert (Hq : is_query ("?value=" ++ val) = true) by (simpl; by apply plain_query).
    apply Hw; [by exists key, ("?value=" ++ val)%string|]. unfold request_op. rewrite request_key_of by done. simpl rq_Body.
    rewrite Hb. simpl. do 2 f_equal. destruct Hk as (_ & Hp & _). exact (url_Query_value ("/keys/" ++ key) val Hp Hv).
  - intros body addr Hd Hne. unfold client_Do.
    rewrite (redirected _ now fl host leaderHost F _ "admin/add-node"); try done; [|apply add_for_leader].
    cbn [client_do]. rewrite HL. by rewrite (add_at_leader now L body addr).
  - intros uri body Hu. unfold client_Do. cbn [client_do]. rewrite HF, read_anywhere by done.
    rewrite (insert_id fl host F HF). by destruct (sv_data F !! _).
  - intros start r. pose proof (client_only_leader 9 now fl start r) as Hc. unfold client_Do. by destruct (client_do _ _ _ _ _).
Qed.

(** A request to add a node that is answered with success was carried out by a
    leader. *)
Lemma add_succeeds hops now fl host body addr h a :
  addrs_ok fl -> decodeAddr body = Some addr -> addr <> ""%string ->
  (client_do hops now fl host (admin_request "add-node" body)).2 = Answered h a -> statusOfResponse a < 300 ->
  exists s, (client_do hops now fl host (admin_request "add-node" body)).1 !! h = Some s /\ counts addr s.
Proof.
  intros Hok Hd Hne. revert host. induction hops as [|hops IH]; intros host; cbn [client_do];
    (destruct (fl !! host) as [s|] eqn:Hs; [|done]); (destruct (decide (isLeader s)) as [Hl|Hl];
      [rewrite (add_at_leader now s body addr) by done; intros [= <- <-] _; exists (added now addr s);
       split; [apply lookup_insert_eq|by apply added_counts]|]);
    rewrite (add_for_leader body now s Hl), (insert_id fl host s Hs); unfold redirectToLeader;
    (destruct (String.eqb_spec (leaderID (sv_node s)) "") as [E|E]; [intros [= <- <-]; simpl; lia|]);
    (destruct (sv_addrs s !! leaderID (sv_node s)) as [la|] eqn:Hla; [|intros [= <- <-]; simpl; lia]); [done|].
  intros Hr Hst. assert (Hsl : contains slash la = false) by exact (Hok host s Hs _ _ Hla).
  pose proof (redirected hops now fl host la s (admin_request "add-node" body) "admin/add-node"
    (add_for_leader body) Hs Hl E Hla Hsl eq_refl) as Hred.
  cbn [client_do] in Hred. rewrite Hs, (add_for_leader body now s Hl), (insert_id fl host s Hs) in Hred.
  unfold redirectToLeader in Hred. rewrite (proj2 (String.eqb_neq _ _) E), Hla in Hred. cbv iota beta in Hred.
  rewrite Hred in Hr |- *. by apply IH.
Qed.

(** ** The sidecar and the fleet *)

(** The servers as the machine of the sidecar, at a moment. *)
Record Fleet := mkFleet { fl_now : Z; fl_servers : fleet }.

(** Before a request is served the servers may have moved on by themselves
    ([drift]); the answer may come too late ([lost]), and comes after [latency]
    otherwise.  [body_of] is the text of a response, [jstatus] and [jaddr] the
    JSON codec of the sidecar, [run] the docker command. *)
Context (drift : Z -> fleet -> fleet) (lost : Z -> bool) (latency : Z).
Context (body_of : http_response -> string) (jstatus : string -> option raftStatus) (jaddr : string -> string).
Context (run : list string -> Fleet -> Fleet * (string * option string)).

Definition fleet_request (r : string -> http_request) (url : string) (e : Fleet) : Fleet * option reply :=
  let '(host, uri) := splitURL url in
  let '(fl, rep) := client_Do (fl_now e) (drift (fl_now e) (fl_servers e)) host (r uri) in
  (mkFleet (fl_now e + latency) fl, if lost (fl_now e) then None else Some rep).

#[local] Instance fleet_host : Host Fleet := {|
  host_Now e := (e, fl_now e);
  host_Sleep d e := mkFleet (fl_now e + d) (fl_servers e);
  host_docker := run;
  host_get url e :=
    let '(e, rep) := fleet_request (λ uri, mkRequest "GET" uri "") url e in
    (e, match rep with Some (Answered _ a) => Some (body_of a) | _ => None end);
  host_post url body e :=
    let '(e, rep) := fleet_request (λ uri, mkRequest "POST" uri body) url e in
    (e, match rep with
        | Some (Answered _ a) => inl (statusOfResponse a)
        | Some (Failed err) => inr err
        | Some (Performs _ _) | None => inr "context deadline exceeded"%string
        end);
  json_status := jstatus;
  json_addr := jaddr
|}.

Definition servers_of (w : World Fleet) : fleet := fl_servers (w_env w).

Lemma splitURL_local port rest :
  splitURL ("http://localhost:" +:+ pretty port +:+ String "/" rest) = (localAddr port, String "/" rest).
Proof.
  unfold splitURL. change ("http://localhost:" +:+ pretty port +:+ String "/" rest)%string with
    ("http://" ++ ("localhost:" ++ pretty port ++ String slash rest))%string.
  rewrite TrimPrefix_http. change ("localhost:" ++ pretty port ++ String slash rest)%string with
    (localAddr port ++ String slash rest)%string. rewrite cut_at; [done|apply localAddr_slash].
Qed.

Lemma status_request now (fl : fleet) host :
  client_Do now fl host (mkRequest "GET" "/status" "") =
  (fl, match fl !! host with
       | Some s => Answered host (makeStatusHandler (sv_id s) (λ _, sv_node s))
       | None => Failed "connection refused" end).
Proof.
  unfold client_Do. cbn [client_do]. destruct (fl !! host) as [s|] eqn:Hs; [|done].
  unfold serve, serveHTTP, corsMiddleware. simpl. rewrite (mux_plain _ "status" ToStatus); [|done|done|done|apply match_status].
  by rewrite (insert_id fl host s Hs).
Qed.

(** A look at the status of a node changes no server. *)
Lemma fetch_fleet port (w : World Fleet) :
  let e := w_env w in
  let fl := drift (fl_now e) (fl_servers e) in
  fetchRaftStatus port w =
  (set_env (mkFleet (fl_now e + latency) fl) w,
   if lost (fl_now e) then None
   else s ← fl !! localAddr port; jstatus (body_of (makeStatusHandler (sv_id s) (λ _, sv_node s)))).
Proof.
  cbv zeta. unfold fetchRaftStatus. cbn [host_get fleet_host]. unfold fleet_request.
  rewrite (splitURL_local port "status"). rewrite status_request. destruct (lost _); [done|]. by destruct (_ !! localAddr port).
Qed.

(** A request to add a node, as the sidecar sends it. *)
Lemma raftAddNode_fleet port addr (w : World Fleet) :
  let e := w_env w in
  let r := client_Do (fl_now e) (drift (fl_now e) (fl_servers e)) (localAddr port) (admin_request "add-node" (jaddr addr)) in
  servers_of (raftAddNode port addr w).1 = r.1 /\
  ((raftAddNode port addr w).2 = None <->
   lost (fl_now e) = false /\ exists h a, r.2 = Answered h a /\ statusOfResponse a < 300).
Proof.
  cbv zeta. unfold raftAddNode, raftAdmin, mbind, ST_bind, http_Post. cbn [host_post fleet_host json_addr]. unfold fleet_request.
  change ("/admin/" +:+ "add-node")%string with (String "/" "admin/add-node"). rewrite splitURL_local.
  fold (admin_request "add-node" (jaddr addr)).
  destruct (client_Do _ _ _ _) as [fl rep]. simpl. split; [done|]. destruct (lost _); [naive_solver|].
  destruct rep as [h a|h o|err]; simpl; [|naive_solver..]. destruct (Z.leb_spec 300 (statusOfResponse a)); split; try done.
  - intros (_ & h' & a' & [= <- <-] & Hlt). lia.
  - intros _. split; [done|]. by exists h, a.
Qed.

(** There is a leader at [h]. *)
Definition leads (fl : fleet) (h : string) : Prop := exists s, fl !! h = Some s /\ isLeader s.

(** While the sidecar works, leaders keep leading and answers arrive; a status
    survives its encoding. *)
Definition steady : Prop := forall t fl h, leads fl h -> leads (drift t fl) h.
Definition prompt : Prop := forall t, lost t = false.
Definition status_readable : Prop := forall st,
  exists r, jstatus (body_of (EncodeStatus st)) = Some r /\ rs_State r = st_state st.

Lemma liveNodes_leaders exclude l : steady -> prompt -> status_readable -> forall (w : World Fleet),
  let '(w', live) := liveNodes exclude l w in
  (forall h, leads (servers_of w) h -> leads (servers_of w') h) /\
  Forall (λ r, rs_State r.2 = "leader"%string -> leads (servers_of w') (localAddr (nd_HTTPPort r.1))) live /\
  (forall n, n ∈ l -> nd_HTTPPort n <> exclude -> leads (servers_of w) (localAddr (nd_HTTPPort n)) ->
     exists st, (n, st) ∈ live /\ rs_State st = "leader"%string).
Proof.
  intros Hst Hpr Hrd. induction l as [|n l IH]; intros w; simpl; [split_and!; [done|constructor|set_solver]|].
  destruct (Z.eqb_spec (nd_HTTPPort n) exclude) as [E|E].
  { specialize (IH w). destruct (liveNodes exclude l w) as [w' live]. destruct IH as (H1 & H2 & H3). split_and!; [done..|].
    intros n0 Hin. apply elem_of_cons in Hin as [->|Hin]; [done|auto]. }
  unfold mbind, ST_bind. rewrite fetch_fleet, Hpr. cbv zeta. set (fl := drift _ _).
  set (w1 := set_env _ w). specialize (IH w1).
  destruct (liveNodes exclude l w1) as [w' live]. destruct IH as (H1 & H2 & H3).
  assert (H0 : forall h, leads (servers_of w) h -> leads (servers_of w1) h) by (intros h; apply Hst).
  destruct (fl !! localAddr (nd_HTTPPort n)) as [s|] eqn:Hs; cbn [mbind option_bind].
  - destruct (Hrd (mkStatusReport (sv_id s) (NodeState_String (State (sv_node s))) (CurrentTerm (sv_node s))
      (LeaderID (sv_node s)) (CommitIndex (sv_node s)) (LastApplied (sv_node s)) (HeartbeatsReceived (sv_node s))
      (HeartbeatsSent (sv_node s)) (Peers (sv_node s)) (SnapshotIndex (sv_node s)))) as (r & Hr & Hrs).
    unfold makeStatusHandler. rewrite Hr. simpl in Hrs. split_and!; [auto| |].
    + constructor; [|done]. simpl. rewrite Hrs. intros Hl. apply H1. exists s. split; [done|].
      unfold isLeader. unfold State in Hl. by destruct (state (sv_node s)).
    + intros n0 Hin Hne Hl. apply elem_of_cons in Hin as [->|Hin].
      * exists r. split; [by left|]. rewrite Hrs. destruct (H0 _ Hl) as (s' & Hs' & Hls). unfold w1, servers_of in Hs'. simpl in Hs'.
        fold fl in Hs'. rewrite Hs in Hs'. simplify_eq. unfold State. by rewrite Hls.
      * destruct (H3 n0 Hin Hne (H0 _ Hl)) as (st & Hin' & ?). exists st. split; [by right|done].
  - split_and!; [auto|done|]. intros n0 Hin Hne Hl. apply elem_of_cons in Hin as [->|Hin]; [|by apply H3, H0].
    destruct (H0 _ Hl) as (s' & Hs' & _). unfold w1, servers_of in Hs'. simpl in Hs'. fold fl in Hs'. congruence.
Qed.

Lemma liveNodes_keeps (I : fleet -> Prop) exclude l : (forall t fl, I fl -> I (drift t fl)) -> forall (w : World Fleet),
  I (servers_of w) -> I (servers_of (liveNodes exclude l w).1).
Proof.
  intros Hd. induction l as [|n l IH]; intros w Hw; simpl; [done|]. destruct (nd_HTTPPort n =? exclude); [auto|].
  unfold mbind, ST_bind. rewrite fetch_fleet. cbv zeta. set (w1 := set_env _ w).
  specialize (IH w1 ltac:(by apply Hd)). by destruct (liveNodes exclude l w1).
Qed.

Lemma choosePort_leader exclude all live n st :
  (n, st) ∈ live -> rs_State st = "leader"%string ->
  exists n' st', (n', st') ∈ live /\ rs_State st' = "leader"%string /\ choosePort exclude all live = nd_HTTPPort n'.
Proof.
  intros Hin Hs. unfold choosePort. destruct (List.find _ live) as [[n' st']|] eqn:Hf.
  - apply find_some in Hf as [Hi Hl%String.eqb_eq]. exists n', st'. split_and!; [by apply list_elem_of_In|done..].
  - apply list_elem_of_In in Hin. pose proof (find_none _ _ Hf _ Hin) as Hn. simpl in Hn. by rewrite Hs in Hn.
Qed.

(** One attempt of the loop keeps what the servers keep by themselves and what
    requests keep. *)
Lemma attempt_addrs exclude addr lastErr (w : World Fleet) : (forall t fl, addrs_ok fl -> addrs_ok (drift t fl)) ->
  addrs_ok (servers_of w) -> addrs_ok (servers_of (retryAddNode_attempt exclude addr lastErr w).1).
Proof.
  intros Hd Hw. unfold retryAddNode_attempt, findOnlinePortExcluding, allNodes, mbind, ST_bind.
  pose proof (liveNodes_keeps addrs_ok exclude (w_nodes w) Hd w Hw) as Hl.
  destruct (liveNodes exclude (w_nodes w) w) as [w1 live]. simpl in *. destruct (_ =? 0); [done|].
  destruct (raftAddNode_fleet (choosePort exclude (w_nodes w) live) addr w1) as [Hr _].
  destruct (raftAddNode _ _ w1) as [w2 err]. simpl in *. rewrite Hr. unfold client_Do. by apply client_addrs, Hd.
Qed.

(** An attempt that succeeds leaves a leader that counts the address. *)
Lemma attempt_sound exclude addr lastErr (w w' : World Fleet) : (forall t fl, addrs_ok fl -> addrs_ok (drift t fl)) ->
  decodeAddr (jaddr addr) = Some addr -> addr <> ""%string -> addrs_ok (servers_of w) ->
  retryAddNode_attempt exclude addr lastErr w = (w', inl ()) ->
  exists h s, servers_of w' !! h = Some s /\ counts addr s.
Proof.
  intros Hd Hj Hne Hw. unfold retryAddNode_attempt, findOnlinePortExcluding, allNodes, mbind, ST_bind.
  pose proof (liveNodes_keeps addrs_ok exclude (w_nodes w) Hd w Hw) as Hl.
  destruct (liveNodes exclude (w_nodes w) w) as [w1 live]. simpl in *. destruct (_ =? 0); [done|].
  destruct (raftAddNode_fleet (choosePort exclude (w_nodes w) live) addr w1) as [Hr Hok].
  destruct (raftAddNode _ _ w1) as [w2 [err|]]; [done|]. intros [= <-]. simpl in *.
  destruct (proj1 Hok eq_refl) as (_ & h & a & Ha & Hlt). exists h. rewrite Hr. unfold client_Do in *.
  eapply add_succeeds; [by apply Hd|done..].
Qed.

(** With a leader among the registered nodes an attempt succeeds. *)
Lemma attempt_complete exclude addr lastErr (w : World Fleet) n : steady -> prompt -> status_readable ->
  decodeAddr (jaddr addr) = Some addr -> addr <> ""%string -> Forall (λ n, nd_HTTPPort n <> 0) (w_nodes w) ->
  n ∈ w_nodes w -> nd_HTTPPort n <> exclude -> leads (servers_of w) (localAddr (nd_HTTPPort n)) ->
  (retryAddNode_attempt exclude addr lastErr w).2 = inl ().
Proof.
  intros Hst Hpr Hrd Hj Hne Hports Hin Hex Hld.
  unfold retryAddNode_attempt, findOnlinePortExcluding, allNodes, mbind, ST_bind.
  pose proof (liveNodes_leaders exclude (w_nodes w) Hst Hpr Hrd w) as Hl.
  pose proof (liveNodes_in exclude (w_nodes w) w) as Hi.
  destruct (liveNodes exclude (w_nodes w) w) as [w1 live]. destruct Hl as (_ & Hl2 & Hl3). simpl in *.
  destruct (Hl3 n Hin Hex Hld) as (st & Hn & Hs).
  destruct (choosePort_leader exclude (w_nodes w) live n st Hn Hs) as (n' & st' & Hin' & Hs' & ->).
  rewrite Forall_forall in Hi. rewrite Forall_forall in Hl2. rewrite Forall_forall in Hports. destruct (Hi _ Hin') as [Hreg _]. simpl in Hreg.
  rewrite (proj2 (Z.eqb_neq _ 0)) by by apply Hports. specialize (Hl2 _ Hin' Hs'). simpl in Hl2.
  destruct (raftAddNode_fleet (nd_HTTPPort n') addr w1) as [_ Hok].
  destruct (raftAddNode _ _ w1) as [w2 err]. simpl in *. enough (err = None) as -> by done.
  apply Hok. split; [apply Hpr|]. destruct (Hst (fl_now (w_env w1)) _ _ Hl2) as (s & Hsv & Hls).
  unfold client_Do, servers_of in *. cbn [client_do]. rewrite Hsv, (add_at_leader _ s _ addr) by done.
  by exists (localAddr (nd_HTTPPort n')), (Println "OK").
Qed.

(** C32. A node joins: what the sidecar, the servers and the nodes do when a new
    address is added, put together.  When [retryAddNode] reports success there
    is a server that leads and counts the address among its peers, or is that
    address itself, whatever the nodes did meanwhile and however many redirects
    were followed.  And it does report success, at its first attempt, when some
    registered node other than the joining one leads, as long as leaders keep
    leading and answers arrive in time. *)
Theorem sidecar_adds_peer (exclude : Z) (addr : string) (timeout : Z) (w : World Fleet) :
  decodeAddr (jaddr addr) = Some addr -> addr <> ""%string ->
  let '(w', err) := retryAddNode exclude addr timeout w in
  ((forall t fl, addrs_ok fl -> addrs_ok (drift t fl)) -> addrs_ok (servers_of w) -> err = None ->
     exists h s, servers_of w' !! h = Some s /\ counts addr s) /\
  (steady -> prompt -> status_readable -> 0 < timeout -> Forall (λ n, nd_HTTPPort n <> 0) (w_nodes w) ->
     (exists n, n ∈ w_nodes w /\ nd_HTTPPort n <> exclude /\ leads (servers_of w) (localAddr (nd_HTTPPort n))) ->
     err = None).
Proof.
  intros Hj Hne. unfold retryAddNode, poll_for, mbind, ST_bind. change (Now w) with (set_env (w_env w) w, fl_now (w_env w)).
  cbv iota beta. set (w0 := set_env (w_env w) w). set (deadline := _ + timeout).
  destruct (poll _ _ _ _ _ _) as [w' r] eqn:Hp. cbv iota beta. split.
  - intros Hd Hw Hnone. destruct r as [[]|[err|]]; [|done..].
    assert (HA : forall v w, addrs_ok (servers_of w) -> addrs_ok (servers_of (retryAddNode_attempt exclude addr v w).1))
      by (intros; by apply attempt_addrs).
    assert (HN : forall w : World Fleet, addrs_ok (servers_of w) -> addrs_ok (servers_of (Now w).1)) by (intros ? Hx; exact Hx).
    assert (HS : forall d (w : World Fleet), addrs_ok (servers_of w) -> addrs_ok (servers_of (Sleep d w).1)) by (intros ?? Hx; exact Hx).
    destruct (poll_found (λ w, addrs_ok (servers_of w)) _ deadline _ _ _ w0 w' () HN HS HA Hw Hp) as (v1 & w1 & Hw1 & Ha).
    by eapply attempt_sound.
  - intros Hst Hpr Hrd Ht Hports (n & Hin & Hex & Hld). enough (r = inl ()) as -> by done.
    pose proof (attempt_complete exclude addr None w0 n Hst Hpr Hrd Hj Hne Hports Hin Hex Hld) as Ha.
    revert Hp. destruct (poll_fuel timeout (500 * Millisecond)) as [|fuel] eqn:Hf.
    { unfold poll_fuel in Hf. assert (0 <= timeout / (500 * Millisecond)) by (apply Z.div_pos; lia || done). lia. }
    cbn [poll]. unfold mbind, ST_bind. change (Now w0) with (set_env (w_env w0) w0, fl_now (w_env w0)). cbv iota beta.
    change (set_env (w_env w0) w0) with w0. rewrite (proj2 (Z.ltb_lt _ _)) by (unfold deadline; simpl; lia).
    destruct (retryAddNode_attempt exclude addr None w0) as [w2 x]. simpl in Ha. subst x. by intros [= _ <-].
Qed.
End laws.
End server.

(** ** The start of the program *)

(** The goroutines [main] starts besides itself. *)
Inductive main_goroutine :=
  | GReadApplyCh
  | GServeRaft
  | GRun.

(** The process once [main] listens on [ps_httpAddr]. *)
Record process (Srv : Type) := mkProcess {
  ps_store : KVStore; ps_server : server; ps_transport : GrpcTransport Srv; ps_goroutines : list main_goroutine;
  ps_httpAddr : string
}.
Arguments mkProcess {Srv}.
Arguments ps_server {Srv}.
Arguments ps_transport {Srv}.

(** [main] on the data directory [d]; [None] when it ends before it listens. *)
Definition main_start {Srv : Type} `{!GrpcServer Srv} (env : environment) (mkdirOk : bool) (d : Disk)
  : option (process Srv) :=
  '(cfg, httpAddr, peerHTTPAddrs) ← main_config env mkdirOk;
  let transport := NewGRPCTransport (Getenv env "RAFT_RPC_ADDR") in
  let node := NewRaftNode cfg d in
  transport ← grpc_Register (nid node) transport;
  Some (mkProcess kv_new (mkServer (cfg_ID cfg) peerHTTPAddrs node (kv_data kv_new) []) transport
          [GReadApplyCh; GServeRaft; GRun] httpAddr).

(** ** Two servers *)

(** The value of the first pair with a name. *)
Fixpoint query_get (k : string) (pairs : list string) : string :=
  match pairs with
  | [] => ""
  | kv :: pairs =>
      let '(name, v) := cut "=" kv in
      if String.eqb name k then default ""%string v else query_get k pairs
  end.

(** URLs without escapes. *)
#[export] Instance plainURL : NetURL := {|
  url_Path s := (cut question s).1;
  url_EscapedPath s := (cut question s).1;
  url_RawQuery s := default "" (cut question s).2;
  url_Query s k := query_get k (Split "&" (default ""%string (cut question s).2));
  url_String path q := if String.eqb q "" then path else (path ++ "?" ++ q)%string;
  pathUnescape s := s
|}.

Lemma cut_query p q : plain p = true -> is_query q = true ->
  cut question (p ++ q) = (p, match q with EmptyString => None | String _ q => Some q end).
Proof.
  induction p as [|c p IH].
  - intros _. destruct q as [|c q]; [done|]. simpl. intros [Hc _]%andb_prop. by rewrite Hc.
  - rewrite plain_cons. intros [Hc Hp]%andb_prop Hq. rewrite append_cons. simpl. rewrite IH by done.
    by destruct (Ascii.eqb_spec c question) as [->|].
Qed.

Lemma Split_plain v : plain v = true -> Split "&" v = [v].
Proof.
  induction v as [|c v IH]; [done|]. rewrite plain_cons. intros [Hc Hv]%andb_prop. simpl. rewrite IH by done.
  by destruct (Ascii.eqb_spec c "&") as [->|].
Qed.

#[export] Instance plainURL_laws : NetURLLaws.
Proof.
  split; simpl; [intros p q Hp Hq; by rewrite cut_query..| |done].
  intros p v Hp Hv. change (String "?" (String "v" (String "a" (String "l" (String "u" (String "e" (String "=" v)))))))
    with ("?value=" ++ v)%string. rewrite cut_query by (done || (simpl; by apply plain_query)). simpl. by rewrite Split_plain.
Qed.

Definition exAddrs : gmap string string := parsePeerHTTPAddrs "a=localhost:8081,b=localhost:8082".
Definition exLeaderServer : server := mkServer "a" exAddrs (becomeLeader 0 exampleNode) ∅ [].
Definition exFollowerServer : server := mkServer "b" exAddrs (set_leaderID "a" exampleNode) {["x" := "0"]} [].
Definition exFleet : gmap string server := {["localhost:8081" := exLeaderServer; "localhost:8082" := exFollowerServer]}.

Lemma requests_reach_leader_witness :
  let Do := client_Do 307 Some 0 exFleet "localhost:8082" in
  Do (mkRequest "PUT" "/keys/x" " 1 ") = (exFleet, Performs "localhost:8081" (setOp "x" "1")) /\
  Do (mkRequest "PUT" "/keys/x?value=1" "") = (exFleet, Performs "localhost:8081" (setOp "x" "1")) /\
  Do (mkRequest "DELETE" "/keys/x?id=7&value=1" "") = (exFleet, Performs "localhost:8081" (delOp "x")) /\
  (Do (admin_request "add-node" "d")).2 = Answered "localhost:8081" (Println "OK") /\
  Do (mkRequest "GET" "/keys/x" "") = (exFleet, Answered "localhost:8082" (Println "0")).
Proof.
  destruct (requests_reach_leader 307 Some 0 exFleet "localhost:8082" "localhost:8081" exFollowerServer exLeaderServer)
    as (H1 & Hq & H2 & H3 & _); [vm_compute; first [reflexivity | discriminate]..|].
  assert (Hx : key_path "x") by (split_and!; [discriminate|vm_compute; reflexivity..]).
  assert (Hu : key_uri "/keys/x") by (by exists "x", "").
  cbv zeta. split_and!.
  - by rewrite (H1 _ (setOp "x" "1")).
  - exact (Hq "x" "1" "" Hx eq_refl eq_refl).
  - apply H1; [by exists "x", "?id=7&value=1"|vm_compute; reflexivity].
  - by rewrite (H2 "d" "d").
  - rewrite H3 by done. vm_compute. reflexivity.
Defined.

Definition exBody (a : http_response) : string := match a with EncodeStatus st => st_state st | _ => "" end.
Definition exWorldOf (fl : gmap string server) : World Fleet := newWorld (mkFleet 0 fl).

Lemma sidecar_adds_peer_witness :
  let '(w', err) := retryAddNode (Host0 := fleet_host 307 Some (λ _ fl, fl) (λ _, false) 1 exBody
      (λ b, Some (mkRaftStatus b 1 "" [] 0 0 0 0 0)) id (λ _ e, (e, ("", None)))) 8086 "node6:7001" Second (exWorldOf exFleet) in
  err = None /\ exists h s, servers_of w' !! h = Some s /\ counts "node6:7001" s.
Proof.
  pose proof (sidecar_adds_peer 307 Some (λ _ fl, fl) (λ _, false) 1 exBody
    (λ b, Some (mkRaftStatus b 1 "" [] 0 0 0 0 0)) id (λ _ e, (e, ("", None))) 8086 "node6:7001" Second (exWorldOf exFleet)) as H.
  destruct (retryAddNode _ _ _ _) as [w' err]. destruct (H eq_refl ltac:(done)) as [H1 H2].
  assert (err = None) as Hn.
  { apply H2; [by intros ?|by intros ?|intros st; by eexists|done|repeat constructor; done|].
    exists (mkNodeDef "node1" "node1:7001" 8081 0 true false). split_and!; [left|done|].
    exists exLeaderServer. split; vm_compute; reflexivity. }
  split; [done|]. apply H1; [by intros ?| |done].
  apply (bool_decide_unpack _). vm_compute. exact I.
Defined.

(** A process that was started with the least environment answers as a follower
    without a leader: reads are local, writes are refused for now. *)
Example main_start_example :
  match main_start (Srv := demoServer) exEnv true (mkDisk ∅ []) with
  | Some p =>
      gt_handler (ps_transport p) = Some "node1" /\
      (serve 307 Some 0 (ps_server p) (mkRequest "GET" "/keys/x" "")).2 = inl (HttpError (Text "not found") 404) /\
      (serve 307 Some 0 (ps_server p) (mkRequest "PUT" "/keys/x" "1")).2 =
        inl (HttpError (Text "no leader elected yet, retry shortly") 503) /\
      (serve 307 Some 0 (ps_server p) (mkRequest "PUT" "/keys" "1")).2 = inl (HttpRedirect "/keys/" 307) /\
      (serve 307 Some 0 (ps_server p) (mkRequest "GET" "/keys/../status/" "")).2 = inl (HttpRedirect "/status/" 307) /\
      (serve 307 Some 0 (ps_server p) (mkRequest "GET" "/nothing" "")).2 = inl (HttpError (Text "404 page not found") 404) /\
      (serve 307 Some 0 (ps_server p) (mkRequest "OPTIONS" "/log" "")).2 = inl (WriteHeader 204)
  | None => False
  end.
Proof. vm_compute. split_and!; reflexivity. Qed.
