(* ===== verification/Cluster.v ===== *)
(** * A cluster of nodes

    The nodes of a cluster, the goroutines they have started and the network
    between them, as one transition system.  A step ([exec]) is what the code
    does between two points where another goroutine can run: a handler, the
    part of a goroutine before or after its RPC, a timer case, a restart of the
    process from its data directory.  The network is any [Transport].

    The membership is fixed: [AddPeer], [RemovePeer] and configuration entries
    are not steps here.  Every file operation succeeds, and no term reaches
    2^64.  Three components are history only and never read by a step: who
    granted which vote ([c_votes]), which leaders stepped down on their own
    ([c_abdicated]) and whose votes an election has counted ([c_granted]). *)

From S2P Require Import Prelude RaftLog Rpc Disk Node Election Replication Snapshot Client Transport.

(** ** Goroutines in progress *)

(** The goroutine of the election timer, before and after [startPreVote] has
    held the lock: [n0] is the node at that moment, from which the request and
    the copy of the peers are taken; [replies] are the results on its channel, in
    the order of arrival, [None] for a call that failed.  A pre-vote changes no
    node ([preVote_no_effect]), so the calls still out when a majority has granted
    are not kept. *)
Inductive Thread :=
  | TPreVote (i : string)
  | TPreVoting (i : string) (n0 : RaftNode) (replies : list (string * option RequestVoteReply))
  | TElection (i : string)
  | TVoteReq (i : string) (eid : nat) (peer : string)
  | TVoteRep (i : string) (eid : nat) (peer : string) (reply : RequestVoteReply)
  | TAppendReq (i peer : string) (term : Z) (args : AppendEntriesArgs)
  | TAppendRep (i peer : string) (term : Z) (args : AppendEntriesArgs) (reply : AppendEntriesReply)
  | TSnapReq (i peer : string) (term : Z) (args : InstallSnapshotArgs)
  | TSnapRep (i peer : string) (term : Z) (args : InstallSnapshotArgs) (reply : InstallSnapshotReply).

Definition owner (t : Thread) : string :=
  match t with
  | TPreVote i | TPreVoting i _ _ | TElection i | TVoteReq i _ _ | TVoteRep i _ _ _ | TAppendReq i _ _ _
  | TAppendRep i _ _ _ _ | TSnapReq i _ _ _ | TSnapRep i _ _ _ _ => i
  end.

(** A goroutine returned by a method of node [i]. *)
Definition thread_of (i : string) (g : Goroutine) : Thread :=
  match g with
  | GoSendToPeer peer term args => TAppendReq i peer term args
  | GoSendSnapshotToPeer peer term args => TSnapReq i peer term args
  end.

Definition spawn1 (m : gmap nat Thread) (t : Thread) : gmap nat Thread :=
  <[fresh (dom m) := t]> m.

Definition spawn (ts : list Thread) (m : gmap nat Thread) : gmap nat Thread := foldl spawn1 m ts.

(** ** State *)

Record Cluster (W : Type) := mkCluster {
  c_net : W;
  c_nodes : nodes;
  c_threads : gmap nat Thread;
  c_elections : gmap nat (string * Election);
  c_granted : gmap nat (list string);
  c_votes : gset (string * Z * string);
  c_abdicated : gset (string * Z)
}.
Arguments mkCluster {W}.
Arguments c_net {W}.
Arguments c_nodes {W}.
Arguments c_threads {W}.
Arguments c_elections {W}.
Arguments c_granted {W}.
Arguments c_votes {W}.
Arguments c_abdicated {W}.

(** ** Steps *)

Inductive label :=
  | LTimeout (i : string)
  | LPreVote (tid : nat)
  | LPreVoteRequest (tid : nat) (peer : string) (expired : bool) (now : Z)
  | LCandidate (tid : nat)
  | LElection (tid : nat)
  | LVoteRequest (tid : nat) (expired : bool) (now : Z)
  | LVoteReply (tid : nat) (now : Z)
  | LTick (i : string) (now : Z)
  | LSubmit (i : string) (command : bytes)
  | LAppendRequest (tid : nat) (expired : bool) (now : Z)
  | LAppendReply (tid : nat) (now : Z)
  | LSnapRequest (tid : nat) (expired : bool)
  | LSnapReply (tid : nat)
  | LTakeSnapshot (i : string) (data : bytes)
  | LApply (i : string)
  | LRestore (i : string)
  | LRestart (i : string).

Section exec.
Context {W : Type} `{!Transport W}.
Implicit Types c : Cluster W.

Definition set_nodes ns c :=
  mkCluster (c_net c) ns (c_threads c) (c_elections c) (c_granted c) (c_votes c) (c_abdicated c).
Definition set_threads ts c :=
  mkCluster (c_net c) (c_nodes c) ts (c_elections c) (c_granted c) (c_votes c) (c_abdicated c).
Definition set_elections es c :=
  mkCluster (c_net c) (c_nodes c) (c_threads c) es (c_granted c) (c_votes c) (c_abdicated c).
Definition set_granted gs c :=
  mkCluster (c_net c) (c_nodes c) (c_threads c) (c_elections c) gs (c_votes c) (c_abdicated c).
Definition set_votes vs c :=
  mkCluster (c_net c) (c_nodes c) (c_threads c) (c_elections c) (c_granted c) vs (c_abdicated c).
Definition set_abdicated ab c :=
  mkCluster (c_net c) (c_nodes c) (c_threads c) (c_elections c) (c_granted c) (c_votes c) ab.
Definition set_net (w : W) c :=
  mkCluster w (c_nodes c) (c_threads c) (c_elections c) (c_granted c) (c_votes c) (c_abdicated c).

(** The goroutine of an RPC goes on with the reply, or ends on an error. *)
Definition resume {Rep} (tid : nat) (k : Rep -> Thread) (r : Rep + net_error)
    (ts : gmap nat Thread) : gmap nat Thread :=
  match r with
  | inl reply => <[tid := k reply]> ts
  | inr _ => delete tid ts
  end.

(** History: the vote of [p] for [cand] in [term], if [p] has cast it. *)
Definition record_vote (ns : nodes) (p : string) (term : Z) (cand : string)
    (vs : gset (string * Z * string)) : gset (string * Z * string) :=
  match ns !! p with
  | Some n => if decide (currentTerm n = term /\ votedFor n = cand) then {[(p, term, cand)]} ∪ vs else vs
  | None => vs
  end.

Definition exec (lbl : label) (c : Cluster W) : option (Cluster W) :=
  match lbl with
  | LTimeout i =>
      n ← c_nodes c !! i;
      if electionEligible n then Some (set_threads (spawn [TPreVote i] (c_threads c)) c) else None
  | LPreVote tid =>
      match c_threads c !! tid with
      | Some (TPreVote i) =>
          n ← c_nodes c !! i;
          Some (set_threads (<[tid := TPreVoting i n []]> (c_threads c)) c)
      | _ => None
      end
  | LPreVoteRequest tid peer expired now =>
      match c_threads c !! tid with
      | Some (TPreVoting i n0 replies) =>
          guard (peer ∈ peers n0 /\ peer ∉ replies.*1);;
          let '(ns, r) := tr_RequestVote (c_net c) i peer expired now (startPreVote_args n0) (c_nodes c) in
          let reply := match r with inl reply => Some reply | inr _ => None end in
          Some (set_threads (<[tid := TPreVoting i n0 (replies ++ [(peer, reply)])]> (c_threads c)) (set_nodes ns c))
      | _ => None
      end
  | LCandidate tid =>
      match c_threads c !! tid with
      | Some (TPreVoting i n0 replies) =>
          let won := startPreVote (peers n0) replies.*2 in
          guard (won = true \/ length replies = length (peers n0));;
          n ← c_nodes c !! i;
          let '(n', started) := afterPreVote won n in
          let ts := delete tid (c_threads c) in
          if (started : bool) then
            guard (currentTerm n + 1 < u64_size);;
            Some (set_votes ({[(i, currentTerm n', i)]} ∪ c_votes c)
                   (set_threads (spawn [TElection i] ts) (set_nodes (<[i := n']> (c_nodes c)) c)))
          else Some (set_threads ts c)
      | _ => None
      end
  | LElection tid =>
      match c_threads c !! tid with
      | Some (TElection i) =>
          n ← c_nodes c !! i;
          let e := startElection_begin n in
          let eid := fresh (dom (c_elections c)) in
          Some (set_granted (<[eid := []]> (c_granted c))
                 (set_elections (<[eid := (i, e)]> (c_elections c))
                   (set_threads (spawn (map (TVoteReq i eid) (el_peers e)) (delete tid (c_threads c))) c)))
      | _ => None
      end
  | LVoteRequest tid expired now =>
      match c_threads c !! tid with
      | Some (TVoteReq i eid peer) =>
          '(_, e) ← c_elections c !! eid;
          let '(ns, r) := tr_RequestVote (c_net c) i peer expired now (el_args e) (c_nodes c) in
          Some (set_votes (record_vote ns peer (el_term e) i (c_votes c))
                 (set_threads (resume tid (TVoteRep i eid peer) r (c_threads c)) (set_nodes ns c)))
      | _ => None
      end
  | LVoteReply tid now =>
      match c_threads c !! tid with
      | Some (TVoteRep i eid peer reply) =>
          n ← c_nodes c !! i;
          '(o, e) ← c_elections c !! eid;
          g ← c_granted c !! eid;
          let '(e', n') := startElection_reply now e n reply in
          Some (set_granted (<[eid := if (el_votes e <? el_votes e')%nat then peer :: g else g]> (c_granted c))
                 (set_elections (<[eid := (o, e')]> (c_elections c))
                   (set_threads (delete tid (c_threads c)) (set_nodes (<[i := n']> (c_nodes c)) c))))
      | _ => None
      end
  | LTick i now =>
      n ← c_nodes c !! i;
      let '(n', gs) := heartbeatTick now n in
      let ab := if decide (state n = Leader /\ state n' = Follower)
                then {[(i, currentTerm n)]} ∪ c_abdicated c else c_abdicated c in
      Some (set_abdicated ab
             (set_threads (spawn (map (thread_of i) gs) (c_threads c))
               (set_nodes (<[i := n']> (c_nodes c)) c)))
  | LSubmit i command =>
      n ← c_nodes c !! i;
      let '(n', _, gs) := Submit n command in
      Some (set_threads (spawn (map (thread_of i) gs) (c_threads c))
             (set_nodes (<[i := n']> (c_nodes c)) c))
  | LAppendRequest tid expired now =>
      match c_threads c !! tid with
      | Some (TAppendReq i peer term args) =>
          let '(ns, r) := tr_AppendEntries (c_net c) i peer expired now args (c_nodes c) in
          Some (set_threads (resume tid (TAppendRep i peer term args) r (c_threads c)) (set_nodes ns c))
      | _ => None
      end
  | LAppendReply tid now =>
      match c_threads c !! tid with
      | Some (TAppendRep i peer term args reply) =>
          n ← c_nodes c !! i;
          Some (set_threads (delete tid (c_threads c))
                 (set_nodes (<[i := sendToPeer_reply now n peer term args reply]> (c_nodes c)) c))
      | _ => None
      end
  | LSnapRequest tid expired =>
      match c_threads c !! tid with
      | Some (TSnapReq i peer term args) =>
          let '(ns, r) := tr_InstallSnapshot (c_net c) i peer expired args (c_nodes c) in
          Some (set_threads (resume tid (TSnapRep i peer term args) r (c_threads c)) (set_nodes ns c))
      | _ => None
      end
  | LSnapReply tid =>
      match c_threads c !! tid with
      | Some (TSnapRep i peer term args reply) =>
          n ← c_nodes c !! i;
          Some (set_threads (delete tid (c_threads c))
                 (set_nodes (<[i := sendSnapshotToPeer_reply n peer term args reply]> (c_nodes c)) c))
      | _ => None
      end
  | LTakeSnapshot i data =>
      n ← c_nodes c !! i;
      Some (set_nodes (<[i := (TakeSnapshot n data).1]> (c_nodes c)) c)
  | LApply i =>
      n ← c_nodes c !! i;
      let la := lastApplied n ⊕ 1 in
      if (lastApplied n <? commitIndex n) && negb (le_IsConfig (log_get (rlog n) la))
      then Some (set_nodes (<[i := set_lastApplied la n]> (c_nodes c)) c)
      else None
  | LRestore i =>
      n ← c_nodes c !! i;
      _ ← snapshotNotifyC n;
      Some (set_nodes (<[i := set_snapshotNotifyC None n]> (c_nodes c)) c)
  | LRestart i =>
      n ← c_nodes c !! i;
      Some (set_threads (filter (λ '(_, t), owner t <> i) (c_threads c))
             (set_nodes (<[i := (boot (config n) (disk n)).1]> (c_nodes c)) c))
  end.

Fixpoint exec_all (ls : list label) (c : Cluster W) : option (Cluster W) :=
  match ls with
  | [] => Some c
  | l :: ls => c' ← exec l c; exec_all ls c'
  end.

(** One transition: a step of the nodes, or a change of the network. *)
Inductive cstep : Cluster W -> Cluster W -> Prop :=
  | cstep_exec lbl c c' : exec lbl c = Some c' -> cstep c c'
  | cstep_net w c : cstep c (set_net w c).
End exec.

(** Asking for a pre-vote changes no node. *)
Lemma preVote_call {W} `{!Transport W} (w : W) i peer expired now n0 ns :
  (tr_RequestVote w i peer expired now (startPreVote_args n0) ns).1 = ns.
Proof.
  pose proof (tr_RequestVote_spec w i peer expired now (startPreVote_args n0) ns) as Hs.
  assert (Hid : forall n, ns !! peer = Some n -> <[peer := (HandleRequestVote now n (startPreVote_args n0)).1]> ns = ns).
  { intros n Hn. unfold HandleRequestVote. simpl. case_match; simpl; by apply insert_id. }
  unfold rpc_spec in Hs. destruct (tr_RequestVote _ _ _ _ _ _ _) as [ns' [r|e]]; simpl in *.
  - destruct Hs as (n & Hn & _ & ->). by apply Hid.
  - destruct Hs as [->|(n & Hn & ->)]; [done|by apply Hid].
Qed.

(** ** Initial states *)

(** The configuration of member [i], as the tests and the chaos harness build
    it: the peers are the other members, under their identifiers. *)
Definition memberConfig (members : list string) (i : string) : Config :=
  mkConfig i (List.filter (λ p, negb (String.eqb p i)) members) 200 400 60 "" "".

Definition emptyDisk : Disk := mkDisk ∅ [].

Definition initNode (members : list string) (i : string) : RaftNode :=
  (boot (memberConfig members i) emptyDisk).1.

Definition initNodes (members : list string) : nodes :=
  list_to_map (map (λ i, (i, initNode members i)) members).

Definition initCluster {W} (w : W) (members : list string) : Cluster W :=
  mkCluster w (initNodes members) ∅ ∅ ∅ ∅ ∅.

Definition reachable {W} `{!Transport W} (members : list string) (c : Cluster W) : Prop :=
  exists w, rtc cstep (initCluster w members) c.

(** ** Scripts of the examples *)

(** The election timer of [i] fires and [p] grants its pre-vote at time [now]. *)
Definition exPreVote (i p : string) (tid : nat) (now : Z) : list label :=
  [LTimeout i; LPreVote tid; LPreVoteRequest tid p false now; LCandidate tid].

(** Times of the examples: nanoseconds after the first second. *)
Definition exTime (t : Z) : Z := 1000 * Millisecond + t.
