(* ===== verification/ElectionSafety.v ===== *)
(** * Election safety of the cluster

    Every step of a node other than voting, standing for election, winning and
    abdicating leaves its vote alone ([quiet]); the invariant [cinv] relates the
    nodes, the goroutines in flight and the history of votes; it holds in every
    reachable state and gives at most one leader per term at any moment. *)

From S2P Require Import Prelude RaftLog Rpc Disk Node Election Replication Snapshot Client Transport Cluster.

(** ** Term and vote on disk *)

(** The state file holds the node's term and vote; with no file, the node is
    still in term 0 and has not voted. *)
Definition saved (n : RaftNode) : Prop :=
  match files (disk n) !! statePath with
  | Some f => exists s, f = mkFile (CState s) true /\
                ps_CurrentTerm s = currentTerm n /\ ps_VotedFor s = votedFor n
  | None => currentTerm n = 0 /\ votedFor n = ""
  end.

Lemma saved_persist n : disk_ok n -> saved (persist n).
Proof.
  intros H. unfold saved. pose proof (persist_durable n H) as Hd. unfold durable in Hd.
  rewrite Hd. eexists. by split_and!.
Qed.

Lemma saved_saveSnapshot i t d n : disk_ok n -> saved n -> saved (saveSnapshot i t d n).1.
Proof.
  intros Hok Hs. unfold saved, saveSnapshot in *. rewrite writeFile_ok by by apply disk_ok_next.
  node_simpl. rewrite lookup_insert_ne, lookup_delete_ne by done. done.
Qed.

Lemma disk_ok_saveSnapshot i t d n : disk_ok n -> disk_ok (saveSnapshot i t d n).1.
Proof. intros H. by apply disk_ok_tail. Qed.

(** Both only read the disk, the term and the vote. *)
Lemma disk_saved_frame n n' :
  disk n' = disk n -> currentTerm n' = currentTerm n -> votedFor n' = votedFor n ->
  disk_ok n /\ saved n -> disk_ok n' /\ saved n'.
Proof. unfold disk_ok, saved. by intros -> -> ->. Qed.

Lemma disk_saved_persist n : disk_ok n -> disk_ok (persist n) /\ saved (persist n).
Proof. intros. split; [by apply persist_disk_ok|by apply saved_persist]. Qed.

(** ** Steps that leave the vote alone *)

Record quiet (n n' : RaftNode) : Prop := {
  q_id : nid n' = nid n;
  q_peers : peers n' = peers n;
  q_cfg : cfg_Peers (config n') = cfg_Peers (config n) /\ cfg_ID (config n') = cfg_ID (config n);
  q_term : currentTerm n <= currentTerm n';
  q_same : currentTerm n' = currentTerm n ->
    votedFor n' = votedFor n /\ (state n' = state n \/ state n' = Follower);
  q_up : currentTerm n < currentTerm n' -> votedFor n' = "" /\ state n' = Follower;
  q_disk : disk_ok n -> saved n -> disk_ok n' /\ saved n'
}.

#[export] Instance quiet_preorder : PreOrder quiet.
Proof.
  split.
  - intros n. split; auto with lia.
  - intros n1 n2 n3 [] []. destruct q_cfg0, q_cfg1.
    split; [congruence|congruence|split; congruence|lia| | |].
    + intros Heq. destruct q_same0 as [Hv1 Hs1]; [lia|]. destruct q_same1 as [Hv2 Hs2]; [lia|].
      split; [congruence|]. destruct Hs2 as [->|]; auto.
    + intros Hlt. destruct (decide (currentTerm n2 = currentTerm n3)) as [He|].
      * destruct q_same1 as [Hv2 Hs2]; [done|]. destruct q_up0 as [Hv1 Hs1]; [lia|].
        split; [congruence|]. destruct Hs2; congruence.
      * apply q_up1. lia.
    + intros Hd Hs. apply q_disk1; by apply q_disk0.
Qed.

(** A step that changes none of the fields of the definition, up to a
    step-down to follower in the same term. *)
Lemma quiet_frame n n' :
  nid n' = nid n -> peers n' = peers n -> config n' = config n -> currentTerm n' = currentTerm n ->
  votedFor n' = votedFor n -> (state n' = state n \/ state n' = Follower) -> disk n' = disk n ->
  quiet n n'.
Proof.
  intros H1 H2 H3 H4 H5 H6 H7. split; [done|done|by rewrite H3|lia|done|lia|].
  unfold disk_ok, saved. rewrite H4, H5, H7. done.
Qed.

Ltac quiet_frame := apply quiet_frame; node_unfold; by auto.

Lemma quiet_persist n : quiet n (persist n).
Proof.
  split; [done|done|done|node_unfold; lia|auto|node_unfold; lia|]. intros Hd Hs.
  split; [by apply persist_disk_ok|by apply saved_persist].
Qed.

Lemma quiet_becomeFollower t n : currentTerm n < t -> quiet n (becomeFollower t n).
Proof.
  intros Ht. split; [done|done|done|node_unfold; lia|node_unfold; lia|done|].
  intros Hd Hs. split; [by apply becomeFollower_disk_ok|]. by apply saved_persist.
Qed.

Lemma quiet_saveSnapshot i t d n : quiet n (saveSnapshot i t d n).1.
Proof.
  split; [done|done|done|simpl; lia|auto|simpl; lia|].
  intros Hd Hs. split; [by apply disk_ok_saveSnapshot|by apply saved_saveSnapshot].
Qed.

Lemma quiet_acceptEntries n args : quiet n (acceptEntries n args).1.
Proof.
  unfold acceptEntries. cbv zeta. node_simpl.
  set (l := appendLoop (rlog n) (ae_Entries args)).
  set (m := if ae_LeaderCommit args >? commitIndex n then _ else _).
  assert (Hm : quiet n m) by (subst m; case_match; quiet_frame).
  etransitivity; [apply Hm|]. etransitivity; [apply quiet_persist|].
  case_match; quiet_frame.
Qed.

Lemma quiet_ae_prelude now n args : quiet n (ae_prelude now n args).
Proof.
  unfold ae_prelude. destruct (ae_Term args >? currentTerm n) eqn:Hgt.
  - etransitivity; [apply (quiet_becomeFollower (ae_Term args)); lia|]. quiet_frame.
  - case_match; quiet_frame.
Qed.

Lemma quiet_HandleAppendEntries now n args : quiet n (HandleAppendEntries now n args).1.
Proof.
  destruct (decide (ae_Term args < currentTerm n)).
  { by rewrite HandleAppendEntries_stale. }
  rewrite HandleAppendEntries_current by lia. pose proof (quiet_ae_prelude now n args) as Hp.
  destruct (consistencyCheck _ _); [done|]. etransitivity; [apply Hp|]. apply quiet_acceptEntries.
Qed.

Lemma quiet_HandleInstallSnapshot n args : quiet n (HandleInstallSnapshot n args).1.
Proof.
  unfold HandleInstallSnapshot.
  set (m := if is_Term args >? currentTerm n then _ else _).
  assert (Hm : quiet n m).
  { subst m. case_match; [apply quiet_becomeFollower; lia|done]. }
  clearbody m. destruct (is_Term args <? currentTerm m); [done|]. cbv zeta.
  set (m1 := notifyHeartbeat _). assert (Hm1 : quiet n m1).
  { etransitivity; [apply Hm|]. subst m1. quiet_frame. }
  clearbody m1. case_match; [done|].
  destruct (saveSnapshot _ _ _ m1) as [m2 err] eqn:Hsave.
  assert (Hm2 : quiet n m2).
  { etransitivity; [apply Hm1|]. replace m2 with (saveSnapshot (is_LastIncludedIndex args)
      (is_LastIncludedTerm args) (is_Data args) m1).1 by by rewrite Hsave. apply quiet_saveSnapshot. }
  clear Hsave. destruct err; [done|]. simpl. etransitivity; [apply Hm2|].
  set (m3 := if commitIndex _ <? _ then _ else _). assert (Hm3 : quiet m2 m3).
  { subst m3. repeat case_match; quiet_frame. }
  etransitivity; [apply Hm3|]. etransitivity; [apply quiet_persist|]. quiet_frame.
Qed.

Lemma quiet_maybeCommit n : quiet n (maybeCommit n).
Proof. unfold maybeCommit. cbv zeta. case_match; [quiet_frame|done]. Qed.

Lemma quiet_sendToPeer_reply now n peer term args reply :
  quiet n (sendToPeer_reply now n peer term args reply).
Proof.
  unfold sendToPeer_reply. destruct (aer_Term reply >? currentTerm n) eqn:?.
  { apply quiet_becomeFollower. lia. }
  destruct (_ || _); [done|]. cbv zeta. destruct (aer_Success reply); [|quiet_frame].
  etransitivity; [|apply quiet_maybeCommit]. case_match; quiet_frame.
Qed.

Lemma quiet_sendSnapshotToPeer_reply n peer term args reply :
  quiet n (sendSnapshotToPeer_reply n peer term args reply).
Proof.
  unfold sendSnapshotToPeer_reply. destruct (isr_Term reply >? currentTerm n) eqn:?.
  { apply quiet_becomeFollower. lia. }
  destruct (_ || _); [done|]. cbv zeta. case_match; quiet_frame.
Qed.

Lemma quiet_Submit n command : quiet n (Submit n command).1.1.
Proof.
  unfold Submit. case_match; [done|]. cbv zeta. simpl.
  etransitivity; [|apply quiet_persist]. quiet_frame.
Qed.

Lemma quiet_TakeSnapshot n data : quiet n (TakeSnapshot n data).1.
Proof.
  unfold TakeSnapshot. case_match; [done|].
  destruct (saveSnapshot _ _ _ n) as [m err] eqn:Hsave.
  assert (Hm : quiet n m).
  { replace m with (saveSnapshot (lastApplied n) (le_Term (log_get (rlog n) (lastApplied n))) data n).1
      by by rewrite Hsave. apply quiet_saveSnapshot. }
  destruct err; [done|]. etransitivity; [apply Hm|]. simpl.
  etransitivity; [|apply quiet_persist]. quiet_frame.
Qed.

Lemma quiet_restoreFromSnapshot n : quiet n (restoreFromSnapshot n).1.
Proof.
  unfold restoreFromSnapshot, loadSnapshotFile. simpl.
  assert (Hd : quiet n (set_disk (drop_fault (disk n)) n)).
  { split; [done|done|done|node_simpl; lia|auto|node_simpl; lia|]. intros H Hs.
    split; [by apply disk_ok_tail|done]. }
  repeat case_match; simplify_eq/=; (etransitivity; [apply Hd|]); quiet_frame.
Qed.

(** ** Restarts, ticks and votes *)

(** A restart in a healthy data directory keeps the term and the vote. *)
Lemma quiet_boot n :
  peers n = cfg_Peers (config n) -> nid n = cfg_ID (config n) -> disk_ok n -> saved n ->
  quiet n (boot (config n) (disk n)).1.
Proof.
  intros Hp Hi Hd Hs. unfold boot, Run_init. etransitivity; [|apply quiet_restoreFromSnapshot].
  pose proof (disk_ok_next n Hd) as Hf. pose proof Hs as Hs'. unfold saved in Hs'.
  assert (Hl : (loadState (NewRaftNode (config n) (disk n))).1 =
    match files (disk n) !! statePath with
    | Some f => match f_content f with
                | CState s => set_rlog (mkLog (ps_Entries s)) (set_votedFor (ps_VotedFor s)
                    (set_currentTerm (ps_CurrentTerm s)
                      (set_disk (drop_fault (disk n)) (NewRaftNode (config n) (disk n)))))
                | _ => set_disk (drop_fault (disk n)) (NewRaftNode (config n) (disk n))
                end
    | None => set_disk (drop_fault (disk n)) (NewRaftNode (config n) (disk n))
    end).
  { unfold loadState, readFile. node_simpl.
    change (disk (NewRaftNode (config n) (disk n))) with (disk n).
    destruct (files (disk n) !! statePath) as [f|]; [|done]. rewrite Hf.
    by destruct (f_content f). }
  rewrite Hl. clear Hl.
  destruct (files (disk n) !! statePath) as [f|] eqn:Hfile.
  - destruct Hs' as (s & -> & Ht & Hv). simpl.
    split; simpl; [done|done|by auto|lia|by auto|lia|]. intros _ _. split; [by apply disk_ok_tail|].
    unfold saved. simpl. rewrite Hfile. by exists s.
  - destruct Hs' as [Ht Hv]. split; simpl; [done|done|by auto|lia|by auto|lia|].
    intros _ _. split; [by apply disk_ok_tail|]. unfold saved. simpl. by rewrite Hfile.
Qed.

(** A tick either leaves the vote alone, or is a leader's abdication. *)
Definition abdicates (n n' : RaftNode) : Prop :=
  state n = Leader /\ state n' = Follower /\ currentTerm n' = currentTerm n /\ votedFor n' = "" /\
  nid n' = nid n /\ peers n' = peers n /\ config n' = config n /\
  (disk_ok n -> disk_ok n' /\ saved n').

Lemma tick_cases now n :
  let n' := (heartbeatTick now n).1 in
  (quiet n n' /\ state n' = state n) \/ abdicates n n'.
Proof.
  cbv zeta. unfold heartbeatTick. destruct (NodeState_eqb (state n) Leader) eqn:Hs; [|by left].
  unfold checkQuorum. rewrite Hs. apply NodeState_eqb_true in Hs. simpl. case_match.
  - right. split_and!; try done. intros Hd.
    apply (disk_saved_frame (becomeFollower (currentTerm n) n)); [done..|]. by apply disk_saved_persist.
  - left. split; [quiet_frame|done].
Qed.

(** A vote: the term and candidate of the request, cast when free to. *)
Definition votes_for (n n' : RaftNode) (term : Z) (cand : string) : Prop :=
  currentTerm n' = term /\ votedFor n' = cand /\ currentTerm n <= term /\
  (currentTerm n = term -> (votedFor n = "" \/ votedFor n = cand) /\ state n' = state n) /\
  (currentTerm n < term -> state n' = Follower) /\
  nid n' = nid n /\ peers n' = peers n /\ config n' = config n /\
  (disk_ok n -> disk_ok n' /\ saved n').

Lemma vote_cases now n args :
  rv_IsPreVote args = false ->
  let '(n', r) := HandleRequestVote now n args in
  (rvr_VoteGranted r = false /\ quiet n n') \/
  (rvr_VoteGranted r = true /\ votes_for n n' (rv_Term args) (rv_CandidateID args)).
Proof.
  intros Hp. unfold HandleRequestVote. rewrite Hp.
  set (m := if rv_Term args >? currentTerm n then _ else _).
  assert (Hm : quiet n m).
  { subst m. case_match; [apply quiet_becomeFollower; lia|done]. }
  destruct (rv_Term args <? currentTerm m) eqn:Hlt; [by left|].
  destruct (_ && candidateUpToDate m args) eqn:Hc; [right|by left]. split; [done|].
  apply andb_true_iff in Hc as [Hv%canVote_true _].
  assert (Ht : currentTerm m = rv_Term args).
  { subst m. case_match eqn:Hgt; [done|lia]. }
  unfold votes_for. split_and!; try done.
  - pose proof (q_term _ _ Hm). lia.
  - intros Heq. destruct (q_same _ _ Hm) as [Hvm _]; [lia|]. subst m.
    replace (rv_Term args >? currentTerm n) with false in * by lia. done.
  - intros Hgt. apply (q_up _ _ Hm). lia.
  - apply Hm.
  - apply Hm.
  - subst m. by case_match.
  - intros Hd. assert (Hdm : disk_ok m).
    { subst m. case_match; [by apply becomeFollower_disk_ok|done]. }
    apply (disk_saved_frame (persist (set_votedFor (rv_CandidateID args) m))); [done..|].
    by apply disk_saved_persist.
Qed.

(** ** The invariant of the nodes *)

Definition has_quorum (votes : gset (string * Z * string)) (members : list string)
    (l : string) (T : Z) : Prop :=
  exists Q, NoDup Q /\ Q ⊆ members /\ (length members < 2 * length Q)%nat /\
    forall q, q ∈ Q -> (q, T, l) ∈ votes.

Record node_ok (members : list string) (i : string) (n : RaftNode) : Prop := {
  no_id : nid n = i;
  no_nonempty : i <> "";
  no_member : i ∈ members;
  no_nodup : NoDup (peers n);
  no_self : i ∉ peers n;
  no_peers : peers n ⊆ members;
  no_size : S (length (peers n)) = length members;
  no_cfg : cfg_Peers (config n) = peers n /\ cfg_ID (config n) = i;
  no_disk : disk_ok n /\ saved n;
  no_term : 0 <= currentTerm n
}.

(** [vs] are the votes cast so far, [ab] the abdications.  A member votes twice
    in a term only if it abdicated in it, and then one of the votes was its
    own. *)
Record ninv (members : list string) (ns : nodes) (vs : gset (string * Z * string))
    (ab : gset (string * Z)) : Prop := {
  ni_node : forall i n, ns !! i = Some n -> node_ok members i n;
  ni_votes : forall v T d, (v, T, d) ∈ vs -> d <> "" /\
    exists n, ns !! v = Some n /\ T <= currentTerm n /\
      (T = currentTerm n -> votedFor n = d \/ (d = v /\ (v, T) ∈ ab));
  ni_once : forall v T d1 d2, (v, T, d1) ∈ vs -> (v, T, d2) ∈ vs ->
    d1 = d2 \/ ((v, T) ∈ ab /\ (d1 = v \/ d2 = v));
  ni_abd : forall v T, (v, T) ∈ ab ->
    exists n, ns !! v = Some n /\ T <= currentTerm n /\ (T = currentTerm n -> state n = Follower);
  ni_self : forall i n, ns !! i = Some n -> state n <> Follower ->
    votedFor n = i /\ (i, currentTerm n, i) ∈ vs;
  ni_leader : forall i n, ns !! i = Some n -> state n = Leader ->
    has_quorum vs members i (currentTerm n)
}.

Lemma has_quorum_mono vs vs' members l T :
  vs ⊆ vs' -> has_quorum vs members l T -> has_quorum vs' members l T.
Proof. intros Hs (Q & ? & ? & ? & ?). exists Q. split_and!; auto. Qed.

(** The identity, the peers and the disk of a member are stable. *)
Lemma node_ok_update members i n n' :
  node_ok members i n -> nid n' = nid n -> peers n' = peers n ->
  cfg_Peers (config n') = cfg_Peers (config n) -> cfg_ID (config n') = cfg_ID (config n) ->
  disk_ok n' /\ saved n' -> currentTerm n <= currentTerm n' -> node_ok members i n'.
Proof. intros [] Hi Hp Hc1 Hc2 Hd Ht. split; rewrite ?Hi, ?Hp, ?Hc1, ?Hc2; done || lia. Qed.

Lemma node_ok_quiet members i n n' : node_ok members i n -> quiet n n' -> node_ok members i n'.
Proof.
  intros Hok Hq. pose proof (no_disk _ _ _ Hok) as [Hd Hs].
  apply (node_ok_update members i n); [done|apply Hq..| |apply Hq]. by apply Hq.
Qed.

Section node_steps.
Context (members : list string) (ns : nodes) (vs : gset (string * Z * string)) (ab : gset (string * Z)).
Context (i : string) (n : RaftNode) (Hinv : ninv members ns vs ab) (Hn : ns !! i = Some n).

(** The obligations of an update of node [i]: what holds of the other nodes
    is inherited. *)
Lemma ninv_update n' vs' ab' :
  vs ⊆ vs' -> ab ⊆ ab' ->
  node_ok members i n' ->
  (forall v T d, (v, T, d) ∈ vs' -> (v, T, d) ∉ vs -> v = i /\ d <> "" /\ T = currentTerm n' /\ votedFor n' = d) ->
  (forall v T, (v, T) ∈ ab' -> (v, T) ∉ ab -> v = i /\ T <= currentTerm n') ->
  currentTerm n <= currentTerm n' ->
  (forall d, (i, currentTerm n', d) ∈ vs -> votedFor n' = d \/ (d = i /\ (i, currentTerm n') ∈ ab')) ->
  ((i, currentTerm n') ∈ ab' -> state n' = Follower) ->
  (state n' <> Follower -> votedFor n' = i /\ (i, currentTerm n', i) ∈ vs') ->
  (state n' = Leader -> has_quorum vs' members i (currentTerm n')) ->
  ninv members (<[i := n']> ns) vs' ab'.
Proof using All.
  intros Hvs Hab Hok Hnew Hnewab Hle Hv Hf Hs Hl. destruct Hinv.
  assert (Hcur : forall T d, (i, T, d) ∈ vs' -> T <= currentTerm n' /\ d <> "" /\
    (T = currentTerm n' -> votedFor n' = d \/ (d = i /\ (i, T) ∈ ab'))).
  { intros T d Hin. destruct (decide ((i, T, d) ∈ vs)) as [Ho|Ho].
    - destruct (ni_votes0 i T d Ho) as (? & m & Hm & ? & _). simplify_eq.
      split_and!; [lia|done|]. intros ->. by apply Hv.
    - destruct (Hnew _ _ _ Hin Ho) as (_ & ? & -> & ?). split_and!; [lia|done|by left]. }
  split.
  - intros j m. destruct (decide (i = j)) as [<-|]; simplify_map_eq; [by intros [= <-]|by eauto].
  - intros v T d Hin. destruct (decide (i = v)) as [<-|Hne].
    + destruct (Hcur T d Hin) as (? & ? & ?). split; [done|]. exists n'. by simplify_map_eq.
    + destruct (decide ((v, T, d) ∈ vs)) as [Ho|Ho]; [|by destruct (Hnew _ _ _ Hin Ho) as [-> _]].
      destruct (ni_votes0 v T d Ho) as (? & m & ? & ? & Hd). split; [done|]. exists m.
      simplify_map_eq. split_and!; [done|done|]. intros E. destruct (Hd E) as [|[]]; auto.
  - intros v T d1 d2 H1 H2.
    destruct (decide ((v, T, d1) ∈ vs)) as [Ho1|Ho1], (decide ((v, T, d2) ∈ vs)) as [Ho2|Ho2].
    + destruct (ni_once0 v T d1 d2 Ho1 Ho2) as [|[]]; [by left|right]. auto.
    + destruct (Hnew _ _ _ H2 Ho2) as (-> & _ & -> & Hvd). destruct (Hv d1 Ho1) as [|[-> ?]]; [left; congruence|].
      right. by auto.
    + destruct (Hnew _ _ _ H1 Ho1) as (-> & _ & -> & Hvd). destruct (Hv d2 Ho2) as [|[-> ?]]; [left; congruence|].
      right. by auto.
    + destruct (Hnew _ _ _ H1 Ho1) as (-> & _ & -> & Hvd). destruct (Hnew _ _ _ H2 Ho2) as (_ & _ & _ & Hvd2).
      left. congruence.
  - intros v T Hin. destruct (decide (i = v)) as [<-|Hne].
    + exists n'. split; [by simplify_map_eq|]. destruct (decide ((i, T) ∈ ab)) as [Ho|Ho].
      * destruct (ni_abd0 i T Ho) as (m & ? & ? & ?). simplify_eq. split; [lia|]. intros ->. by apply Hf.
      * destruct (Hnewab _ _ Hin Ho) as [_ ?]. split; [done|]. intros ->. by apply Hf.
    + destruct (decide ((v, T) ∈ ab)) as [Ho|Ho]; [|by destruct (Hnewab _ _ Hin Ho) as [-> _]].
      destruct (ni_abd0 v T Ho) as (m & ? & ? & ?). exists m. by simplify_map_eq.
  - intros j m. destruct (decide (i = j)) as [<-|]; simplify_map_eq; [by intros [= <-]|].
    intros Hm Hsm. destruct (ni_self0 j m Hm Hsm). auto.
  - intros j m. destruct (decide (i = j)) as [<-|]; simplify_map_eq; [by intros [= <-]|].
    intros Hm Hsm. eapply has_quorum_mono; [done|]. by apply ni_leader0.
Qed.

Lemma ninv_quiet n' : quiet n n' -> ninv members (<[i := n']> ns) vs ab.
Proof using All.
  intros Hq. pose proof (ni_node _ _ _ _ Hinv i n Hn) as Hok.
  apply ninv_update; [done|done|by eapply node_ok_quiet|done|done|apply Hq|..].
  - intros d Hin. destruct (ni_votes _ _ _ _ Hinv _ _ _ Hin) as (_ & m & ? & Hle & Hd). simplify_eq.
    pose proof (q_term _ _ Hq). assert (He : currentTerm n' = currentTerm n) by lia.
    destruct (q_same _ _ Hq He) as [-> _]. rewrite He in *. by apply Hd.
  - intros Hin. destruct (ni_abd _ _ _ _ Hinv _ _ Hin) as (m & ? & Hle & Hd). simplify_eq.
    pose proof (q_term _ _ Hq). assert (He : currentTerm n' = currentTerm n) by lia.
    destruct (q_same _ _ Hq He) as [_ [->|?]]; auto.
  - intros Hs. destruct (decide (currentTerm n' = currentTerm n)) as [He|Hne].
    + destruct (q_same _ _ Hq He) as [-> [Hs'|?]]; [|done]. rewrite He.
      apply (ni_self _ _ _ _ Hinv i n Hn). congruence.
    + destruct (q_up _ _ Hq); [pose proof (q_term _ _ Hq); lia|done].
  - intros Hs. destruct (decide (currentTerm n' = currentTerm n)) as [He|Hne].
    + destruct (q_same _ _ Hq He) as [_ [Hs'|?]]; [|congruence]. rewrite He.
      apply (ni_leader _ _ _ _ Hinv i n Hn). congruence.
    + destruct (q_up _ _ Hq); [pose proof (q_term _ _ Hq); lia|congruence].
Qed.

(** A vote that is cast, before it is recorded. *)
Lemma ninv_cast n' T cand :
  votes_for n n' T cand -> cand <> "" -> ninv members (<[i := n']> ns) vs ab.
Proof using All.
  intros (HT & Hv & Hle & Hsame & Hup & H1 & H2 & H3 & H4) Hc.
  pose proof (ni_node _ _ _ _ Hinv i n Hn) as Hok. subst T.
  assert (Hcase : currentTerm n' = currentTerm n \/ state n' = Follower) by
    (destruct (decide (currentTerm n' = currentTerm n)); [by left|right; apply Hup; lia]).
  assert (Hself : state n' <> Follower -> currentTerm n' = currentTerm n /\ state n = state n' /\
    votedFor n = i /\ cand = i /\ (i, currentTerm n, i) ∈ vs).
  { intros Hs. destruct Hcase as [He|]; [|done]. destruct Hsame as [Hvn Hst]; [done|].
    destruct (ni_self _ _ _ _ Hinv i n Hn) as [Hvi Hin]; [congruence|].
    split_and!; try done. destruct Hvn as [Hvn|Hvn]; [|congruence].
    destruct (no_nonempty _ _ _ Hok). congruence. }
  apply ninv_update; [done|done|..|done|done|done| | | |].
  - apply (node_ok_update members i n); try done; (try by rewrite H3); (try lia). apply H4, (no_disk _ _ _ Hok).
  - intros d Hin. destruct (ni_votes _ _ _ _ Hinv _ _ _ Hin) as (Hd & m & ? & ? & Hm). simplify_eq.
    assert (He : currentTerm n' = currentTerm n) by lia. destruct Hsame as [Hvn _]; [done|].
    destruct (Hm He) as [<-|]; [left|by right]. destruct Hvn; congruence.
  - intros Hin. destruct (ni_abd _ _ _ _ Hinv _ _ Hin) as (m & ? & Hm & Hf). simplify_eq.
    destruct (decide (state n' = Follower)) as [|Hs]; [done|].
    destruct (Hself Hs) as (He & Hst & _). rewrite <- Hst. by apply Hf.
  - intros Hs. destruct (Hself Hs) as (He & _ & _ & Hci & Hin). rewrite He. split; [congruence|done].
  - intros Hs. destruct Hself as (He & Hst & _); [congruence|]. rewrite He.
    apply (ni_leader _ _ _ _ Hinv i n Hn). congruence.
Qed.

(** Recording the vote a node has cast in its current term. *)
Lemma ninv_record :
  votedFor n <> "" -> ninv members ns ({[(i, currentTerm n, votedFor n)]} ∪ vs) ab.
Proof using All.
  intros Hv. rewrite <- (insert_id ns i n) at 1 by done.
  apply ninv_update; [set_solver|done|by apply (ni_node _ _ _ _ Hinv)|..|done|lia| | | |].
  - intros v T d [[= -> -> ->]%elem_of_singleton|]%elem_of_union ?; [|done]. done.
  - intros d Hin. destruct (ni_votes _ _ _ _ Hinv _ _ _ Hin) as (_ & m & ? & ? & Hd). simplify_eq. auto.
  - intros Hin. destruct (ni_abd _ _ _ _ Hinv _ _ Hin) as (m & ? & Hm & Hf). simplify_eq. auto.
  - intros Hs. destruct (ni_self _ _ _ _ Hinv i n Hn Hs). split; [done|]. apply elem_of_union. auto.
  - intros Hs. eapply has_quorum_mono; [|by apply (ni_leader _ _ _ _ Hinv)]. apply union_subseteq_r.
Qed.

Lemma ninv_candidate :
  currentTerm n + 1 < u64_size ->
  ninv members (<[i := becomeCandidate n]> ns) ({[(i, currentTerm n ⊕ 1, i)]} ∪ vs) ab.
Proof using All.
  intros Hb. pose proof (ni_node _ _ _ _ Hinv i n Hn) as Hok. pose proof (no_term _ _ _ Hok) as H0.
  assert (HT : currentTerm (becomeCandidate n) = currentTerm n + 1) by (node_unfold; u64_lia).
  replace (currentTerm n ⊕ 1) with (currentTerm n + 1) by u64_lia.
  apply ninv_update; [apply union_subseteq_r|done|..|done|lia| | | |]; rewrite ?HT.
  - destruct (no_disk _ _ _ Hok) as [Hd _].
    apply (node_ok_update members i n); try done; [|lia]. split.
    + by apply (persist_disk_ok (set_leaderID "" (set_votedFor (nid n) (set_currentTerm (currentTerm n ⊕ 1) (set_state Candidate n))))).
    + by apply saved_persist.
  - intros v T d [[= -> -> ->]%elem_of_singleton|]%elem_of_union ?; [|done].
    split_and!; [done|apply Hok|done|apply Hok].
  - intros d Hin. destruct (ni_votes _ _ _ _ Hinv _ _ _ Hin) as (_ & m & ? & ? & _). simplify_eq. lia.
  - intros Hin. destruct (ni_abd _ _ _ _ Hinv _ _ Hin) as (m & ? & ? & _). simplify_eq. lia.
  - intros _. split; [apply Hok|set_solver].
  - done.
Qed.

Lemma ninv_abdicate n' :
  abdicates n n' -> ninv members (<[i := n']> ns) vs ({[(i, currentTerm n)]} ∪ ab).
Proof using All.
  intros (Hs & Hs' & HT & Hv & H1 & H2 & H3 & H4). pose proof (ni_node _ _ _ _ Hinv i n Hn) as Hok.
  apply ninv_update; [done|apply union_subseteq_r|..|done| |lia| |done|congruence|congruence].
  - apply (node_ok_update members i n); try done; (try by rewrite H3); (try lia). apply H4, (no_disk _ _ _ Hok).
  - intros v T [[= -> ->]%elem_of_singleton|]%elem_of_union ?; [|done]. split; [done|lia].
  - intros d. rewrite HT. intros Hin. right. split; [|set_solver].
    destruct (ni_votes _ _ _ _ Hinv _ _ _ Hin) as (_ & m & ? & ? & Hd). simplify_eq.
    destruct (ni_self _ _ _ _ Hinv i n Hn) as [Hvi _]; [congruence|].
    destruct Hd as [|[]]; congruence.
Qed.

Lemma ninv_leader now :
  state n = Candidate -> has_quorum vs members i (currentTerm n) ->
  ninv members (<[i := becomeLeader now n]> ns) vs ab.
Proof using All.
  intros Hs Hq. pose proof (ni_node _ _ _ _ Hinv i n Hn) as Hok.
  destruct (becomeLeader_fields now n) as (F1 & _ & F3 & F4 & F5 & F6 & _ & _ & _ & F10 & F11).
  destruct (ni_self _ _ _ _ Hinv i n Hn) as [Hvi Hin]; [congruence|].
  apply ninv_update; rewrite ?F1, ?F5, ?F6; try done.
  - apply (node_ok_update members i n); rewrite ?F3, ?F4, ?F11; try done; [|lia].
    unfold disk_ok, saved. rewrite F10, F5, F6. apply Hok.
  - intros d Hd. destruct (ni_votes _ _ _ _ Hinv _ _ _ Hd) as (_ & m & ? & ? & Hm). simplify_eq. auto.
  - intros Ha. destruct (ni_abd _ _ _ _ Hinv _ _ Ha) as (m & ? & ? & Hf). simplify_eq.
    rewrite Hf in Hs by done. done.
Qed.
End node_steps.

(** Two leaders of a term are the same member. *)
Lemma ninv_one_leader members ns vs ab i j n m :
  ninv members ns vs ab -> ns !! i = Some n -> ns !! j = Some m ->
  state n = Leader -> state m = Leader -> currentTerm n = currentTerm m -> i = j.
Proof.
  intros Hinv Hi Hj Hln Hlm HT.
  destruct (ni_leader _ _ _ _ Hinv i n Hi Hln) as (Q1 & ? & ? & ? & HQ1).
  destruct (ni_leader _ _ _ _ Hinv j m Hj Hlm) as (Q2 & ? & ? & ? & HQ2).
  destruct (quorum_intersect members Q1 Q2) as (q & Hq1 & Hq2); [done..|lia|].
  specialize (HQ1 q Hq1). specialize (HQ2 q Hq2). rewrite <- HT in HQ2.
  destruct (ni_once _ _ _ _ Hinv _ _ _ _ HQ1 HQ2) as [|[Hab Hd]]; [done|].
  destruct (ni_abd _ _ _ _ Hinv _ _ Hab) as (k & Hk & _ & Hf).
  destruct Hd; subst q; simplify_eq; rewrite Hf in *; done.
Qed.

(** ** The invariant of the goroutines *)

(** The election and the peer a goroutine collects a vote for. *)
Definition thread_key (t : Thread) : option (nat * string) :=
  match t with
  | TVoteReq _ eid p | TVoteRep _ eid p _ => Some (eid, p)
  | _ => None
  end.

(** What an election has counted: the candidate's own vote and one vote of
    each member of [g]. *)
Record election_ok (members : list string) (vs : gset (string * Z * string)) (i : string)
    (e : Election) (g : list string) : Prop := {
  eo_votes : el_votes e = S (length g);
  eo_nodup : NoDup g;
  eo_sub : g ⊆ el_peers e;
  eo_cast : forall p, p ∈ g -> (p, el_term e, i) ∈ vs;
  eo_majority : el_majority e = majority (length (el_peers e));
  eo_peers : NoDup (el_peers e) /\ (i ∉ el_peers e) /\ (el_peers e ⊆ members) /\ i ∈ members /\ i <> "" /\
    S (length (el_peers e)) = length members;
  eo_args : rv_Term (el_args e) = el_term e /\ rv_CandidateID (el_args e) = i /\
    rv_IsPreVote (el_args e) = false
}.

Section threads.
Context (members : list string).
Implicit Types (vs : gset (string * Z * string)) (es : gmap nat (string * Election)).
Implicit Types (gs : gmap nat (list string)) (ts : gmap nat Thread).

(** A goroutine of election [eid] for [p]: the vote of [p] is not counted yet. *)
Definition vote_thread_ok es gs (i : string) (eid : nat) (p : string) : Prop :=
  exists e g, es !! eid = Some (i, e) /\ gs !! eid = Some g /\ p ∈ el_peers e /\ p ∉ g.

Definition thread_ok vs es gs (t : Thread) : Prop :=
  match t with
  | TVoteReq i eid p => vote_thread_ok es gs i eid p
  | TVoteRep i eid p r => vote_thread_ok es gs i eid p /\
      forall e, es !! eid = Some (i, e) -> rvr_VoteGranted r = true -> (p, el_term e, i) ∈ vs
  | _ => True
  end.

Definition unique_keys ts : Prop :=
  forall k1 k2 t1 t2 x, ts !! k1 = Some t1 -> ts !! k2 = Some t2 ->
    thread_key t1 = Some x -> thread_key t2 = Some x -> k1 = k2.

Record tinv vs es gs ts : Prop := {
  ti_elections : forall eid i e, es !! eid = Some (i, e) ->
    exists g, gs !! eid = Some g /\ election_ok members vs i e g;
  ti_threads : forall k t, ts !! k = Some t -> thread_ok vs es gs t;
  ti_unique : unique_keys ts
}.

Lemma election_ok_mono vs vs' i e g :
  vs ⊆ vs' -> election_ok members vs i e g -> election_ok members vs' i e g.
Proof. intros Hs []. split; auto. Qed.

Lemma tinv_mono vs vs' es gs ts : vs ⊆ vs' -> tinv vs es gs ts -> tinv vs' es gs ts.
Proof.
  intros Hs [He Ht Hu]. split; [|intros k t Hk; specialize (Ht k t Hk)|done].
  - intros eid i e Hi. destruct (He _ _ _ Hi) as (g & ? & ?). exists g. eauto using election_ok_mono.
  - destruct t; try done. destruct Ht as [? Hc]. split; [done|]. eauto.
Qed.

(** Goroutines that end. *)
Lemma tinv_sub vs es gs ts ts' : ts' ⊆ ts -> tinv vs es gs ts -> tinv vs es gs ts'.
Proof.
  intros Hs [He Ht Hu]. split; [done| |].
  - intros k t Hk. eapply Ht, lookup_weaken; eauto.
  - intros k1 k2 t1 t2 x H1 H2. apply Hu; eapply lookup_weaken; eauto.
Qed.

(** Goroutines that start, one at a time. *)
Lemma spawn1_lookup ts t k t' :
  spawn1 ts t !! k = Some t' -> (k = fresh (dom ts) /\ t' = t) \/ ts !! k = Some t'.
Proof.
  unfold spawn1. destruct (decide (fresh (dom ts) = k)) as [<-|Hk].
  - rewrite lookup_insert_eq. intros [= <-]. by left.
  - rewrite lookup_insert_ne by done. by right.
Qed.

Lemma tinv_spawn1 vs es gs ts t :
  tinv vs es gs ts -> thread_ok vs es gs t ->
  (forall x k t', thread_key t = Some x -> ts !! k = Some t' -> thread_key t' <> Some x) ->
  tinv vs es gs (spawn1 ts t).
Proof.
  intros [He Ht Hu] Hok Hnew. split; [done| |].
  - intros k t' [[_ ->]|]%spawn1_lookup; eauto.
  - intros k1 k2 t1 t2 x [[-> ->]|H1]%spawn1_lookup [[-> ->]|H2]%spawn1_lookup Hx1 Hx2; [done|..].
    + by destruct (Hnew _ _ _ Hx1 H2).
    + by destruct (Hnew _ _ _ Hx2 H1).
    + by eapply Hu.
Qed.

Lemma tinv_spawn_plain vs es gs ts l :
  tinv vs es gs ts -> Forall (λ t, thread_key t = None) l -> tinv vs es gs (spawn l ts).
Proof.
  intros Ht Hl. revert ts Ht. induction Hl as [|t l Hk Hl IH]; intros ts Ht; [done|].
  simpl. apply IH. apply tinv_spawn1; [done|by destruct t|]. intros x k t'. by rewrite Hk.
Qed.

Lemma tinv_spawn_votes vs es gs ts i eid l :
  tinv vs es gs ts -> NoDup l -> Forall (vote_thread_ok es gs i eid) l ->
  (forall k t p, ts !! k = Some t -> p ∈ l -> thread_key t <> Some (eid, p)) ->
  tinv vs es gs (spawn (map (TVoteReq i eid) l) ts).
Proof.
  intros Ht Hnd Hok. revert ts Ht. induction l as [|p l IH]; intros ts Ht Hnew; [done|].
  apply NoDup_cons in Hnd as [Hp Hnd]. apply Forall_cons in Hok as [Hokp Hok].
  simpl. apply IH; [done|done| |].
  - apply tinv_spawn1; [done|done|]. intros x k t' [= <-] Hk. eapply Hnew; [done|]. by left.
  - intros k t q [[_ ->]|Hk]%spawn1_lookup Hq; [simpl; congruence|]. eapply Hnew; [done|]. by right.
Qed.

Lemma thread_of_key i l : Forall (λ t, thread_key t = None) (map (thread_of i) l).
Proof. apply Forall_fmap, Forall_true. by intros []. Qed.

(** A goroutine that goes on, for the same peer of the same election. *)
Lemma tinv_resume {Rep} vs es gs ts tid t (k : Rep -> Thread) r :
  tinv vs es gs ts -> ts !! tid = Some t ->
  (forall reply, r = inl reply -> thread_ok vs es gs (k reply) /\ thread_key (k reply) = thread_key t) ->
  tinv vs es gs (resume tid k r ts).
Proof.
  intros Hinv Htid Hr. destruct r as [reply|err]; simpl; [|eapply tinv_sub; [apply delete_subseteq|done]].
  destruct (Hr reply eq_refl) as [Hok Hkey]. destruct Hinv as [He Ht Hu].
  assert (Hold : forall j t', <[tid := k reply]> ts !! j = Some t' ->
    exists t0, ts !! j = Some t0 /\ thread_key t' = thread_key t0 /\ thread_ok vs es gs t').
  { intros j t'. destruct (decide (tid = j)) as [<-|]; [rewrite lookup_insert_eq|rewrite lookup_insert_ne by done].
    - intros [= <-]. by exists t.
    - intros Hj. exists t'. eauto. }
  split; [done| |].
  - intros j t' Hj. by destruct (Hold j t' Hj) as (? & ? & ? & ?).
  - intros k1 k2 t1 t2 x H1 H2 Hx1 Hx2.
    destruct (Hold _ _ H1) as (? & ? & E1 & _), (Hold _ _ H2) as (? & ? & E2 & _).
    eapply Hu; [done|done|by rewrite <- E1|by rewrite <- E2].
Qed.

(** A new election, with no votes counted. *)
Lemma tinv_elect vs es gs ts i n :
  tinv vs es gs ts -> node_ok members i n ->
  let e := startElection_begin n in
  let eid := fresh (dom es) in
  tinv vs (<[eid := (i, e)]> es) (<[eid := []]> gs) (spawn (map (TVoteReq i eid) (el_peers e)) ts).
Proof.
  intros [He Ht Hu] Hok e eid. assert (Hfresh : es !! eid = None) by apply not_elem_of_dom, is_fresh.
  assert (Hold : forall k t, ts !! k = Some t -> thread_ok vs (<[eid := (i, e)]> es) (<[eid := []]> gs) t /\
    forall p, thread_key t <> Some (eid, p)).
  { intros k t Hk. specialize (Ht k t Hk).
    assert (Hv : forall j d p, vote_thread_ok es gs j d p -> d <> eid /\
      vote_thread_ok (<[eid := (i, e)]> es) (<[eid := []]> gs) j d p).
    { intros j d p (e' & g & ? & ? & ? & ?). assert (d <> eid) by congruence. split; [done|].
      exists e', g. by rewrite !lookup_insert_ne by done. }
    destruct t; simpl in *; try by split.
    - destruct (Hv _ _ _ Ht) as [? ?]. split; [done|congruence].
    - destruct Ht as [Ht Hr]. destruct (Hv _ _ _ Ht) as [? ?]. split; [split; [done|]|congruence].
      intros e'. rewrite lookup_insert_ne by done. apply Hr. }
  apply tinv_spawn_votes.
  - split; [|intros; by eapply Hold|done]. intros d j e'. destruct (decide (d = eid)) as [->|].
    + rewrite !lookup_insert_eq. intros [= <- <-]. exists []. split; [done|]. destruct Hok. subst i.
      split; simpl; try done; [constructor|set_solver|set_solver].
    + rewrite !lookup_insert_ne by done. apply He.
  - apply Hok.
  - apply Forall_forall. intros p Hp. exists e, []. rewrite !lookup_insert_eq. split_and!; try done. set_solver.
  - intros k t p Hk _. by eapply Hold.
Qed.

(** A reply that is processed: its goroutine ends, and its vote is counted
    if [e'] counts one more. *)
Lemma tinv_count vs es gs ts tid i eid p r e g e' :
  tinv vs es gs ts -> ts !! tid = Some (TVoteRep i eid p r) ->
  es !! eid = Some (i, e) -> gs !! eid = Some g ->
  (e' = e \/ e' = set_el_votes (S (el_votes e)) e /\ rvr_VoteGranted r = true) ->
  let g' := if (el_votes e <? el_votes e')%nat then p :: g else g in
  tinv vs (<[eid := (i, e')]> es) (<[eid := g']> gs) (delete tid ts) /\ election_ok members vs i e' g'.
Proof.
  intros [He Ht Hu] Htid Hes Hgs Hcase g'.
  destruct (Ht _ _ Htid) as [(e0 & g0 & ? & ? & Hp & Hpg) Hr]; simplify_eq.
  specialize (Hr _ Hes). destruct (He _ _ _ Hes) as (g0 & ? & Hok). simplify_eq.
  assert (Hg' : (g' = g /\ e' = e) \/ (g' = p :: g /\ e' = set_el_votes (S (el_votes e)) e /\ rvr_VoteGranted r = true)).
  { subst g'. destruct Hcase as [->|[-> ?]]; [left; by rewrite Nat.ltb_irrefl|right].
    cbn [el_votes set_el_votes]. by rewrite (proj2 (Nat.ltb_lt _ _)) by lia. }
  assert (Hpe : el_peers e' = el_peers e /\ el_term e' = el_term e) by (by destruct Hcase as [->|[-> _]]).
  assert (Hok' : election_ok members vs i e' g').
  { destruct Hg' as [[-> ->]|(-> & -> & Hgr)]; [done|]. destruct Hok.
    split; simpl; try done; [by rewrite eo_votes0|by constructor|set_solver|].
    intros q [->|]%elem_of_cons; auto. }
  clearbody g'. split; [|done]. destruct Hpe as [Hpe Hte].
  assert (Hvt : forall k t j d q, delete tid ts !! k = Some t -> thread_key t = Some (d, q) ->
    vote_thread_ok es gs j d q -> vote_thread_ok (<[eid := (i, e')]> es) (<[eid := g']> gs) j d q).
  { intros k t j d q Hk Hkey (e1 & g1 & H1 & H2 & H3 & H4).
    destruct (decide (d = eid)) as [->|]; [|exists e1, g1; by rewrite !lookup_insert_ne by done].
    simplify_eq. exists e', g'. rewrite !lookup_insert_eq. split_and!; try congruence.
    destruct Hg' as [[-> _]|(-> & _)]; [done|]. apply not_elem_of_cons. split; [|done]. intros ->.
    apply lookup_delete_Some in Hk as [Hne Hk]. apply Hne. eapply Hu; [apply Htid|apply Hk|done|done]. }
  split.
  - intros d j e1. destruct (decide (d = eid)) as [->|]; [rewrite !lookup_insert_eq|rewrite !lookup_insert_ne by done].
    + intros [= <- <-]. by exists g'.
    + apply He.
  - intros k t Hk. assert (Hk' := Hk). apply lookup_delete_Some in Hk' as [_ Hk'].
    specialize (Ht k t Hk'). destruct t; try done; simpl in *; [by eapply Hvt|].
    destruct Ht as [Hv1 Hv2]. split; [by eapply Hvt|]. intros e1.
    destruct (decide (eid0 = eid)) as [->|]; [rewrite lookup_insert_eq|rewrite lookup_insert_ne by done; apply Hv2].
    intros [= <- <-]. rewrite Hte. by apply Hv2.
  - intros k1 k2 t1 t2 x [_ H1]%lookup_delete_Some [_ H2]%lookup_delete_Some. by apply Hu.
Qed.
End threads.

(** ** The invariant of the cluster *)

Section cluster.
Context {W : Type} `{!Transport W} (members : list string).
Implicit Types c : Cluster W.

Definition cinv c : Prop :=
  ninv members (c_nodes c) (c_votes c) (c_abdicated c) /\
  tinv members (c_votes c) (c_elections c) (c_granted c) (c_threads c).

(** A call whose handler leaves the vote alone. *)
Lemma ninv_rpc {Rep} (handler : RaftNode -> RaftNode * Rep) addr ns vs ab res :
  ninv members ns vs ab -> rpc_spec handler addr ns res ->
  (forall n, quiet n (handler n).1) -> ninv members res.1 vs ab.
Proof.
  intros Hinv Hspec Hq. unfold rpc_spec in Hspec. destruct res as [ns' [reply|e]]; simpl in *.
  - destruct Hspec as (n & Hn & _ & ->). by eapply ninv_quiet.
  - destruct Hspec as [->|(n & Hn & ->)]; [done|]. by eapply ninv_quiet.
Qed.

(** A vote request: whatever the network did with it, the votes recorded are
    those cast, and a positive reply comes with its vote. *)
Lemma ninv_request now ns vs ab args addr res :
  ninv members ns vs ab -> rpc_spec (λ n, HandleRequestVote now n args) addr ns res ->
  rv_IsPreVote args = false -> rv_CandidateID args <> "" ->
  let vs' := record_vote res.1 addr (rv_Term args) (rv_CandidateID args) vs in
  ninv members res.1 vs' ab /\ vs ⊆ vs' /\
  forall reply, res.2 = inl reply -> rvr_VoteGranted reply = true ->
    (addr, rv_Term args, rv_CandidateID args) ∈ vs'.
Proof.
  intros Hinv Hspec Hp Hc vs'.
  assert (Hns : ninv members res.1 vs ab /\ forall reply, res.2 = inl reply -> rvr_VoteGranted reply = true ->
    exists n, res.1 !! addr = Some n /\ currentTerm n = rv_Term args /\ votedFor n = rv_CandidateID args).
  { assert (Hh : forall n, ns !! addr = Some n -> ninv members (<[addr := (HandleRequestVote now n args).1]> ns) vs ab).
    { intros n Hn. pose proof (vote_cases now n args Hp) as Hcase.
      destruct (HandleRequestVote now n args) as [n' r]. destruct Hcase as [[_ Hq]|[_ Hv]].
      - by eapply ninv_quiet. - by eapply ninv_cast. }
    unfold rpc_spec in Hspec. destruct res as [ns' [reply|e]]; simpl in *.
    - destruct Hspec as (n & Hn & -> & ->). split; [by apply Hh|]. intros reply [= <-] Hg.
      destruct (HandleRequestVote_granted now n args Hp Hg) as (? & ? & _). eexists. rewrite lookup_insert_eq. eauto.
    - split; [|done]. destruct Hspec as [->|(n & Hn & ->)]; eauto. }
  clear Hspec Hinv. destruct res as [ns' r]. simpl in *. destruct Hns as [Hinv Hrep]. subst vs'. unfold record_vote.
  destruct (ns' !! addr) as [n|] eqn:Hn.
  - case_decide as Hd; [destruct Hd as [E1 E2]; rewrite <- E1, <- E2|].
    + split_and!; [apply (ninv_record members ns'); congruence|apply union_subseteq_r|set_solver].
    + split_and!; [done|done|]. intros reply Hr Hg. destruct (Hrep reply Hr Hg) as (m & ? & ? & ?).
      simplify_eq. by destruct Hd.
  - split_and!; [done|done|]. intros reply Hr Hg. destruct (Hrep reply Hr Hg) as (m & ? & _). congruence.
Qed.

(** Winning: the counted votes and the candidate's own are a quorum. *)
Lemma election_quorum vs i e g T :
  election_ok members vs i e g -> el_term e = T -> (i, T, i) ∈ vs ->
  (el_majority e <= el_votes e)%nat -> has_quorum vs members i T.
Proof.
  intros [] <- Hown Hmaj. destruct eo_peers0 as (? & Hni & ? & ? & ? & Hsize).
  exists (i :: g). split_and!.
  - constructor; [set_solver|done].
  - set_solver.
  - simpl. rewrite <- Hsize. destruct (majority_spec (length (el_peers e))). lia.
  - intros q [->|]%elem_of_cons; auto.
Qed.

(** What the parts of a step leave of the invariant. *)
Lemma cinv_nodes c ns : cinv c -> ninv members ns (c_votes c) (c_abdicated c) -> cinv (set_nodes ns c).
Proof. intros [_ Ht] Hn. by split. Qed.

Lemma cinv_threads c ts :
  cinv c -> tinv members (c_votes c) (c_elections c) (c_granted c) ts -> cinv (set_threads ts c).
Proof. intros [Hn _] Ht. by split. Qed.

Lemma cinv_spawn c i l : cinv c -> cinv (set_threads (spawn (map (thread_of i) l) (c_threads c)) c).
Proof. intros H. apply cinv_threads; [done|]. apply tinv_spawn_plain; [apply H|apply thread_of_key]. Qed.

Lemma cinv_quiet c i n n' :
  cinv c -> c_nodes c !! i = Some n -> quiet n n' -> cinv (set_nodes (<[i := n']> (c_nodes c)) c).
Proof. intros H Hn Hq. apply cinv_nodes; [done|]. eapply ninv_quiet; [apply H|done..]. Qed.

Lemma cinv_delete c tid : cinv c -> cinv (set_threads (delete tid (c_threads c)) c).
Proof. intros H. apply cinv_threads; [done|]. eapply tinv_sub; [apply delete_subseteq|apply H]. Qed.

Lemma cinv_resume {Rep} c tid t (k : Rep -> Thread) r :
  cinv c -> c_threads c !! tid = Some t -> thread_key t = None ->
  (forall reply, thread_key (k reply) = None) ->
  cinv (set_threads (resume tid k r (c_threads c)) c).
Proof.
  intros H Ht Hk Hkr. apply cinv_threads; [done|]. eapply tinv_resume; [apply H|done|].
  intros reply _. specialize (Hkr reply). rewrite Hk, Hkr. split; [|done]. by destruct (k reply).
Qed.

(** A goroutine that goes on in another state. *)
Lemma cinv_continue c tid t t' :
  cinv c -> c_threads c !! tid = Some t -> thread_key t = None -> thread_key t' = None ->
  cinv (set_threads (<[tid := t']> (c_threads c)) c).
Proof.
  intros H Ht Hk Hk'. exact (cinv_resume c tid t (λ _ : unit, t') (inl ()) H Ht Hk (λ _, Hk')).
Qed.

Lemma cinv_candidate c tid i n :
  cinv c -> c_nodes c !! i = Some n -> currentTerm n + 1 < u64_size ->
  cinv (set_votes ({[(i, currentTerm (becomeCandidate n), i)]} ∪ c_votes c)
         (set_threads (spawn [TElection i] (delete tid (c_threads c)))
           (set_nodes (<[i := becomeCandidate n]> (c_nodes c)) c))).
Proof.
  intros [Hni Ht] Hn Hb. split; simpl.
  - by apply (ninv_candidate members (c_nodes c)).
  - apply (tinv_spawn_plain _ _ _ _ _ [TElection i]); [|by repeat constructor].
    eapply tinv_mono; [apply union_subseteq_r|]. eapply tinv_sub; [apply delete_subseteq|done].
Qed.

Lemma cinv_elect c tid i n :
  cinv c -> c_nodes c !! i = Some n ->
  let e := startElection_begin n in
  let eid := fresh (dom (c_elections c)) in
  cinv (set_granted (<[eid := []]> (c_granted c))
         (set_elections (<[eid := (i, e)]> (c_elections c))
           (set_threads (spawn (map (TVoteReq i eid) (el_peers e)) (delete tid (c_threads c))) c))).
Proof.
  intros [Hni Ht] Hn e eid. split; [done|]. apply tinv_elect; [|by apply Hni].
  eapply tinv_sub; [apply delete_subseteq|done].
Qed.

Lemma cinv_request c tid i eid peer e o res now :
  cinv c -> c_threads c !! tid = Some (TVoteReq i eid peer) -> c_elections c !! eid = Some (o, e) ->
  rpc_spec (λ n, HandleRequestVote now n (el_args e)) peer (c_nodes c) res ->
  cinv (set_votes (record_vote res.1 peer (el_term e) i (c_votes c))
         (set_threads (resume tid (TVoteRep i eid peer) res.2 (c_threads c)) (set_nodes res.1 c))).
Proof.
  intros [Hni Ht] Htid He Hspec.
  destruct (ti_threads _ _ _ _ _ Ht _ _ Htid) as (e0 & g & He0 & Hg & Hp & Hpg). simplify_eq.
  destruct (ti_elections _ _ _ _ _ Ht _ _ _ He) as (g0 & ? & Hok). simplify_eq.
  destruct (eo_args _ _ _ _ _ Hok) as (HT & Hc & Hpv). pose proof (eo_peers _ _ _ _ _ Hok) as Hpeers.
  destruct (ninv_request now (c_nodes c) (c_votes c) (c_abdicated c) (el_args e) peer res) as (H1 & H2 & H3);
    [done|done|done|rewrite Hc; tauto|]. rewrite HT, Hc in *.
  split; simpl; [done|]. eapply tinv_resume; [by eapply tinv_mono|done|]. intros reply Hr. split; [|done].
  simpl. split; [by exists e, g|]. intros e1 He1 Hgr. simplify_eq. by apply (H3 reply).
Qed.

Lemma cinv_reply c tid i eid peer reply n o e g now :
  cinv c -> c_threads c !! tid = Some (TVoteRep i eid peer reply) -> c_nodes c !! i = Some n ->
  c_elections c !! eid = Some (o, e) -> c_granted c !! eid = Some g ->
  let r := startElection_reply now e n reply in
  cinv (set_granted (<[eid := if (el_votes e <? el_votes r.1)%nat then peer :: g else g]> (c_granted c))
         (set_elections (<[eid := (o, r.1)]> (c_elections c))
           (set_threads (delete tid (c_threads c)) (set_nodes (<[i := r.2]> (c_nodes c)) c)))).
Proof.
  intros [Hni Ht] Htid Hn He Hg r.
  destruct (ti_threads _ _ _ _ _ Ht _ _ Htid) as [(e0 & g0 & He0 & _) _].
  assert (o = i) as -> by congruence. clear e0 g0 He0.
  assert (Hr : (r.1 = e /\ quiet n r.2) \/
    (r.1 = set_el_votes (S (el_votes e)) e /\ rvr_VoteGranted reply = true /\ state n = Candidate /\
     currentTerm n = el_term e /\ (r.2 = n \/ r.2 = becomeLeader now n /\ (el_majority r.1 <= el_votes r.1)%nat))).
  { subst r. unfold startElection_reply. case_match; [left; split; [done|apply quiet_becomeFollower; lia]|].
    destruct (negb (NodeState_eqb (state n) Candidate) || negb (currentTerm n =? el_term e)) eqn:Hs; [by left|].
    apply orb_false_iff in Hs as [Hs%negb_false_iff%NodeState_eqb_true HT%negb_false_iff].
    destruct (rvr_VoteGranted reply) eqn:Hgr; [right; simpl|by left].
    case_match eqn:Hm; simpl; split_and!; auto; try lia. right. apply Nat.leb_le in Hm. done. }
  destruct (tinv_count members (c_votes c) (c_elections c) (c_granted c) (c_threads c) tid i eid peer reply e g r.1)
    as [Hti Hok]; [done..|by destruct Hr as [[]|(? & ? & _)]; auto|].
  split; [simpl|exact Hti].
  destruct Hr as [[_ Hq]|(Hr1 & _ & Hs & HT & [->|[-> Hm]])].
  - by eapply ninv_quiet.
  - by eapply ninv_quiet.
  - eapply ninv_leader; [done..|]. eapply election_quorum; [exact Hok|by rewrite Hr1|rewrite HT| done].
    rewrite <- HT. apply (ni_self _ _ _ _ Hni i n Hn). congruence.
Qed.

Lemma cinv_exec lbl c c' : cinv c -> exec lbl c = Some c' -> cinv c'.
Proof.
  intros Hinv. destruct lbl; simpl.
  - destruct (c_nodes c !! i) as [n|]; simpl; [|done]. destruct (electionEligible n); [|done]. intros [= <-].
    apply cinv_threads; [done|]. apply (tinv_spawn_plain _ _ _ _ _ [TPreVote i]); [apply Hinv|by repeat constructor].
  - destruct (c_threads c !! tid) as [[]|] eqn:Ht; try done. destruct (c_nodes c !! i) as [n|]; simpl; [|done].
    intros [= <-]. by eapply cinv_continue.
  - destruct (c_threads c !! tid) as [[]|] eqn:Ht; try done. case_guard; simpl; [|done].
    pose proof (preVote_call (c_net c) i peer expired now n0 (c_nodes c)) as Hs.
    destruct (tr_RequestVote _ _ _ _ _ _ _) as [ns r]. simpl in Hs. subst ns. intros [= <-].
    by eapply (cinv_continue (set_nodes (c_nodes c) c)).
  - destruct (c_threads c !! tid) as [[]|] eqn:Ht; try done. case_guard; simpl; [|done].
    destruct (c_nodes c !! i) as [n|] eqn:Hn; simpl; [|done]. unfold afterPreVote. destruct (_ && _).
    + case_guard; simpl; [|done]. intros [= <-]. by apply cinv_candidate.
    + intros [= <-]. by apply cinv_delete.
  - destruct (c_threads c !! tid) as [[]|]; try done.
    destruct (c_nodes c !! i) as [n|] eqn:Hn; simpl; [|done]. intros [= <-]. by apply cinv_elect.
  - destruct (c_threads c !! tid) as [[]|] eqn:Ht; try done.
    destruct (c_elections c !! eid) as [[o e]|] eqn:He; simpl; [|done].
    pose proof (tr_RequestVote_spec (c_net c) i peer expired now (el_args e) (c_nodes c)) as Hs.
    destruct (tr_RequestVote _ _ _ _ _ _ _) as [ns r]. intros [= <-].
    by apply (cinv_request c tid i eid peer e o (ns, r) now).
  - destruct (c_threads c !! tid) as [[]|] eqn:Ht; try done.
    destruct (c_nodes c !! i) as [n|] eqn:Hn; simpl; [|done].
    destruct (c_elections c !! eid) as [[o e]|] eqn:He; simpl; [|done].
    destruct (c_granted c !! eid) as [g|] eqn:Hg; simpl; [|done].
    pose proof (cinv_reply c tid i eid peer reply n o e g now Hinv Ht Hn He Hg) as Hr.
    destruct (startElection_reply now e n reply) as [e' n']. intros [= <-]. exact Hr.
  - destruct (c_nodes c !! i) as [n|] eqn:Hn; simpl; [|done].
    pose proof (tick_cases now n) as Hc. destruct (heartbeatTick now n) as [n' gs]. simpl in Hc.
    intros [= <-]. destruct Hc as [[Hq Hs]|Ha].
    + rewrite decide_False by (intros []; congruence).
      exact (cinv_spawn _ i gs (cinv_quiet c i n n' Hinv Hn Hq)).
    + rewrite decide_True by (split; apply Ha). destruct Hinv as [Hni Ht].
      split; simpl; [by eapply ninv_abdicate|]. apply tinv_spawn_plain; [done|apply thread_of_key].
  - destruct (c_nodes c !! i) as [n|] eqn:Hn; simpl; [|done].
    pose proof (quiet_Submit n command) as Hq. destruct (Submit n command) as [[n' r] gs].
    intros [= <-]. exact (cinv_spawn _ i gs (cinv_quiet c i n n' Hinv Hn Hq)).
  - destruct (c_threads c !! tid) as [[]|] eqn:Ht; try done.
    pose proof (tr_AppendEntries_spec (c_net c) i peer expired now args (c_nodes c)) as Hs.
    destruct (tr_AppendEntries _ _ _ _ _ _ _) as [ns r]. intros [= <-].
    eapply (cinv_resume (set_nodes ns c) tid _ _ r); [|exact Ht|done|done]. apply cinv_nodes; [done|].
    eapply (ninv_rpc _ _ _ _ _ (ns, r)); [apply Hinv|done|]. intros. apply quiet_HandleAppendEntries.
  - destruct (c_threads c !! tid) as [[]|] eqn:Ht; try done.
    destruct (c_nodes c !! i) as [n|] eqn:Hn; simpl; [|done]. intros [= <-].
    exact (cinv_delete _ tid (cinv_quiet c i n _ Hinv Hn (quiet_sendToPeer_reply _ _ _ _ _ _))).
  - destruct (c_threads c !! tid) as [[]|] eqn:Ht; try done.
    pose proof (tr_InstallSnapshot_spec (c_net c) i peer expired args (c_nodes c)) as Hs.
    destruct (tr_InstallSnapshot _ _ _ _ _ _) as [ns r]. intros [= <-].
    eapply (cinv_resume (set_nodes ns c) tid _ _ r); [|exact Ht|done|done]. apply cinv_nodes; [done|].
    eapply (ninv_rpc _ _ _ _ _ (ns, r)); [apply Hinv|done|]. intros. apply quiet_HandleInstallSnapshot.
  - destruct (c_threads c !! tid) as [[]|] eqn:Ht; try done.
    destruct (c_nodes c !! i) as [n|] eqn:Hn; simpl; [|done]. intros [= <-].
    exact (cinv_delete _ tid (cinv_quiet c i n _ Hinv Hn (quiet_sendSnapshotToPeer_reply _ _ _ _ _))).
  - destruct (c_nodes c !! i) as [n|] eqn:Hn; simpl; [|done]. intros [= <-].
    exact (cinv_quiet c i n _ Hinv Hn (quiet_TakeSnapshot _ _)).
  - destruct (c_nodes c !! i) as [n|] eqn:Hn; simpl; [|done]. case_match; [|done]. intros [= <-].
    apply (cinv_quiet c i n _ Hinv Hn). quiet_frame.
  - destruct (c_nodes c !! i) as [n|] eqn:Hn; simpl; [|done]. destruct (snapshotNotifyC n); simpl; [|done]. intros [= <-].
    apply (cinv_quiet c i n _ Hinv Hn). quiet_frame.
  - destruct (c_nodes c !! i) as [n|] eqn:Hn; simpl; [|done]. intros [= <-].
    destruct Hinv as [Hni Ht]. pose proof (ni_node _ _ _ _ Hni i n Hn) as Hok.
    destruct (no_cfg _ _ _ Hok), (no_disk _ _ _ Hok).
    split; simpl; [|eapply tinv_sub; [apply map_filter_subseteq|done]].
    eapply ninv_quiet; [done..|]. apply quiet_boot; try done. by rewrite (no_id _ _ _ Hok).
Qed.
End cluster.

(** ** Reachable states *)

Lemma filter_others i members :
  NoDup members -> i ∈ members ->
  let ps := List.filter (λ p, negb (String.eqb p i)) members in
  NoDup ps /\ (i ∉ ps) /\ ps ⊆ members /\ S (length ps) = length members.
Proof.
  intros Hnd Hi ps.
  assert (Hin : forall p, p ∈ ps <-> p ∈ members /\ p <> i).
  { intros p. subst ps. rewrite !list_elem_of_In, filter_In.
    rewrite negb_true_iff, eqb_string_false. done. }
  assert (Hps : NoDup ps) by (apply NoDup_ListNoDup, List.NoDup_filter, NoDup_ListNoDup, Hnd).
  split_and!; [done|by rewrite Hin; intros []|intros p; rewrite Hin; by intros []|].
  assert (Hperm : i :: ps ≡ₚ members).
  { apply NoDup_Permutation; [constructor; [by rewrite Hin; intros []|done]|done|].
    intros p. rewrite elem_of_cons, Hin. destruct (decide (p = i)); naive_solver. }
  by rewrite <- Hperm.
Qed.

Lemma initNode_ok members i :
  NoDup members -> "" ∉ members -> i ∈ members -> node_ok members i (initNode members i).
Proof.
  intros Hnd Hne Hi. destruct (filter_others i members Hnd Hi) as (? & ? & ? & ?).
  split; try done. - by intros ->. - split; [constructor|]. done.
Qed.

Lemma initNodes_lookup members i n :
  initNodes members !! i = Some n -> i ∈ members /\ n = initNode members i.
Proof.
  unfold initNodes. intros H%elem_of_list_to_map_2. apply list_elem_of_fmap in H as (j & [= -> ->] & ?). done.
Qed.

Lemma cinv_init {W} (w : W) members :
  NoDup members -> "" ∉ members -> cinv members (initCluster w members).
Proof.
  intros Hnd Hne. split; split; simpl; try (intros; set_solver).
  - intros i n [? ->]%initNodes_lookup. by apply initNode_ok.
  - by intros i n [? ->]%initNodes_lookup.
  - by intros i n [? ->]%initNodes_lookup.
  - done.
Qed.

Lemma cinv_reachable {W} `{!Transport W} members (c : Cluster W) :
  NoDup members -> "" ∉ members -> reachable members c -> cinv members c.
Proof.
  intros Hnd Hne [w Hr]. pose proof (cinv_init w members Hnd Hne) as Hi.
  induction Hr as [|c1 c2 c3 Hstep Hr IH]; [done|]. apply IH.
  destruct Hstep as [lbl c1 c2 He|]; [by eapply cinv_exec|done].
Qed.

Lemma exec_all_rtc {W} `{!Transport W} ls (c c' : Cluster W) : exec_all ls c = Some c' -> rtc cstep c c'.
Proof.
  revert c. induction ls as [|l ls IH]; intros c; simpl; [intros [= ->]; done|].
  destruct (exec l c) as [c1|] eqn:He; simpl; [|done]. intros H.
  eapply rtc_l; [by eapply cstep_exec|by apply IH].
Qed.

(** ** Properties *)

(** Three members on the in-memory network, all connected. *)
Definition exMembers : list string := ["a"; "b"; "c"].

(** "a" stands for election, "b" votes for it, "a" wins term 1. *)
Definition exElection : list label :=
  exPreVote "a" "b" 0 (exTime 4) ++ [LElection 0; LVoteRequest 0 false (exTime 5); LVoteReply 0 (exTime 6)].

Lemma exMembers_ok : NoDup exMembers /\ "" ∉ exMembers.
Proof. split; apply (bool_decide_unpack _); vm_compute; exact I. Qed.

(** The state a script of steps leads to is reachable. *)
Lemma script_reachable (ls : list label) (c : Cluster MemoryNetwork) :
  exec_all ls (initCluster exNet exMembers) = Some c -> reachable exMembers c.
Proof. intros H. exists exNet. by eapply exec_all_rtc. Qed.

(** The role and the term of a member. *)
Definition role_of {W} (c : Cluster W) (i : string) : option (NodeState * Z) :=
  n ← c_nodes c !! i; Some (state n, currentTerm n).

Lemma exElection_run : exists c,
  exec_all exElection (initCluster exNet exMembers) = Some c /\ role_of c "a" = Some (Leader, 1).
Proof.
  assert (Hrun : match exec_all exElection (initCluster exNet exMembers) with
    | Some c => bool_decide (role_of c "a" = Some (Leader, 1))
    | None => false
    end = true) by (vm_compute; reflexivity).
  destruct (exec_all _ _) as [c|]; [|done]. exists c. split; [done|]. by apply bool_decide_eq_true in Hrun.
Qed.

(** C4. Election safety: in every state a cluster can reach, with any network
    that loses, delays, repeats or partitions messages as its contract allows,
    and with restarts from disk at any point, no two members are leaders of the
    same term at the same moment. *)
Theorem election_safety {W : Type} `{!Transport W} (members : list string) (c : Cluster W)
    (i j : string) (T : Z) :
  NoDup members -> "" ∉ members -> reachable members c ->
  role_of c i = Some (Leader, T) -> role_of c j = Some (Leader, T) -> i = j.
Proof.
  intros Hnd Hne Hr (n & Hn & [= Hs HT])%bind_Some (m & Hm & [= Hs' HT'])%bind_Some.
  destruct (cinv_reachable members c Hnd Hne Hr) as [Hinv _].
  eapply ninv_one_leader; eauto; congruence.
Qed.

Lemma election_safety_witness :
  exists c, exec_all exElection (initCluster exNet exMembers) = Some c /\
    role_of c "a" = Some (Leader, 1) /\ "a" = "a".
Proof.
  destruct exElection_run as (c & Hc & Hl). exists c. split; [exact Hc|]. split; [exact Hl|].
  destruct exMembers_ok as [H1 H2].
  exact (election_safety exMembers c "a" "a" 1 H1 H2 (script_reachable _ c Hc) Hl Hl).
Defined.

(** C17. Who votes for whom: in every reachable state the leader of a term has
    the recorded votes of a majority of the members in that term, and a member
    has voted for two candidates of one term only if it led that term itself,
    stepped down in it for want of a quorum, and one of the two was itself. *)
Theorem votes_of_a_term {W : Type} `{!Transport W} (members : list string) (c : Cluster W) :
  NoDup members -> "" ∉ members -> reachable members c ->
  (forall i n, c_nodes c !! i = Some n -> state n = Leader ->
     has_quorum (c_votes c) members i (currentTerm n)) /\
  (forall v T d1 d2, (v, T, d1) ∈ c_votes c -> (v, T, d2) ∈ c_votes c ->
     d1 = d2 \/ ((v, T) ∈ c_abdicated c /\ (d1 = v \/ d2 = v))) /\
  (forall i n, c_nodes c !! i = Some n -> saved n).
Proof.
  intros Hnd Hne Hr. destruct (cinv_reachable members c Hnd Hne Hr) as [Hinv _]. split_and!.
  - apply Hinv.
  - apply Hinv.
  - intros i n Hn. by apply (ni_node _ _ _ _ Hinv i n Hn).
Qed.

Lemma votes_of_a_term_witness :
  exists c, exec_all exElection (initCluster exNet exMembers) = Some c /\
    forall i n, c_nodes c !! i = Some n -> saved n.
Proof.
  destruct exElection_run as (c & Hc & _). exists c. split; [exact Hc|]. destruct exMembers_ok as [H1 H2].
  exact (proj2 (proj2 (votes_of_a_term exMembers c H1 H2 (script_reachable _ c Hc)))).
Defined.

(** The process that is started with [cfg] on the data directory [n] left. *)
Definition restart (cfg : Config) (n : RaftNode) : RaftNode := (boot cfg (disk n)).1.

(** C15. A vote survives a crash, on a disk without faults: a node that has granted its vote and is then
    restarted from its data directory refuses every other candidate of that
    term. *)
Theorem vote_survives_restart (now now' : Z) (n : RaftNode) (args args' : RequestVoteArgs) :
  disk_ok n -> rv_IsPreVote args = false -> rv_CandidateID args <> "" ->
  rvr_VoteGranted (HandleRequestVote now n args).2 = true ->
  rv_IsPreVote args' = false -> rv_Term args' = rv_Term args -> rv_CandidateID args' <> rv_CandidateID args ->
  let n' := restart (config n) (HandleRequestVote now n args).1 in
  currentTerm n' = rv_Term args /\ votedFor n' = rv_CandidateID args /\
  rvr_VoteGranted (HandleRequestVote now' n' args').2 = false.
Proof.
  intros Hd Hp Hc Hg Hp' HT Hne. destruct (HandleRequestVote_granted now n args Hp Hg) as (H1 & H2 & _ & Hdu).
  destruct (Hdu Hd) as [Hdur Hdok]. set (n1 := (HandleRequestVote now n args).1) in *. cbv zeta.
  assert (Hn' : let n' := restart (config n) n1 in
    currentTerm n' = currentTerm n1 /\ votedFor n' = votedFor n1).
  { cbv zeta. unfold restart, boot, Run_init. destruct (loadState_durable n1 (config n) Hdok Hdur) as (L1 & L2 & _).
    rewrite <- L1, <- L2. split; [|apply q_same; [apply quiet_restoreFromSnapshot|]];
      unfold restoreFromSnapshot, loadSnapshotFile; simpl; by repeat case_match; simplify_eq/=. }
  destruct Hn' as [E1 E2]. set (n' := restart (config n) n1) in *.
  split; [congruence|]. split; [congruence|]. rewrite HandleRequestVote_reply by done.
  apply bool_decide_eq_false. intros (_ & Hv & _). rewrite E1, E2, H1, H2 in Hv. destruct (Hv HT); congruence.
Qed.

Lemma vote_survives_restart_witness :
  let n1 := (HandleRequestVote 0 exampleNode (mkRequestVoteArgs 1 "b" 0 0 false)).1 in
  let n' := restart exampleConfig n1 in
  rvr_VoteGranted (HandleRequestVote 9 n' (mkRequestVoteArgs 1 "c" 5 1 false)).2 = false.
Proof.
  refine (proj2 (proj2 (vote_survives_restart 0 9 exampleNode (mkRequestVoteArgs 1 "b" 0 0 false)
    (mkRequestVoteArgs 1 "c" 5 1 false) _ _ _ _ _ _ _))); try done. apply Forall_nil_2.
Defined.
