(* ===== verification/FullLog.v ===== *)
(** * Logs without compaction

    The log of a node as if nothing had ever been compacted: the list [g] of
    all its entries, of which the slice of the code holds a suffix behind a
    sentinel ([full]).  The operations of the code, seen on such lists, are
    appending, keeping or replacing a suffix ([full_accept]), and nothing at all
    for a compaction. *)

From S2P Require Import Prelude RaftLog Rpc Disk Node Replication Snapshot.

(** The term at index [k] of a list whose first entry has index 1; 0 at index 0
    and beyond the end. *)
Definition gterm (g : list LogEntry) (k : nat) : Z :=
  match k with
  | O => 0
  | S k => le_Term (default zeroLogEntry (g !! k))
  end.

Record full (l : Log) (g : list LogEntry) : Prop := {
  fu_entries : entries l = log_first l :: drop (Z.to_nat (log_snapshotIndex l)) g;
  fu_snap : 0 <= log_snapshotIndex l <= lenZ g;
  fu_term : log_snapshotTerm l = gterm g (Z.to_nat (log_snapshotIndex l));
  fu_contig : contiguous 1 g;
  fu_terms : Forall entry_ok g;
  fu_bound : lenZ g + 1 < u64_size
}.

(** ** Terms *)

Lemma gterm_Some g k e : g !! k = Some e -> gterm g (S k) = le_Term e.
Proof. simpl. by intros ->. Qed.

Lemma gterm_take g k m : (k <= m)%nat -> gterm (take m g) k = gterm g k.
Proof. destruct k as [|k]; [done|]. intros. simpl. by rewrite lookup_take_lt by lia. Qed.

Lemma gterm_app g k x : (k <= length g)%nat -> gterm (g ++ x) k = gterm g k.
Proof. destruct k as [|k]; [done|]. intros. simpl. by rewrite lookup_app_l by lia. Qed.

Lemma gterm_prefix g g' k : g `prefix_of` g' -> (k <= length g)%nat -> gterm g' k = gterm g k.
Proof. intros [x ->]. apply gterm_app. Qed.

(** A real term names a real entry. *)
Lemma gterm_pos g k : gterm g k <> 0 -> exists k' e, k = S k' /\ g !! k' = Some e /\ gterm g k = le_Term e.
Proof.
  destruct k as [|k]; simpl; [done|]. intros H. exists k.
  destruct (g !! k) as [e|]; [by exists e|]. done.
Qed.

Lemma gterm_ok g k : Forall entry_ok g -> (0 < k <= length g)%nat -> entry_ok (default zeroLogEntry (g !! (k - 1)%nat)) /\
  gterm g k = le_Term (default zeroLogEntry (g !! (k - 1)%nat)).
Proof.
  intros Hok Hk. destruct k as [|k]; [lia|]. simpl. rewrite Nat.sub_0_r. split; [|done].
  destruct (lookup_lt_is_Some_2 g k) as [e He]; [lia|]. rewrite He. simpl. by eapply Forall_lookup_1.
Qed.

(** ** What the slice says about the list *)

Section full.
Context (l : Log) (g : list LogEntry) (Hf : full l g).

Let s := Z.to_nat (log_snapshotIndex l).

Lemma full_snap_nat : log_snapshotIndex l = Z.of_nat s /\ (s <= length g)%nat.
Proof using All. pose proof (fu_snap l g Hf). unfold lenZ in *. subst s. lia. Qed.

Lemma full_wf : log_wf l.
Proof using All.
  destruct Hf as [He Hs Ht Hc Hok Hb]. destruct full_snap_nat as [Hsn Hsl].
  split.
  - by rewrite He.
  - unfold sentinel_ok. fold (log_snapshotIndex l). fold (log_snapshotTerm l).
    destruct (decide (log_snapshotIndex l = 0)) as [H0|H0].
    + left. split; [done|]. rewrite Ht, H0. done.
    + right. split; [lia|]. destruct (gterm_ok g s Hok) as [H1 H2]; [lia|].
      unfold entry_ok in *. fold (log_snapshotTerm l). rewrite Ht. fold s. by rewrite H2.
  - rewrite He. simpl. split; [done|]. fold s. rewrite Hsn.
    replace (Z.of_nat s + 1) with (1 + Z.of_nat s) by lia. by apply contiguous_drop.
  - rewrite He. simpl. by apply Forall_drop.
  - rewrite He, lenZ_cons. fold s. unfold lenZ in *. rewrite length_drop. lia.
Qed.

Lemma full_lastIndex : log_lastIndex l = lenZ g.
Proof using All.
  rewrite (wf_lastIndex l full_wf), (fu_entries l g Hf), lenZ_cons. destruct full_snap_nat.
  fold s. unfold lenZ. rewrite length_drop. lia.
Qed.

Lemma full_lookup k : (s <= k)%nat -> log_view l !! Z.of_nat (S k) = g !! k.
Proof using All.
  intros Hk. destruct full_snap_nat as [Hsn _]. rewrite view_lookup, (fu_entries l g Hf), decide_True by lia.
  replace (Z.to_nat (Z.of_nat (S k) - log_snapshotIndex l)) with (S (k - s)) by lia. simpl. fold s.
  rewrite lookup_drop. f_equal. lia.
Qed.

(** The entry found at an index in range has the term of the list. *)
Lemma full_view_term i e :
  log_view l !! i = Some e -> 0 <= i <= lenZ g /\ (s <= Z.to_nat i)%nat /\ le_Term e = gterm g (Z.to_nat i).
Proof using All.
  intros He. destruct full_snap_nat as [Hsn Hsl].
  assert (Hr : log_snapshotIndex l <= i <= log_lastIndex l) by (apply view_is_Some; [apply full_wf|eauto]).
  rewrite full_lastIndex in Hr. split; [lia|]. split; [lia|].
  destruct (decide (i = log_snapshotIndex l)) as [->|Hne].
  - rewrite (view_snapshot l full_wf) in He. simplify_eq. exact (fu_term l g Hf).
  - replace i with (Z.of_nat (S (Z.to_nat i - 1))) in He by lia. rewrite full_lookup in He by lia.
    replace (Z.to_nat i) with (S (Z.to_nat i - 1)) by lia. symmetry. by apply gterm_Some.
Qed.

Lemma full_get_term i : log_snapshotIndex l <= i <= lenZ g -> le_Term (log_get l i) = gterm g (Z.to_nat i).
Proof using All.
  intros Hi. pose proof (fu_bound l g Hf). destruct full_snap_nat. rewrite get_view by (apply full_wf || unfold is_u64; lia).
  destruct (proj2 (view_is_Some l full_wf i)) as [e He]; [rewrite full_lastIndex; lia|].
  rewrite He. by apply full_view_term.
Qed.

Lemma full_lastTerm : log_lastTerm l = gterm g (length g).
Proof using All.
  destruct (lastTerm_view l full_wf) as (e & He & ->). destruct (full_view_term _ _ He) as (_ & _ & ->).
  rewrite full_lastIndex. unfold lenZ. by rewrite Nat2Z.id.
Qed.

(** An index the code finds a term at lies in the list. *)
Lemma full_get_pos i : is_u64 i -> 0 < i -> le_Term (log_get l i) <> 0 -> i <= lenZ g /\ log_snapshotIndex l <= i.
Proof using All.
  intros Hu Hi Ht. destruct (log_view l !! i) as [e|] eqn:He.
  - assert (Hr : log_snapshotIndex l <= i <= log_lastIndex l) by (apply view_is_Some; [apply full_wf|eauto]).
    rewrite full_lastIndex in Hr. lia.
  - by apply (get_term_zero l full_wf i Hu Hi) in He.
Qed.

(** ** Changes *)

Lemma full_append e :
  le_Index e = lenZ g + 1 -> entry_ok e -> lenZ g + 2 < u64_size -> full (log_append l [e]) (g ++ [e]).
Proof using All.
  intros Hi Hok Hb. pose proof full_wf as Hwf. pose proof (first_append l [e] Hwf) as H1.
  destruct full_snap_nat as [Hsn Hsl].
  split; unfold log_snapshotIndex, log_snapshotTerm; rewrite ?H1; fold (log_snapshotIndex l) (log_snapshotTerm l).
  - simpl. rewrite (fu_entries l g Hf). simpl. fold s. by rewrite drop_app_le.
  - rewrite lenZ_app. unfold lenZ in *. simpl. lia.
  - fold s. rewrite gterm_app by done. apply Hf.
  - apply contiguous_app. split; [apply Hf|]. simpl. split; [lia|done].
  - apply Forall_app. split; [apply Hf|by apply Forall_singleton].
  - rewrite lenZ_app. unfold lenZ in *. simpl. lia.
Qed.

(** Compaction at an index of the list, with its term, is invisible. *)
Lemma full_compact i : log_snapshotIndex l < i <= lenZ g -> full (log_compactTo l i (gterm g (Z.to_nat i))) g.
Proof using All.
  intros Hi. pose proof full_wf as Hwf. destruct full_snap_nat as [Hsn Hsl]. pose proof (fu_bound l g Hf).
  assert (Hu : is_u64 i) by (unfold is_u64; lia).
  pose proof (compact_first l i (gterm g (Z.to_nat i)) Hwf Hu ltac:(lia)) as H1.
  split; unfold log_snapshotIndex, log_snapshotTerm; rewrite ?H1; simpl; try apply Hf; [|lia|done].
  rewrite compact_entries by (done || lia). f_equal. rewrite (fu_entries l g Hf). fold s.
  replace (Z.to_nat (i - log_snapshotIndex l) + 1)%nat with (S (Z.to_nat i - s)) by lia. simpl.
  rewrite drop_drop. f_equal. lia.
Qed.

(** Compaction beyond the end replaces the whole list. *)
Lemma full_install t :
  contiguous 1 t -> Forall entry_ok t -> lenZ t + 1 < u64_size -> lenZ g < lenZ t ->
  full (log_compactTo l (lenZ t) (gterm t (length t))) t.
Proof using All.
  intros Hc Hok Hb Hlt. pose proof full_wf as Hwf. destruct full_snap_nat as [Hsn Hsl].
  pose proof (lenZ_nonneg g). assert (Hu : is_u64 (lenZ t)) by (unfold is_u64; lia).
  assert (Hs : log_snapshotIndex l < lenZ t) by (unfold lenZ in *; lia).
  pose proof (compact_first l (lenZ t) (gterm t (length t)) Hwf Hu Hs) as H1.
  split; unfold log_snapshotIndex, log_snapshotTerm; rewrite ?H1; simpl; try done; [|lia|].
  - rewrite compact_entries by done. f_equal. rewrite (drop_ge t) by (unfold lenZ; lia).
    apply drop_ge. rewrite (fu_entries l g Hf). simpl. fold s. rewrite length_drop. unfold lenZ in *. lia.
  - unfold lenZ. by rewrite Nat2Z.id.
Qed.
End full.

Lemma full_new : full newLog [].
Proof. by split. Qed.

(** ** Accepting a batch *)

(** If equal terms at an index mean equal entries, the paper's merge keeps the
    old list or takes the new one. *)
Lemma merge_cases old new :
  (forall k o e, old !! k = Some o -> new !! k = Some e -> le_Term o = le_Term e -> o = e) ->
  (new `prefix_of` old /\ merge_entries old new = old) \/ (~ new `prefix_of` old /\ merge_entries old new = new).
Proof.
  revert new. induction old as [|o old IH]; intros [|e new] Heq; simpl.
  - left. split; [apply prefix_nil|done].
  - right. split; [apply prefix_nil_not|done].
  - left. split; [apply prefix_nil|done].
  - destruct (le_Term o =? le_Term e) eqn:Ht.
    + assert (o = e) as -> by (apply (Heq 0%nat); [done|done|lia]).
      destruct (IH new) as [[Hp Hm]|[Hp Hm]].
      { intros k o' e' H1 H2. apply (Heq (S k)); done. }
      * left. split; [by apply prefix_cons|by rewrite Hm].
      * right. split; [|by rewrite Hm]. intros H%prefix_cons_inv_2. done.
    + right. split; [|done]. intros H%prefix_cons_inv_1. subst. lia.
Qed.

(** The slice after a batch, as a list: [t] is what the leader says the log is
    up to the end of the batch, [p] where the batch starts.  The follower keeps
    its list if it already contains [t], and has exactly [t] otherwise. *)
Lemma full_accept l g args t p :
  full l g -> ae_wf args -> ae_PrevLogIndex args = Z.of_nat p ->
  (p = 0%nat \/ is_Some (log_view l !! Z.of_nat p)) ->
  ae_Entries args = drop p t -> (p <= length t)%nat ->
  contiguous 1 t -> Forall entry_ok t -> lenZ t + 1 < u64_size ->
  let b := Nat.max p (Z.to_nat (log_snapshotIndex l)) in
  take b g `prefix_of` t \/ t `prefix_of` take b g ->
  (forall k o e, g !! k = Some o -> t !! k = Some e -> le_Term o = le_Term e -> o = e) ->
  exists g', full (appendLoop l (ae_Entries args)) g' /\
    ((t `prefix_of` g /\ g' = g) \/ (~ t `prefix_of` g /\ g' = t)).
Proof.
  intros Hf Ha Hp Hprev Hes Hpt Hct Hokt Hbt b Hb Heq.
  pose proof (full_wf l g Hf) as Hwf. destruct (full_snap_nat l g Hf) as [Hsn Hsl].
  set (s := Z.to_nat (log_snapshotIndex l)) in *.
  assert (Hprev' : ae_PrevLogIndex args = 0 \/ is_Some (log_view l !! ae_PrevLogIndex args)).
  { rewrite Hp. destruct Hprev as [->|]; [by left|by right]. }
  pose proof (appendLoop_entries l args Hwf Ha Hprev') as Hent.
  pose proof (appendLoop_first l args Hwf Ha Hprev') as Hfirst.
  assert (Hbl : (b <= length g)%nat).
  { subst b. destruct Hprev as [->|Hv]; [lia|]. apply view_is_Some in Hv; [|done].
    rewrite (full_lastIndex l g Hf) in Hv. unfold lenZ in Hv. lia. }
  assert (Hbase : Z.max (ae_PrevLogIndex args) (log_snapshotIndex l) = Z.of_nat b) by lia.
  rewrite Hbase, Hp, Hes, drop_drop in Hent.
  replace (p + Z.to_nat (Z.of_nat b - Z.of_nat p))%nat with b in Hent by lia.
  rewrite (fu_entries l g Hf) in Hent. fold s in Hent.
  replace (Z.to_nat (Z.of_nat b + 1 - log_snapshotIndex l)) with (S (b - s)) in Hent by lia.
  simpl in Hent. rewrite drop_drop in Hent. replace (s + (b - s))%nat with b in Hent by lia.
  set (g' := take b g ++ merge_entries (drop b g) (drop b t)).
  assert (Hg' : (t `prefix_of` g /\ g' = g) \/ (~ t `prefix_of` g /\ g' = t)).
  { destruct (decide (length t <= b)%nat) as [Htb|Htb].
    - left. assert (t `prefix_of` g).
      { assert (t `prefix_of` take b g).
        { destruct Hb as [Hb|]; [|done]. apply prefix_length_eq in Hb; [by rewrite <- Hb|].
          rewrite length_take. lia. }
        etransitivity; [done|]. apply prefix_take. }
      split; [done|]. subst g'. rewrite (drop_ge t) by done. by rewrite merge_nil_r, take_drop.
    - assert (Htake : take b g = take b t).
      { destruct Hb as [[x ->]|Hb]; [by rewrite take_app_le, take_take, Nat.min_id by (rewrite length_take; lia)|].
        apply prefix_length in Hb. rewrite length_take in Hb. lia. }
      destruct (merge_cases (drop b g) (drop b t)) as [[Hpre Hm]|[Hpre Hm]].
      { intros k o e. rewrite !lookup_drop. apply Heq. }
      + left. subst g'. rewrite Hm, take_drop. split; [|done].
        rewrite <- (take_drop b t), <- (take_drop b g), Htake. by apply prefix_app.
      + right. subst g'. rewrite Hm, Htake, take_drop. split; [|done]. intros [x ->]. apply Hpre.
        rewrite drop_app_le by lia. by exists x. }
  exists g'. split; [|done].
  assert (Hg'2 : contiguous 1 g' /\ Forall entry_ok g' /\ lenZ g' + 1 < u64_size).
  { destruct Hg' as [[_ ->]|[_ ->]]; [|done]. by destruct Hf. }
  destruct Hg'2 as (? & ? & ?). rewrite <- Hes in Hent.
  assert (Hbg' : (b <= length g')%nat) by (subst g'; rewrite length_app, length_take; lia).
  split; unfold log_snapshotIndex, log_snapshotTerm; rewrite ?Hfirst; fold (log_snapshotIndex l) (log_snapshotTerm l);
    try done.
  - rewrite Hent. f_equal. fold s. subst g'. rewrite drop_app_le by (rewrite length_take; lia).
    by rewrite skipn_firstn_comm.
  - unfold lenZ. lia.
  - rewrite (fu_term l g Hf). fold s. subst g'. rewrite gterm_app by (rewrite length_take; lia).
    by rewrite gterm_take by lia.
Qed.
