(* ===== verification/LogHistory.v ===== *)
(** * The history of a cluster's logs

    For every term that had a leader, the log of that leader ([h_logs]), and for
    every node the prefixes it has acknowledged to the leader of a term
    ([h_acks]).  From what elections and acknowledgements guarantee follows
    leader completeness: a prefix acknowledged by a majority is in the log of
    every later leader.  Nothing here mentions nodes or messages; LogSafety.v
    shows that the code maintains such a history. *)

From Stdlib Require Import Zwf.
From S2P Require Import Prelude RaftLog Rpc Disk Node FullLog.

Record hist := mkHist {
  h_logs : gmap Z (list LogEntry);
  h_acks : gset (string * Z * nat)
}.

(** ** Logs made of leaders' entries *)

(** Every entry comes, with all that precedes it, from the leader of its term. *)
Definition log_ok (h : hist) (g : list LogEntry) : Prop :=
  forall k e, g !! k = Some e -> exists l, h_logs h !! le_Term e = Some l /\ take (S k) g `prefix_of` l.

Record leader_log (h : hist) (T : Z) (l : list LogEntry) : Prop := {
  ll_term : 1 <= T < u64_size;
  ll_ok : log_ok h l;
  ll_contig : contiguous 1 l;
  ll_entries : Forall entry_ok l;
  ll_bound : lenZ l + 1 < u64_size;
  ll_le : Forall (λ e, le_Term e <= T) l;
  ll_sorted : forall j k e f, (j <= k)%nat -> l !! j = Some e -> l !! k = Some f -> le_Term e <= le_Term f
}.

Definition hist_ok (h : hist) : Prop := forall T l, h_logs h !! T = Some l -> leader_log h T l.

(** ** Acknowledgements, votes, commitment *)

Definition acked (h : hist) (q : string) (T : Z) (m : nat) : Prop :=
  exists m', (m <= m')%nat /\ (q, T, m') ∈ h_acks h.

(** What is left of an acknowledgement in a log [g] of term at most [cur]: the
    prefix is there, or a later leader did not have it. *)
Definition ack_ok (h : hist) (T : Z) (m : nat) (g : list LogEntry) (cur : Z) : Prop :=
  exists l, h_logs h !! T = Some l /\ (m <= length l)%nat /\
    (take m l `prefix_of` g \/
     exists T1 l1, T < T1 <= cur /\ h_logs h !! T1 = Some l1 /\ ~ take m l `prefix_of` l1).

Definition up_to_date (E v : list LogEntry) : Prop :=
  gterm v (length v) < gterm E (length E) \/
  (gterm v (length v) = gterm E (length E) /\ (length v <= length E)%nat).

(** The vote of [q] in term [T] for a candidate with log [E]: cast with a log
    that was no more up to date and kept what [q] had acknowledged before. *)
Definition voted (h : hist) (q : string) (T : Z) (E : list LogEntry) : Prop :=
  exists v, log_ok h v /\ up_to_date E v /\
    forall T0 m, acked h q T0 m -> T0 < T -> ack_ok h T0 m v (T - 1).

Definition quorum (members Q : list string) : Prop :=
  NoDup Q /\ Q ⊆ members /\ (length members < 2 * length Q)%nat.

(** [j] won term [T]: the log [l] extends the one it stood with. *)
Definition won (h : hist) (members : list string) (vs : gset (string * Z * string)) (j : string)
    (T : Z) (l : list LogEntry) : Prop :=
  exists Q E, E `prefix_of` l /\ Forall (λ e, le_Term e < T) E /\ quorum members Q /\
    forall q, q ∈ Q -> (q, T, j) ∈ vs /\ voted h q T E.

Definition elections_ok (h : hist) (members : list string) (vs : gset (string * Z * string)) : Prop :=
  forall T l, h_logs h !! T = Some l -> exists j, won h members vs j T l.

(** The first [m] entries of the leader's log of term [T] are on a majority, and
    the last of them is of that term: the condition under which the code
    commits. *)
Definition chosen (h : hist) (members : list string) (T : Z) (l : list LogEntry) (m : nat) : Prop :=
  (m <= length l)%nat /\ gterm l m = T /\ exists Q, quorum members Q /\ forall q, q ∈ Q -> acked h q T m.

Definition committed (h : hist) (members : list string) (k : nat) (g : list LogEntry) (T : Z) : Prop :=
  k = 0%nat \/ exists T0 l0 m, T0 <= T /\ h_logs h !! T0 = Some l0 /\ chosen h members T0 l0 m /\
    (k <= m)%nat /\ take k l0 `prefix_of` g.

(** ** Prefixes *)

Lemma prefix_take_eq {A} (l1 l2 : list A) k : l1 `prefix_of` l2 -> (k <= length l1)%nat -> take k l1 = take k l2.
Proof. intros [x ->] Hk. by rewrite take_app_le. Qed.

Lemma prefix_same_length {A} (l1 l2 l : list A) :
  l1 `prefix_of` l -> l2 `prefix_of` l -> length l1 = length l2 -> l1 = l2.
Proof.
  intros H1 H2 Hl. destruct (prefix_weak_total _ _ _ H1 H2) as [H|H].
  - apply prefix_length_eq; [done|lia].
  - symmetry. apply prefix_length_eq; [done|lia].
Qed.

Lemma take_prefix_mono {A} (l : list A) k m : (k <= m)%nat -> take k l `prefix_of` take m l.
Proof.
  intros. replace k with (k `min` m)%nat by lia. rewrite <- take_take. apply prefix_take.
Qed.

(** What two lists share with a third survives replacing one by a part of it. *)
Lemma prefix_keep {A} (x t g l : list A) :
  x `prefix_of` g -> x `prefix_of` l -> t `prefix_of` l -> ~ t `prefix_of` g -> x `prefix_of` t.
Proof.
  intros Hxg Hxl Htl Hn. destruct (prefix_weak_total _ _ _ Hxl Htl) as [H|H]; [done|].
  destruct Hn. by etransitivity.
Qed.

Lemma log_ok_prefix h g g' : g' `prefix_of` g -> log_ok h g -> log_ok h g'.
Proof.
  intros Hp Hg k e He. destruct (Hg k e) as (l & Hl & Hpre); [by eapply prefix_lookup_Some|].
  exists l. split; [done|]. by rewrite (prefix_take_eq g' g) by (done || by apply lookup_lt_Some in He).
Qed.

(** Log matching, in the history: same index and term, same log up to there. *)
Lemma log_matching h g1 g2 k e1 e2 :
  log_ok h g1 -> log_ok h g2 -> g1 !! k = Some e1 -> g2 !! k = Some e2 -> le_Term e1 = le_Term e2 ->
  take (S k) g1 = take (S k) g2.
Proof.
  intros H1 H2 He1 He2 Ht. destruct (H1 _ _ He1) as (l & Hl & Hp1). destruct (H2 _ _ He2) as (l' & Hl' & Hp2).
  assert (l' = l) as -> by congruence. apply lookup_lt_Some in He1, He2.
  eapply prefix_same_length; [done|done|]. rewrite !length_take. lia.
Qed.

Lemma log_matching_gterm h g1 g2 k :
  log_ok h g1 -> log_ok h g2 -> gterm g1 k = gterm g2 k -> gterm g1 k <> 0 -> take k g1 = take k g2.
Proof.
  intros H1 H2 Ht Hz. destruct (gterm_pos g1 k Hz) as (k1 & e1 & -> & He1 & Hg1).
  destruct (gterm_pos g2 (S k1)) as (k2 & e2 & [= <-] & He2 & Hg2); [congruence|].
  eapply log_matching; [done|done|done|done|congruence].
Qed.

(** A log is a prefix of the log of the leader of its last term. *)
Lemma log_ok_last h g :
  log_ok h g -> gterm g (length g) <> 0 -> exists l, h_logs h !! gterm g (length g) = Some l /\ g `prefix_of` l.
Proof.
  intros Hg Hz. destruct (gterm_pos _ _ Hz) as (k & e & Hk & He & Ht). rewrite Ht.
  destruct (Hg k e He) as (l & ? & Hp). exists l. split; [done|]. by rewrite <- Hk, take_ge in Hp.
Qed.

Lemma gterm_last_ok h g : log_ok h g -> hist_ok h -> g <> [] -> 1 <= gterm g (length g).
Proof.
  intros Hg Hh Hne. destruct (exists_last Hne) as (g0 & e & ->). rewrite length_app, Nat.add_1_r. simpl.
  rewrite lookup_app_r, Nat.sub_diag by done. simpl.
  destruct (Hg (length g0) e) as (l & Hl & _); [by rewrite lookup_app_r, Nat.sub_diag by done|].
  apply (Hh _ _ Hl).
Qed.

(** ** Leader completeness *)

Section completeness.
Context (h : hist) (members : list string) (vs : gset (string * Z * string)).
Context (Hh : hist_ok h) (He : elections_ok h members vs).

(** A log [E] at least as up to date as a log [v] that contains a prefix of the
    leader's log of term [T0] contains it too, if every leader between [T0] and
    the terms of [E] does. *)
Lemma up_to_date_keeps T0 l0 m E v T :
  h_logs h !! T0 = Some l0 -> gterm l0 m = T0 -> (m <= length l0)%nat ->
  log_ok h v -> log_ok h E -> up_to_date E v -> take m l0 `prefix_of` v -> Forall (λ e, le_Term e < T) E ->
  (forall T1 l1, T0 < T1 < T -> h_logs h !! T1 = Some l1 -> take m l0 `prefix_of` l1) ->
  take m l0 `prefix_of` E.
Proof using Hh.
  intros Hl0 Hm Hml Hv HE Hup Hpre Hlt IH. pose proof (Hh _ _ Hl0) as Hll. destruct (ll_term _ _ _ Hll) as [HT0 _].
  destruct (gterm_pos l0 m) as (m' & e & -> & Hem & Hte); [lia|].
  assert (Hev : v !! m' = Some e) by (eapply prefix_lookup_Some; [|done]; by rewrite lookup_take_lt by lia).
  assert (Hvne : v <> []) by (by intros ->).
  pose proof (gterm_last_ok h v Hv Hh Hvne) as Htv.
  destruct (log_ok_last h v Hv) as (lv & Hlv & Hvlv); [lia|].
  assert (HT0v : T0 <= gterm v (length v)).
  { destruct (gterm_pos v (length v)) as (kv & ev & Hkv & Hevv & Htvv); [lia|]. rewrite Htvv, <- Hm, Hte.
    apply (ll_sorted _ _ _ (Hh _ _ Hlv) m' kv); [apply lookup_lt_Some in Hev; lia|by eapply prefix_lookup_Some..]. }
  destruct (log_ok_last h E HE) as (lE & HlE & HElE); [destruct Hup; lia|].
  destruct Hup as [Hlt2|[Heq Hlen]].
  - assert (Hte' : gterm E (length E) < T).
    { destruct (gterm_pos E (length E)) as (k & x & Hk & Hx & ->); [lia|]. by eapply Forall_lookup_1 in Hlt. }
    pose proof (IH _ _ (conj (Z.le_lt_trans _ _ _ HT0v Hlt2) Hte') HlE) as HlEp.
    destruct (prefix_weak_total _ _ _ HlEp HElE) as [|HEm]; [done|]. exfalso.
    destruct (gterm_pos E (length E)) as (k & x & Hk & Hx & Hxt); [lia|].
    assert (Hx0 : l0 !! k = Some x).
    { eapply prefix_lookup_Some; [exact Hx|]. etransitivity; [exact HEm|apply prefix_take]. }
    pose proof (Forall_lookup_1 _ _ _ _ (ll_le _ _ _ Hll) Hx0). simpl in *. lia.
  - etransitivity; [exact Hpre|]. assert (lE = lv) as -> by congruence.
    destruct (prefix_weak_total _ _ _ Hvlv HElE) as [|Hp]; [done|].
    by rewrite (prefix_length_eq _ _ Hp).
Qed.

(** Leader completeness. *)
Lemma leader_completeness T0 l0 m :
  h_logs h !! T0 = Some l0 -> chosen h members T0 l0 m ->
  forall T1 l1, T0 <= T1 -> h_logs h !! T1 = Some l1 -> take m l0 `prefix_of` l1.
Proof using Hh He.
  intros Hl0 (Hml & Hmt & Q0 & (HQn & HQs & HQl) & HQ0).
  intros T1. induction (Zwf_well_founded T0 T1) as [T1 _ IH]. intros l1 HT Hl1.
  destruct (decide (T1 = T0)) as [->|Hne]; [simplify_eq; apply prefix_take|].
  destruct (He T1 l1 Hl1) as (j & Q & E & HE & HElt & (HQn' & HQs' & HQl') & Hvotes).
  destruct (quorum_intersect members Q0 Q) as (q & Hq0 & Hq); [done..|lia|].
  destruct (Hvotes q Hq) as (_ & v & Hvok & Hup & Hack).
  assert (Hbetween : forall T2 l2, T0 < T2 < T1 -> h_logs h !! T2 = Some l2 -> take m l0 `prefix_of` l2).
  { intros T2 l2 HT2 Hl2. apply (IH T2); [unfold Zwf; lia|lia|done]. }
  destruct (Hack T0 m (HQ0 q Hq0) ltac:(lia)) as (l0' & Hl0' & _ & Hcase). simplify_eq.
  assert (Hpre : take m l0 `prefix_of` v).
  { destruct Hcase as [|(T2 & l2 & HT2 & Hl2 & Hn)]; [done|]. destruct Hn. apply (Hbetween T2); [lia|done]. }
  etransitivity; [|exact HE]. eapply up_to_date_keeps; eauto.
  eapply log_ok_prefix; [exact HE|]. apply (Hh _ _ Hl1).
Qed.

(** A committed prefix is in the log of every leader from its term on. *)
Lemma committed_leader k g T T1 l1 :
  committed h members k g T -> T <= T1 -> h_logs h !! T1 = Some l1 ->
  (k <= length g)%nat /\ take k g `prefix_of` l1.
Proof using Hh He.
  intros [->|(T0 & l0 & m & HT & Hl0 & Hch & Hkm & Hpre)] HT1 Hl1; [split; [lia|apply prefix_nil]|].
  pose proof (leader_completeness _ _ _ Hl0 Hch T1 l1 ltac:(lia) Hl1) as Hp. destruct Hch as (Hml & _).
  assert (Hlen : length (take k l0) = k) by (rewrite length_take; lia).
  pose proof (prefix_length _ _ Hpre). split; [lia|].
  rewrite <- (prefix_take_eq _ _ k Hpre) by lia. rewrite take_take, Nat.min_id.
  etransitivity; [apply take_prefix_mono, Hkm|done].
Qed.

Lemma committed_length k g T : committed h members k g T -> (k <= length g)%nat.
Proof using.
  intros [->|(T0 & l0 & m & _ & _ & (Hml & _) & Hkm & Hpre)]; [lia|].
  apply prefix_length in Hpre. rewrite length_take in Hpre. lia.
Qed.

Lemma committed_weaken k k' g T : committed h members k g T -> (k' <= k)%nat -> committed h members k' g T.
Proof using.
  intros [->|(T0 & l0 & m & HT & Hl & Hc & Hk & Hp)] Hle; [left; lia|right]. exists T0, l0, m.
  split_and!; [done|done|done|lia|]. etransitivity; [by apply take_prefix_mono|done].
Qed.

Lemma chosen_agree T1 T2 l1 l2 m1 m2 k :
  T1 <= T2 -> h_logs h !! T1 = Some l1 -> h_logs h !! T2 = Some l2 -> chosen h members T1 l1 m1 ->
  chosen h members T2 l2 m2 -> (k <= m1)%nat -> take k l1 = take k l2.
Proof using Hh He.
  intros HT Hl1 Hl2 Hc1 Hc2 Hk. pose proof (leader_completeness _ _ _ Hl1 Hc1 _ _ HT Hl2) as Hp.
  destruct Hc1 as (Hm1 & _). rewrite <- (prefix_take_eq _ _ k Hp) by (rewrite length_take; lia).
  by rewrite take_take, Nat.min_l by lia.
Qed.

(** Two committed prefixes agree as far as both reach. *)
Lemma committed_agree k1 k2 g1 g2 T1 T2 k :
  committed h members k1 g1 T1 -> committed h members k2 g2 T2 -> (k <= k1)%nat -> (k <= k2)%nat ->
  take k g1 = take k g2.
Proof using Hh He.
  intros [->|(T01 & l01 & m1 & ? & Hl1 & Hc1 & Hm1 & Hp1)] [->|(T02 & l02 & m2 & ? & Hl2 & Hc2 & Hm2 & Hp2)] Hk1 Hk2;
    try (by replace k with 0%nat by lia).
  pose proof Hc1 as (? & _). pose proof Hc2 as (? & _).
  rewrite <- (prefix_take_eq _ _ k Hp1), <- (prefix_take_eq _ _ k Hp2) by (rewrite length_take; lia).
  rewrite !take_take, !Nat.min_l by lia. destruct (Z.le_ge_cases T01 T02).
  - eapply chosen_agree; [|done..|]; lia.
  - symmetry. eapply chosen_agree; [|done..|]; lia.
Qed.
End completeness.

(** ** Growth of the history *)

(** Leaders append entries of their own term; acknowledgements are never taken
    back. *)
Record ext (h h' : hist) : Prop := {
  ex_logs : forall T l, h_logs h !! T = Some l ->
    exists x, h_logs h' !! T = Some (l ++ x) /\ Forall (λ e, le_Term e = T) x;
  ex_acks : h_acks h ⊆ h_acks h'
}.

#[export] Instance ext_preorder : PreOrder ext.
Proof.
  split.
  - intros h. split; [|done]. intros T l Hl. exists []. rewrite app_nil_r. split; [done|constructor].
  - intros h1 h2 h3 [L1 A1] [L2 A2]. split; [|set_solver]. intros T l Hl.
    destruct (L1 T l Hl) as (x & Hx & Hfx). destruct (L2 T _ Hx) as (y & Hy & Hfy).
    exists (x ++ y). rewrite app_assoc. split; [done|]. by apply Forall_app.
Qed.

Lemma ext_prefix h h' T l : ext h h' -> h_logs h !! T = Some l -> exists l', h_logs h' !! T = Some l' /\ l `prefix_of` l'.
Proof. intros [Hx _] Hl. destruct (Hx T l Hl) as (x & ? & _). eexists. split; [done|]. by apply prefix_app_r. Qed.

Section mono.
Context (h h' : hist) (Hx : ext h h').

Lemma acked_mono q T m : acked h q T m -> acked h' q T m.
Proof using Hx. intros (m' & ? & ?). exists m'. split; [done|]. by apply (ex_acks _ _ Hx). Qed.

Lemma log_ok_mono g : log_ok h g -> log_ok h' g.
Proof using Hx.
  intros Hg k e He. destruct (Hg k e He) as (l & Hl & Hp). destruct (ext_prefix _ _ _ _ Hx Hl) as (l' & ? & ?).
  exists l'. split; [done|]. by etransitivity.
Qed.

Lemma take_mono T l m : h_logs h !! T = Some l -> (m <= length l)%nat ->
  exists l', h_logs h' !! T = Some l' /\ l `prefix_of` l' /\ (m <= length l')%nat /\ take m l' = take m l.
Proof using Hx.
  intros Hl Hm. destruct (ext_prefix _ _ _ _ Hx Hl) as (l' & Hl' & Hp). exists l'. split_and!; [done|done| |].
  - apply prefix_length in Hp. lia.
  - symmetry. by apply prefix_take_eq.
Qed.

Lemma chosen_mono members T l l' m :
  l `prefix_of` l' -> chosen h members T l m -> chosen h' members T l' m.
Proof using Hx.
  intros Hp (Hm & Ht & Q & HQ & HA). pose proof (prefix_length _ _ Hp).
  split; [lia|]. split; [by rewrite (gterm_prefix l l')|]. exists Q. split; [done|].
  intros q Hq. by apply acked_mono, HA.
Qed.

Lemma committed_mono members k g g' T T' :
  committed h members k g T -> take k g = take k g' -> (k <= length g')%nat -> T <= T' -> committed h' members k g' T'.
Proof using Hx.
  intros [->|(T0 & l0 & m & HT & Hl0 & Hc & Hk & Hp)] Hg Hlen HT'; [by left|right].
  pose proof Hc as (Hm & _). destruct (take_mono T0 l0 k Hl0 ltac:(lia)) as (l' & Hl' & Hpre & _ & Htk).
  exists T0, l', m. split_and!; [lia|done|by eapply chosen_mono|done|].
  rewrite Htk. assert (Hlk : length (take k l0) = k) by (rewrite length_take; lia).
  assert (take k l0 = take k g') as ->; [|apply prefix_take].
  rewrite <- Hg, <- (prefix_take_eq _ _ k Hp) by lia. by rewrite take_take, Nat.min_id.
Qed.

(** A leader that lacked a prefix of an earlier one never gets it. *)
Lemma not_prefix_mono T l m T1 l1 l1' :
  hist_ok h -> h_logs h !! T = Some l -> T < T1 -> h_logs h !! T1 = Some l1 -> h_logs h' !! T1 = Some l1' ->
  ~ take m l `prefix_of` l1 -> ~ take m l `prefix_of` l1'.
Proof using Hx.
  intros Hh Hl HT Hl1 Hl1' Hn Hp. destruct (ex_logs _ _ Hx T1 l1 Hl1) as (x & Hx1 & Hfx). simplify_eq.
  destruct (prefix_weak_total _ _ _ Hp (prefix_app_r l1 l1 x ltac:(done))) as [|Hq]; [done|].
  pose proof (prefix_length _ _ Hq) as Hlen.
  destruct (decide (length l1 = length (take m l))) as [Heq|Hne].
  { apply Hn. rewrite (prefix_length_eq _ _ Hq); [done|lia]. }
  destruct (lookup_lt_is_Some_2 (take m l) (length l1)) as [e He]; [lia|].
  pose proof (prefix_lookup_Some _ _ _ _ He Hp) as He1. rewrite lookup_app_r, Nat.sub_diag in He1 by done.
  pose proof (Forall_lookup_1 _ _ _ _ Hfx He1) as Ht1.
  pose proof (prefix_lookup_Some _ _ _ _ He (prefix_take l m)) as He2.
  pose proof (Forall_lookup_1 _ _ _ _ (ll_le _ _ _ (Hh _ _ Hl)) He2) as Ht2. simpl in *. lia.
Qed.

Lemma ack_ok_mono T m g cur cur' :
  hist_ok h -> ack_ok h T m g cur -> cur <= cur' -> ack_ok h' T m g cur'.
Proof using Hx.
  intros Hh (l & Hl & Hm & Hcase) Hcur. destruct (take_mono T l m Hl Hm) as (l' & Hl' & _ & Hm' & Htk).
  exists l'. rewrite Htk. split_and!; [done|done|]. destruct Hcase as [|(T1 & l1 & HT1 & Hl1 & Hn)]; [by left|right].
  destruct (ext_prefix _ _ _ _ Hx Hl1) as (l1' & Hl1' & _). exists T1, l1'. split_and!; [lia|lia|done|].
  eapply (not_prefix_mono T l m T1 l1); eauto. lia.
Qed.

(** A vote is not touched by acknowledgements of later terms. *)
Lemma voted_mono q T E :
  hist_ok h -> (forall T0 m, (q, T0, m) ∈ h_acks h' -> (q, T0, m) ∉ h_acks h -> T <= T0) ->
  voted h q T E -> voted h' q T E.
Proof using Hx.
  intros Hh Hnew (v & Hv & Hup & Hack). exists v. split_and!; [by apply log_ok_mono|done|].
  intros T0 m (m' & Hm & Hin) HT. destruct (decide ((q, T0, m') ∈ h_acks h)) as [Ho|Ho].
  - eapply ack_ok_mono; [done| |reflexivity]. apply Hack; [by exists m'|done].
  - pose proof (Hnew _ _ Hin Ho). lia.
Qed.

Lemma won_mono members vs vs' j T l l' :
  hist_ok h -> l `prefix_of` l' -> vs ⊆ vs' ->
  (forall q T0 m, (q, T, j) ∈ vs -> (q, T0, m) ∈ h_acks h' -> (q, T0, m) ∉ h_acks h -> T <= T0) ->
  won h members vs j T l -> won h' members vs' j T l'.
Proof using Hx.
  intros Hh Hp Hvs Hnew (Q & E & HE & Hlt & HQ & Hall). exists Q, E.
  split_and!; [by etransitivity|done|done|]. intros q Hq. destruct (Hall q Hq) as [Hin Hv]. split; [auto|].
  eapply voted_mono; eauto.
Qed.
End mono.

(** ** The three ways a history grows *)

Lemma leader_log_mono h h' T l : ext h h' -> leader_log h T l -> leader_log h' T l.
Proof. intros Hx []. split; eauto using log_ok_mono. Qed.

(** The terms of any log made of leaders' entries grow with the index. *)
Lemma log_ok_sorted h g j k e f :
  hist_ok h -> log_ok h g -> (j <= k)%nat -> g !! j = Some e -> g !! k = Some f -> le_Term e <= le_Term f.
Proof.
  intros Hh Hg Hjk He Hf. destruct (Hg k f Hf) as (l & Hl & Hp).
  apply (ll_sorted _ _ _ (Hh _ _ Hl) j k); [done|..]; (eapply prefix_lookup_Some; [|exact Hp]);
    by rewrite lookup_take_lt by lia.
Qed.

(** [i] acknowledges [m] entries to the leader of term [T]. *)
Definition hist_ack (i : string) (T : Z) (m : nat) (h : hist) : hist :=
  mkHist (h_logs h) ({[(i, T, m)]} ∪ h_acks h).

Lemma ack_new i T m h : (i, T, m) ∈ h_acks (hist_ack i T m h).
Proof. by apply elem_of_union_l, elem_of_singleton. Qed.

Lemma ext_ack i T m h : ext h (hist_ack i T m h).
Proof.
  split; simpl; [|set_solver]. intros T' l Hl. exists []. rewrite app_nil_r. split; [done|constructor].
Qed.

Lemma hist_ok_ack i T m h : hist_ok h -> hist_ok (hist_ack i T m h).
Proof. intros Hh T' l Hl. eapply leader_log_mono; [apply ext_ack|]. by apply Hh. Qed.

(** The leader [i] of term [T] now has the log [l]; it counts for itself. *)
Definition hist_lead (i : string) (T : Z) (l : list LogEntry) (h : hist) : hist :=
  hist_ack i T (length l) (mkHist (<[T := l]> (h_logs h)) (h_acks h)).

Lemma ext_append i T l e h :
  h_logs h !! T = Some l -> le_Term e = T -> ext h (hist_lead i T (l ++ [e]) h).
Proof.
  intros Hl He. split; simpl; [|set_solver]. intros T' l' Hl'. destruct (decide (T' = T)) as [->|Hne].
  - simplify_eq. exists [e]. rewrite lookup_insert_eq. split; [done|]. by apply Forall_singleton.
  - exists []. rewrite app_nil_r, lookup_insert_ne by done. split; [done|constructor].
Qed.

Lemma ext_elect i T l h : h_logs h !! T = None -> ext h (hist_lead i T l h).
Proof.
  intros Hn. split; simpl; [|set_solver]. intros T' l' Hl'. exists [].
  rewrite app_nil_r, lookup_insert_ne by congruence. split; [done|constructor].
Qed.

Lemma hist_ok_lead i T l h :
  hist_ok h -> ext h (hist_lead i T l h) -> leader_log (hist_lead i T l h) T l -> hist_ok (hist_lead i T l h).
Proof.
  intros Hh Hx Hll T' l'. simpl. destruct (decide (T' = T)) as [->|Hne].
  - rewrite lookup_insert_eq. by intros [= <-].
  - rewrite lookup_insert_ne by done. intros Hl. eapply leader_log_mono; [done|]. by apply Hh.
Qed.

Lemma hist_ok_append i T l e h :
  hist_ok h -> h_logs h !! T = Some l -> le_Term e = T -> le_Index e = lenZ l + 1 -> lenZ l + 2 < u64_size ->
  hist_ok (hist_lead i T (l ++ [e]) h).
Proof.
  intros Hh Hl Ht Hi Hb. pose proof (ext_append i T l e h Hl Ht) as Hx. pose proof (Hh _ _ Hl) as Hll.
  destruct (ll_term _ _ _ Hll) as [HT1 HT2].
  assert (Hle : Forall (λ f, le_Term f <= T) (l ++ [e])).
  { apply Forall_app. split; [apply Hll|]. apply Forall_singleton. lia. }
  apply hist_ok_lead; [done|done|]. split; [done|..|done|].
  - intros k f Hk. destruct (decide (k < length l)%nat) as [Hkl|Hkl].
    + rewrite lookup_app_l in Hk by done. rewrite take_app_le by lia. by apply (log_ok_mono h); [|apply Hll|].
    + exists (l ++ [e]). pose proof (lookup_lt_Some _ _ _ Hk) as Hkn. rewrite length_app in Hkn. simpl in Hkn.
      replace k with (length l) in Hk by lia. rewrite lookup_app_r, Nat.sub_diag in Hk by done. simplify_eq/=.
      rewrite lookup_insert_eq. split; [done|]. apply prefix_take.
  - apply contiguous_app. split; [apply Hll|]. simpl. split; [lia|done].
  - apply Forall_app. split; [apply Hll|]. apply Forall_singleton. unfold entry_ok. lia.
  - rewrite lenZ_app. unfold lenZ in *. simpl. lia.
  - intros j k f1 f2 Hjk H1 H2. destruct (decide (k < length l)%nat) as [Hkl|Hkl].
    + rewrite lookup_app_l in H1, H2 by lia. by apply (ll_sorted _ _ _ Hll j k).
    + pose proof (lookup_lt_Some _ _ _ H2) as Hkn. rewrite length_app in Hkn. simpl in Hkn.
      replace k with (length l) in H2 by lia. rewrite lookup_app_r, Nat.sub_diag in H2 by done. simplify_eq/=.
      eapply Forall_lookup_1 in Hle; [|exact H1]. done.
Qed.

Lemma hist_ok_elect i T g h :
  hist_ok h -> h_logs h !! T = None -> 1 <= T < u64_size -> log_ok h g -> contiguous 1 g -> Forall entry_ok g ->
  lenZ g + 1 < u64_size -> Forall (λ e, le_Term e <= T) g -> hist_ok (hist_lead i T g h).
Proof.
  intros Hh Hn HT Hg Hc Hok Hb Hle. pose proof (ext_elect i T g h Hn) as Hx.
  apply hist_ok_lead; [done|done|]. split; try done; [by eapply log_ok_mono|].
  intros j k e f. by eapply log_ok_sorted.
Qed.
