(* ===== verification/LogInvariant.v ===== *)
(** * The invariant behind state machine safety

    What relates the nodes of a cluster and the goroutines in flight to a
    history of leaders' logs: [lninv] for the nodes, [lthread] for a goroutine.
    [lninv_update] is the one place where the whole invariant is rebuilt; every
    step of LogSafety.v goes through it. *)

From S2P Require Import Prelude RaftLog Rpc Disk Node Election Replication ReplicationSafety Snapshot Client Transport Cluster ElectionSafety FullLog LogHistory.

(** ** Nodes *)

(** The state file holds the log; without a file the log is still empty. *)
Definition fsaved (n : RaftNode) : Prop :=
  durable n \/ (files (disk n) !! statePath = None /\ rlog n = newLog).

(** A leader's log is the log of its term, and its [matchIndex] only counts
    what was acknowledged in that term. *)
Record leads (h : hist) (g : list LogEntry) (i : string) (n : RaftNode) : Prop := {
  ld_log : h_logs h !! currentTerm n = Some g;
  ld_own : (i, currentTerm n, length g) ∈ h_acks h;
  ld_match : forall p, p ∈ peers n -> 0 <= mget (matchIndex n) p /\
    (mget (matchIndex n) p = 0 \/ (p, currentTerm n, Z.to_nat (mget (matchIndex n) p)) ∈ h_acks h);
  ld_next : forall p, p ∈ peers n -> mget (nextIndex n) p < u64_size
}.

Record lnode (members : list string) (h : hist) (g : list LogEntry) (i : string) (n : RaftNode) : Prop := {
  ln_full : full (rlog n) g;
  ln_ok : log_ok h g;
  ln_terms : Forall (λ e, le_Term e <= currentTerm n) g;
  ln_range : log_snapshotIndex (rlog n) <= lastApplied n <= commitIndex n;
  ln_commit : committed h members (Z.to_nat (commitIndex n)) g (currentTerm n);
  ln_leader : state n = Leader -> leads h g i n;
  ln_cand : state n = Candidate -> 1 <= currentTerm n < u64_size;
  ln_saved : fsaved n;
  ln_snap : snapshot_durable n
}.

(** The member that won a term never stands in it again. *)
Definition past (ns : nodes) (j : string) (T : Z) : Prop :=
  exists n, ns !! j = Some n /\ T <= currentTerm n /\ (currentTerm n = T -> state n <> Candidate).

Record lninv (members : list string) (h : hist) (G : string -> list LogEntry) (ns : nodes)
    (vs : gset (string * Z * string)) : Prop := {
  li_hist : hist_ok h;
  li_won : forall T l, h_logs h !! T = Some l -> exists j, won h members vs j T l /\ past ns j T;
  li_node : forall i n, ns !! i = Some n -> lnode members h (G i) i n;
  li_acks : forall i T m, (i, T, m) ∈ h_acks h -> exists n, ns !! i = Some n /\ T <= currentTerm n /\
    forall m', (m' <= m)%nat -> ack_ok h T m' (G i) (currentTerm n);
  li_cand : forall i n, ns !! i = Some n -> state n = Candidate -> h_logs h !! currentTerm n = None ->
    forall q, (q, currentTerm n, i) ∈ vs -> voted h q (currentTerm n) (G i);
  li_recorded : forall i n, ns !! i = Some n -> votedFor n <> "" -> (i, currentTerm n, votedFor n) ∈ vs;
  li_voted : forall q T d, (q, T, d) ∈ vs -> exists n, ns !! d = Some n /\ T <= currentTerm n
}.

Lemma lninv_elections members h G ns vs : lninv members h G ns vs -> elections_ok h members vs.
Proof. intros H T l Hl. destruct (li_won _ _ _ _ _ H T l Hl) as (j & ? & _). by exists j. Qed.

Lemma won_quorum h members vs j T l : won h members vs j T l -> has_quorum vs members j T.
Proof. intros (Q & E & _ & _ & (? & ? & ?) & Hall). exists Q. split_and!; [done..|]. intros q Hq. by apply Hall. Qed.

(** What the steps below need of the invariant of ElectionSafety.v, when nobody
    has voted twice in a term. *)
Definition votes_once (vs : gset (string * Z * string)) : Prop :=
  forall v T d1 d2, (v, T, d1) ∈ vs -> (v, T, d2) ∈ vs -> d1 = d2.

Record vinv (members : list string) (ns : nodes) (vs : gset (string * Z * string)) : Prop := {
  vi_node : forall i n, ns !! i = Some n -> node_ok members i n;
  vi_votes : forall q T d, (q, T, d) ∈ vs -> exists n, ns !! q = Some n /\ T <= currentTerm n;
  vi_leader : forall i n, ns !! i = Some n -> state n = Leader -> has_quorum vs members i (currentTerm n);
  vi_once : votes_once vs
}.

Lemma ninv_vinv members ns vs ab : ninv members ns vs ab -> votes_once vs -> vinv members ns vs.
Proof.
  intros [] Ho. split; try done. intros q T d Hin. destruct (ni_votes q T d Hin) as (_ & n & ? & ? & _). eauto.
Qed.

Lemma quiet_state n n' :
  quiet n n' -> state n' <> Follower -> currentTerm n' = currentTerm n /\ state n' = state n.
Proof.
  intros [] Hs. destruct (decide (currentTerm n' = currentTerm n)) as [He|Hne].
  - split; [done|]. by destruct (q_same He) as [_ [|]].
  - destruct q_up; [lia|]. congruence.
Qed.

Lemma vinv_quiet members ns vs i n n' :
  vinv members ns vs -> ns !! i = Some n -> quiet n n' -> vinv members (<[i := n']> ns) vs.
Proof.
  intros [] Hn Hq. split; try done.
  - intros j m [[<- <-]|[? ?]]%lookup_insert_Some; [by eapply node_ok_quiet; eauto|eauto].
  - intros q T d Hin. destruct (vi_votes0 q T d Hin) as (m & Hm & HT). destruct (decide (i = q)) as [<-|].
    + exists n'. rewrite lookup_insert_eq. simplify_eq. pose proof (q_term _ _ Hq). split; [done|lia].
    + exists m. by rewrite lookup_insert_ne.
  - intros j m [[<- <-]|[? ?]]%lookup_insert_Some Hs; [|eauto].
    destruct (quiet_state _ _ Hq) as [-> Hs']; [congruence|]. apply vi_leader0; congruence.
Qed.

(** Then a term has one winner ever. *)
Lemma one_winner members ns vs i j T :
  vinv members ns vs -> has_quorum vs members i T -> has_quorum vs members j T -> i = j.
Proof.
  intros Hinv (Q1 & ? & ? & ? & HQ1) (Q2 & ? & ? & ? & HQ2).
  destruct (quorum_intersect members Q1 Q2) as (q & Hq1 & Hq2); [done..|lia|].
  exact (vi_once _ _ _ Hinv _ _ _ _ (HQ1 q Hq1) (HQ2 q Hq2)).
Qed.

(** ** Goroutines *)

(** [i] won term [T] and sends to another node. *)
Definition sender_ok (members : list string) (vs : gset (string * Z * string)) (i p : string) (T : Z) : Prop :=
  has_quorum vs members i T /\ p <> i.

(** An AppendEntries message: a part of the leader's log that reaches beyond the
    commit index it announces; or one whose predecessor the leader does not
    have, which no follower accepts. *)
Definition ae_ok (members : list string) (h : hist) (T : Z) (args : AppendEntriesArgs) : Prop :=
  ae_Term args = T /\ is_u64 (ae_PrevLogIndex args) /\
  exists l, h_logs h !! T = Some l /\
    ((0 < ae_PrevLogIndex args /\ ae_PrevLogTerm args = 0) \/
     exists p : nat, ae_PrevLogIndex args = Z.of_nat p /\ (p <= length l)%nat /\ ae_PrevLogTerm args = gterm l p /\
       ae_Entries args `prefix_of` drop p l /\
       0 <= ae_LeaderCommit args <= Z.of_nat p + lenZ (ae_Entries args) /\
       committed h members (Z.to_nat (ae_LeaderCommit args)) l T).

Definition sn_ok (members : list string) (h : hist) (T : Z) (args : InstallSnapshotArgs) : Prop :=
  is_Term args = T /\
  exists l, h_logs h !! T = Some l /\ 0 <= is_LastIncludedIndex args <= lenZ l /\
    is_LastIncludedTerm args = gterm l (Z.to_nat (is_LastIncludedIndex args)) /\
    committed h members (Z.to_nat (is_LastIncludedIndex args)) l T.

Definition lthread (members : list string) (h : hist) (vs : gset (string * Z * string)) (t : Thread) : Prop :=
  match t with
  | TAppendReq i p T args => sender_ok members vs i p T /\ ae_ok members h T args
  | TAppendRep i p T args r => sender_ok members vs i p T /\ ae_ok members h T args /\
      is_u64 (aer_ConflictIndex r) /\
      (aer_Success r = true -> exists m : nat,
         ae_PrevLogIndex args + lenZ (ae_Entries args) = Z.of_nat m /\ Z.of_nat m < u64_size - 1 /\ (p, T, m) ∈ h_acks h)
  | TSnapReq i p T args => sender_ok members vs i p T /\ sn_ok members h T args
  | TSnapRep i p T args r => sender_ok members vs i p T /\ sn_ok members h T args /\
      (isr_Term r <= T -> (p, T, Z.to_nat (is_LastIncludedIndex args)) ∈ h_acks h)
  | _ => True
  end.

(** The log an election announces is the candidate's, as long as nobody has won
    its term. *)
Definition lelection (h : hist) (G : string -> list LogEntry) (ns : nodes) (i : string) (e : Election) : Prop :=
  exists n, ns !! i = Some n /\ el_term e <= currentTerm n /\
    (state n = Candidate -> currentTerm n = el_term e -> h_logs h !! el_term e = None ->
     rv_LastLogIndex (el_args e) = lenZ (G i) /\ rv_LastLogTerm (el_args e) = gterm (G i) (length (G i))).

(** ** Growth *)

Lemma ae_ok_mono members h h' T args : ext h h' -> ae_ok members h T args -> ae_ok members h' T args.
Proof.
  intros Hx (HT & Hu & l & Hl & Hcase). split; [done|]. split; [done|].
  destruct (ext_prefix _ _ _ _ Hx Hl) as (l' & Hl' & Hp). exists l'. split; [done|].
  destruct Hcase as [|(p & Hp1 & Hp2 & Hp3 & Hes & Hlc & Hc)]; [by left|right]. exists p.
  pose proof (prefix_length _ _ Hp). split_and!; try done; try lia.
  - by rewrite (gterm_prefix l l').
  - etransitivity; [done|]. destruct Hp as [x ->]. rewrite drop_app_le by lia. by apply prefix_app_r.
  - pose proof (committed_length _ _ _ _ _ Hc). eapply committed_mono; [done..| |lia|lia]. by apply prefix_take_eq.
Qed.

Lemma sn_ok_mono members h h' T args : ext h h' -> sn_ok members h T args -> sn_ok members h' T args.
Proof.
  intros Hx (HT & l & Hl & Hi & Ht & Hc). split; [done|].
  destruct (ext_prefix _ _ _ _ Hx Hl) as (l' & Hl' & Hp). exists l'.
  pose proof (prefix_length _ _ Hp). unfold lenZ in *. split_and!; try done; try lia.
  - rewrite (gterm_prefix l l'); [done|done|lia].
  - eapply committed_mono; [done..| |lia|lia]. apply prefix_take_eq; [done|lia].
Qed.

Lemma lthread_mono members h h' vs vs' t :
  ext h h' -> vs ⊆ vs' -> lthread members h vs t -> lthread members h' vs' t.
Proof.
  intros Hx Hvs. assert (Hs : forall i p T, sender_ok members vs i p T -> sender_ok members vs' i p T).
  { intros i p T [Hq ?]. split; [by eapply has_quorum_mono|done]. }
  pose proof (ex_acks _ _ Hx). destruct t; simpl; try done.
  - intros [? ?]. eauto using ae_ok_mono.
  - intros (? & ? & ? & Hsucc). split_and!; eauto using ae_ok_mono.
    intros Hr. destruct (Hsucc Hr) as (m & ? & ? & ?). exists m. auto.
  - intros [? ?]. eauto using sn_ok_mono.
  - intros (? & ? & ?). split_and!; eauto using sn_ok_mono.
Qed.

Lemma leads_mono h h' g i n : ext h h' -> h_logs h' !! currentTerm n = Some g -> leads h g i n -> leads h' g i n.
Proof.
  intros Hx Hl []. pose proof (ex_acks _ _ Hx). split; [done|by auto| |done].
  intros p Hp. destruct (ld_match0 p Hp) as [? [|]]; auto.
Qed.

Lemma lnode_mono members h h' g i n :
  ext h h' -> (state n = Leader -> h_logs h' !! currentTerm n = Some g) ->
  lnode members h g i n -> lnode members h' g i n.
Proof.
  intros Hx Hl []. split; try done.
  - by eapply log_ok_mono.
  - eapply committed_mono; [done..|by eapply committed_length|lia].
  - intros Hs. by eapply leads_mono; [done|apply Hl|apply ln_leader0].
Qed.

(** ** The update of one node *)

Definition upd (i : string) (g : list LogEntry) (G : string -> list LogEntry) : string -> list LogEntry :=
  λ j, if decide (j = i) then g else G j.

Lemma upd_eq i g G : upd i g G i = g.
Proof. unfold upd. by rewrite decide_True. Qed.

Lemma upd_ne i j g G : j <> i -> upd i g G j = G j.
Proof. unfold upd. intros. by rewrite decide_False. Qed.

Lemma upd_id i j G : upd i (G i) G j = G j.
Proof. unfold upd. by case_decide; subst. Qed.

(** An election is not disturbed by a node that is not, or no longer, its
    candidate. *)
Lemma lelection_update h h' G ns i n n' g' j e :
  ext h h' -> ns !! i = Some n -> currentTerm n <= currentTerm n' ->
  (state n' = Candidate -> currentTerm n < currentTerm n' \/
     state n = Candidate /\ currentTerm n' = currentTerm n /\ (h_logs h' !! currentTerm n' = None -> g' = G i)) ->
  lelection h G ns j e -> lelection h' (upd i g' G) (<[i := n']> ns) j e.
Proof.
  intros Hx Hn Hle Hc (m & Hm & HT & Hargs). unfold lelection.
  assert (Hnone : h_logs h' !! el_term e = None -> h_logs h !! el_term e = None).
  { intros H'. destruct (h_logs h !! el_term e) as [l|] eqn:Hl; [|done].
    destruct (ext_prefix _ _ _ _ Hx Hl) as (? & ? & _). congruence. }
  destruct (decide (j = i)) as [->|Hne].
  - simplify_eq. exists n'. rewrite lookup_insert_eq, upd_eq. split_and!; [done|lia|]. intros Hs He Hl.
    destruct (Hc Hs) as [?|(? & ? & Hg)]; [lia|]. rewrite Hg by congruence. apply Hargs; [done|congruence|auto].
  - exists m. rewrite lookup_insert_ne, upd_ne by done. auto.
Qed.

Section update.
Context (members : list string) (h h' : hist) (G : string -> list LogEntry) (ns : nodes).
Context (vs vs' : gset (string * Z * string)) (i : string) (n n' : RaftNode) (g' : list LogEntry).
Context (Hinv : lninv members h G ns vs) (Hni : vinv members ns vs) (Hn : ns !! i = Some n).

Lemma past_update j T :
  past ns j T -> currentTerm n <= currentTerm n' ->
  (state n' = Candidate -> currentTerm n < currentTerm n' \/ state n = Candidate /\ currentTerm n' = currentTerm n) ->
  past (<[i := n']> ns) j T.
Proof using Hn.
  intros (m & Hm & HT & Hs) Hle Hc. unfold past. destruct (decide (i = j)) as [<-|Hne].
  - simplify_eq. exists n'. rewrite lookup_insert_eq. split_and!; [done|lia|]. intros HT' Hs'.
    destruct (Hc Hs') as [?|[? ?]]; [lia|]. by apply Hs; [lia|].
  - exists m. by rewrite lookup_insert_ne.
Qed.

(** The obligations of a change of node [i], of its log to [g'], of the history
    to [h'] and of the votes to [vs']. *)
Lemma lninv_update :
  ext h h' -> hist_ok h' -> vs ⊆ vs' -> currentTerm n <= currentTerm n' ->
  (forall T l, h_logs h' !! T = Some l -> h_logs h !! T = Some l \/ T = currentTerm n' /\ state n' = Leader) ->
  (forall q T m, (q, T, m) ∈ h_acks h' -> (q, T, m) ∉ h_acks h -> q = i /\ T = currentTerm n') ->
  (forall q T d, (q, T, d) ∈ vs' -> (q, T, d) ∉ vs -> q = i /\ T = currentTerm n' /\
     exists m, <[i := n']> ns !! d = Some m /\ T <= currentTerm m) ->
  (state n' = Candidate -> currentTerm n < currentTerm n' \/ state n = Candidate /\ currentTerm n' = currentTerm n) ->
  lnode members h' g' i n' ->
  (state n' = Leader -> has_quorum vs members i (currentTerm n')) ->
  (h_logs h !! currentTerm n' = None -> forall l, h_logs h' !! currentTerm n' = Some l ->
     won h' members vs' i (currentTerm n') l) ->
  (forall T m, (i, T, m) ∈ h_acks h' -> T <= currentTerm n' /\
     forall m', (m' <= m)%nat -> ack_ok h' T m' g' (currentTerm n')) ->
  (state n' = Candidate -> h_logs h' !! currentTerm n' = None ->
     forall q, (q, currentTerm n', i) ∈ vs' -> voted h' q (currentTerm n') g') ->
  (forall j m, j <> i -> ns !! j = Some m -> state m = Candidate -> currentTerm m = currentTerm n' ->
     h_logs h' !! currentTerm n' = None -> (i, currentTerm n', j) ∈ vs' -> (i, currentTerm n', j) ∉ vs ->
     voted h' i (currentTerm n') (G j)) ->
  (votedFor n' <> "" -> (i, currentTerm n', votedFor n') ∈ vs') ->
  lninv members h' (upd i g' G) (<[i := n']> ns) vs'.
Proof using All.
  intros Hx Hh' Hvs Hle Hlogs Hacks Hvotes Hcst Hnode Hlead Hwon Hack Hcand Hvoted Hrec.
  pose proof (li_hist _ _ _ _ _ Hinv) as Hh.
  assert (Hother : forall j m, j <> i -> ns !! j = Some m -> state m = Leader -> h_logs h' !! currentTerm m = Some (G j)).
  { intros j m Hj Hm Hs. pose proof (ld_log _ _ _ _ (ln_leader _ _ _ _ _ (li_node _ _ _ _ _ Hinv j m Hm) Hs)) as Hl.
    destruct (ext_prefix _ _ _ _ Hx Hl) as (l' & Hl' & _). destruct (Hlogs _ _ Hl') as [?|[HT Hsi]]; [congruence|].
    destruct Hj. eapply (one_winner members ns vs); [done| |].
    - by apply (vi_leader _ _ _ Hni).
    - rewrite HT. by apply Hlead. }
  assert (Hcur : forall q T d, (q, T, d) ∈ vs -> exists m, ns !! q = Some m /\ T <= currentTerm m).
  { apply (vi_votes _ _ _ Hni). }
  assert (Hnewack : forall q T T0 m d, (q, T, d) ∈ vs -> (q, T0, m) ∈ h_acks h' -> (q, T0, m) ∉ h_acks h -> T <= T0).
  { intros q T T0 m d Hin Ha Hna. destruct (Hacks _ _ _ Ha Hna) as [-> ->].
    destruct (Hcur _ _ _ Hin) as (m' & ? & ?). simplify_eq. lia. }
  split.
  - done.
  - intros T l Hl. destruct (h_logs h !! T) as [l0|] eqn:Hl0.
    + destruct (li_won _ _ _ _ _ Hinv T l0 Hl0) as (j & Hw & Hp). exists j. split; [|by apply past_update].
      eapply won_mono; [exact Hx|done| |done| |exact Hw].
      * destruct (ext_prefix _ _ _ _ Hx Hl0) as (l' & ? & ?). congruence.
      * intros q T0 m Hin. by eapply Hnewack.
    + destruct (Hlogs T l Hl) as [?|[-> Hs]]; [congruence|]. exists i. split; [by apply Hwon|].
      exists n'. rewrite lookup_insert_eq. split_and!; [done|lia|congruence].
  - intros j m. destruct (decide (j = i)) as [->|Hne].
    + rewrite lookup_insert_eq, upd_eq. by intros [= <-].
    + rewrite lookup_insert_ne, upd_ne by done. intros Hm. eapply lnode_mono; [exact Hx|by eauto|by apply Hinv].
  - intros j T m Hin. destruct (decide (j = i)) as [->|Hne].
    + exists n'. rewrite lookup_insert_eq, upd_eq. split; [done|]. by apply Hack.
    + assert (Hin0 : (j, T, m) ∈ h_acks h).
      { destruct (decide ((j, T, m) ∈ h_acks h)) as [|Hn0]; [done|]. by destruct (Hacks _ _ _ Hin Hn0). }
      destruct (li_acks _ _ _ _ _ Hinv j T m Hin0) as (k & Hk & HT & Ha). exists k.
      rewrite lookup_insert_ne, upd_ne by done. split_and!; [done|done|]. intros m' Hm'.
      eapply ack_ok_mono; [exact Hx|done|by apply Ha|reflexivity].
  - intros j m. destruct (decide (j = i)) as [->|Hne].
    + rewrite lookup_insert_eq, upd_eq. by intros [= <-].
    + rewrite lookup_insert_ne, upd_ne by done. intros Hm Hs Hl q Hin.
      assert (Hl0 : h_logs h !! currentTerm m = None).
      { destruct (h_logs h !! currentTerm m) as [l|] eqn:Hl0; [|done].
        destruct (ext_prefix _ _ _ _ Hx Hl0) as (? & ? & _). congruence. }
      destruct (decide ((q, currentTerm m, j) ∈ vs)) as [Ho|Ho].
      * eapply voted_mono; [exact Hx|done| |by eapply li_cand]. intros T0 m0. by eapply Hnewack.
      * destruct (Hvotes _ _ _ Hin Ho) as (-> & HT & _). rewrite HT in *. by eapply Hvoted.
  - intros j m. destruct (decide (j = i)) as [->|Hne].
    + rewrite lookup_insert_eq. by intros [= <-].
    + rewrite lookup_insert_ne by done. intros Hm Hv. by apply Hvs, (li_recorded _ _ _ _ _ Hinv).
  - intros q T d Hin. destruct (decide ((q, T, d) ∈ vs)) as [Ho|Ho].
    + destruct (li_voted _ _ _ _ _ Hinv q T d Ho) as (m & Hm & HT). destruct (decide (d = i)) as [->|Hne].
      * exists n'. rewrite lookup_insert_eq. simplify_eq. split; [done|lia].
      * exists m. by rewrite lookup_insert_ne.
    + destruct (Hvotes _ _ _ Hin Ho) as (_ & _ & ?). done.
Qed.
End update.

(** The invariant after a step of node [i] to [n'], with the elections that were
    running still announcing the logs they did. *)
Record lstep (members : list string) (h : hist) (G : string -> list LogEntry) (ns : nodes)
    (vs : gset (string * Z * string)) (i : string) (n' : RaftNode)
    (h' : hist) (g' : list LogEntry) (vs' : gset (string * Z * string)) : Prop := {
  ls_ext : ext h h';
  ls_votes : vs ⊆ vs';
  ls_inv : lninv members h' (upd i g' G) (<[i := n']> ns) vs';
  ls_elections : forall j e, lelection h G ns j e -> lelection h' (upd i g' G) (<[i := n']> ns) j e
}.

Lemma lninv_upd_id members h G ns vs i : lninv members h G ns vs -> lninv members h (upd i (G i) G) ns vs.
Proof. intros []. split; try done; intros j; [setoid_rewrite (upd_id i j G)..]; auto. Qed.

(** A step that keeps the log leaves the history as it is. *)
Lemma lstep_same members h G ns vs i n n' vs' :
  ns !! i = Some n -> vs ⊆ vs' -> currentTerm n <= currentTerm n' ->
  (state n' = Candidate -> currentTerm n < currentTerm n' \/ state n = Candidate /\ currentTerm n' = currentTerm n) ->
  lninv members h G (<[i := n']> ns) vs' -> lstep members h G ns vs i n' h (G i) vs'.
Proof.
  intros Hn Hvs Hle Hc Hinv. split; [done|done|by apply lninv_upd_id|].
  intros j e. apply (lelection_update h h G ns i n n'); [done|done|done|]. intros Hs.
  destruct (Hc Hs) as [|[]]; auto.
Qed.
