(* ===== verification/LogSteps.v ===== *)
(** * Elections, leaders and single nodes in the history

    The steps that keep the log ([lquiet]), those that change who leads, the
    entries a leader appends and the messages it builds, compaction, restart and
    apply: each keeps the invariant of LogInvariant.v. *)

From S2P Require Import Prelude RaftLog Rpc Disk Node Election Replication ReplicationSafety Snapshot Client Transport Cluster ElectionSafety FullLog LogHistory LogInvariant.

(** ** Steps that leave the log alone *)

Record lquiet (n n' : RaftNode) : Prop := {
  lq_log : rlog n' = rlog n;
  lq_commit : commitIndex n' = commitIndex n;
  lq_applied : lastApplied n' = lastApplied n;
  lq_peers : peers n' = peers n;
  lq_state : state n' = Leader -> state n = Leader /\ matchIndex n' = matchIndex n /\ nextIndex n' = nextIndex n;
  lq_disk : disk_ok n -> disk_ok n' /\ (fsaved n -> fsaved n') /\ (snapshot_durable n -> snapshot_durable n')
}.

#[export] Instance lquiet_preorder : PreOrder lquiet.
Proof.
  split.
  - intros n. split; auto.
  - intros n1 n2 n3 [] []. split; try congruence.
    + intros Hs. destruct (lq_state1 Hs) as (Hs2 & ? & ?). destruct (lq_state0 Hs2) as (? & ? & ?).
      split_and!; congruence.
    + intros Hd. destruct (lq_disk0 Hd) as (Hd2 & ? & ?). destruct (lq_disk1 Hd2) as (? & ? & ?). auto.
Qed.

Lemma snapshot_durable_first n n' :
  files (disk n') !! snapshotPath = files (disk n) !! snapshotPath -> log_first (rlog n') = log_first (rlog n) ->
  snapshotData n' = snapshotData n -> snapshot_durable n -> snapshot_durable n'.
Proof. unfold snapshot_durable, log_snapshotIndex, log_snapshotTerm. by intros -> -> ->. Qed.

Lemma snapshot_durable_frame n n' :
  files (disk n') !! snapshotPath = files (disk n) !! snapshotPath -> rlog n' = rlog n ->
  snapshotData n' = snapshotData n -> snapshot_durable n -> snapshot_durable n'.
Proof. intros ? Hl. apply snapshot_durable_first; [done|by rewrite Hl]. Qed.

Lemma persist_snapshot_file n : disk_ok n -> files (disk (persist n)) !! snapshotPath = files (disk n) !! snapshotPath.
Proof.
  intros Hd. unfold persist. rewrite writeFile_ok by by apply disk_ok_next. node_simpl.
  by rewrite lookup_insert_ne, lookup_delete_ne.
Qed.

Lemma fsaved_persist n : disk_ok n -> fsaved (persist n).
Proof. intros. left. by apply persist_durable. Qed.

(** A change of other fields, of the state to another than leader. *)
Lemma lquiet_frame n n' :
  rlog n' = rlog n -> commitIndex n' = commitIndex n -> lastApplied n' = lastApplied n -> peers n' = peers n ->
  currentTerm n' = currentTerm n -> votedFor n' = votedFor n -> snapshotData n' = snapshotData n ->
  disk n' = disk n -> (state n' = Leader -> state n = Leader) -> matchIndex n' = matchIndex n ->
  nextIndex n' = nextIndex n -> lquiet n n'.
Proof.
  intros H1 H2 H3 H4 H5 H6 H7 H8 H9 H10 H11. split; auto. intros Hd. split_and!.
  - unfold disk_ok. by rewrite H8.
  - unfold fsaved, durable, persistedState. by rewrite H8, H1, H5, H6.
  - apply snapshot_durable_frame; [by rewrite H8|done|done].
Qed.

(** A persisted change of the term, the vote or the state. *)
Lemma lquiet_persist n m :
  rlog m = rlog n -> commitIndex m = commitIndex n -> lastApplied m = lastApplied n -> peers m = peers n ->
  snapshotData m = snapshotData n -> disk m = disk n -> (state m = Leader -> state n = Leader) ->
  matchIndex m = matchIndex n -> nextIndex m = nextIndex n -> lquiet n (persist m).
Proof.
  intros H1 H2 H3 H4 H5 H6 H7 H8 H9. split; auto. intros Hd.
  assert (Hdm : disk_ok m) by (unfold disk_ok; by rewrite H6).
  split_and!; [by apply persist_disk_ok|intros _; by apply fsaved_persist|].
  apply snapshot_durable_frame; [|done|done]. rewrite persist_snapshot_file by done. by rewrite H6.
Qed.

Ltac lquiet_frame := apply lquiet_frame; node_unfold; try done; auto.

Lemma lquiet_becomeFollower t n : lquiet n (becomeFollower t n).
Proof. apply lquiet_persist; done. Qed.

Lemma lquiet_becomeCandidate n : lquiet n (becomeCandidate n).
Proof. apply lquiet_persist; done. Qed.

Lemma lquiet_HandleRequestVote now n args : lquiet n (HandleRequestVote now n args).1.
Proof.
  unfold HandleRequestVote. destruct (rv_IsPreVote args); [by case_match|].
  set (m := if rv_Term args >? currentTerm n then _ else _).
  assert (Hm : lquiet n m) by (subst m; case_match; [apply lquiet_becomeFollower|done]).
  clearbody m. destruct (rv_Term args <? currentTerm m); [done|]. cbv zeta. destruct (_ && _); [|done].
  etransitivity; [exact Hm|]. etransitivity; [apply (lquiet_persist m (set_votedFor (rv_CandidateID args) m)); done|].
  simpl. lquiet_frame.
Qed.

Lemma lquiet_ae_prelude now n args : lquiet n (ae_prelude now n args).
Proof.
  unfold ae_prelude. case_match; [etransitivity; [apply lquiet_becomeFollower|lquiet_frame]|].
  case_match; lquiet_frame.
Qed.

(** ** What a quiet step does to the invariant *)

Section quiet_step.
Context (members : list string) (h : hist) (G : string -> list LogEntry) (ns : nodes).
Context (vs : gset (string * Z * string)) (i : string) (n n' : RaftNode).
Context (Hinv : lninv members h G ns vs) (Hni : vinv members ns vs) (Hn : ns !! i = Some n).

Lemma lnode_lquiet :
  lquiet n n' -> currentTerm n <= currentTerm n' ->
  (state n' = Leader -> currentTerm n' = currentTerm n) ->
  (state n' = Candidate -> 1 <= currentTerm n' < u64_size) ->
  lnode members h (G i) i n'.
Proof using All.
  intros [] Hle Hs Hcand. pose proof (vi_node _ _ _ Hni i n Hn) as Hok. destruct (no_disk _ _ _ Hok) as [Hd _].
  pose proof (li_node _ _ _ _ _ Hinv i n Hn) as []. destruct (lq_disk0 Hd) as (_ & Hfs & Hsn).
  split; rewrite ?lq_log0, ?lq_commit0, ?lq_applied0; auto.
  - eapply Forall_impl; [done|]. simpl. intros. lia.
  - eapply committed_mono; [reflexivity|done|done|by eapply committed_length|done].
  - intros Hl. destruct (lq_state0 Hl) as (Hl0 & Hm & Hx). pose proof (ln_leader Hl0) as [].
    split; rewrite ?(Hs Hl), ?Hm, ?Hx, ?lq_peers0; done.
Qed.

(** The history, the logs and the other nodes are as they were; the votes may
    have grown by one of node [i]. *)
Lemma lninv_same vs' :
  lnode members h (G i) i n' -> vs ⊆ vs' -> currentTerm n <= currentTerm n' ->
  (state n' = Leader -> state n = Leader /\ currentTerm n' = currentTerm n) ->
  (state n' = Candidate -> currentTerm n < currentTerm n' \/ state n = Candidate /\ currentTerm n' = currentTerm n) ->
  (forall q T d, (q, T, d) ∈ vs' -> (q, T, d) ∉ vs -> q = i /\ T = currentTerm n' /\
     exists m, <[i := n']> ns !! d = Some m /\ T <= currentTerm m) ->
  (state n' = Candidate -> h_logs h !! currentTerm n' = None ->
     forall q, (q, currentTerm n', i) ∈ vs' -> voted h q (currentTerm n') (G i)) ->
  (forall j m, j <> i -> ns !! j = Some m -> state m = Candidate -> currentTerm m = currentTerm n' ->
     h_logs h !! currentTerm n' = None -> (i, currentTerm n', j) ∈ vs' -> (i, currentTerm n', j) ∉ vs ->
     voted h i (currentTerm n') (G j)) ->
  (votedFor n' <> "" -> (i, currentTerm n', votedFor n') ∈ vs') ->
  lninv members h G (<[i := n']> ns) vs'.
Proof using Hinv Hni Hn.
  intros Hnode Hvs Hle Hl Hc Hnew Hcand Hoth Hrec.
  enough (H : lninv members h (upd i (G i) G) (<[i := n']> ns) vs').
  { destruct H. split; try done; intros j; [setoid_rewrite <- (upd_id i j G)..]; auto. }
  apply (lninv_update members h h G ns vs vs' i n n' (G i)); try done.
  - apply Hinv.
  - by left.
  - intros Hs. destruct (Hl Hs) as [Hs0 ->]. by apply (vi_leader _ _ _ Hni).
  - congruence.
  - intros T m Hin. destruct (li_acks _ _ _ _ _ Hinv i T m Hin) as (n0 & ? & ? & Ha). simplify_eq.
    split; [lia|]. intros m' Hm'. eapply ack_ok_mono; [reflexivity|apply Hinv|by apply Ha|done].
Qed.

Lemma recorded_quiet : quiet n n' -> votedFor n' <> "" -> (i, currentTerm n', votedFor n') ∈ vs.
Proof using Hinv Hn.
  intros [] Hv. destruct (decide (currentTerm n' = currentTerm n)) as [He|Hne].
  - destruct (q_same He) as [Hvf _]. rewrite He, Hvf in *. by apply (li_recorded _ _ _ _ _ Hinv).
  - destruct q_up; [lia|congruence].
Qed.

(** A step that is quiet in the sense of ElectionSafety.v, and keeps the log as
    a list: the votes stay. *)
Lemma lninv_node : quiet n n' -> lnode members h (G i) i n' -> lninv members h G (<[i := n']> ns) vs.
Proof using Hinv Hni Hn.
  intros Hq Hnode. pose proof (quiet_state _ _ Hq) as Hsame. apply lninv_same; try done.
  - apply Hq.
  - intros Hs. destruct Hsame as [? ?]; [congruence|]. split; congruence.
  - intros Hs. right. destruct Hsame as [? ?]; [congruence|]. split; congruence.
  - intros Hs Hl q Hin. destruct Hsame as [He ?]; [congruence|]. rewrite He in *.
    apply (li_cand _ _ _ _ _ Hinv i n Hn); [congruence|done|done].
  - by apply recorded_quiet.
Qed.

Lemma lninv_quiet : lquiet n n' -> quiet n n' -> lninv members h G (<[i := n']> ns) vs.
Proof using Hinv Hni Hn.
  intros Hlq Hq. apply lninv_node; [done|]. pose proof (quiet_state _ _ Hq) as Hsame. apply lnode_lquiet; try done.
  - apply Hq.
  - intros Hs. apply Hsame. congruence.
  - intros Hs. destruct Hsame as [-> Hs2]; [congruence|].
    apply (ln_cand _ _ _ _ _ (li_node _ _ _ _ _ Hinv i n Hn)). congruence.
Qed.

(** The same steps, with the elections. *)
Lemma lstep_node : quiet n n' -> lnode members h (G i) i n' -> lstep members h G ns vs i n' h (G i) vs.
Proof using Hinv Hni Hn.
  intros Hq Hnode. apply (lstep_same _ _ _ _ _ _ n); [done|done|apply Hq| |by apply lninv_node].
  intros Hs. right. destruct (quiet_state _ _ Hq) as [? ?]; [congruence|]. split; congruence.
Qed.

Lemma lstep_quiet : lquiet n n' -> quiet n n' -> lstep members h G ns vs i n' h (G i) vs.
Proof using Hinv Hni Hn.
  intros Hlq Hq. apply (lstep_same _ _ _ _ _ _ n); [done|done|apply Hq| |by apply lninv_quiet].
  intros Hs. right. destruct (quiet_state _ _ Hq) as [? ?]; [congruence|]. split; congruence.
Qed.

(** A quiet step to a log that differs only where the term has a leader. *)
Lemma lstep_log h' g' :
  ext h h' -> quiet n n' -> (state n' = Candidate -> h_logs h' !! currentTerm n' = None -> g' = G i) ->
  lninv members h' (upd i g' G) (<[i := n']> ns) vs -> lstep members h G ns vs i n' h' g' vs.
Proof using Hn.
  intros Hx Hq Hc Hi. split; [done|done|done|]. intros j e.
  apply (lelection_update h h' G ns i n n'); [done|done|apply Hq|]. intros Hs. right.
  destruct (quiet_state _ _ Hq) as [? ?]; [congruence|]. split_and!; [congruence|congruence|auto].
Qed.
End quiet_step.

(** ** Elections *)

Lemma up_to_date_refl g : up_to_date g g.
Proof. right. split; lia. Qed.

(** Overwriters of a term without a leader are of earlier terms. *)
Lemma ack_ok_cut h T0 m g cur T :
  ack_ok h T0 m g cur -> cur <= T -> h_logs h !! T = None -> ack_ok h T0 m g (T - 1).
Proof.
  intros (l & Hl & Hm & Hcase) Hcur Hn. exists l. split_and!; [done|done|].
  destruct Hcase as [|(T1 & l1 & HT1 & Hl1 & Hnp)]; [by left|right]. exists T1, l1.
  assert (T1 <> T) by congruence. split_and!; [lia|lia|done|done].
Qed.

(** A node that votes in a term without a leader has kept, in its log, what it
    acknowledged before. *)
Lemma voted_now members h G ns vs q n T E :
  lninv members h G ns vs -> ns !! q = Some n -> currentTerm n <= T -> h_logs h !! T = None ->
  up_to_date E (G q) -> voted h q T E.
Proof.
  intros Hinv Hn HT Hl Hup. exists (G q). split_and!; [apply (li_node _ _ _ _ _ Hinv q n Hn)|done|].
  intros T0 m (m' & Hm & Hin) _. destruct (li_acks _ _ _ _ _ Hinv q T0 m' Hin) as (n0 & ? & ? & Ha). simplify_eq.
  eapply ack_ok_cut; [by apply Ha|done|done].
Qed.

Section elections.
Context (members : list string) (h : hist) (G : string -> list LogEntry) (ns : nodes).
Context (vs : gset (string * Z * string)) (i : string) (n : RaftNode).
Context (Hinv : lninv members h G ns vs) (Hni : vinv members ns vs) (Hn : ns !! i = Some n).

Lemma lninv_candidate :
  currentTerm n + 1 < u64_size ->
  lninv members h G (<[i := becomeCandidate n]> ns) ({[(i, currentTerm (becomeCandidate n), i)]} ∪ vs).
Proof using All.
  intros Hb. pose proof (vi_node _ _ _ Hni i n Hn) as Hok. pose proof (no_term _ _ _ Hok) as H0.
  assert (HT : currentTerm (becomeCandidate n) = currentTerm n + 1) by (node_unfold; u64_lia).
  apply (lninv_same members h G ns vs i n (becomeCandidate n) Hinv Hni Hn); rewrite ?HT; try done; try lia.
  - apply (lnode_lquiet members h G ns vs i n); try done; [apply lquiet_becomeCandidate|lia..].
  - apply union_subseteq_r.
  - intros q T d [[= -> -> ->]%elem_of_singleton|]%elem_of_union Hnew; [|done].
    split_and!; [done|done|]. eexists. rewrite lookup_insert_eq. split; [done|]. lia.
  - intros _ Hl q [[= ->]%elem_of_singleton|Hin]%elem_of_union.
    + eapply voted_now; [done|done|lia|done|apply up_to_date_refl].
    + destruct (li_voted _ _ _ _ _ Hinv _ _ _ Hin) as (m & ? & ?). simplify_eq. lia.
  - intros j m Hj _ _ _ _ [[= ->]%elem_of_singleton|]%elem_of_union; done.
  - intros _. apply elem_of_union_l, elem_of_singleton. by rewrite (no_id _ _ _ Hok : votedFor (becomeCandidate n) = i).
Qed.

(** The votes recorded after a request are those there were, and the one just
    granted. *)
Lemma record_vote_id T cand : cand <> "" -> record_vote ns i T cand vs = vs.
Proof using All.
  intros Hc. unfold record_vote. rewrite Hn. case_decide as Hd; [|done]. destruct Hd as [<- <-].
  pose proof (li_recorded _ _ _ _ _ Hinv i n Hn Hc). set_solver.
Qed.

Lemma lninv_request now e cand :
  lelection h G ns cand e -> rv_Term (el_args e) = el_term e -> rv_CandidateID (el_args e) = cand ->
  rv_IsPreVote (el_args e) = false -> cand <> "" -> cand <> i ->
  let ns' := <[i := (HandleRequestVote now n (el_args e)).1]> ns in
  lninv members h G ns' (record_vote ns' i (el_term e) cand vs).
Proof using All.
  intros (nc & Hnc & Hnct & Hargs) HT Hcand Hpv Hne Hci ns'. subst ns'.
  pose proof (vote_cases now n (el_args e) Hpv) as Hcase. pose proof (lquiet_HandleRequestVote now n (el_args e)) as Hlq.
  pose proof (HandleRequestVote_reply now n (el_args e) Hpv) as Hreply.
  destruct (HandleRequestVote now n (el_args e)) as [n' r]. simpl in *. rewrite HT, Hcand in *.
  unfold record_vote. rewrite lookup_insert_eq. destruct Hcase as [[_ Hq]|[Hg Hv]].
  - assert (Hin : currentTerm n' = el_term e /\ votedFor n' = cand -> (i, el_term e, cand) ∈ vs).
    { intros [E1 E2]. destruct (decide (currentTerm n' = currentTerm n)) as [He|Hne2].
      - destruct (q_same _ _ Hq He) as [Hvf _]. rewrite <- E1, <- E2, He, Hvf.
        apply (li_recorded _ _ _ _ _ Hinv i n Hn). congruence.
      - pose proof (q_term _ _ Hq). destruct (q_up _ _ Hq); [lia|congruence]. }
    case_decide as Hd; [|by eapply lninv_quiet].
    replace ({[(i, el_term e, cand)]} ∪ vs) with vs by (specialize (Hin Hd); set_solver). by eapply lninv_quiet.
  - destruct Hv as (H1 & H2 & H3 & H4 & H5 & _). rewrite decide_True by done. rewrite Hg in Hreply.
    symmetry in Hreply. apply bool_decide_eq_true in Hreply as (_ & _ & Hup).
    assert (Hst : state n' <> Follower -> currentTerm n = el_term e /\ state n' = state n).
    { intros Hs. destruct (decide (currentTerm n = el_term e)) as [He|]; [|by rewrite H5 in Hs by lia].
      by destruct (H4 He). }
    apply (lninv_same members h G ns vs i n n' Hinv Hni Hn); rewrite ?H1; try done.
    + apply (lnode_lquiet members h G ns vs i n); try done; [by rewrite H1|..]; rewrite H1; intros Hs;
        (destruct Hst as [He Hs2]; [congruence|]); [done|]. rewrite <- He.
      apply (ln_cand _ _ _ _ _ (li_node _ _ _ _ _ Hinv i n Hn)). congruence.
    + apply union_subseteq_r.
    + intros Hs. destruct Hst as [? ?]; [congruence|]. split; congruence.
    + intros Hs. destruct Hst as [? ?]; [congruence|]. right. split; congruence.
    + intros q T d [[= -> -> ->]%elem_of_singleton|]%elem_of_union Hnew; [|done]. split_and!; [done|done|].
      exists nc. by rewrite lookup_insert_ne by done.
    + intros Hs Hl q [[= -> <-]%elem_of_singleton|Hin]%elem_of_union; [done|].
      destruct Hst as [He Hs']; [congruence|]. rewrite <- He in *. eapply li_cand; [done|done|congruence|done|done].
    + intros j m Hj Hm Hs Hmt Hl [[= ->]%elem_of_singleton|]%elem_of_union Hnew; [|done].
      simplify_eq. eapply voted_now; [done|done|lia|done|]. destruct (Hargs Hs Hmt Hl) as [Hai Hat].
      pose proof (ln_full _ _ _ _ _ (li_node _ _ _ _ _ Hinv i n Hn)) as Hf.
      rewrite (full_lastTerm _ _ Hf), (full_lastIndex _ _ Hf), Hai, Hat in Hup.
      unfold up_to_date, lenZ in *. lia.
    + rewrite H2. set_solver.
Qed.
End elections.

(** ** Leaders *)

Lemma becomeLeader_snapshotData now n : snapshotData (becomeLeader now n) = snapshotData n.
Proof.
  unfold becomeLeader. cbv zeta. node_simpl. generalize (log_lastIndex (rlog n)). intros li.
  change (snapshotData n) with (snapshotData (set_leaderID (nid n) (set_state Leader n))).
  generalize (set_leaderID (nid n) (set_state Leader n)). induction (peers n) as [|p ps IH]; intros k; [done|].
  simpl. by rewrite IH.
Qed.

Lemma ack_ok_extend h T m g x cur : ack_ok h T m g cur -> ack_ok h T m (g ++ x) cur.
Proof.
  intros (l & Hl & Hm & Hcase). exists l. split_and!; [done|done|].
  destruct Hcase as [|]; [left; by apply prefix_app_r|by right].
Qed.

Section leaders.
Context (members : list string) (h : hist) (G : string -> list LogEntry) (ns : nodes).
Context (vs : gset (string * Z * string)) (i : string) (n : RaftNode).
Context (Hinv : lninv members h G ns vs) (Hni : vinv members ns vs) (Hn : ns !! i = Some n).

#[local] Abbreviation g := (G i).
#[local] Abbreviation T := (currentTerm n).

Lemma acks_own h' T0 m m' :
  ext h h' -> (i, T0, m) ∈ h_acks h -> (m' <= m)%nat -> T0 <= T /\ ack_ok h' T0 m' g T.
Proof using All.
  intros Hx Hin Hm. destruct (li_acks _ _ _ _ _ Hinv i T0 m Hin) as (n0 & ? & ? & Ha). simplify_eq.
  split; [done|]. eapply ack_ok_mono; [exact Hx|apply Hinv|by apply Ha|reflexivity].
Qed.

(** A candidate with a quorum is the first to win its term. *)
Lemma win_fresh : state n = Candidate -> has_quorum vs members i T -> h_logs h !! T = None.
Proof using All.
  intros Hs Hq. destruct (h_logs h !! T) as [l|] eqn:Hl; [|done].
  destruct (li_won _ _ _ _ _ Hinv T l Hl) as (j & Hw & m & Hm & _ & Hns).
  assert (i = j) as <- by (eapply one_winner; [done|done|by eapply won_quorum]). simplify_eq. by destruct Hns.
Qed.

Lemma lninv_win now :
  state n = Candidate -> has_quorum vs members i T ->
  lninv members (hist_lead i T g h) (upd i g G) (<[i := becomeLeader now n]> ns) vs.
Proof using All.
  intros Hs Hq. pose proof (win_fresh Hs Hq) as Hfresh. pose proof (ext_elect i T g h Hfresh) as Hx.
  pose proof (li_node _ _ _ _ _ Hinv i n Hn) as [Hfull Hok Hterms Hrange Hcom _ Hcand Hsaved Hsnap].
  pose proof (vi_node _ _ _ Hni i n Hn) as Hnok.
  destruct (becomeLeader_fields now n) as (F1 & _ & F3 & F4 & F5 & F6 & F7 & F8 & F9 & F10 & F11).
  assert (Hh' : hist_ok (hist_lead i T g h)).
  { apply hist_ok_elect; try apply Hfull; try done; [apply Hinv|by apply Hcand]. }
  assert (Hlt : Forall (λ e, le_Term e < T) g).
  { apply Forall_forall. intros e He. apply list_elem_of_lookup in He as [k Hk].
    destruct (Hok k e Hk) as (l & Hl & _). pose proof (Forall_lookup_1 _ _ _ _ Hterms Hk). simpl in *.
    assert (le_Term e <> T) by congruence. lia. }
  apply (lninv_update members h _ G ns vs vs i n (becomeLeader now n) g Hinv Hni Hn); rewrite ?F1, ?F5; try done.
  - intros T' l Hl. simpl in Hl. destruct (decide (T' = T)) as [->|]; [by right|].
    rewrite lookup_insert_ne in Hl by done. by left.
  - intros q T' m Ha Hna. simpl in Ha. set_solver.
  - split; rewrite ?F7, ?F8, ?F9, ?F5; try done.
    + by eapply log_ok_mono.
    + eapply committed_mono; [exact Hx|done|done|by eapply committed_length|lia].
    + intros _. split; rewrite ?F5, ?F4; simpl.
      * by rewrite lookup_insert_eq.
      * set_solver.
      * intros p Hp. destruct (becomeLeader_tracking now n p Hp) as (_ & -> & _). split; [lia|by left].
      * intros p Hp. destruct (becomeLeader_tracking now n p Hp) as (-> & _). apply u64_range.
    + by rewrite F1.
    + unfold fsaved, durable, persistedState. rewrite F10, F7, F5, F6. exact Hsaved.
    + eapply snapshot_durable_frame; [by rewrite F10|done|apply becomeLeader_snapshotData|done].
  - intros _ l Hl. simpl in Hl. rewrite lookup_insert_eq in Hl. simplify_eq.
    destruct Hq as (Q & ? & ? & ? & HQ). exists Q, g. split_and!; try done. intros q Hqq.
    split; [by apply HQ|]. eapply voted_mono; [exact Hx|apply Hinv| |].
    + intros T0 m Ha Hna. simpl in Ha. assert (T0 = T) by set_solver. lia.
    + eapply li_cand; [done|done|done|done|by apply HQ].
  - intros T0 m Hin. simpl in Hin. destruct (decide ((i, T0, m) ∈ h_acks h)) as [Ho|Ho].
    + split; [by apply (acks_own h T0 m m)|]. intros m' Hm'. by apply (acks_own _ T0 m m').
    + assert (T0 = T /\ m = length g) as [-> ->] by set_solver. split; [lia|]. intros m' Hm'.
      exists g. simpl. rewrite lookup_insert_eq. split_and!; [done|done|left; apply prefix_take].
  - intros Hv. rewrite F6 in *. by apply (li_recorded _ _ _ _ _ Hinv).
Qed.
(** A leader appends to its own log. *)
Lemma lninv_append e n' :
  state n = Leader -> le_Term e = T -> le_Index e = lenZ g + 1 -> lenZ g + 2 < u64_size ->
  rlog n' = log_append (rlog n) [e] -> state n' = Leader -> currentTerm n' = T -> votedFor n' = votedFor n ->
  peers n' = peers n -> matchIndex n' = matchIndex n -> nextIndex n' = nextIndex n ->
  commitIndex n' = commitIndex n -> lastApplied n' = lastApplied n -> fsaved n' -> snapshot_durable n' ->
  lninv members (hist_lead i T (g ++ [e]) h) (upd i (g ++ [e]) G) (<[i := n']> ns) vs.
Proof using All.
  intros Hs He Hidx Hb Hlog Hs' HT Hv Hpeers Hmatch Hnext Hcommit Happlied Hsaved Hsnap.
  pose proof (li_node _ _ _ _ _ Hinv i n Hn) as [Hfull Hok Hterms Hrange Hcom Hlead _ _ _].
  destruct (Hlead Hs) as [Hl Hown Hm Hnx]. pose proof (ext_append i T g e h Hl He) as Hx.
  pose proof (hist_ok_append i T g e h (li_hist _ _ _ _ _ Hinv) Hl He Hidx Hb) as Hh'.
  pose proof (ll_term _ _ _ (li_hist _ _ _ _ _ Hinv _ _ Hl)) as HTr.
  assert (Hl' : h_logs (hist_lead i T (g ++ [e]) h) !! T = Some (g ++ [e])) by (simpl; by rewrite lookup_insert_eq).
  pose proof (committed_length _ _ _ _ _ Hcom) as Hcl. pose proof (full_wf _ _ Hfull) as Hwf.
  apply (lninv_update members h _ G ns vs vs i n n' (g ++ [e]) Hinv Hni Hn); rewrite ?Hs', ?HT, ?Hv; try done.
  - intros T' l Hlk. simpl in Hlk. destruct (decide (T' = T)) as [->|]; [by right|].
    rewrite lookup_insert_ne in Hlk by done. by left.
  - intros q T' m Ha Hna. simpl in Ha. set_solver.
  - assert (Hsi : log_snapshotIndex (rlog n') = log_snapshotIndex (rlog n)).
    { unfold log_snapshotIndex. by rewrite Hlog, first_append. }
    split; rewrite ?Hsi, ?Hcommit, ?Happlied, ?HT; try done.
    + rewrite Hlog. apply full_append; [done|done|unfold entry_ok; lia|done].
    + apply (Hh' T _ Hl').
    + apply Forall_app. split; [done|]. apply Forall_singleton. lia.
    + eapply committed_mono; [exact Hx|done| |rewrite length_app; lia|lia]. by rewrite take_app_le.
    + intros _. split; rewrite ?HT, ?Hpeers, ?Hmatch, ?Hnext; try done.
      * simpl. set_solver.
      * intros p Hp. destruct (Hm p Hp) as [? [|]]; [auto|]. split; [done|right]. by apply (ex_acks _ _ Hx).
  - intros _. by apply (vi_leader _ _ _ Hni).
  - congruence.
  - intros T0 m Hin. simpl in Hin. destruct (decide ((i, T0, m) ∈ h_acks h)) as [Ho|Ho].
    + split; [by apply (acks_own h T0 m m)|]. intros m' Hm'. apply ack_ok_extend. by apply (acks_own _ T0 m m').
    + assert (T0 = T /\ m = length (g ++ [e])) as [-> ->] by set_solver. split; [lia|]. intros m' Hm'.
      exists (g ++ [e]). split_and!; [done|done|left; apply prefix_take].
  - apply Hinv. done.
Qed.

(** The messages a leader sends to its peers. *)
Lemma lthread_dispatch p :
  state n = Leader -> p ∈ peers n -> lthread members h vs (thread_of i (dispatch n T p)).
Proof using All.
  intros Hs Hp. pose proof (li_node _ _ _ _ _ Hinv i n Hn) as [Hfull Hok Hterms Hrange Hcom Hlead _ _ _].
  destruct (Hlead Hs) as [Hl Hown Hm Hnx]. pose proof (vi_node _ _ _ Hni i n Hn) as Hnok.
  assert (Hsend : sender_ok members vs i p T).
  { split; [by apply (vi_leader _ _ _ Hni)|]. intros ->. by apply (no_self _ _ _ Hnok). }
  pose proof (full_wf _ _ Hfull) as Hwf. pose proof (full_lastIndex _ _ Hfull) as Hlast.
  pose proof (fu_snap _ _ Hfull) as Hsn. pose proof (committed_length _ _ _ _ _ Hcom) as Hcl.
  pose proof (fu_bound _ _ Hfull) as Hb.
  unfold dispatch. destruct (mget (nextIndex n) p <=? log_snapshotIndex (rlog n)) eqn:Hd; simpl; (split; [done|]).
  - split; [done|]. exists g. simpl. split_and!; [done|lia|lia|apply Hfull|].
    eapply committed_weaken; [exact Hcom|lia].
  - specialize (Hnx p Hp). split; [done|]. split; [apply u64_range|]. exists g. split; [done|].
    destruct (decide (mget (nextIndex n) p <= log_lastIndex (rlog n) + 1)) as [Hle|Hgt].
    + right. assert (Hsb : sendable n p) by (split; [done|lia]).
      destruct (build_prev n p Hsb) as (Hprev & _ & _ & H1). pose proof (build_length n p Hsb) as Hlen.
      exists (Z.to_nat (mget (nextIndex n) p - 1)). rewrite Hprev in *. unfold lenZ in *.
      assert (Hlc : ae_LeaderCommit (buildArgsLocked n p) = commitIndex n) by done. rewrite Hlc.
      split_and!; try lia.
      * simpl. rewrite <- (full_get_term _ _ Hfull) by (unfold lenZ; lia).
        rewrite (u64_small (mget (nextIndex n) p - 1)) by (unfold is_u64; lia). done.
      * rewrite (build_entries n p Hsb), log_suffix_drop by (done || lia). rewrite (fu_entries _ _ Hfull).
        replace (Z.to_nat (mget (nextIndex n) p - 1 + 1 - log_snapshotIndex (rlog n)))
          with (S (Z.to_nat (mget (nextIndex n) p - 1) - Z.to_nat (log_snapshotIndex (rlog n)))) by lia. simpl.
        rewrite drop_drop. replace (_ + _)%nat with (Z.to_nat (mget (nextIndex n) p - 1)) by lia. done.
      * done.
    + left. simpl. rewrite (u64_small (mget (nextIndex n) p - 1)) by (unfold is_u64; lia). split; [lia|].
      apply (get_term_zero _ Hwf); [unfold is_u64; lia|lia|]. apply view_None; [done|]. lia.
Qed.
End leaders.

(** ** Snapshots, restarts and applied entries *)

Lemma snapshot_durable_saved m idx t data :
  files (disk m) !! snapshotPath = Some (mkFile (CSnapshot (mkSnapshotFile idx t data)) true) ->
  snapshotData m = data -> log_first (rlog m) = sentinel idx t -> 0 < idx -> snapshot_durable m.
Proof.
  intros Hf Hd Hl Hi. unfold snapshot_durable, log_snapshotIndex, log_snapshotTerm. by rewrite Hf, Hl, Hd.
Qed.

(** A restart from a healthy directory finds the log as it was. *)
Lemma boot_saved n :
  disk_ok n -> fsaved n -> snapshot_durable n -> log_wf (rlog n) ->
  let n' := (boot (config n) (disk n)).1 in
  rlog n' = rlog n /\ commitIndex n' = log_snapshotIndex (rlog n) /\ lastApplied n' = log_snapshotIndex (rlog n) /\
  state n' = Follower /\ fsaved n' /\ snapshot_durable n'.
Proof.
  intros Hd Hs Hsn Hwf. cbv zeta. pose proof (disk_ok_next n Hd) as Hf.
  set (m := (loadState (NewRaftNode (config n) (disk n))).1).
  assert (Hm : rlog m = rlog n /\ commitIndex m = 0 /\ lastApplied m = 0 /\ state m = Follower /\
    disk m = drop_fault (disk n) /\ fsaved m).
  { subst m. unfold loadState, readFile, NewRaftNode. node_simpl. destruct Hs as [Hdur|[Hnone Hlog]].
    - unfold durable in Hdur. rewrite Hdur, Hf. simpl. split_and!; try done; [by destruct (rlog n)|].
      left. unfold durable, persistedState. simpl. rewrite Hdur. by destruct n as [? ? ? ? []].
    - rewrite Hnone. simpl. rewrite Hlog. split_and!; try done. by right. }
  destruct Hm as (M1 & M2 & M3 & M4 & M5 & M6). unfold boot, Run_init. fold m. clearbody m.
  unfold restoreFromSnapshot, loadSnapshotFile, readFile. rewrite M5.
  assert (Hf2 : next_fault (drop_fault (disk n)) = NoFault).
  { apply (disk_ok_next (set_disk (drop_fault (disk n)) n)). by apply disk_ok_tail. }
  rewrite Hf2. simpl. pose proof Hsn as Hsn'. unfold snapshot_durable in Hsn'.
  destruct (files (disk n) !! snapshotPath) as [f|] eqn:Hfile.
  - destruct Hsn' as [-> Hpos]. simpl. replace (log_snapshotIndex (rlog n) =? 0) with false by lia. simpl.
    rewrite M3. replace (0 <? log_snapshotIndex (rlog n)) with true by lia. simpl.
    rewrite M2. replace (0 <? log_snapshotIndex (rlog n)) with true by lia. simpl.
    rewrite M1, compact_noop by lia. split_and!; try done.
    unfold fsaved, durable, persistedState in *. simpl. by rewrite M1, M5 in *.
  - simpl. rewrite M1, M2, M3, Hsn'. split_and!; try done.
    + unfold fsaved, durable, persistedState in *. simpl. by rewrite M1, M5 in *.
    + unfold snapshot_durable. simpl. by rewrite Hfile, M1.
Qed.

Section node_only.
Context (members : list string) (h : hist) (g : list LogEntry) (i : string) (n : RaftNode).
Context (Hnode : lnode members h g i n) (Hd : disk_ok n).

Lemma lnode_apply :
  lastApplied n < commitIndex n -> lnode members h g i (set_lastApplied (lastApplied n ⊕ 1) n).
Proof using All.
  intros Hlt. destruct Hnode. pose proof (committed_length _ _ _ _ _ ln_commit). pose proof (fu_bound _ _ ln_full).
  pose proof (fu_snap _ _ ln_full). unfold lenZ in *. split; try done.
  - node_simpl. u64_lia.
  - intros Hs. destruct (ln_leader Hs). by split.
Qed.

Lemma lnode_restore : lnode members h g i (set_snapshotNotifyC None n).
Proof using Hnode. destruct Hnode. split; try done. intros Hs. destruct (ln_leader Hs). by split. Qed.

Lemma lnode_TakeSnapshot data : lnode members h g i (TakeSnapshot n data).1.
Proof using All.
  unfold TakeSnapshot. destruct (_ || _) eqn:Hc; [done|]. rewrite saveSnapshot_ok by done. cbn [fst].
  set (m := set_rlog _ _). assert (Hdm : disk_ok m) by by apply disk_ok_tail.
  destruct Hnode. pose proof (committed_length _ _ _ _ _ ln_commit). pose proof (fu_snap _ _ ln_full).
  pose proof (full_wf _ _ ln_full) as Hwf. pose proof (fu_bound _ _ ln_full).
  assert (Hi : log_snapshotIndex (rlog n) < lastApplied n <= lenZ g) by (unfold lenZ in *; lia).
  assert (Hu : is_u64 (lastApplied n)) by (unfold is_u64; lia).
  assert (Hlog : rlog (persist m) = log_compactTo (rlog n) (lastApplied n) (gterm g (Z.to_nat (lastApplied n)))).
  { subst m. node_simpl. by rewrite (full_get_term _ _ ln_full) by lia. }
  split; try done.
  - rewrite Hlog. by apply full_compact.
  - rewrite Hlog, compact_snapshotIndex by (done || lia). change (lastApplied (persist m)) with (lastApplied n).
    change (commitIndex (persist m)) with (commitIndex n). lia.
  - intros Hs. destruct (ln_leader Hs). by split.
  - by apply fsaved_persist.
  - eapply snapshot_durable_saved; [| |rewrite Hlog; apply compact_first; [done|done|lia]|lia].
    + rewrite persist_snapshot_file by done. subst m. node_simpl. rewrite lookup_insert_eq.
      by rewrite (full_get_term _ _ ln_full) by lia.
    + done.
Qed.

Lemma lnode_boot :
  currentTerm n <= currentTerm (boot (config n) (disk n)).1 ->
  lnode members h g i (boot (config n) (disk n)).1.
Proof using All.
  intros Hle. destruct Hnode. pose proof (full_wf _ _ ln_full) as Hwf. pose proof (fu_snap _ _ ln_full).
  destruct (boot_saved n Hd ln_saved ln_snap Hwf) as (B1 & B2 & B3 & B4 & B5 & B6).
  split; rewrite ?B1, ?B2, ?B3, ?B4; try done.
  - eapply Forall_impl; [done|]. simpl. lia.
  - eapply committed_weaken; [|instantiate (1 := Z.to_nat (commitIndex n)); lia].
    eapply committed_mono; [reflexivity|done|done|by eapply committed_length|done].
Qed.
End node_only.
