(* ===== verification/LogFollowers.v ===== *)
(** * Followers in the history

    The two handlers through which a leader changes another node's log,
    AppendEntries and InstallSnapshot: each keeps the invariant of
    LogInvariant.v, and what they acknowledge is in the history. *)

From S2P Require Import Prelude RaftLog Rpc Disk Node Election Replication ReplicationSafety Snapshot Client Transport Cluster ElectionSafety FullLog LogHistory LogInvariant LogSteps.

(** ** Followers *)

Lemma acceptEntries_snapshot n args :
  disk_ok n -> files (disk (acceptEntries n args).1) !! snapshotPath = files (disk n) !! snapshotPath /\
    snapshotData (acceptEntries n args).1 = snapshotData n.
Proof.
  intros Hd. unfold acceptEntries. cbv zeta. set (m := if ae_LeaderCommit args >? _ then _ else _).
  assert (Hm : disk m = disk n /\ snapshotData m = snapshotData n) by (subst m; by case_match).
  destruct Hm as [Hm1 Hm2]. clearbody m.
  assert (Hp : files (disk (persist m)) !! snapshotPath = files (disk n) !! snapshotPath).
  { rewrite persist_snapshot_file; [by rewrite Hm1|]. unfold disk_ok. by rewrite Hm1. }
  by case_match.
Qed.

Section followers.
Context (members : list string) (h : hist) (G : string -> list LogEntry) (ns : nodes).
Context (vs : gset (string * Z * string)) (i : string) (n : RaftNode).
Context (Hinv : lninv members h G ns vs) (Hni : vinv members ns vs) (Hn : ns !! i = Some n).
Context (T : Z) (l : list LogEntry) (Hl : h_logs h !! T = Some l) (HT : currentTerm n <= T).

#[local] Abbreviation g := (G i).

Lemma li_full : full (rlog n) g.
Proof using Hinv Hn. apply (li_node _ _ _ _ _ Hinv i n Hn). Qed.

(** What the follower has committed is in the leader's log. *)
Lemma committed_here k :
  (k <= Z.to_nat (commitIndex n))%nat -> (k <= length g)%nat /\ take k g `prefix_of` l.
Proof using All.
  intros Hk. eapply committed_leader; [apply Hinv|by eapply lninv_elections| |exact HT|exact Hl].
  eapply committed_weaken; [|exact Hk]. apply (li_node _ _ _ _ _ Hinv i n Hn).
Qed.

(** Replacing the log by a part [t] of the leader's log, or keeping it when it
    contains [t], keeps what is committed and what was acknowledged. *)
Section replace.
Context (t g' : list LogEntry) (Ht : t `prefix_of` l).
Context (Hg' : (t `prefix_of` g /\ g' = g) \/ (~ t `prefix_of` g /\ g' = t)).

Lemma replace_prefix : t `prefix_of` g'.
Proof using Hg'. destruct Hg' as [[? ->]|[_ ->]]; done. Qed.

Lemma replace_ok : log_ok h g'.
Proof using All.
  destruct Hg' as [[_ ->]|[_ ->]]; [apply (li_node _ _ _ _ _ Hinv i n Hn)|].
  eapply log_ok_prefix; [exact Ht|]. exact (ll_ok _ _ _ (li_hist _ _ _ _ _ Hinv _ _ Hl)).
Qed.

Lemma replace_terms : Forall (λ e, le_Term e <= T) g'.
Proof using All.
  destruct Hg' as [[_ ->]|[_ ->]].
  - eapply Forall_impl; [exact (ln_terms _ _ _ _ _ (li_node _ _ _ _ _ Hinv i n Hn))|]. simpl. lia.
  - destruct Ht as [x Hx]. pose proof (ll_le _ _ _ (li_hist _ _ _ _ _ Hinv _ _ Hl)) as Hle.
    rewrite Hx in Hle. by apply Forall_app in Hle as [? _].
Qed.

Lemma replace_keep x : x `prefix_of` g -> x `prefix_of` l -> x `prefix_of` g'.
Proof using All. intros. destruct Hg' as [[_ ->]|[? ->]]; [done|]. by apply (prefix_keep x t g l). Qed.

Lemma replace_committed h' :
  ext h h' -> committed h' members (Z.to_nat (commitIndex n)) g' T.
Proof using All.
  intros Hx. destruct (committed_here _ ltac:(done)) as [Hk Hp].
  pose proof (replace_keep _ (prefix_take _ _) Hp) as Hp'. pose proof (prefix_length _ _ Hp') as Hlen.
  rewrite length_take in Hlen. eapply committed_mono; [exact Hx|apply (li_node _ _ _ _ _ Hinv i n Hn)| |lia|done].
  rewrite <- (prefix_take_eq _ _ _ Hp') by (rewrite length_take; lia). by rewrite take_take, Nat.min_id.
Qed.

Lemma replace_acks m T0 m' :
  (i, T0, m) ∈ h_acks h -> (m' <= m)%nat -> T0 <= T /\ ack_ok h T0 m' g' T.
Proof using All.
  intros Hin Hm. destruct (li_acks _ _ _ _ _ Hinv i T0 m Hin) as (n0 & ? & HT0 & Ha). simplify_eq.
  split; [lia|]. destruct (Ha m' Hm) as (l0 & Hl0 & Hm0 & Hcase). exists l0. split_and!; [done|done|].
  destruct Hcase as [Hp|(T1 & l1 & ? & ? & ?)]; [|right; exists T1, l1; split_and!; [lia|lia|done|done]].
  destruct (decide (take m' l0 `prefix_of` l)) as [Hy|Hno]; [left; by apply replace_keep|right].
  exists T, l. assert (T0 <> T) by (intros ->; simplify_eq; apply Hno, prefix_take).
  split_and!; [lia|lia|done|done].
Qed.

(** The acknowledgement of [t], with everything else of the node as it was. *)
Lemma lninv_replace n' :
  quiet n n' -> state n' <> Leader -> currentTerm n' = T -> full (rlog n') g' ->
  log_snapshotIndex (rlog n') <= lastApplied n' <= commitIndex n' ->
  committed (hist_ack i T (length t) h) members (Z.to_nat (commitIndex n')) g' T ->
  fsaved n' -> snapshot_durable n' ->
  lninv members (hist_ack i T (length t) h) (upd i g' G) (<[i := n']> ns) vs.
Proof using All.
  intros Hq Hs HT' Hf Hr Hc Hsv Hsn. pose proof (ext_ack i T (length t) h) as Hx.
  pose proof (ll_term _ _ _ (li_hist _ _ _ _ _ Hinv _ _ Hl)) as HTr.
  apply (lninv_update members h _ G ns vs vs i n n' g' Hinv Hni Hn); rewrite ?HT'; try done.
  - apply hist_ok_ack, Hinv.
  - by left.
  - intros q T' m Ha Hna. simpl in Ha. set_solver.
  - intros Hs'. right. destruct (quiet_state _ _ Hq) as [He He2]; [congruence|]. split; congruence.
  - split; rewrite ?HT'; try done; try congruence; [eapply log_ok_mono; [exact Hx|apply replace_ok]|apply replace_terms].
  - intros Hnone. simpl. congruence.
  - intros T0 m Hin. simpl in Hin. destruct (decide ((i, T0, m) ∈ h_acks h)) as [Ho|Ho].
    + split; [by apply (replace_acks m T0 m)|]. intros m' Hm'.
      eapply ack_ok_mono; [exact Hx|apply Hinv|by apply (replace_acks m T0 m')|lia].
    + assert (T0 = T /\ m = length t) as [-> ->] by set_solver. split; [lia|]. intros m' Hm'.
      pose proof (prefix_length _ _ Ht). exists l. split_and!; [done|lia|left]. etransitivity; [|apply replace_prefix].
      rewrite <- (prefix_take_eq _ _ _ Ht) by done. apply prefix_take.
  - simpl. congruence.
  - intros Hv. rewrite <- HT'. by eapply recorded_quiet.
Qed.
End replace.
End followers.

(** ** AppendEntries *)

(** A batch taken from the leader's log, with what precedes it. *)
Lemma batch_take {A} (es l : list A) p :
  es `prefix_of` drop p l -> (p <= length l)%nat ->
  let t := take (p + length es) l in
  drop p t = es /\ length t = (p + length es)%nat /\ t `prefix_of` l.
Proof.
  intros Hes Hp t. subst t. pose proof (prefix_length _ _ Hes) as Hlen. rewrite length_drop in Hlen.
  split_and!; [|rewrite length_take; lia|apply prefix_take].
  rewrite skipn_firstn_comm. replace (p + length es - p)%nat with (length es) by lia.
  rewrite <- (prefix_take_eq _ _ _ Hes) by done. by apply take_ge.
Qed.

Section append_request.
Context (members : list string) (h : hist) (G : string -> list LogEntry) (ns : nodes).
Context (vs : gset (string * Z * string)) (i j : string) (n : RaftNode).
Context (Hinv : lninv members h G ns vs) (Hni : vinv members ns vs) (Hn : ns !! i = Some n).
Context (T : Z) (HT : currentTerm n <= T) (Hsend : sender_ok members vs j i T).

#[local] Abbreviation g := (G i).

(** The leader of a term receives nothing of that term. *)
Lemma receiver_state : state n <> Leader \/ currentTerm n < T.
Proof using All.
  destruct (decide (currentTerm n < T)) as [|Hge]; [by right|left]. intros Hs. destruct Hsend as [Hq Hne].
  assert (He : currentTerm n = T) by lia. apply Hne. eapply one_winner; [done| |exact Hq].
  rewrite <- He. by apply (vi_leader _ _ _ Hni).
Qed.

Context (l : list LogEntry) (Hl : h_logs h !! T = Some l).

(** Where the consistency check passes, both logs agree up to there. *)
Lemma match_prefix p :
  log_matches (rlog n) (Z.of_nat p) (gterm l p) ->
  take p g = take p l /\ (p = 0%nat \/ is_Some (log_view (rlog n) !! Z.of_nat p)).
Proof using All.
  pose proof (li_node _ _ _ _ _ Hinv i n Hn) as [Hf Hok _ _ _ _ _ _ _].
  intros [Hp|(e & He & Ht)]; [assert (p = 0%nat) as -> by lia; auto|].
  destruct (full_view_term _ _ Hf _ _ He) as (Hr & _ & Hte). rewrite Nat2Z.id in Hte.
  split; [|right; by eexists]. destruct p as [|p]; [done|]. unfold lenZ in Hr.
  destruct (gterm_ok g (S p) (fu_terms _ _ Hf)) as [He1 He2]; [lia|]. unfold entry_ok in He1.
  eapply log_matching_gterm; [exact Hok|exact (ll_ok _ _ _ (li_hist _ _ _ _ _ Hinv _ _ Hl))|lia|lia].
Qed.

(** No node has an entry of term 0. *)
Lemma junk_rejected k : 0 < k -> ~ log_matches (rlog n) k 0.
Proof using All.
  pose proof (li_node _ _ _ _ _ Hinv i n Hn) as [Hf Hok _ _ _ _ _ _ _].
  intros Hk [Hp|(e & He & Ht)]; [lia|]. destruct (full_view_term _ _ Hf _ _ He) as (Hr & _ & Hte).
  unfold lenZ in Hr. destruct (gterm_ok g (Z.to_nat k) (fu_terms _ _ Hf)) as [He1 He2]; [lia|].
  unfold entry_ok in He1. lia.
Qed.

Lemma accept_full args p :
  ae_PrevLogIndex args = Z.of_nat p -> (p <= length l)%nat -> ae_Entries args `prefix_of` drop p l ->
  log_matches (rlog n) (Z.of_nat p) (gterm l p) ->
  let t := take (p + length (ae_Entries args)) l in
  log_first (appendLoop (rlog n) (ae_Entries args)) = log_first (rlog n) /\
  exists g', full (appendLoop (rlog n) (ae_Entries args)) g' /\
    ((t `prefix_of` g /\ g' = g) \/ (~ t `prefix_of` g /\ g' = t)).
Proof using All.
  intros Hp Hpl Hes Hm t. destruct (batch_take _ _ _ Hes Hpl) as (Ht1 & Ht2 & Ht3). fold t in Ht1, Ht2, Ht3.
  destruct (match_prefix p Hm) as [Heq Hprev]. pose proof (li_node _ _ _ _ _ Hinv i n Hn) as Hnode.
  pose proof (ln_full _ _ _ _ _ Hnode) as Hf. pose proof (li_hist _ _ _ _ _ Hinv _ _ Hl) as Hll.
  pose proof (log_ok_prefix _ _ _ Ht3 (ll_ok _ _ _ Hll)) as Htok.
  assert (Hct : contiguous 1 t) by apply contiguous_take, Hll.
  assert (Hot : Forall entry_ok t) by apply Forall_take, Hll.
  pose proof (prefix_length _ _ Ht3) as Htl. pose proof (ll_bound _ _ _ Hll) as Hb.
  assert (Ha : ae_wf args).
  { split; rewrite ?Hp; [lia| | |unfold lenZ in *; lia]; rewrite <- Ht1; [|by apply Forall_drop].
    replace (Z.of_nat p + 1) with (1 + Z.of_nat p) by lia. apply contiguous_drop; [lia|done]. }
  split.
  { apply appendLoop_first; [by eapply full_wf|done|]. rewrite Hp. destruct Hprev as [->|]; [by left|by right]. }
  apply (full_accept _ g args t p); try done; [lia|unfold lenZ in *; lia| |].
  - eapply prefix_weak_total; [|exact Ht3]. set (b := Nat.max _ _).
    assert (Hbp : b = p \/ b = Z.to_nat (log_snapshotIndex (rlog n))) by lia. clearbody b. destruct Hbp as [->| ->].
    + rewrite Heq. apply prefix_take.
    + pose proof (ln_range _ _ _ _ _ Hnode).
      apply (committed_here _ _ _ _ _ _ _ Hinv Hni Hn T l Hl HT). lia.
  - intros k o e Ho He Hoe.
    pose proof (log_matching h g t k o e (ln_ok _ _ _ _ _ Hnode) Htok Ho He Hoe) as Htk.
    assert (take (S k) g !! k = take (S k) t !! k) as Hlk by by rewrite Htk.
    rewrite !lookup_take_lt in Hlk by lia. congruence.
Qed.

(** An accepted batch: the follower has acknowledged it, and commits what the
    leader has. *)
Lemma lninv_accept now args p :
  ae_Term args = T -> ae_PrevLogIndex args = Z.of_nat p -> (p <= length l)%nat ->
  ae_Entries args `prefix_of` drop p l -> log_matches (rlog n) (Z.of_nat p) (gterm l p) ->
  0 <= ae_LeaderCommit args <= Z.of_nat p + lenZ (ae_Entries args) ->
  committed h members (Z.to_nat (ae_LeaderCommit args)) l T ->
  let n' := (acceptEntries (ae_prelude now n args) args).1 in
  let m := (p + length (ae_Entries args))%nat in
  exists g', lninv members (hist_ack i T m h) (upd i g' G) (<[i := n']> ns) vs /\ state n' = Follower.
Proof using All.
  intros HaT Hp Hpl Hes Hm Hlc Hcom n' m. destruct (batch_take _ _ _ Hes Hpl) as (_ & Ht2 & Ht3).
  destruct (accept_full args p Hp Hpl Hes Hm) as (Hfirst & g' & Hf' & Hg'). exists g'.
  set (t := take (p + length (ae_Entries args)) l) in *.
  assert (HTa : currentTerm n <= ae_Term args) by lia.
  destruct (ae_prelude_fields now n args HTa) as (P1 & P2 & P3 & P4 & _ & _ & _ & _ & _ & P10 & P11).
  pose proof (lquiet_ae_prelude now n args) as Hlq. pose proof (vi_node _ _ _ Hni i n Hn) as Hnok.
  destruct (no_disk _ _ _ Hnok) as [Hd _]. destruct (lq_disk _ _ Hlq Hd) as (Hd' & _ & Hsn').
  destruct (acceptEntries_fields (ae_prelude now n args) args) as (A1 & A2 & _ & A4 & A5 & _ & _ & _ & A9 & A10).
  destruct (acceptEntries_snapshot _ args Hd') as [S1 S2]. fold n' in A1, A2, A4, A5, A9, A10, S1, S2.
  rewrite P2 in A1. rewrite P3 in A9. rewrite <- A1 in Hf', Hfirst. destruct (A10 Hd') as [Hdur _].
  assert (Hs : state n' = Follower) by (rewrite A4; apply P11; rewrite HaT; apply receiver_state).
  split; [|done]. pose proof (li_node _ _ _ _ _ Hinv i n Hn) as Hnode.
  pose proof (replace_prefix _ i t g' Hg') as Htg. pose proof (prefix_length _ _ Htg) as Htgl.
  pose proof (ln_range _ _ _ _ _ Hnode) as Hr.
  assert (Hq : quiet n n') by (etransitivity; [apply quiet_ae_prelude|apply quiet_acceptEntries]).
  unfold m. rewrite <- Ht2. apply (lninv_replace _ _ _ _ _ _ _ Hinv Hni Hn T l Hl HT t g' Ht3 Hg'); try done.
  - congruence.
  - congruence.
  - unfold log_snapshotIndex. rewrite Hfirst, A5, P4, A9. fold (log_snapshotIndex (rlog n)).
    rewrite (full_lastIndex _ _ Hf'). unfold lenZ in *. case_match; lia.
  - rewrite A9. rewrite (full_lastIndex _ _ Hf'). unfold lenZ in *. destruct (_ >? _) eqn:Hgt.
    + rewrite Z.min_l by lia. eapply committed_mono; [apply ext_ack|exact Hcom| |lia|lia].
      rewrite <- (prefix_take_eq _ _ _ Ht3), <- (prefix_take_eq _ _ _ Htg) by lia. done.
    + apply (replace_committed _ _ _ _ _ _ _ Hinv Hni Hn T l Hl HT t g' Ht3 Hg'), ext_ack.
  - by left.
  - eapply snapshot_durable_first; [exact S1|by rewrite P2|exact S2|]. apply Hsn', Hnode.
Qed.
End append_request.

(** A rejection points into the log, or just behind it. *)
Lemma conflict_range n args r :
  log_wf (rlog n) -> consistencyCheck n args = Some r -> aer_Success r = false /\ is_u64 (aer_ConflictIndex r).
Proof.
  intros Hwf. unfold consistencyCheck. case_match; [|done]. case_match.
  { intros [= <-]. split; [done|apply u64_range]. }
  case_match; [|done]. intros [= <-]. split; [done|]. simpl. pose proof (wf_lastIndex_range _ Hwf).
  pose proof (wf_snapshotIndex _ Hwf). unfold is_u64.
  destruct (firstIndexForTerm_spec (rlog n) (le_Term (log_get (rlog n) (ae_PrevLogIndex args))) Hwf)
    as [(e & He & _)|[-> _]]; [|lia].
  assert (Hr : is_Some (log_view (rlog n) !! log_firstIndexForTerm (rlog n)
    (le_Term (log_get (rlog n) (ae_PrevLogIndex args))))) by by eexists.
  apply view_is_Some in Hr; [lia|done].
Qed.

(** An AppendEntries request at node [i]. *)
Lemma lstep_append_request members h G ns vs i j n T now args :
  lninv members h G ns vs -> vinv members ns vs -> ns !! i = Some n ->
  sender_ok members vs j i T -> ae_ok members h T args ->
  let r := HandleAppendEntries now n args in
  exists h' g', lstep members h G ns vs i r.1 h' g' vs /\ is_u64 (aer_ConflictIndex r.2) /\
    (aer_Success r.2 = true -> exists m : nat,
       ae_PrevLogIndex args + lenZ (ae_Entries args) = Z.of_nat m /\ Z.of_nat m < u64_size - 1 /\ (i, T, m) ∈ h_acks h').
Proof.
  intros Hinv Hni Hn Hsend (HaT & Hu & l & Hl & Hcase) r. subst r.
  pose proof (quiet_HandleAppendEntries now n args) as Hq.
  destruct (decide (T < currentTerm n)) as [Hst|Hge].
  { rewrite HandleAppendEntries_stale in * by lia. exists h, (G i). simpl in *.
    split; [by eapply lstep_quiet|]. split; [by unfold is_u64|done]. }
  assert (HT : currentTerm n <= T) by lia. assert (HTa : currentTerm n <= ae_Term args) by lia.
  rewrite HandleAppendEntries_current in * by done.
  destruct (ae_prelude_fields now n args HTa) as (_ & P2 & _).
  pose proof (ln_full _ _ _ _ _ (li_node _ _ _ _ _ Hinv i n Hn)) as Hf. pose proof (full_wf _ _ Hf) as Hwf.
  assert (Hwf' : log_wf (rlog (ae_prelude now n args))) by by rewrite P2.
  destruct (consistencyCheck (ae_prelude now n args) args) as [rep|] eqn:Hc.
  { destruct (conflict_range _ _ _ Hwf' Hc) as [Hs Hci]. exists h, (G i). simpl in *. rewrite Hs.
    split; [|split; [done|congruence]]. eapply lstep_quiet; [done|done|done|apply lquiet_ae_prelude|done]. }
  apply (consistencyCheck_None _ _ Hwf' Hu) in Hc. rewrite P2 in Hc.
  destruct Hcase as [[Hj0 Hj1]|(p & Hp & Hpl & Hpt & Hes & Hlc & Hcom)].
  { rewrite Hj1 in Hc. by destruct (junk_rejected members h G ns vs i j n Hinv Hni Hn T HT Hsend l Hl _ Hj0 Hc). }
  rewrite Hp, Hpt in Hc. pose proof (prefix_length _ _ Hes) as Hlen. rewrite length_drop in Hlen.
  pose proof (ll_bound _ _ _ (li_hist _ _ _ _ _ Hinv _ _ Hl)) as Hb.
  destruct (lninv_accept members h G ns vs i j n Hinv Hni Hn T HT Hsend l Hl now args p) as (g' & Hi & Hs); try done.
  exists (hist_ack i T (p + length (ae_Entries args)) h), g'. split; [|split].
  - eapply lstep_log; [done|apply ext_ack|done|congruence|done].
  - by unfold is_u64.
  - intros _. exists (p + length (ae_Entries args))%nat. rewrite Hp. unfold lenZ in *.
    split; [lia|]. split; [lia|apply ack_new].
Qed.

(** ** InstallSnapshot *)

(** The snapshot does not contradict the follower's log: where that has an entry
    of its own at the snapshot's index, the terms agree. *)
Definition clean_install (n : RaftNode) (args : InstallSnapshotArgs) : Prop :=
  currentTerm n <= is_Term args ->
  log_snapshotIndex (rlog n) < is_LastIncludedIndex args <= log_lastIndex (rlog n) ->
  le_Term (log_get (rlog n) (is_LastIncludedIndex args)) = is_LastIncludedTerm args.

#[export] Instance clean_install_dec n args : Decision (clean_install n args).
Proof. unfold clean_install. apply _. Defined.

Lemma lquiet_is_prelude n args : lquiet n (is_prelude n args).
Proof.
  unfold is_prelude. case_match; [etransitivity; [apply lquiet_becomeFollower|lquiet_frame]|lquiet_frame].
Qed.

Section install_request.
Context (members : list string) (h : hist) (G : string -> list LogEntry) (ns : nodes).
Context (vs : gset (string * Z * string)) (i j : string) (n : RaftNode).
Context (Hinv : lninv members h G ns vs) (Hni : vinv members ns vs) (Hn : ns !! i = Some n).
Context (T : Z) (HT : currentTerm n <= T) (Hsend : sender_ok members vs j i T).
Context (l : list LogEntry) (Hl : h_logs h !! T = Some l).
Context (args : InstallSnapshotArgs) (HaT : is_Term args = T).
Context (k : nat) (Hk : is_LastIncludedIndex args = Z.of_nat k) (Hkl : (k <= length l)%nat).
Context (Hkt : is_LastIncludedTerm args = gterm l k).

#[local] Abbreviation g := (G i).
#[local] Abbreviation n' := (HandleInstallSnapshot n args).1.
#[local] Abbreviation t := (take k l).

Lemma install_t : t `prefix_of` l /\ length t = k.
Proof using Hkl. split; [apply prefix_take|rewrite length_take; lia]. Qed.

Lemma install_state : currentTerm n <= is_Term args /\ state (is_prelude n args) <> Leader.
Proof using All.
  assert (H : currentTerm n <= is_Term args) by lia. split; [done|].
  apply (is_prelude_fields n args H). rewrite HaT. by eapply receiver_state.
Qed.

(** A snapshot at or below the boundary: the follower has all of it. *)
Lemma lninv_covered :
  Z.of_nat k <= log_snapshotIndex (rlog n) ->
  lninv members (hist_ack i T k h) (upd i g G) (<[i := n']> ns) vs.
Proof using All.
  intros Hle. destruct install_state as [HTa Hs]. destruct install_t as [Ht1 Ht2].
  destruct (HandleInstallSnapshot_current n args HTa) as [_ Hn']. rewrite Hn' by lia.
  destruct (is_prelude_fields n args HTa) as (P1 & P2 & P3 & P4 & _).
  pose proof (li_node _ _ _ _ _ Hinv i n Hn) as Hnode. pose proof (ln_range _ _ _ _ _ Hnode) as Hr.
  destruct (no_disk _ _ _ (vi_node _ _ _ Hni i n Hn)) as [Hd _].
  destruct (lq_disk _ _ (lquiet_is_prelude n args) Hd) as (_ & Hsv & Hsn).
  destruct (committed_here _ _ _ _ _ _ _ Hinv Hni Hn T l Hl HT k ltac:(lia)) as [Hkg Hpre].
  assert (Htg : t `prefix_of` g).
  { rewrite <- (prefix_take_eq _ _ k Hpre) by (rewrite length_take; lia). rewrite take_take, Nat.min_id. apply prefix_take. }
  rewrite <- Ht2.
  apply (lninv_replace _ _ _ _ _ _ _ Hinv Hni Hn T l Hl HT t g Ht1); rewrite ?P2, ?P3, ?P4; try done; auto.
  - rewrite <- Hn' by lia. apply quiet_HandleInstallSnapshot.
  - congruence.
  - apply Hnode.
  - apply (replace_committed _ _ _ _ _ _ _ Hinv Hni Hn T l Hl HT t g Ht1); [by left|apply ext_ack].
  - apply Hsv, Hnode.
  - apply Hsn, Hnode.
Qed.

(** A snapshot beyond the boundary, that agrees with the entry it meets. *)
Lemma install_full :
  log_snapshotIndex (rlog n) < Z.of_nat k -> clean_install n args ->
  exists g', full (log_compactTo (rlog n) (Z.of_nat k) (gterm l k)) g' /\
    ((t `prefix_of` g /\ g' = g) \/ (~ t `prefix_of` g /\ g' = t)).
Proof using All.
  intros Hgt Hclean. destruct install_t as [Ht1 Ht2]. pose proof (li_node _ _ _ _ _ Hinv i n Hn) as Hnode.
  pose proof (ln_full _ _ _ _ _ Hnode) as Hf. pose proof (li_hist _ _ _ _ _ Hinv _ _ Hl) as Hll.
  pose proof (full_lastIndex _ _ Hf) as Hli. pose proof (fu_snap _ _ Hf) as Hsn. pose proof (ll_bound _ _ _ Hll) as Hb.
  destruct (decide (Z.of_nat k <= lenZ g)) as [Hle|Hlt].
  - exists g. specialize (Hclean ltac:(lia)). rewrite Hk, Hli, Hkt in Hclean. specialize (Hclean ltac:(lia)).
    rewrite (full_get_term _ _ Hf), Nat2Z.id in Hclean by lia. unfold lenZ in *.
    destruct (gterm_ok g k (fu_terms _ _ Hf)) as [He1 He2]; [lia|]. unfold entry_ok in He1.
    assert (Heq : take k g = t).
    { eapply log_matching_gterm; [apply Hnode|exact (ll_ok _ _ _ Hll)|done|lia]. }
    split; [|left; split; [rewrite <- Heq; apply prefix_take|done]].
    replace (gterm l k) with (gterm g (Z.to_nat (Z.of_nat k))) by by rewrite Nat2Z.id.
    apply full_compact; [done|unfold lenZ; lia].
  - exists t. unfold lenZ in *. split; [|right; split; [intros Hp%prefix_length; lia|done]].
    pose proof (full_install _ _ Hf t) as Hi. unfold lenZ in Hi. rewrite Ht2 in Hi.
    rewrite gterm_take in Hi by done. apply Hi; [apply contiguous_take, Hll|apply Forall_take, Hll|lia|lia].
Qed.

Lemma lninv_install :
  committed h members k l T -> log_snapshotIndex (rlog n) < Z.of_nat k -> clean_install n args ->
  exists g', lninv members (hist_ack i T k h) (upd i g' G) (<[i := n']> ns) vs.
Proof using All.
  intros Hcom Hgt Hclean. destruct (install_full Hgt Hclean) as (g' & Hf' & Hg'). exists g'.
  destruct install_t as [Ht1 Ht2]. destruct install_state as [HTa Hs].
  pose proof (li_node _ _ _ _ _ Hinv i n Hn) as Hnode. pose proof (ln_range _ _ _ _ _ Hnode) as Hr.
  pose proof (full_wf _ _ (ln_full _ _ _ _ _ Hnode)) as Hwf. pose proof (li_hist _ _ _ _ _ Hinv _ _ Hl) as Hll.
  destruct (no_disk _ _ _ (vi_node _ _ _ Hni i n Hn)) as [Hd _]. pose proof (ll_bound _ _ _ Hll) as Hb.
  destruct (install_fields n args Hwf Hd HTa) as (I1 & _ & _ & I4 & I5 & I6 & _ & I8 & I9 & I10).
  { unfold lenZ in *. lia. }
  rewrite Hk, Hkt in I4. rewrite Hk in I5, I6. pose proof (replace_prefix _ i t g' Hg') as Htg.
  pose proof (prefix_length _ _ Htg) as Htgl. pose proof (wf_snapshotIndex _ Hwf) as Hs0. rewrite <- Ht2.
  apply (lninv_replace _ _ _ _ _ _ _ Hinv Hni Hn T l Hl HT t g' Ht1 Hg'); rewrite ?I4, ?I5, ?I6; try done.
  - apply quiet_HandleInstallSnapshot.
  - congruence.
  - congruence.
  - rewrite compact_snapshotIndex by (done || unfold is_u64, lenZ in *; lia). lia.
  - destruct (Z.max_spec (commitIndex n) (Z.of_nat k)) as [[_ ->]|[_ ->]].
    + rewrite Nat2Z.id. eapply committed_mono; [apply ext_ack|exact Hcom| |lia|lia].
      rewrite <- (prefix_take_eq _ _ _ Htg) by lia. by rewrite take_take, Nat.min_id.
    + apply (replace_committed _ _ _ _ _ _ _ Hinv Hni Hn T l Hl HT t g' Ht1 Hg'), ext_ack.
  - by left.
Qed.
End install_request.

(** An InstallSnapshot request at node [i]. *)
Lemma lstep_install_request members h G ns vs i j n T args :
  lninv members h G ns vs -> vinv members ns vs -> ns !! i = Some n ->
  sender_ok members vs j i T -> sn_ok members h T args -> clean_install n args ->
  let r := HandleInstallSnapshot n args in
  exists h' g', lstep members h G ns vs i r.1 h' g' vs /\
    (isr_Term r.2 <= T -> (i, T, Z.to_nat (is_LastIncludedIndex args)) ∈ h_acks h').
Proof.
  intros Hinv Hni Hn Hsend (HaT & l & Hl & Hk & Hkt & Hcom) Hclean r. subst r.
  pose proof (quiet_HandleInstallSnapshot n args) as Hq.
  destruct (decide (T < currentTerm n)) as [Hst|Hge].
  { rewrite HandleInstallSnapshot_stale in * by lia. exists h, (G i). simpl in *.
    split; [by eapply lstep_quiet|lia]. }
  assert (HT : currentTerm n <= T) by lia.
  destruct (HandleInstallSnapshot_current n args ltac:(lia)) as [Hrep _].
  set (k := Z.to_nat (is_LastIncludedIndex args)) in *. unfold lenZ in Hk.
  assert (Hkz : is_LastIncludedIndex args = Z.of_nat k) by lia.
  assert (Hg : exists g', lninv members (hist_ack i T k h) (upd i g' G) (<[i := (HandleInstallSnapshot n args).1]> ns) vs).
  { destruct (decide (Z.of_nat k <= log_snapshotIndex (rlog n))) as [Hle|Hgt].
    - exists (G i). apply (lninv_covered members h G ns vs i j n Hinv Hni Hn T HT Hsend l); done || lia.
    - apply (lninv_install members h G ns vs i j n Hinv Hni Hn T HT Hsend l); done || lia. }
  destruct Hg as [g' Hg]. exists (hist_ack i T k h), g'. split; [|intros _; apply ack_new].
  eapply lstep_log; [done|apply ext_ack|done| |done]. intros Hs. simpl.
  assert (currentTerm (HandleInstallSnapshot n args).1 = T) as ->; [|congruence].
  destruct (quiet_state _ _ Hq) as [He _]; [congruence|].
  destruct (li_acks _ _ _ _ _ Hg i T k (ack_new i T k h)) as (m & Hm & Hle & _).
  rewrite lookup_insert_eq in Hm. simplify_eq. lia.
Qed.
