(* ===== verification/LogLeaders.v ===== *)
(** * Leaders in the history

    The replies a leader processes and the entries it commits: the progress it
    records is acknowledged in the history, and a commit index it moves to is
    chosen. *)

From S2P Require Import Prelude RaftLog Rpc Disk Node Election Replication ReplicationSafety Snapshot Client Transport Cluster ElectionSafety FullLog LogHistory LogInvariant LogSteps.

(** ** Progress *)

(** What a leader may record of a peer. *)
Definition progress (h : hist) (n : RaftNode) : Prop :=
  forall p, p ∈ peers n -> 0 <= mget (matchIndex n) p /\
    (mget (matchIndex n) p = 0 \/ (p, currentTerm n, Z.to_nat (mget (matchIndex n) p)) ∈ h_acks h) /\
    mget (nextIndex n) p < u64_size.

Lemma leads_progress h g i n : leads h g i n -> progress h n.
Proof. intros [] p Hp. destruct (ld_match p Hp). auto. Qed.

(** A new value for one peer. *)
Lemma progress_update h n n' peer m nx :
  progress h n -> peers n' = peers n -> currentTerm n' = currentTerm n ->
  (forall p, mget (matchIndex n') p = if decide (p = peer) then m else mget (matchIndex n) p) ->
  (forall p, mget (nextIndex n') p = if decide (p = peer) then nx else mget (nextIndex n) p) ->
  (peer ∈ peers n -> 0 <= m /\ (m = 0 \/ (peer, currentTerm n, Z.to_nat m) ∈ h_acks h) /\ nx < u64_size) ->
  progress h n'.
Proof.
  intros H Hp HT Hm Hx Hnew p. rewrite Hp, HT, Hm, Hx. intros Hin. destruct (decide (p = peer)) as [->|]; auto.
Qed.

Lemma mget_insert_decide m k v p : mget (<[k := v]> m) p = if decide (p = k) then v else mget m p.
Proof. case_decide as Hd; [subst; apply mget_insert|by apply mget_insert_ne]. Qed.

(** [matchIndex] of a peer never moves back, and [nextIndex] follows it. *)
Lemma progress_max h n n' peer m :
  progress h n -> 0 <= m -> (peer, currentTerm n, Z.to_nat m) ∈ h_acks h ->
  peers n' = peers n -> currentTerm n' = currentTerm n ->
  matchIndex n' = (if m >? mget (matchIndex n) peer then <[peer := m]> (matchIndex n) else matchIndex n) ->
  nextIndex n' = <[peer := mget (matchIndex n') peer ⊕ 1]> (nextIndex n) -> progress h n'.
Proof.
  intros Hp Hm Hin H1 H2 H3 H4. destruct (m >? mget (matchIndex n) peer) eqn:Hgt.
  - apply (progress_update h n n' peer m (m ⊕ 1)); try done.
    + intros p. rewrite H3. apply mget_insert_decide.
    + intros p. rewrite H4, H3, mget_insert. apply mget_insert_decide.
    + intros _. split_and!; [done|by right|apply u64_range].
  - apply (progress_update h n n' peer (mget (matchIndex n) peer) (mget (matchIndex n) peer ⊕ 1)); try done.
    + intros p. rewrite H3. by case_decide; subst.
    + intros p. rewrite H4, H3. apply mget_insert_decide.
    + intros Hpe. destruct (Hp peer Hpe) as (? & ? & _). split_and!; [done|done|apply u64_range].
Qed.

(** A leader's bookkeeping: only [matchIndex] and [nextIndex] matter. *)
Lemma lnode_track members h g i n n' :
  lnode members h g i n -> state n = Leader -> state n' = Leader -> rlog n' = rlog n ->
  commitIndex n' = commitIndex n -> lastApplied n' = lastApplied n -> currentTerm n' = currentTerm n ->
  votedFor n' = votedFor n -> disk n' = disk n -> snapshotData n' = snapshotData n ->
  progress h n' -> lnode members h g i n'.
Proof.
  intros [] Hs Hs' Hl Hc Ha HT Hv Hd Hsd Hp. destruct (ln_leader Hs).
  split; rewrite ?Hl, ?Hc, ?Ha, ?HT; try done.
  - intros _. split; rewrite ?HT; try done; intros p Hin; destruct (Hp p Hin) as (? & ? & ?); [|done].
    by rewrite <- HT.
  - congruence.
  - unfold fsaved, durable, persistedState in *. by rewrite Hd, Hl, HT, Hv.
  - eapply snapshot_durable_frame; [by rewrite Hd|done|done|done].
Qed.

(** ** Commitment *)

Lemma filter_map_length {A B} (f : A -> B) (P : B -> bool) l :
  length (List.filter P (map f l)) = length (List.filter (λ x, P (f x)) l).
Proof. induction l as [|x l IH]; [done|]. simpl. case_match; simpl; by rewrite IH. Qed.

Section commit.
Context (members : list string) (h : hist) (G : string -> list LogEntry) (ns : nodes).
Context (vs : gset (string * Z * string)) (i : string) (n : RaftNode).
Context (Hinv : lninv members h G ns vs) (Hni : vinv members ns vs) (Hn : ns !! i = Some n).
Context (Hs : state n = Leader).

#[local] Abbreviation g := (G i).
#[local] Abbreviation T := (currentTerm n).

Lemma leader_node : lnode members h g i n /\ leads h g i n.
Proof using Hinv Hn Hs.
  pose proof (li_node _ _ _ _ _ Hinv i n Hn) as Hnode. split; [done|]. by apply Hnode.
Qed.

(** What is acknowledged to a leader is in its log. *)
Lemma acked_length p m : (p, T, m) ∈ h_acks h -> (m <= length g)%nat.
Proof using Hinv Hn Hs.
  intros Hin. destruct leader_node as [_ Hld].
  destruct (li_acks _ _ _ _ _ Hinv p T m Hin) as (k & _ & _ & Ha). destruct (Ha m ltac:(done)) as (l & Hl & Hm & _).
  pose proof (ld_log _ _ _ _ Hld). congruence.
Qed.

(** The index [maybeCommit] finds, where it is above 0, is in the log, and a
    majority has acknowledged it. *)
Lemma quorumIndex_acked :
  0 < quorumIndex n ->
  quorumIndex n <= lenZ g /\
  exists Q, quorum members Q /\ forall q, q ∈ Q -> acked h q T (Z.to_nat (quorumIndex n)).
Proof using All.
  intros Hpos. set (q := quorumIndex n) in *. destruct leader_node as [Hnode Hld].
  pose proof (full_lastIndex _ _ (ln_full _ _ _ _ _ Hnode)) as Hlast.
  pose proof (vi_node _ _ _ Hni i n Hn) as Hok.
  pose proof (proj1 (quorumIndex_spec n q) ltac:(subst q; lia)) as Hcount.
  set (F := List.filter (λ p, q <=? mget (matchIndex n) p) (peers n)).
  assert (Hacks : acks n q = ((if (q <=? lenZ g)%Z then 1 else 0) + length F)%nat).
  { unfold acks, count_ge. simpl. rewrite Hlast. case_match; simpl; by rewrite filter_map_length. }
  rewrite Hacks in Hcount. clear Hacks.
  assert (HF : forall p, p ∈ F -> p ∈ peers n /\ exists m, (Z.to_nat q <= m)%nat /\ (p, T, m) ∈ h_acks h).
  { intros p. subst F. rewrite list_elem_of_In, filter_In, <- list_elem_of_In. intros [Hp Hq]. split; [done|].
    destruct (ld_match _ _ _ _ Hld p Hp) as [_ [Hz|Hin]]; [lia|]. eexists. split; [|exact Hin]. lia. }
  assert (Hle : q <= lenZ g).
  { destruct (q <=? lenZ g) eqn:E; [lia|]. destruct F as [|p F]; [simpl in Hcount; lia|].
    destruct (HF p) as (_ & m & Hm & Hin); [by left|]. apply acked_length in Hin. unfold lenZ. lia. }
  split; [done|]. replace (q <=? lenZ g) with true in Hcount by lia. 
  exists (i :: F). split; [split_and!|].
  - constructor.
    + intros Hin. apply (no_self _ _ _ Hok). by apply HF.
    + apply NoDup_ListNoDup, List.NoDup_filter, NoDup_ListNoDup, Hok.
  - intros p [->|Hp]%elem_of_cons; [apply Hok|]. apply (no_peers _ _ _ Hok). by apply HF.
  - simpl. pose proof (no_size _ _ _ Hok). lia.
  - intros p [->|Hp]%elem_of_cons; [|by apply HF].
    exists (length g). split; [unfold lenZ in Hle; lia|]. apply Hld.
Qed.

Lemma lnode_maybeCommit : lnode members h g i (maybeCommit n).
Proof using All.
  destruct leader_node as [Hnode Hld]. unfold maybeCommit. cbv zeta. destruct (_ && _) eqn:Hc; [|done].
  apply andb_true_iff in Hc as [Hgt Ht]. pose proof (ln_range _ _ _ _ _ Hnode) as Hr.
  pose proof (ln_full _ _ _ _ _ Hnode) as Hf. pose proof (fu_snap _ _ Hf) as Hsn.
  destruct quorumIndex_acked as (Hle & Q & HQ & Hack); [lia|].
  rewrite (full_get_term _ _ Hf) in Ht by lia. set (q := quorumIndex n) in *. clearbody q.
  destruct Hnode. split; try done.
  - node_unfold. lia.
  - right. exists T, g, (Z.to_nat q). unfold lenZ in Hle. split_and!; [done|apply Hld| |done|apply prefix_take].
    split; [lia|]. split; [lia|]. by exists Q.
  - intros _. destruct Hld. by split.
Qed.
End commit.

(** ** Replies *)

Section replies.
Context (members : list string) (h : hist) (G : string -> list LogEntry) (ns : nodes).
Context (vs : gset (string * Z * string)) (i p : string) (n : RaftNode).
Context (Hinv : lninv members h G ns vs) (Hni : vinv members ns vs) (Hn : ns !! i = Some n).

Lemma conflict_next r : is_u64 (aer_ConflictIndex r) -> nextIndexAfterConflict n r < u64_size.
Proof using.
  intros [_ Hc]. unfold nextIndexAfterConflict. cbv zeta. set (x := if _ =? 0 then _ else _).
  assert (x < u64_size). { subst x. repeat case_match; try done; apply u64_range. }
  case_match; [done|lia].
Qed.

(** The bookkeeping of a reply, then a commit. *)
Lemma lnode_then_commit n' :
  quiet n n' -> state n' = Leader -> lnode members h (G i) i n' -> lnode members h (G i) i (maybeCommit n').
Proof using All.
  intros Hq Hs Hnode. apply (lnode_maybeCommit members h G (<[i := n']> ns) vs i n'); [..|done].
  - by eapply lninv_node.
  - by eapply vinv_quiet.
  - by rewrite lookup_insert_eq.
Qed.

Lemma lstep_append_reply now T args r :
  lthread members h vs (TAppendRep i p T args r) ->
  lstep members h G ns vs i (sendToPeer_reply now n p T args r) h (G i) vs.
Proof using All.
  intros (_ & _ & Hci & Hsucc). pose proof (quiet_sendToPeer_reply now n p T args r) as Hq. revert Hq.
  unfold sendToPeer_reply. destruct (aer_Term r >? currentTerm n) eqn:HTr.
  { intros. eapply lstep_quiet; [done|done|done|apply lquiet_becomeFollower|done]. }
  destruct (_ || _) eqn:Hc; [intros; by eapply lstep_quiet|].
  apply orb_false_iff in Hc as [Hs%negb_false_iff%NodeState_eqb_true HT%negb_false_iff].
  destruct (leader_node members h G ns vs i n Hinv Hn Hs) as [Hnode Hld].
  pose proof (leads_progress _ _ _ _ Hld) as Hp. assert (HTT : T = currentTerm n) by lia. subst T.
  cbv zeta. node_simpl. destruct (aer_Success r).
  - destruct (Hsucc eq_refl) as (m & Hm & Hmb & Hin). rewrite (u64_small (ae_PrevLogIndex args + _)) by (unfold is_u64; lia).
    rewrite Hm. set (n1 := set_nextIndex _ _). intros Hq.
    assert (Hq1 : quiet n n1) by (subst n1; case_match; quiet_frame).
    eapply lstep_node; [done|done|done|exact Hq|]. apply lnode_then_commit; [done|subst n1; by case_match|].
    apply (lnode_track members h (G i) i n); try done; try (subst n1; by case_match).
    apply (progress_max h n n1 p (Z.of_nat m)); try done; try (subst n1; by case_match).
    + lia.
    + by rewrite Nat2Z.id.
  - intros Hq. eapply lstep_node; [done|done|done|exact Hq|]. apply (lnode_track members h (G i) i n); try done.
    apply (progress_update h n _ p (mget (matchIndex n) p) (nextIndexAfterConflict n r)); try done.
    + intros q. simpl. by case_decide; subst.
    + intros q. apply mget_insert_decide.
    + intros Hin. destruct (Hp p Hin) as (? & ? & _). split_and!; [done|done|by apply conflict_next].
Qed.

Lemma lstep_install_reply T args r :
  lthread members h vs (TSnapRep i p T args r) ->
  lstep members h G ns vs i (sendSnapshotToPeer_reply n p T args r) h (G i) vs.
Proof using All.
  intros (_ & (_ & l & _ & Hk & _) & Hack). pose proof (quiet_sendSnapshotToPeer_reply n p T args r) as Hq. revert Hq.
  unfold sendSnapshotToPeer_reply. destruct (isr_Term r >? currentTerm n) eqn:HTr.
  { intros. eapply lstep_quiet; [done|done|done|apply lquiet_becomeFollower|done]. }
  destruct (_ || _) eqn:Hc; [intros; by eapply lstep_quiet|].
  apply orb_false_iff in Hc as [Hs%negb_false_iff%NodeState_eqb_true HT%negb_false_iff].
  destruct (leader_node members h G ns vs i n Hinv Hn Hs) as [Hnode Hld].
  pose proof (leads_progress _ _ _ _ Hld) as Hp. assert (HTT : T = currentTerm n) by lia. subst T.
  cbv zeta. set (n1 := set_nextIndex _ _). intros Hq. eapply lstep_node; [done|done|done|exact Hq|].
  apply (lnode_track members h (G i) i n); try done; try (subst n1; by case_match).
  apply (progress_max h n n1 p (is_LastIncludedIndex args)); try done; try (subst n1; by case_match).
  - lia.
  - apply Hack. lia.
Qed.
End replies.

(** ** Ticks, commands and elections *)

Section lead.
Context (members : list string) (h : hist) (G : string -> list LogEntry) (ns : nodes).
Context (vs : gset (string * Z * string)) (i : string) (n : RaftNode).
Context (Hinv : lninv members h G ns vs) (Hni : vinv members ns vs) (Hn : ns !! i = Some n).

Lemma lthreads_dispatch :
  state n = Leader -> Forall (lthread members h vs) (map (thread_of i) (map (dispatch n (currentTerm n)) (peers n))).
Proof using All.
  intros Hs. apply Forall_fmap, Forall_fmap, Forall_forall. intros p Hp. by eapply lthread_dispatch.
Qed.

(** A leader that steps down for want of a quorum keeps its log; the heartbeats
    it still sends are those of a leader. *)
Lemma lstep_tick now :
  let r := heartbeatTick now n in
  lstep members h G ns vs i r.1 h (G i) vs /\ Forall (lthread members h vs) (map (thread_of i) r.2).
Proof using All.
  cbv zeta. unfold heartbeatTick. destruct (NodeState_eqb (state n) Leader) eqn:Hs.
  2: { split; [by eapply lstep_quiet|constructor]. }
  unfold checkQuorum. rewrite Hs. apply NodeState_eqb_true in Hs. simpl. case_match.
  - split; [|exact (lthreads_dispatch Hs)].
    set (n' := set_heartbeatsSent _ _). assert (HT : currentTerm n' = currentTerm n) by done.
    assert (Hlq : lquiet n n') by (etransitivity; [apply (lquiet_becomeFollower (currentTerm n))|lquiet_frame]).
    apply (lstep_same _ _ _ _ _ _ n); [done|done|lia|done|].
    apply (lninv_same members h G ns vs i n n'); try done.
    apply (lnode_lquiet members h G ns vs i n n'); done || lia.
  - split; [|exact (lthreads_dispatch Hs)]. eapply lstep_quiet; [done|done|done|lquiet_frame|quiet_frame].
Qed.

Lemma lstep_submit command :
  log_lastIndex (rlog n) + 2 < u64_size ->
  let r := Submit n command in
  exists h' g', lstep members h G ns vs i r.1.1 h' g' vs /\ Forall (lthread members h' vs) (map (thread_of i) r.2).
Proof using All.
  intros Hb. cbv zeta. pose proof (quiet_Submit n command) as Hq. revert Hq. unfold Submit.
  destruct (NodeState_eqb (state n) Leader) eqn:Hs.
  2: { intros _. exists h, (G i). split; [by eapply lstep_quiet|constructor]. }
  apply NodeState_eqb_true in Hs. simpl. intros Hq.
  destruct (leader_node members h G ns vs i n Hinv Hn Hs) as [Hnode Hld].
  pose proof (ln_full _ _ _ _ _ Hnode) as Hf. pose proof (full_lastIndex _ _ Hf) as Hlast.
  pose proof (lenZ_nonneg (G i)) as H0. destruct (no_disk _ _ _ (vi_node _ _ _ Hni i n Hn)) as [Hd _].
  set (e := mkLogEntry (currentTerm n) (log_lastIndex (rlog n) ⊕ 1) command false "" "") in *.
  set (m := set_rlog (log_append (rlog n) [e]) n) in *. assert (Hdm : disk_ok m) by done.
  assert (Hinv' : lninv members (hist_lead i (currentTerm n) (G i ++ [e]) h) (upd i (G i ++ [e]) G) (<[i := persist m]> ns) vs).
  { apply (lninv_append members h G ns vs i n Hinv Hni Hn); try done.
    - subst e. simpl. rewrite Hlast. u64_lia.
    - lia.
    - by apply fsaved_persist.
    - apply (snapshot_durable_first n); [by apply (persist_snapshot_file m)| |done|apply Hnode].
      subst m. simpl. apply first_append. by eapply full_wf. }
  exists (hist_lead i (currentTerm n) (G i ++ [e]) h), (G i ++ [e]). split.
  - eapply lstep_log; [done|by apply ext_append; [apply Hld|]|done| |done]. intros Hc.
    assert (state (persist m) = Leader) by exact Hs. congruence.
  - apply Forall_fmap, Forall_fmap, Forall_forall. intros p Hp.
    apply (lthread_dispatch members _ (upd i (G i ++ [e]) G) (<[i := persist m]> ns) vs i (persist m));
      [done|by eapply vinv_quiet|by rewrite lookup_insert_eq|done|done].
Qed.

Lemma lstep_candidate :
  currentTerm n + 1 < u64_size ->
  lstep members h G ns vs i (becomeCandidate n) h (G i) ({[(i, currentTerm (becomeCandidate n), i)]} ∪ vs).
Proof using All.
  intros Hb. pose proof (no_term _ _ _ (vi_node _ _ _ Hni i n Hn)).
  assert (HT : currentTerm (becomeCandidate n) = currentTerm n + 1) by (node_unfold; u64_lia).
  apply (lstep_same _ _ _ _ _ _ n); [done|apply union_subseteq_r|lia|left; lia|].
  by eapply lninv_candidate.
Qed.

Lemma lstep_win now :
  state n = Candidate -> has_quorum vs members i (currentTerm n) ->
  lstep members h G ns vs i (becomeLeader now n) (hist_lead i (currentTerm n) (G i) h) (G i) vs.
Proof using All.
  intros Hs Hq. destruct (becomeLeader_fields now n) as (F1 & _ & _ & _ & F5 & _).
  pose proof (ext_elect i (currentTerm n) (G i) h (win_fresh members h G ns vs i n Hinv Hni Hn Hs Hq)) as Hx.
  split; [done|done|by eapply lninv_win|]. intros j e.
  apply (lelection_update h _ G ns i n); [done|done|rewrite F5; lia|congruence].
Qed.

(** The log an election announces when it starts. *)
Lemma lelection_begin : lelection h G ns i (startElection_begin n).
Proof using All.
  pose proof (ln_full _ _ _ _ _ (li_node _ _ _ _ _ Hinv i n Hn)) as Hf.
  exists n. simpl. rewrite (full_lastIndex _ _ Hf), (full_lastTerm _ _ Hf). done.
Qed.

(** A vote request of election [e] of [cand] at node [i]. *)
Lemma lstep_vote_request now e cand :
  lelection h G ns cand e -> rv_Term (el_args e) = el_term e -> rv_CandidateID (el_args e) = cand ->
  rv_IsPreVote (el_args e) = false -> cand <> "" -> cand <> i ->
  let n' := (HandleRequestVote now n (el_args e)).1 in
  lstep members h G ns vs i n' h (G i) (record_vote (<[i := n']> ns) i (el_term e) cand vs).
Proof using All.
  intros He HT Hc Hp Hne Hci n'. subst n'.
  pose proof (lninv_request members h G ns vs i n Hinv Hni Hn now e cand He HT Hc Hp Hne Hci) as Hi.
  pose proof (vote_cases now n (el_args e) Hp) as Hcase.
  destruct (HandleRequestVote now n (el_args e)) as [n' r]. simpl in *.
  assert (Hvs : vs ⊆ record_vote (<[i := n']> ns) i (el_term e) cand vs).
  { unfold record_vote. rewrite lookup_insert_eq. case_decide; [apply union_subseteq_r|done]. }
  apply (lstep_same _ _ _ _ _ _ n); [done|done|..|done].
  - destruct Hcase as [[_ Hq]|[_ (-> & _ & ? & _)]]; [apply Hq|done].
  - intros Hs. destruct Hcase as [[_ Hq]|[_ (E1 & _ & E3 & E4 & E5 & _)]]; right.
    + destruct (quiet_state _ _ Hq) as [? ?]; [congruence|]. split; congruence.
    + rewrite E1. destruct (decide (currentTerm n = rv_Term (el_args e))) as [E|E].
      * destruct (E4 E). split; congruence.
      * rewrite E5 in Hs by lia. done.
Qed.
End lead.
