(* ===== verification/LogSafety.v ===== *)
(** * Log matching, leader completeness and state machine safety

    Every step of the cluster keeps the invariant of LogInvariant.v, in
    executions in which no member has voted for two candidates of one term, and
    no InstallSnapshot message met a conflicting entry at its index ([clean]).
    Findings.v shows how the code can leave both; the manifest says where.  The
    properties at the end are those of the Raft paper: log matching, leader
    completeness and state machine safety. *)

From S2P Require Import Prelude RaftLog Rpc Disk Node Election Replication ReplicationSafety Snapshot Client Transport Cluster ElectionSafety FullLog LogHistory LogInvariant LogSteps LogFollowers LogLeaders.

(** ** Clean executions *)

Section clean.
Context {W : Type} `{!Transport W}.

(** A step that stays within 64-bit indices and, if it delivers a snapshot,
    delivers one that does not contradict the follower's log. *)
Definition clean (c : Cluster W) (lbl : label) : bool :=
  match lbl with
  | LSubmit i _ =>
      match c_nodes c !! i with
      | Some n => log_lastIndex (rlog n) + 2 <? u64_size
      | None => true
      end
  | LSnapRequest tid _ =>
      match c_threads c !! tid with
      | Some (TSnapReq _ p _ args) =>
          match c_nodes c !! p with
          | Some n => bool_decide (clean_install n args)
          | None => true
          end
      | _ => true
      end
  | _ => true
  end.

Inductive clean_step : Cluster W -> Cluster W -> Prop :=
  | clean_exec lbl c c' : clean c lbl = true -> exec lbl c = Some c' -> clean_step c c'
  | clean_net w c : clean_step c (set_net w c).

Definition clean_reachable (members : list string) (c : Cluster W) : Prop :=
  exists w, rtc clean_step (initCluster w members) c.

Fixpoint clean_exec_all (ls : list label) (c : Cluster W) : option (Cluster W) :=
  match ls with
  | [] => Some c
  | l :: ls => if clean c l then c' ← exec l c; clean_exec_all ls c' else None
  end.

Lemma clean_exec_all_rtc ls c c' : clean_exec_all ls c = Some c' -> rtc clean_step c c'.
Proof.
  revert c. induction ls as [|l ls IH]; intros c; simpl; [intros [= ->]; done|].
  destruct (clean c l) eqn:Hc; [|done]. destruct (exec l c) as [c1|] eqn:He; simpl; [|done]. intros H.
  eapply rtc_l; [by eapply clean_exec|by apply IH].
Qed.

Lemma clean_reachable_reachable members c : clean_reachable members c -> reachable members c.
Proof.
  intros [w Hr]. exists w. induction Hr as [|c1 c2 c3 Hs Hr IH]; [done|]. eapply rtc_l; [|done].
  destruct Hs; [by eapply cstep_exec|apply cstep_net].
Qed.

(** Votes are never taken back. *)
Lemma exec_votes lbl c c' : exec lbl c = Some c' -> c_votes c ⊆ c_votes c'.
Proof.
  destruct lbl; simpl; intros He; repeat (case_match || (apply bind_Some in He as (? & ? & He))); simplify_eq/=;
    try done; [apply union_subseteq_r|].
  unfold record_vote. repeat case_match; done || apply union_subseteq_r.
Qed.

Lemma clean_votes c c' : rtc clean_step c c' -> c_votes c ⊆ c_votes c'.
Proof.
  induction 1 as [|c1 c2 c3 Hs Hr IH]; [done|]. etransitivity; [|exact IH]. destruct Hs; [by eapply exec_votes|done].
Qed.
End clean.

(** ** Goroutines *)

Lemma spawn_lookup l ts k t : spawn l ts !! k = Some t -> t ∈ l \/ ts !! k = Some t.
Proof.
  revert ts. induction l as [|x l IH]; intros ts; [by right|]. simpl. intros [?|Hs]%IH; [left; by right|].
  apply spawn1_lookup in Hs as [[_ ->]|]; [left; by left|by right].
Qed.

Lemma resume_lookup {Rep} tid (f : Rep -> Thread) r ts k t :
  resume tid f r ts !! k = Some t -> (exists reply, r = inl reply /\ t = f reply) \/ ts !! k = Some t.
Proof.
  destruct r as [reply|e]; simpl.
  - intros [[_ <-]|[_ ?]]%lookup_insert_Some; [left; by exists reply|by right].
  - intros [_ ?]%lookup_delete_Some. by right.
Qed.

(** ** The invariant of the cluster *)

Section cluster.
Context {W : Type} `{!Transport W} (members : list string).
Implicit Types c : Cluster W.

Record linv (c : Cluster W) (h : hist) (G : string -> list LogEntry) : Prop := {
  lv_nodes : lninv members h G (c_nodes c) (c_votes c);
  lv_threads : forall k t, c_threads c !! k = Some t -> lthread members h (c_votes c) t;
  lv_elections : forall eid i e, c_elections c !! eid = Some (i, e) -> lelection h G (c_nodes c) i e
}.

(** A step of one node, with the goroutines and elections it leaves. *)
Lemma linv_update c c' h G i n' h' g' :
  linv c h G -> lstep members h G (c_nodes c) (c_votes c) i n' h' g' (c_votes c') ->
  c_nodes c' = <[i := n']> (c_nodes c) ->
  (forall k t, c_threads c' !! k = Some t -> c_threads c !! k = Some t \/ lthread members h' (c_votes c') t) ->
  (forall eid j e', c_elections c' !! eid = Some (j, e') ->
     exists e, c_elections c !! eid = Some (j, e) /\ el_term e' = el_term e /\ el_args e' = el_args e) ->
  ext h h' /\ linv c' h' (upd i g' G).
Proof.
  intros [] [] Hn Ht He. split; [done|]. split; rewrite ?Hn; [done|..].
  - intros k t Hk. destruct (Ht k t Hk) as [Hk0|]; [|done]. eapply lthread_mono; [done|done|by eapply lv_threads0].
  - intros eid j e' Hk. destruct (He _ _ _ Hk) as (e & He0 & E1 & E2).
    pose proof (ls_elections j e (lv_elections0 _ _ _ He0)) as Hl. unfold lelection in *. by rewrite E1, E2.
Qed.

(** A step of no node. *)
Lemma linv_threads c c' h G :
  linv c h G -> c_nodes c' = c_nodes c -> c_votes c' = c_votes c ->
  (forall k t, c_threads c' !! k = Some t -> c_threads c !! k = Some t \/ lthread members h (c_votes c) t) ->
  (forall eid j e, c_elections c' !! eid = Some (j, e) ->
     c_elections c !! eid = Some (j, e) \/ lelection h G (c_nodes c) j e) ->
  ext h h /\ linv c' h G.
Proof.
  intros [] Hn Hv Ht He. split; [done|]. split; rewrite ?Hn, ?Hv; [done|..].
  - intros k t Hk. destruct (Ht k t Hk); eauto.
  - intros eid j e Hk. destruct (He _ _ _ Hk); eauto.
Qed.

Section steps.
Context (c : Cluster W) (h : hist) (G : string -> list LogEntry).
Context (Hc : cinv members c) (Hl : linv c h G) (Ho : votes_once (c_votes c)).

Lemma cluster_vinv : vinv members (c_nodes c) (c_votes c).
Proof using All. destruct Hc. by eapply ninv_vinv. Qed.

(** A call that runs a handler: the invariant after it, whether or not the reply
    arrives. *)
Lemma linv_rpc {Rep} (handler : RaftNode -> RaftNode * Rep) tid t (f : Rep -> Thread) addr res :
  c_threads c !! tid = Some t -> rpc_spec handler addr (c_nodes c) res ->
  (forall n, c_nodes c !! addr = Some n -> exists h' g',
     lstep members h G (c_nodes c) (c_votes c) addr (handler n).1 h' g' (c_votes c) /\
     lthread members h' (c_votes c) (f (handler n).2)) ->
  exists h' G', ext h h' /\ linv (set_threads (resume tid f res.2 (c_threads c)) (set_nodes res.1 c)) h' G'.
Proof using Hl.
  intros Htid Hspec Hstep. unfold rpc_spec in Hspec. destruct res as [ns' [reply|e]]; simpl in *.
  - destruct Hspec as (n & Hn & -> & ->). destruct (Hstep n Hn) as (h' & g' & Hs & Ht).
    exists h', (upd addr g' G). eapply linv_update; [done|done|done| |by eauto].
    simpl. intros k x [[_ <-]|[_ ?]]%lookup_insert_Some; auto.
  - destruct Hspec as [->|(n & Hn & ->)].
    + exists h, G. eapply linv_threads; [done|done|done| |by auto]. simpl. intros k x [_ ?]%lookup_delete_Some. by left.
    + destruct (Hstep n Hn) as (h' & g' & Hs & Ht). exists h', (upd addr g' G).
      eapply linv_update; [done|done|done| |by eauto]. simpl. intros k x [_ ?]%lookup_delete_Some. by left.
Qed.

(** A step of one node whose goroutine, if any, ends. *)
Lemma linv_node i n' ts h' g' :
  lstep members h G (c_nodes c) (c_votes c) i n' h' g' (c_votes c) ->
  (forall k t, ts !! k = Some t -> c_threads c !! k = Some t \/ lthread members h' (c_votes c) t) ->
  exists h' G', ext h h' /\ linv (set_threads ts (set_nodes (<[i := n']> (c_nodes c)) c)) h' G'.
Proof using Hl. intros Hs Ht. exists h', (upd i g' G). eapply linv_update; [done|done|done|done|by eauto]. Qed.

Lemma linv_spawn i n' gs h' g' :
  lstep members h G (c_nodes c) (c_votes c) i n' h' g' (c_votes c) ->
  Forall (lthread members h' (c_votes c)) (map (thread_of i) gs) ->
  exists h' G', ext h h' /\ linv (set_threads (spawn (map (thread_of i) gs) (c_threads c)) (set_nodes (<[i := n']> (c_nodes c)) c)) h' G'.
Proof using Hl.
  intros Hs Hg. eapply linv_node; [done|]. intros k t [Hin|]%spawn_lookup; [right|by left].
  by eapply Forall_forall in Hg.
Qed.

(** A goroutine of a pre-vote comes, goes on or ends. *)
Lemma linv_preVote ts :
  (forall k t, ts !! k = Some t -> c_threads c !! k = Some t \/ forall h vs, lthread members h vs t) ->
  exists h' G', ext h h' /\ linv (set_threads ts c) h' G'.
Proof using Hl.
  intros Hts. exists h, G. eapply linv_threads; [done|done|done| |by auto].
  intros k t Hk. destruct (Hts k t Hk); auto.
Qed.

Lemma linv_candidate tid i n :
  c_nodes c !! i = Some n -> currentTerm n + 1 < u64_size ->
  exists h' G', ext h h' /\ linv (set_votes ({[(i, currentTerm (becomeCandidate n), i)]} ∪ c_votes c)
         (set_threads (spawn [TElection i] (delete tid (c_threads c)))
           (set_nodes (<[i := becomeCandidate n]> (c_nodes c)) c))) h' G'.
Proof using All.
  intros Hn Hb. exists h, (upd i (G i) G). eapply linv_update; [done|..|done| |by eauto].
  - apply (lstep_candidate members h G (c_nodes c)); [apply Hl|apply cluster_vinv|done|done].
  - simpl. intros k t [[_ ->]|[_ ?]%lookup_delete_Some]%spawn1_lookup; [by right|by left].
Qed.

Lemma linv_elect tid i n :
  c_nodes c !! i = Some n ->
  let e := startElection_begin n in
  let eid := fresh (dom (c_elections c)) in
  exists h' G', ext h h' /\ linv (set_granted (<[eid := []]> (c_granted c))
         (set_elections (<[eid := (i, e)]> (c_elections c))
           (set_threads (spawn (map (TVoteReq i eid) (el_peers e)) (delete tid (c_threads c))) c))) h' G'.
Proof using All.
  intros Hn e eid. exists h, G. eapply linv_threads; [done|done|done|..]; simpl.
  - intros k t [Hin|[_ ?]%lookup_delete_Some]%spawn_lookup; [right|by left].
    by apply list_elem_of_fmap in Hin as (p & -> & _).
  - intros d j e' [[_ [= <- <-]]|[_ ?]]%lookup_insert_Some; [right|by left].
    apply (lelection_begin members h G (c_nodes c) (c_votes c)); [apply Hl|apply cluster_vinv|done].
Qed.

Lemma linv_request tid i eid peer o e now res :
  c_threads c !! tid = Some (TVoteReq i eid peer) -> c_elections c !! eid = Some (o, e) ->
  rpc_spec (λ n, HandleRequestVote now n (el_args e)) peer (c_nodes c) res ->
  exists h' G', ext h h' /\ linv (set_votes (record_vote res.1 peer (el_term e) i (c_votes c))
         (set_threads (resume tid (TVoteRep i eid peer) res.2 (c_threads c)) (set_nodes res.1 c))) h' G'.
Proof using All.
  intros Htid He Hspec. destruct Hc as [Hni Ht].
  destruct (ti_threads _ _ _ _ _ Ht _ _ Htid) as (e0 & g & He0 & _ & Hp & _).
  assert (o = i /\ e0 = e) as [-> ->] by (split; congruence). clear He0.
  destruct (ti_elections _ _ _ _ _ Ht _ _ _ He) as (g0 & _ & Hok).
  destruct (eo_args _ _ _ _ _ Hok) as (HT & Hcd & Hpv).
  destruct (eo_peers _ _ _ _ _ Hok) as (_ & Hself & _ & _ & Hne & _).
  assert (Hip : i <> peer) by (intros ->; done). pose proof (lv_elections _ _ _ Hl _ _ _ He) as Hel.
  assert (Hth : forall k t, resume tid (TVoteRep i eid peer) res.2 (c_threads c) !! k = Some t ->
    c_threads c !! k = Some t \/ forall h' vs, lthread members h' vs t).
  { intros k t [(r & _ & ->)|]%resume_lookup; [by right|by left]. }
  assert (Hcase : res.1 = c_nodes c \/
    exists n, c_nodes c !! peer = Some n /\ res.1 = <[peer := (HandleRequestVote now n (el_args e)).1]> (c_nodes c)).
  { unfold rpc_spec in Hspec. destruct (res.2); [right|done]. destruct Hspec as (n & ? & _ & ?). by exists n. }
  destruct Hcase as [->|(n & Hn & ->)].
  - exists h, G. eapply linv_threads; [done|done| | |by auto]; simpl.
    + destruct (c_nodes c !! peer) as [n|] eqn:Hn; [|unfold record_vote; by rewrite Hn].
      eapply record_vote_id; [apply Hl|apply cluster_vinv|done|done].
    + intros k t Hk. destruct (Hth k t Hk); auto.
  - exists h, (upd peer (G peer) G). eapply linv_update; [done| |done| |by eauto]; simpl.
    + eapply lstep_vote_request; [apply Hl|apply cluster_vinv|done..].
    + intros k t Hk. destruct (Hth k t Hk); auto.
Qed.

Lemma linv_reply tid i eid reply n o e now gr :
  c_nodes c !! i = Some n -> c_elections c !! eid = Some (o, e) ->
  let r := startElection_reply now e n reply in
  let c' := set_granted gr (set_elections (<[eid := (o, r.1)]> (c_elections c))
           (set_threads (delete tid (c_threads c)) (set_nodes (<[i := r.2]> (c_nodes c)) c))) in
  cinv members c' -> exists h' G', ext h h' /\ linv c' h' G'.
Proof using All.
  intros Hn He r c' [Hni' _]. pose proof cluster_vinv as Hv.
  assert (Hels : forall d j e', c_elections c' !! d = Some (j, e') ->
     exists e, c_elections c !! d = Some (j, e) /\ el_term e' = el_term e /\ el_args e' = el_args e).
  { subst c'. simpl. intros d j e' [[<- [= <- <-]]|[_ ?]]%lookup_insert_Some; [|by eauto]. exists e. split; [done|].
    subst r. unfold startElection_reply. by repeat case_match. }
  assert (Hths : forall h' k t, c_threads c' !! k = Some t -> c_threads c !! k = Some t \/ lthread members h' (c_votes c') t).
  { subst c'. simpl. intros h' k t [_ ?]%lookup_delete_Some. by left. }
  assert (Hs : exists h' g', lstep members h G (c_nodes c) (c_votes c) i r.2 h' g' (c_votes c)).
  { assert (Hwin : r.2 = becomeLeader now n -> has_quorum (c_votes c) members i (currentTerm n)).
    { intros Hr. destruct (becomeLeader_fields now n) as (F1 & _ & _ & _ & F5 & _). rewrite <- F5.
      apply (ni_leader _ _ _ _ Hni' i); [simpl; by rewrite Hr, lookup_insert_eq|done]. }
    clear Hels Hths Hni'. clear c'. revert Hwin. subst r. unfold startElection_reply. intros Hwin.
    destruct (rvr_Term reply >? currentTerm n) eqn:HTr; [|destruct (_ || _) eqn:Hs].
    - exists h, (G i). eapply lstep_quiet; [apply Hl|done|done|apply lquiet_becomeFollower|apply quiet_becomeFollower; lia].
    - exists h, (G i). eapply lstep_quiet; [apply Hl|done|done|done|done].
    - apply orb_false_iff in Hs as [Hs%negb_false_iff%NodeState_eqb_true _].
      repeat case_match; simpl in *; try (exists h, (G i); eapply lstep_quiet; [apply Hl|done|done|done|done]).
      eexists _, _. eapply lstep_win; [apply Hl|done|done|done|by apply Hwin]. }
  destruct Hs as (h' & g' & Hs). exists h', (upd i g' G).
  eapply (linv_update c c'); [done|exact Hs|done|apply Hths|exact Hels].
Qed.

Lemma linv_append_request tid i p T args now expired :
  c_threads c !! tid = Some (TAppendReq i p T args) ->
  let res := tr_AppendEntries (c_net c) i p expired now args (c_nodes c) in
  exists h' G', ext h h' /\ linv (set_threads (resume tid (TAppendRep i p T args) res.2 (c_threads c)) (set_nodes res.1 c)) h' G'.
Proof using All.
  intros Ht res. destruct (lv_threads _ _ _ Hl _ _ Ht) as [Hsend Hok].
  eapply linv_rpc; [done|apply tr_AppendEntries_spec|]. intros n Hn. simpl.
  destruct (lstep_append_request members h G _ _ p i n T now args (lv_nodes _ _ _ Hl) cluster_vinv Hn Hsend Hok)
    as (h' & g' & Hs & Hci & Hsucc).
  exists h', g'. split; [done|]. split; [done|]. split; [eapply ae_ok_mono; [apply Hs|done]|done].
Qed.

Lemma linv_install_request tid i p T args expired :
  c_threads c !! tid = Some (TSnapReq i p T args) -> clean c (LSnapRequest tid expired) = true ->
  let res := tr_InstallSnapshot (c_net c) i p expired args (c_nodes c) in
  exists h' G', ext h h' /\ linv (set_threads (resume tid (TSnapRep i p T args) res.2 (c_threads c)) (set_nodes res.1 c)) h' G'.
Proof using All.
  intros Ht Hclean res. destruct (lv_threads _ _ _ Hl _ _ Ht) as [Hsend Hok].
  eapply linv_rpc; [done|apply tr_InstallSnapshot_spec|]. intros n Hn. simpl.
  simpl in Hclean. rewrite Ht, Hn in Hclean. apply bool_decide_eq_true in Hclean.
  destruct (lstep_install_request members h G _ _ p i n T args (lv_nodes _ _ _ Hl) cluster_vinv Hn Hsend Hok Hclean)
    as (h' & g' & Hs & Hack).
  exists h', g'. split; [done|]. split; [done|]. split; [eapply sn_ok_mono; [apply Hs|done]|done].
Qed.

(** Taking a snapshot, applying an entry, restarting: the log as a list stays. *)
Lemma linv_local i n n' ts :
  c_nodes c !! i = Some n -> quiet n n' ->
  (lnode members h (G i) i n -> node_ok members i n -> lnode members h (G i) i n') ->
  (forall k t, ts !! k = Some t -> c_threads c !! k = Some t) ->
  exists h' G', ext h h' /\ linv (set_threads ts (set_nodes (<[i := n']> (c_nodes c)) c)) h' G'.
Proof using All.
  intros Hn Hq Hnode Hts. eapply linv_node; [|by auto]. pose proof cluster_vinv as Hv.
  eapply lstep_node; [apply Hl|done|done|done|]. apply Hnode; [by apply Hl|by apply Hv].
Qed.

Lemma linv_exec lbl c' :
  clean c lbl = true -> exec lbl c = Some c' -> cinv members c' -> exists h' G', ext h h' /\ linv c' h' G'.
Proof using All.
  intros Hclean He Hc'. pose proof cluster_vinv as Hv. pose proof (lv_nodes _ _ _ Hl) as Hli.
  destruct lbl; simpl in He.
  - destruct (c_nodes c !! i) as [n|]; simpl in He; [|done]. destruct (electionEligible n); [|done]. simplify_eq.
    apply linv_preVote. intros k t [[_ ->]|?]%spawn1_lookup; [by right|by left].
  - destruct (c_threads c !! tid) as [[]|]; try done. destruct (c_nodes c !! i) as [n|]; simpl in He; [|done]. simplify_eq.
    apply linv_preVote. intros k t [[_ <-]|[_ ?]]%lookup_insert_Some; [by right|by left].
  - destruct (c_threads c !! tid) as [[]|]; try done. case_guard; simpl in He; [|done].
    pose proof (preVote_call (c_net c) i peer expired now n0 (c_nodes c)) as Hs.
    destruct (tr_RequestVote _ _ _ _ _ _ _) as [ns r]. simpl in Hs. subst ns. simplify_eq.
    apply linv_preVote. intros k t [[_ <-]|[_ ?]]%lookup_insert_Some; [by right|by left].
  - destruct (c_threads c !! tid) as [[]|]; try done. case_guard; simpl in He; [|done].
    destruct (c_nodes c !! i) as [n|] eqn:Hn; simpl in He; [|done]. unfold afterPreVote in He. destruct (_ && _).
    + case_guard; simpl in He; [|done]. simplify_eq. by apply linv_candidate.
    + simplify_eq. apply linv_preVote. intros k t [_ ?]%lookup_delete_Some. by left.
  - destruct (c_threads c !! tid) as [[]|]; try done. destruct (c_nodes c !! i) as [n|] eqn:Hn; simpl in He; [|done].
    simplify_eq. by apply linv_elect.
  - destruct (c_threads c !! tid) as [[]|] eqn:Ht; try done.
    destruct (c_elections c !! eid) as [[o e]|] eqn:Hel; simpl in He; [|done].
    pose proof (tr_RequestVote_spec (c_net c) i peer expired now (el_args e) (c_nodes c)) as Hs.
    destruct (tr_RequestVote _ _ _ _ _ _ _) as [ns r]. simplify_eq. by apply (linv_request tid i eid peer o e now (ns, r)).
  - destruct (c_threads c !! tid) as [[]|] eqn:Ht; try done. destruct (c_nodes c !! i) as [n|] eqn:Hn; simpl in He; [|done].
    destruct (c_elections c !! eid) as [[o e]|] eqn:Hel; simpl in He; [|done].
    destruct (c_granted c !! eid) as [g|] eqn:Hg; simpl in He; [|done].
    pose proof (linv_reply tid i eid reply n o e now) as Hr. cbv zeta in Hr.
    destruct (startElection_reply now e n reply) as [e' n']. simplify_eq. by apply Hr.
  - destruct (c_nodes c !! i) as [n|] eqn:Hn; simpl in He; [|done].
    destruct (lstep_tick members h G _ _ i n Hli Hv Hn now) as [Hs Hg].
    destruct (heartbeatTick now n) as [n' gs]. simplify_eq. destruct (linv_spawn i n' gs h (G i) Hs Hg) as (h' & G' & Hx & []).
    exists h', G'. split; [done|by split].
  - destruct (c_nodes c !! i) as [n|] eqn:Hn; simpl in He; [|done]. simpl in Hclean. rewrite Hn in Hclean.
    destruct (lstep_submit members h G _ _ i n Hli Hv Hn command) as (h' & g' & Hs & Hg); [lia|].
    destruct (Submit n command) as [[n' r] gs]. simplify_eq. by eapply linv_spawn.
  - destruct (c_threads c !! tid) as [[]|] eqn:Ht; try done.
    pose proof (linv_append_request tid i peer term args now expired Ht) as Hr. cbv zeta in Hr.
    destruct (tr_AppendEntries _ _ _ _ _ _ _) as [ns r]. by simplify_eq.
  - destruct (c_threads c !! tid) as [[]|] eqn:Ht; try done. destruct (c_nodes c !! i) as [n|] eqn:Hn; simpl in He; [|done].
    simplify_eq. eapply linv_node; [eapply lstep_append_reply; [done..|by apply (lv_threads _ _ _ Hl _ _ Ht)]|].
    intros k t [_ ?]%lookup_delete_Some. by left.
  - destruct (c_threads c !! tid) as [[]|] eqn:Ht; try done.
    pose proof (linv_install_request tid i peer term args expired Ht Hclean) as Hr. cbv zeta in Hr.
    destruct (tr_InstallSnapshot _ _ _ _ _ _) as [ns r]. by simplify_eq.
  - destruct (c_threads c !! tid) as [[]|] eqn:Ht; try done. destruct (c_nodes c !! i) as [n|] eqn:Hn; simpl in He; [|done].
    simplify_eq. eapply linv_node; [eapply lstep_install_reply; [done..|by apply (lv_threads _ _ _ Hl _ _ Ht)]|].
    intros k t [_ ?]%lookup_delete_Some. by left.
  - destruct (c_nodes c !! i) as [n|] eqn:Hn; simpl in He; [|done]. simplify_eq.
    apply (linv_local i n _ (c_threads c)); [done|apply quiet_TakeSnapshot| |done]. intros Hnode Hok.
    apply lnode_TakeSnapshot; [done|]. by destruct (no_disk _ _ _ Hok).
  - destruct (c_nodes c !! i) as [n|] eqn:Hn; simpl in He; [|done]. case_match eqn:Hb; [|done]. simplify_eq.
    apply andb_true_iff in Hb as [Hb _].
    apply (linv_local i n _ (c_threads c)); [done|quiet_frame| |done]. intros Hnode Hok.
    apply lnode_apply; [done|by destruct (no_disk _ _ _ Hok)|lia].
  - destruct (c_nodes c !! i) as [n|] eqn:Hn; simpl in He; [|done]. destruct (snapshotNotifyC n); simpl in He; [|done]. simplify_eq.
    apply (linv_local i n _ (c_threads c)); [done|quiet_frame| |done]. intros Hnode Hok. by apply lnode_restore.
  - destruct (c_nodes c !! i) as [n|] eqn:Hn; simpl in He; [|done]. simplify_eq.
    pose proof (vi_node _ _ _ Hv i n Hn) as Hok. destruct (no_cfg _ _ _ Hok), (no_disk _ _ _ Hok).
    assert (Hq : quiet n (boot (config n) (disk n)).1).
    { apply quiet_boot; try done. by rewrite (no_id _ _ _ Hok). }
    apply (linv_local i n); [done|done|..].
    + intros Hnode _. apply lnode_boot; [done|done|apply Hq].
    + intros k t [? _]%map_lookup_filter_Some. done.
Qed.
End steps.

Lemma linv_init (w : W) : linv (initCluster w members) (mkHist ∅ ∅) (λ _, []).
Proof using.
  split; simpl; [|intros; set_solver..]. split; simpl.
  - intros T l. simpl. by intros ?%lookup_empty_Some.
  - by intros T l ?%lookup_empty_Some.
  - intros i n [? ->]%initNodes_lookup. split; try done.
    + by left.
    + by right.
  - set_solver.
  - by intros i n [? ->]%initNodes_lookup.
  - by intros i n [? ->]%initNodes_lookup.
  - set_solver.
Qed.

(** Along an execution the history only grows. *)
Lemma linv_rtc c c' h G :
  rtc clean_step c c' -> cinv members c -> linv c h G -> votes_once (c_votes c') ->
  exists h' G', ext h h' /\ linv c' h' G'.
Proof using.
  intros Hr. revert h G. induction Hr as [|c1 c2 c3 Hs Hr IH]; intros h G Hc1 Hl Ho; [by exists h, G|].
  assert (Hvs : c_votes c1 ⊆ c_votes c3) by (apply clean_votes; by eapply rtc_l).
  assert (Ho1 : votes_once (c_votes c1)) by (intros v T d1 d2 H1 H2; eapply Ho; eauto).
  destruct Hs as [lbl c1' c2' Hclean He|w c1'].
  - pose proof (cinv_exec _ _ _ _ Hc1 He) as Hc2.
    destruct (linv_exec c1' h G Hc1 Hl Ho1 lbl c2' Hclean He Hc2) as (h2 & G2 & Hx & Hl2).
    destruct (IH h2 G2 Hc2 Hl2 Ho) as (h3 & G3 & Hx' & Hl3). exists h3, G3. split; [by etransitivity|done].
  - apply (IH h G); [done| |done]. by destruct Hl.
Qed.

Lemma linv_reachable c :
  NoDup members -> "" ∉ members -> clean_reachable members c -> votes_once (c_votes c) -> exists h G, linv c h G.
Proof using.
  intros Hnd Hne [w Hr] Ho.
  destruct (linv_rtc _ _ _ _ Hr (cinv_init w members Hnd Hne) (linv_init w) Ho) as (h & G & _ & Hl). by exists h, G.
Qed.

(** Two states of one execution have one history. *)
Lemma linv_pair c c' :
  NoDup members -> "" ∉ members -> clean_reachable members c -> rtc clean_step c c' -> votes_once (c_votes c') ->
  exists h h' G G', ext h h' /\ linv c h G /\ linv c' h' G'.
Proof using.
  intros Hnd Hne Hr Hs Ho. pose proof (clean_votes _ _ Hs) as Hvs.
  assert (Ho1 : votes_once (c_votes c)) by (intros v T d1 d2 H1 H2; eapply Ho; eauto).
  destruct (linv_reachable c Hnd Hne Hr Ho1) as (h & G & Hl).
  pose proof (cinv_reachable members c Hnd Hne (clean_reachable_reachable _ _ Hr)) as Hc.
  destruct (linv_rtc _ _ _ _ Hs Hc Hl Ho) as (h' & G' & Hx & Hl'). by exists h, h', G, G'.
Qed.

(** Without step-downs for want of a quorum nobody votes twice. *)
Lemma no_abdication_once c :
  NoDup members -> "" ∉ members -> clean_reachable members c -> c_abdicated c = ∅ -> votes_once (c_votes c).
Proof using.
  intros Hnd Hne Hr Hab v T d1 d2 H1 H2.
  destruct (cinv_reachable members c Hnd Hne (clean_reachable_reachable _ _ Hr)) as [Hinv _].
  destruct (ni_once _ _ _ _ Hinv _ _ _ _ H1 H2) as [|[Hin _]]; [done|]. rewrite Hab in Hin. set_solver.
Qed.
End cluster.

(** ** Properties *)

Lemma take_lookup_eq {A} (g1 g2 : list A) k j : take k g1 = take k g2 -> (j < k)%nat -> g1 !! j = g2 !! j.
Proof. intros Ht Hj. rewrite <- (lookup_take_lt g1 k), <- (lookup_take_lt g2 k) by done. by rewrite Ht. Qed.

(** What two logs hold above both boundaries is what the lists hold. *)
Lemma full_above l g k : full l g -> log_snapshotIndex l < k -> log_view l !! k = g !! (Z.to_nat k - 1)%nat.
Proof.
  intros Hf Hk. pose proof (fu_snap _ _ Hf). rewrite <- (full_lookup _ _ Hf) by lia. f_equal. lia.
Qed.

Lemma full_agree l1 g1 l2 g2 m k :
  full l1 g1 -> full l2 g2 -> take m g1 = take m g2 -> k <= Z.of_nat m ->
  log_snapshotIndex l1 < k -> log_snapshotIndex l2 < k -> log_view l1 !! k = log_view l2 !! k.
Proof.
  intros F1 F2 Ht Hk H1 H2. pose proof (fu_snap _ _ F1). rewrite (full_above _ g1), (full_above _ g2) by done.
  eapply take_lookup_eq; [done|lia].
Qed.

Lemma full_present l g k : full l g -> log_snapshotIndex l < k <= lenZ g -> is_Some (log_view l !! k).
Proof. intros Hf Hk. apply view_is_Some; [by eapply full_wf|]. rewrite (full_lastIndex _ _ Hf). lia. Qed.

Section properties.
Context {W : Type} `{!Transport W} (members : list string) (c c' : Cluster W).
Context (Hnd : NoDup members) (Hne : "" ∉ members) (Hr : clean_reachable members c).
Context (Hs : rtc clean_step c c') (Ho : votes_once (c_votes c')).

(** The committed prefix of a node of [c], seen from [c']. *)
Lemma committed_later i n :
  c_nodes c !! i = Some n -> exists h' G' g, linv members c' h' G' /\ full (rlog n) g /\
    committed h' members (Z.to_nat (commitIndex n)) g (currentTerm n) /\
    log_snapshotIndex (rlog n) <= lastApplied n <= commitIndex n /\ commitIndex n <= lenZ g.
Proof using All.
  intros Hn. destruct (linv_pair members c c' Hnd Hne Hr Hs Ho) as (h & h' & G & G' & Hx & Hl & Hl').
  pose proof (li_node _ _ _ _ _ (lv_nodes _ _ _ _ Hl) i n Hn) as []. exists h', G', (G i).
  pose proof (committed_length _ _ _ _ _ ln_commit). pose proof (fu_snap _ _ ln_full). unfold lenZ in *.
  split_and!; try done; try lia. eapply committed_mono; [done|done|done|done|done].
Qed.
End properties.

(** "a" wins term 1, replicates a command to "b", commits it and tells "b", which
    applies it; then "b" wins term 2. *)
Definition exCommitted : list label :=
  exElection ++ [LSubmit "a" [Byte.x41]; LAppendRequest 2 false (exTime 7); LAppendReply 2 (exTime 8); LTick "a" (exTime 9);
    LAppendRequest 4 false (exTime 10); LApply "b"].

(** The next election, a second later. *)
Definition exSecond : list label :=
  exPreVote "b" "c" 6 (exTime 1000000000) ++
  [LElection 6; LVoteRequest 6 false (exTime 1000000010); LVoteReply 6 (exTime 1000000011)].

(** What the script left on a member: its state, term, boundary and commit index,
    and its first entry. *)
Definition summary (n : RaftNode) : NodeState * Z * Z * Z * option LogEntry :=
  (state n, currentTerm n, log_snapshotIndex (rlog n), commitIndex n, log_view (rlog n) !! 1).

Definition exFirst : option LogEntry := Some (mkLogEntry 1 1 [Byte.x41] false "" "").

Lemma exLog_run : exists c c' a b b',
  clean_reachable exMembers c /\ rtc clean_step c c' /\ votes_once (c_votes c) /\ votes_once (c_votes c') /\
  c_nodes c !! "a" = Some a /\ c_nodes c !! "b" = Some b /\ c_nodes c' !! "b" = Some b' /\
  summary a = (Leader, 1, 0, 1, exFirst) /\ summary b = (Follower, 1, 0, 1, exFirst) /\ summary b' = (Leader, 2, 0, 1, exFirst).
Proof.
  assert (Hrun : match clean_exec_all exCommitted (initCluster exNet exMembers) with
    | Some c => match clean_exec_all exSecond c with
      | Some c' => bool_decide (c_abdicated c = ∅ /\ c_abdicated c' = ∅ /\
          (summary <$> c_nodes c !! "a") = Some (Leader, 1, 0, 1, exFirst) /\
          (summary <$> c_nodes c !! "b") = Some (Follower, 1, 0, 1, exFirst) /\
          (summary <$> c_nodes c' !! "b") = Some (Leader, 2, 0, 1, exFirst))
      | None => false
      end
    | None => false
    end = true) by (vm_compute; reflexivity).
  destruct (clean_exec_all exCommitted _) as [c|] eqn:Hc; [|done].
  destruct (clean_exec_all exSecond c) as [c'|] eqn:Hc'; [|done].
  apply bool_decide_eq_true in Hrun as (Hab & Hab' & (a & Ha & Hsa)%fmap_Some & (b & Hb & Hsb)%fmap_Some & (b' & Hb' & Hsb')%fmap_Some).
  apply clean_exec_all_rtc in Hc, Hc'. destruct exMembers_ok as [H1 H2].
  assert (Hr : clean_reachable exMembers c) by by exists exNet.
  assert (Hr' : clean_reachable exMembers c') by (exists exNet; by transitivity c).
  exists c, c', a, b, b'. split_and!; try done; by eapply no_abdication_once.
Qed.

(** C2. Log matching: in every state reached by clean steps in which nobody has
    voted twice in a term, two members whose logs have entries of the same term
    at one index have the same entries, commands included, at every lower index
    that neither has compacted. *)
Theorem logs_match {W : Type} `{!Transport W} (members : list string) (c : Cluster W)
    (i j : string) (n m : RaftNode) (k k' : Z) (e f : LogEntry) :
  NoDup members -> "" ∉ members -> clean_reachable members c -> votes_once (c_votes c) ->
  c_nodes c !! i = Some n -> c_nodes c !! j = Some m ->
  0 < k -> log_view (rlog n) !! k = Some e -> log_view (rlog m) !! k = Some f -> le_Term e = le_Term f ->
  k' <= k -> log_snapshotIndex (rlog n) < k' -> log_snapshotIndex (rlog m) < k' ->
  log_view (rlog n) !! k' = log_view (rlog m) !! k'.
Proof.
  intros Hnd Hne Hr Ho Hn Hm Hk He Hf Ht Hk' H1 H2.
  destruct (linv_reachable members c Hnd Hne Hr Ho) as (h & G & Hl). pose proof (lv_nodes _ _ _ _ Hl) as Hinv.
  pose proof (li_node _ _ _ _ _ Hinv i n Hn) as Hnn. pose proof (li_node _ _ _ _ _ Hinv j m Hm) as Hmm.
  pose proof (ln_full _ _ _ _ _ Hnn) as Fn. pose proof (ln_full _ _ _ _ _ Hmm) as Fm.
  destruct (full_view_term _ _ Fn _ _ He) as (Rn & _ & Tn). destruct (full_view_term _ _ Fm _ _ Hf) as (_ & _ & Tm).
  eapply (full_agree _ (G i) _ (G j) (Z.to_nat k)); [done|done| |lia|done|done].
  unfold lenZ in *. destruct (gterm_ok (G i) (Z.to_nat k) (fu_terms _ _ Fn)) as [E1 E2]; [lia|]. unfold entry_ok in E1.
  eapply log_matching_gterm; [apply Hnn|apply Hmm|congruence|lia].
Qed.

Lemma logs_match_witness : exists (c : Cluster MemoryNetwork) a b e,
  c_nodes c !! "a" = Some a /\ c_nodes c !! "b" = Some b /\
  log_view (rlog a) !! 1 = Some e /\ log_view (rlog a) !! 1 = log_view (rlog b) !! 1.
Proof.
  destruct exLog_run as (c & c' & a & b & b' & Hr & Hs & Ho & Ho' & Ha & Hb & Hb' & Sa & Sb & Sb').
  destruct exMembers_ok as [H1 H2]. injection Sa as _ _ Sa1 Sa2 He. injection Sb as _ _ Sb1 Sb2 Hf.
  eexists c, a, b, _. split; [exact Ha|]. split; [exact Hb|]. split; [exact He|].
  exact (logs_match exMembers c "a" "b" a b 1 1 _ _ H1 H2 Hr Ho Ha Hb ltac:(lia) He Hf eq_refl ltac:(lia) ltac:(lia) ltac:(lia)).
Defined.

(** C3. Leader completeness: along a clean execution in which nobody votes twice in
    a term, what a member has committed in some state is, in every later state,
    in the log of each leader whose term is at least that member's: with the same
    entry, unless the leader has already compacted it.  (Findings.v shows that the
    code can leave both conditions.) *)
Theorem leaders_complete {W : Type} `{!Transport W} (members : list string) (c c' : Cluster W)
    (i j : string) (n m : RaftNode) (k : Z) :
  NoDup members -> "" ∉ members -> clean_reachable members c -> rtc clean_step c c' -> votes_once (c_votes c') ->
  c_nodes c !! i = Some n -> c_nodes c' !! j = Some m -> state m = Leader -> currentTerm n <= currentTerm m ->
  log_snapshotIndex (rlog n) < k <= commitIndex n ->
  k <= log_lastIndex (rlog m) /\
  exists e, log_view (rlog n) !! k = Some e /\
    (log_snapshotIndex (rlog m) < k -> log_view (rlog m) !! k = Some e).
Proof.
  intros Hnd Hne Hr Hs Ho Hn Hm Hlead HT Hk.
  destruct (committed_later members c c' Hnd Hne Hr Hs Ho i n Hn) as (h & G & g & Hl & Fn & Hc & Hrg & Hlen).
  pose proof (lv_nodes _ _ _ _ Hl) as Hinv. pose proof (li_node _ _ _ _ _ Hinv j m Hm) as Hmm.
  pose proof (ln_full _ _ _ _ _ Hmm) as Fm. pose proof (ld_log _ _ _ _ (ln_leader _ _ _ _ _ Hmm Hlead)) as Hg.
  destruct (committed_leader h members _ (li_hist _ _ _ _ _ Hinv) (lninv_elections _ _ _ _ _ Hinv)
    _ _ _ _ _ Hc HT Hg) as [Hkg Hpre].
  pose proof (prefix_length _ _ Hpre) as Hpl. rewrite length_take in Hpl. unfold lenZ in *.
  pose proof (fu_snap _ _ Fn). rewrite (full_lastIndex _ _ Fm). unfold lenZ. split; [lia|].
  destruct (full_present _ _ k Fn) as [e He]; [unfold lenZ; lia|]. exists e. split; [done|]. intros Hsm. rewrite <- He.
  symmetry. eapply (full_agree _ g _ (G j) (Z.to_nat (commitIndex n))); [done|done| |lia|lia|done].
  rewrite <- (prefix_take_eq _ _ _ Hpre) by (rewrite length_take; lia). by rewrite take_take, Nat.min_id.
Qed.

Lemma leaders_complete_witness : exists (c c' : Cluster MemoryNetwork) a b',
  c_nodes c !! "a" = Some a /\ c_nodes c' !! "b" = Some b' /\ state b' = Leader /\
  exists e, log_view (rlog a) !! 1 = Some e /\ log_view (rlog b') !! 1 = Some e.
Proof.
  destruct exLog_run as (c & c' & a & b & b' & Hr & Hs & Ho & Ho' & Ha & Hb & Hb' & Sa & Sb & Sb').
  destruct exMembers_ok as [H1 H2]. injection Sa as _ Sa0 Sa1 Sa2 _. injection Sb' as Sb0 Sb1 Sb2 Sb3 _.
  exists c, c', a, b'. split; [exact Ha|]. split; [exact Hb'|]. split; [exact Sb0|].
  destruct (leaders_complete exMembers c c' "a" "b" a b' 1 H1 H2 Hr Hs Ho' Ha Hb' Sb0 ltac:(lia) ltac:(lia)) as (_ & e & He & Hf).
  exists e. split; [exact He|]. apply Hf. lia.
Defined.

(** C1. State machine safety: whatever two members have committed, in one state
    or in two states of a clean execution in which nobody votes twice in a term,
    agrees entry by entry wherever both still hold it, and a snapshot's term is the term the other has at its index.
    Members apply only committed entries, so no two ever apply different
    commands at one index, and no member ever changes one it has committed. *)
Theorem state_machine_safety {W : Type} `{!Transport W} (members : list string) (c c' : Cluster W)
    (i j : string) (n m : RaftNode) :
  NoDup members -> "" ∉ members -> clean_reachable members c -> rtc clean_step c c' -> votes_once (c_votes c') ->
  c_nodes c !! i = Some n -> c_nodes c' !! j = Some m ->
  lastApplied n <= commitIndex n /\ lastApplied m <= commitIndex m /\
  (forall k, log_snapshotIndex (rlog n) < k <= commitIndex n -> log_snapshotIndex (rlog m) < k <= commitIndex m ->
     exists e, log_view (rlog n) !! k = Some e /\ log_view (rlog m) !! k = Some e) /\
  (log_snapshotIndex (rlog m) <= log_snapshotIndex (rlog n) <= commitIndex m ->
     log_snapshotTerm (rlog n) = le_Term (log_get (rlog m) (log_snapshotIndex (rlog n)))).
Proof.
  intros Hnd Hne Hr Hs Ho Hn Hm.
  destruct (committed_later members c c' Hnd Hne Hr Hs Ho i n Hn) as (h & G & g & Hl & Fn & Hc & Hrg & Hlen).
  pose proof (lv_nodes _ _ _ _ Hl) as Hinv. pose proof (li_node _ _ _ _ _ Hinv j m Hm) as Hmm.
  pose proof (ln_full _ _ _ _ _ Hmm) as Fm. pose proof (ln_range _ _ _ _ _ Hmm). pose proof (fu_snap _ _ Fn).
  assert (Hag : forall k, k <= commitIndex n -> k <= commitIndex m -> take (Z.to_nat k) g = take (Z.to_nat k) (G j)).
  { intros k Hkn Hkm. eapply (committed_agree h members _ (li_hist _ _ _ _ _ Hinv) (lninv_elections _ _ _ _ _ Hinv));
      [exact Hc|apply Hmm|lia|lia]. }
  split_and!; [lia|lia|..].
  - intros k Hkn Hkm. destruct (full_present _ _ k Fn) as [e He]; [lia|]. exists e. split; [done|]. rewrite <- He.
    symmetry. eapply (full_agree _ g _ (G j) (Z.to_nat k)); [done|done|apply Hag; lia|lia|lia|lia].
  - intros Hk. pose proof (committed_length _ _ _ _ _ (ln_commit _ _ _ _ _ Hmm)) as Hcl.
    rewrite (full_get_term _ _ Fm) by (unfold lenZ; lia). rewrite (fu_term _ _ Fn).
    rewrite <- (gterm_take g _ (Z.to_nat (log_snapshotIndex (rlog n)))) by done.
    rewrite Hag by lia. by rewrite gterm_take.
Qed.

Lemma state_machine_safety_witness : exists (c c' : Cluster MemoryNetwork) a b',
  c_nodes c !! "a" = Some a /\ c_nodes c' !! "b" = Some b' /\
  exists e, log_view (rlog a) !! 1 = Some e /\ log_view (rlog b') !! 1 = Some e.
Proof.
  destruct exLog_run as (c & c' & a & b & b' & Hr & Hs & Ho & Ho' & Ha & Hb & Hb' & Sa & Sb & Sb').
  destruct exMembers_ok as [H1 H2]. injection Sa as _ Sa0 Sa1 Sa2 _. injection Sb' as Sb0 Sb1 Sb2 Sb3 _.
  exists c, c', a, b'. split; [exact Ha|]. split; [exact Hb'|].
  destruct (state_machine_safety exMembers c c' "a" "b" a b' H1 H2 Hr Hs Ho' Ha Hb') as (_ & _ & Hag & _).
  apply Hag; lia.
Defined.
