(* ===== verification/Consensus.v ===== *)
(** * The cluster as one append-only log

    What Raft promises to the outside, as an abstract specification: there is one
    sequence of entries, to which entries are only ever added, and every member
    shows a part of it.  The detailed model of the nodes, their goroutines and
    the network refines it, along every execution of clean steps in which nobody
    votes twice in a term. *)

From S2P Require Import Prelude RaftLog Rpc Disk Node Election Replication Snapshot Client Transport Cluster ElectionSafety FullLog LogHistory LogInvariant LogSteps LogFollowers LogLeaders LogSafety.

(** ** The specification *)

(** One transition: an entry is decided. *)
Inductive decide_step : list LogEntry -> list LogEntry -> Prop :=
  | decide_entry L e : decide_step L (L ++ [e]).

(** What a node shows of the sequence: its committed entries above its boundary
    are those of the sequence, and its boundary carries the term of the sequence
    there. *)
Record node_shows (L : list LogEntry) (n : RaftNode) : Prop := {
  ns_range : log_snapshotIndex (rlog n) <= lastApplied n <= commitIndex n;
  ns_known : commitIndex n <= log_lastIndex (rlog n) /\ commitIndex n <= lenZ L;
  ns_entries : forall k, log_snapshotIndex (rlog n) < k <= commitIndex n ->
    log_view (rlog n) !! k = L !! (Z.to_nat k - 1)%nat;
  ns_boundary : 0 < log_snapshotIndex (rlog n) ->
    exists e, L !! (Z.to_nat (log_snapshotIndex (rlog n)) - 1)%nat = Some e /\ le_Term e = log_snapshotTerm (rlog n)
}.

Definition shows {W} (L : list LogEntry) (c : Cluster W) : Prop :=
  forall i n, c_nodes c !! i = Some n -> node_shows L n.

(** Nothing is in the sequence that no member has committed. *)
Definition decided_by {W} (L : list LogEntry) (c : Cluster W) : Prop :=
  L = [] \/ exists i n, c_nodes c !! i = Some n /\ commitIndex n = lenZ L.

(** ** The refinement *)

Lemma prefix_decides L L' : L `prefix_of` L' -> rtc decide_step L L'.
Proof.
  intros [k ->]. revert L. induction k as [|e k IH]; intros L; [by rewrite app_nil_r|].
  eapply rtc_l; [apply (decide_entry L e)|]. replace (L ++ e :: k) with ((L ++ [e]) ++ k) by (by rewrite <- app_assoc). apply IH.
Qed.

Section refinement.
Context (h : hist) (members : list string) (vs : gset (string * Z * string)).
Context (Hh : hist_ok h) (He : elections_ok h members vs).

(** A list all of which was committed shows through every node that knows no
    more. *)
Lemma committed_shows k L T g n :
  committed h members k L T -> full (rlog n) g -> log_snapshotIndex (rlog n) <= lastApplied n <= commitIndex n ->
  committed h members (Z.to_nat (commitIndex n)) g (currentTerm n) -> commitIndex n <= Z.of_nat k ->
  node_shows (take k L) n.
Proof using Hh He.
  intros HL Hf Hr Hc Hk. pose proof (committed_length _ _ _ _ _ HL). pose proof (committed_length _ _ _ _ _ Hc).
  pose proof (fu_snap _ _ Hf).
  assert (Hag : take (Z.to_nat (commitIndex n)) g = take (Z.to_nat (commitIndex n)) L).
  { eapply (committed_agree h members vs Hh He); [exact Hc|exact HL|lia|lia]. }
  assert (Hlk : forall j, 0 < j <= commitIndex n -> take k L !! (Z.to_nat j - 1)%nat = g !! (Z.to_nat j - 1)%nat).
  { intros j Hj. rewrite lookup_take_lt by lia. symmetry. eapply take_lookup_eq; [exact Hag|lia]. }
  split.
  - done.
  - rewrite (full_lastIndex _ _ Hf). unfold lenZ. rewrite length_take. lia.
  - intros j Hj. rewrite Hlk by lia. apply full_above; [done|lia].
  - intros Hp. rewrite Hlk by lia. rewrite (fu_term _ _ Hf).
    destruct (lookup_lt_is_Some_2 g (Z.to_nat (log_snapshotIndex (rlog n)) - 1)) as [e He']; [unfold lenZ in *; lia|].
    exists e. split; [done|]. unfold gterm. destruct (Z.to_nat (log_snapshotIndex (rlog n))) as [|s] eqn:Hs; [lia|].
    replace (S s - 1)%nat with s in He' by lia. by rewrite He'.
Qed.
End refinement.

(** ** Along an execution *)

Section execution.
Context {W : Type} `{!Transport W} (members : list string).
Implicit Types c : Cluster W.

(** The longest list some member of a state knows to be committed. *)
Lemma linv_peak c h G :
  linv members c h G -> exists k g T, committed h members k g T /\ decided_by (take k g) c /\
    forall i n, c_nodes c !! i = Some n -> commitIndex n <= Z.of_nat k.
Proof using.
  intros Hl. pose proof (li_node _ _ _ _ _ (lv_nodes _ _ _ _ Hl)) as Hn.
  destruct (map_argmax commitIndex (c_nodes c)) as [E|(i & n & Hi & Hmax)].
  - exists 0%nat, [], 0. split; [by left|]. split; [by left|]. intros i n. by rewrite E, lookup_empty.
  - pose proof (Hn i n Hi) as []. pose proof (committed_length _ _ _ _ _ ln_commit). pose proof (fu_snap _ _ ln_full).
    exists (Z.to_nat (commitIndex n)), (G i), (currentTerm n). split; [done|]. split.
    + right. exists i, n. split; [done|]. unfold lenZ. rewrite length_take. lia.
    + intros j m Hj. specialize (Hmax j m Hj). lia.
Qed.

(** A list that reaches as far as every member shows through all of them. *)
Lemma linv_shows c h G k g T :
  linv members c h G -> committed h members k g T ->
  (forall i n, c_nodes c !! i = Some n -> commitIndex n <= Z.of_nat k) -> shows (take k g) c.
Proof using.
  intros Hl Hc Hmax i n Hi. pose proof (lv_nodes _ _ _ _ Hl) as Hinv. pose proof (li_node _ _ _ _ _ Hinv i n Hi) as [].
  eapply committed_shows; [apply Hinv|by eapply lninv_elections|done..|by eapply Hmax].
Qed.
End execution.

(** C5. The cluster refines one append-only log.  Along every clean execution in
    which nobody votes twice in a term there is a sequence of decided entries:
    in the earlier state it is exactly what the members have committed, each
    member shows a part of it, and later states show a sequence that extends it
    by appending entries, all of them committed by some member.  Restarts, at
    which a commit index falls back to the snapshot, do not shorten it. *)
Theorem cluster_refines_log {W : Type} `{!Transport W} (members : list string) (c c' : Cluster W) :
  NoDup members -> "" ∉ members -> clean_reachable members c -> rtc clean_step c c' -> votes_once (c_votes c') ->
  exists L L', decided_by L c /\ shows L c /\ shows L' c' /\ rtc decide_step L L' /\ (L' = L \/ decided_by L' c').
Proof.
  intros Hnd Hne Hr Hs Ho. destruct (linv_pair members c c' Hnd Hne Hr Hs Ho) as (h & h' & G & G' & Hx & Hl & Hl').
  destruct (linv_peak members c h G Hl) as (k & g & T & Hc & Hd & Hm).
  destruct (linv_peak members c' h' G' Hl') as (k' & g' & T' & Hc' & Hd' & Hm').
  pose proof (linv_shows members c h G k g T Hl Hc Hm).
  assert (Hc1 : committed h' members k g T) by (eapply committed_mono; [done|exact Hc|done|by eapply committed_length|lia]).
  pose proof (lv_nodes _ _ _ _ Hl') as Hinv. destruct (Nat.le_ge_cases k k') as [Hk|Hk].
  - exists (take k g), (take k' g'). split_and!; [done|done|by eapply linv_shows| |by right]. apply prefix_decides.
    assert (take k g = take k g') as ->.
    { eapply (committed_agree h' members); [apply Hinv|by eapply lninv_elections|done|done|lia|lia]. }
    rewrite <- (Nat.min_l k k'), <- take_take by done. apply prefix_take.
  - exists (take k g), (take k g). split_and!; [done|done| |done|by left].
    eapply linv_shows; [done|done|]. intros i n Hi. specialize (Hm' i n Hi). lia.
Qed.

(** After the first command is committed the sequence has it, and still has it
    under the leader of the next term. *)
Lemma cluster_refines_log_witness : exists (c c' : Cluster MemoryNetwork) L L' e,
  shows L c /\ shows L' c' /\ rtc decide_step L L' /\ L !! 0%nat = Some e /\ exFirst = Some e /\ decided_by L c.
Proof.
  destruct exLog_run as (c & c' & a & b & b' & Hr & Hs & Ho & Ho' & Ha & Hb & Hb' & Sa & Sb & Sb').
  destruct exMembers_ok as [H1 H2]. injection Sa as _ Sa0 Sa1 Sa2 He.
  destruct (cluster_refines_log exMembers c c' H1 H2 Hr Hs Ho') as (L & L' & Hd & Hc & Hc' & Hst & _).
  exists c, c', L, L', (mkLogEntry 1 1 [Byte.x41] false "" ""). split_and!; [done|done|done| |done|done].
  pose proof (ns_entries _ _ (Hc _ _ Ha) 1 ltac:(lia)) as E. rewrite He in E. by symmetry.
Defined.
