(* ===== verification/Availability.v ===== *)
(** * A majority that can talk can elect a leader

    Safety alone would hold of a cluster that never does anything.  Here: from
    every state a cluster can reach, whatever goroutines, stale messages and
    terms it is in, a member that is not leading and whose log is as up to date
    as those of a majority it can reach can be elected, in a term above all of
    theirs, once that majority has not heard of a leader for an election timeout:
    by its own election timeouts, the pre-votes and the votes of that majority.
    The rounds of the argument are the parts of [startPreVote] and
    [startElection]: the timeouts with their pre-votes, which raise the term, the
    requests, one vote at a time. *)

From S2P Require Import Prelude RaftLog Rpc Disk Node Election Replication Snapshot Client Transport Cluster ElectionSafety LogHistory LogInvariant LogSafety.

(** The log of a candidate is at least as up to date as that of a voter. *)
Definition up_to_date (n m : RaftNode) : Prop :=
  log_lastTerm (rlog m) < log_lastTerm (rlog n) \/
  log_lastTerm (rlog n) = log_lastTerm (rlog m) /\ log_lastIndex (rlog m) <= log_lastIndex (rlog n).

(** A member that has not heard of a leader for its minimum election timeout. *)
Definition idle (now : Z) (m : RaftNode) : Prop :=
  durationMs (cfg_ElectionTimeoutMinMs (config m)) <= time_Sub now (lastLeaderContact m).

#[export] Instance idle_dec now m : Decision (idle now m).
Proof. unfold idle. apply _. Defined.

(** A vote or pre-vote request from [i] reaches [q], and its reply comes back. *)
Definition delivers {W} `{!Transport W} (w : W) (i q : string) : Prop :=
  forall now args ns n, ns !! q = Some n ->
    tr_RequestVote w i q false now args ns =
      (<[q := (HandleRequestVote now n args).1]> ns, inl (HandleRequestVote now n args).2).

(** Two connected nodes of the in-memory network. *)
Lemma memory_delivers (net : MemoryNetwork) i q : mt_lookup net i q = None -> delivers net i q.
Proof. intros Hl now args ns n Hn. simpl. unfold mt_RequestVote, mt_call. by rewrite Hl, Hn. Qed.

(** ** Goroutines that were started *)

Lemma spawn_keeps l ts k t : ts !! k = Some t -> spawn l ts !! k = Some t.
Proof.
  revert ts. induction l as [|x l IH]; intros ts Hk; [done|]. simpl. apply IH. unfold spawn1.
  rewrite lookup_insert_ne; [done|]. intros <-. apply (is_fresh (dom ts)), elem_of_dom. by exists t.
Qed.

Lemma spawn_started l ts t : t ∈ l -> exists k, spawn l ts !! k = Some t.
Proof.
  revert ts. induction l as [|x l IH]; intros ts Hin; [by apply not_elem_of_nil in Hin|].
  apply elem_of_cons in Hin as [->|Hin]; [|by apply IH]. exists (fresh (dom ts)). simpl. apply spawn_keeps.
  unfold spawn1. by rewrite lookup_insert_eq.
Qed.

(** ** The vote of one member *)

(** A candidate with a higher term and a log that is up to date gets the vote. *)
Lemma vote_granted now n m T :
  currentTerm m < T -> up_to_date n m ->
  (HandleRequestVote now m (mkRequestVoteArgs T (nid n) (log_lastIndex (rlog n)) (log_lastTerm (rlog n)) false)).2 =
  mkRequestVoteReply T true.
Proof.
  intros HT Hu. set (args := mkRequestVoteArgs _ _ _ _ _).
  assert (Hg : rvr_VoteGranted (HandleRequestVote now m args).2 = true).
  { rewrite HandleRequestVote_reply by done. unfold vote_rule. apply bool_decide_eq_true. subst args. simpl.
    split_and!; [lia|lia|]. unfold up_to_date in Hu. lia. }
  destruct (HandleRequestVote_granted now m args eq_refl Hg) as (_ & _ & Ht & _).
  destruct (HandleRequestVote now m args) as [m' [t g]]. simpl in *. by subst.
Qed.

(** What a candidate keeps while it waits. *)
Record stands (T : Z) (n0 n : RaftNode) : Prop := {
  sd_state : state n = Candidate;
  sd_term : currentTerm n = T;
  sd_log : rlog n = rlog n0;
  sd_id : nid n = nid n0;
  sd_peers : peers n = peers n0;
  sd_config : config n = config n0
}.

Lemma vote_keeps now m args :
  rv_IsPreVote args = false -> currentTerm m <= rv_Term args ->
  rlog (HandleRequestVote now m args).1 = rlog m /\ currentTerm (HandleRequestVote now m args).1 <= rv_Term args.
Proof.
  intros Hp HT. unfold HandleRequestVote. rewrite Hp. repeat (case_match || node_unfold); simpl; split; done || lia.
Qed.

Lemma vote_raises now m args :
  rv_IsPreVote args = false -> currentTerm m <= rv_Term args -> currentTerm m <= currentTerm (HandleRequestVote now m args).1.
Proof. intros Hp HT. unfold HandleRequestVote. rewrite Hp. repeat (case_match || node_unfold); simpl; lia. Qed.

(** What the election of [i] in term [T] leaves of the rest of the cluster: the
    network, and the logs of the others, none of which gets past [T]. *)
Definition undisturbed {W} (i : string) (T : Z) (c c' : Cluster W) : Prop :=
  c_net c' = c_net c /\
  forall j m, j <> i -> c_nodes c !! j = Some m -> currentTerm m <= T ->
    exists m', c_nodes c' !! j = Some m' /\ rlog m' = rlog m /\ currentTerm m' <= T.

#[export] Instance undisturbed_preorder {W} i T : PreOrder (undisturbed (W := W) i T).
Proof.
  split.
  - intros c. split; [done|]. eauto.
  - intros c1 c2 c3 [E1 H1] [E2 H2]. split; [congruence|]. intros j m Hj Hm HT.
    destruct (H1 j m Hj Hm HT) as (m2 & Hm2 & E & HT2). destruct (H2 j m2 Hj Hm2 HT2) as (m3 & ? & ? & ?).
    exists m3. split_and!; [done|congruence|done].
Qed.

(** Votes that are new are for [i], and in a term the voter had not reached. *)
Definition fresh_votes {W} (i : string) (c c' : Cluster W) : Prop :=
  (forall j m, c_nodes c !! j = Some m -> exists m', c_nodes c' !! j = Some m' /\ currentTerm m <= currentTerm m') /\
  forall v t d, (v, t, d) ∈ c_votes c' ->
    (v, t, d) ∈ c_votes c \/ d = i /\ forall m, c_nodes c !! v = Some m -> currentTerm m < t.

#[export] Instance fresh_votes_preorder {W} i : PreOrder (fresh_votes (W := W) i).
Proof.
  split.
  - intros c. split; [intros j m Hm; by exists m|by left].
  - intros c1 c2 c3 [M1 V1] [M2 V2]. split.
    + intros j m Hm. destruct (M1 j m Hm) as (m2 & Hm2 & ?). destruct (M2 j m2 Hm2) as (m3 & ? & ?). exists m3. split; [done|lia].
    + intros v t d Hv. destruct (V2 v t d Hv) as [Hv2|[-> H2]]; [by apply V1|]. right. split; [done|].
      intros m Hm. destruct (M1 v m Hm) as (m2 & Hm2 & ?). specialize (H2 m2 Hm2). lia.
Qed.

(** One node moves on, and votes at most for [i], in a term that is new to it. *)
Lemma fresh_votes_one {W} i j n n' (c c' : Cluster W) :
  c_nodes c !! j = Some n -> c_nodes c' = <[j := n']> (c_nodes c) -> currentTerm n <= currentTerm n' ->
  (c_votes c' = c_votes c \/ exists t, currentTerm n < t /\ c_votes c' ⊆ {[(j, t, i)]} ∪ c_votes c) -> fresh_votes i c c'.
Proof.
  intros Hn Hns HT Hv. split.
  - intros k m Hm. rewrite Hns. destruct (decide (j = k)) as [<-|]; [rewrite lookup_insert_eq; exists n'; split; [done|by simplify_eq]|].
    rewrite lookup_insert_ne by done. by exists m.
  - intros v t d Hin. destruct Hv as [E|(t' & Ht & Hsub)]; [left; by rewrite <- E|].
    apply Hsub, elem_of_union in Hin as [[= -> -> ->]%elem_of_singleton|]; [|by left]. right. split; [done|].
    intros m Hm. by simplify_eq.
Qed.

(** So nobody votes twice who had not before. *)
Lemma fresh_votes_once {W} `{!Transport W} members i (c c' : Cluster W) :
  cinv members c -> votes_once (c_votes c) -> fresh_votes i c c' -> votes_once (c_votes c').
Proof.
  intros [Hinv _] Ho [_ Hf] v t d1 d2 H1 H2.
  assert (Hold : forall d, (v, t, d) ∈ c_votes c -> exists m, c_nodes c !! v = Some m /\ t <= currentTerm m).
  { intros d Hd. destruct (ni_votes _ _ _ _ Hinv v t d Hd) as (_ & m & ? & ? & _). eauto. }
  destruct (Hf v t d1 H1) as [O1|[-> N1]], (Hf v t d2 H2) as [O2|[-> N2]]; [by eapply Ho|..|done].
  - destruct (Hold d1 O1) as (m & Hm & ?). specialize (N2 m Hm). lia.
  - destruct (Hold d2 O2) as (m & Hm & ?). specialize (N1 m Hm). lia.
Qed.

(** A step of [i] alone. *)
Lemma undisturbed_self {W} i T n' (c c' : Cluster W) :
  c_net c' = c_net c -> c_nodes c' = <[i := n']> (c_nodes c) -> undisturbed i T c c'.
Proof. intros E Hn. split; [done|]. intros j m Hj Hm HT. exists m. by rewrite Hn, lookup_insert_ne. Qed.

Section election.
Context {W : Type} `{!Transport W} (i : string).
Implicit Types c : Cluster W.

(** ** Round 1: the timeouts and their pre-votes *)

(** Members [i] reaches that will grant the pre-vote of [n] at time [now]. *)
Definition sponsors (now : Z) (n : RaftNode) (qs : list string) c : Prop :=
  forall q, q ∈ qs -> q ∈ peers n /\ q <> i /\ delivers (c_net c) i q /\
    exists m, c_nodes c !! q = Some m /\ idle now m /\ up_to_date n m.

Lemma preVote_granted now n m :
  idle now m -> up_to_date n m -> exists r, HandleRequestVote now m (startPreVote_args n) = (m, r) /\ rvr_VoteGranted r = true.
Proof using.
  intros Hi Hu. unfold HandleRequestVote, candidateUpToDate, idle, up_to_date in *. simpl.
  replace (time_Sub now (lastLeaderContact m) <? _) with false by lia. eexists. split; [done|]. simpl. lia.
Qed.

(** The requests of one pre-vote round, answered one after the other. *)
Lemma preVote_calls now n tid qs : forall c replies,
  c_threads c !! tid = Some (TPreVoting i n replies) -> NoDup qs -> sponsors now n qs c ->
  (forall q, q ∈ qs -> q ∉ replies.*1) ->
  exists c' rs, rtc clean_step c c' /\ c_nodes c' = c_nodes c /\ c_net c' = c_net c /\ c_votes c' = c_votes c /\
    c_threads c' = <[tid := TPreVoting i n (replies ++ rs)]> (c_threads c) /\
    length rs = length qs /\ grants rs.*2 = length qs.
Proof using.
  induction qs as [|q qs IH]; intros c replies Ht Hnd Hsp Hnew.
  { exists c, []. rewrite app_nil_r, insert_id by done. by split_and!. }
  apply NoDup_cons in Hnd as [Hq Hnd]. destruct (Hsp q) as (Hqp & Hqi & Hd & m & Hm & Hi & Hu); [by left|].
  destruct (preVote_granted now n m Hi Hu) as (r & Hr & Hg).
  set (c1 := set_threads (<[tid := TPreVoting i n (replies ++ [(q, Some r)])]> (c_threads c)) (set_nodes (c_nodes c) c)).
  assert (Hs : clean_step c c1).
  { apply (clean_exec (LPreVoteRequest tid q false now)); [done|]. simpl. rewrite Ht.
    rewrite option_guard_True by (split; [done|apply Hnew; by left]). simpl.
    rewrite (Hd now (startPreVote_args n) (c_nodes c) m Hm), Hr. simpl. by rewrite (insert_id (c_nodes c) q). }
  destruct (IH c1 (replies ++ [(q, Some r)])) as (c' & rs & Hr' & Hn' & Hnet & Hvs & Hts & Hl & Hgr).
  - simpl. by rewrite lookup_insert_eq.
  - done.
  - intros p Hp. apply Hsp. by right.
  - intros p Hp. rewrite fmap_app, not_elem_of_app. split; [apply Hnew; by right|]. set_solver.
  - exists c', ((q, Some r) :: rs). split_and!; [by eapply rtc_l|done|done|done| |simpl; by rewrite Hl|].
    + rewrite Hts. simpl. by rewrite insert_insert_eq, <- app_assoc.
    + rewrite fmap_cons. unfold grants in *. cbn [List.filter snd]. rewrite Hg. cbn [length]. by rewrite Hgr.
Qed.

(** One timeout with its pre-vote round: the term goes up by one and an election
    goroutine is started. *)
Lemma timeout_round now qs c n :
  c_nodes c !! i = Some n -> state n <> Leader -> peers n <> [] -> currentTerm n + 1 < u64_size -> 0 <= currentTerm n ->
  NoDup qs -> sponsors now n qs c -> (majority (length (peers n)) <= 1 + length qs)%nat ->
  exists c' n' tid, rtc clean_step c c' /\ c_nodes c' = <[i := n']> (c_nodes c) /\ c_net c' = c_net c /\
    fresh_votes i c c' /\ stands (currentTerm n + 1) n n' /\ c_threads c' !! tid = Some (TElection i).
Proof using.
  intros Hn Hs Hp HT H0 Hnd Hsp Hmaj.
  assert (Hel : electionEligible n = true).
  { unfold electionEligible. rewrite bool_decide_eq_false_2 by done. by destruct (state n). }
  set (tid := fresh (dom (c_threads c))).
  set (c1 := set_threads (<[tid := TPreVote i]> (c_threads c)) c).
  assert (H1 : clean_step c c1) by (apply (clean_exec (LTimeout i)); [done|]; simpl; by rewrite Hn; simpl; rewrite Hel).
  set (c2 := set_threads (<[tid := TPreVoting i n []]> (c_threads c1)) c1).
  assert (H2 : clean_step c1 c2).
  { apply (clean_exec (LPreVote tid)); [done|]. simpl. by rewrite lookup_insert_eq, Hn. }
  destruct (preVote_calls now n tid qs c2 []) as (c3 & rs & H3 & Hns & Hnet & Hvs & Hts & Hlen & Hgr);
    [simpl; by rewrite lookup_insert_eq|done|done|set_solver|].
  assert (Hw : startPreVote (peers n) rs.*2 = true).
  { unfold startPreVote. rewrite bool_decide_eq_false_2 by done. destruct (majority_spec (length (peers n))).
    assert (Hqs : (length qs <= length (peers n))%nat).
    { apply submseteq_length, NoDup_submseteq; [done|]. intros q Hq. by apply Hsp. }
    rewrite take_ge by (rewrite length_fmap; lia). destruct (peers n) as [|p ps] eqn:E; [done|]. simpl length in *.
    rewrite preVote_loop_spec by lia. apply Nat.leb_le. lia. }
  eexists _, (becomeCandidate n), _. split.
  - eapply rtc_l; [exact H1|]. eapply rtc_l; [exact H2|]. eapply rtc_r; [exact H3|].
    apply (clean_exec (LCandidate tid)); [done|]. simpl. rewrite Hts, lookup_insert_eq. simpl.
    rewrite Hw, option_guard_True by by left. simpl. rewrite Hns. simpl. rewrite Hn. simpl.
    unfold afterPreVote. rewrite Hel. simpl. rewrite option_guard_True by done. reflexivity.
  - assert (HT' : currentTerm (becomeCandidate n) = currentTerm n + 1) by (node_unfold; u64_lia).
    split_and!; [done|done| | |].
    + eapply (fresh_votes_one i i n); [done|done|lia|]. right. exists (currentTerm n + 1). split; [lia|].
      simpl. rewrite Hvs. by replace (currentTerm n ⊕ 1) with (currentTerm n + 1) by u64_lia.
    + split; [done| |done|done|done|done]. done.
    + simpl. unfold spawn1. by rewrite lookup_insert_eq.
Qed.

(** Enough timeouts take the term to any value. *)
Lemma timeouts now qs c n T :
  c_nodes c !! i = Some n -> state n <> Leader -> peers n <> [] -> 0 <= currentTerm n -> currentTerm n < T < u64_size ->
  NoDup qs -> sponsors now n qs c -> (majority (length (peers n)) <= 1 + length qs)%nat ->
  exists c' n' tid, rtc clean_step c c' /\ c_nodes c' = <[i := n']> (c_nodes c) /\ c_net c' = c_net c /\
    fresh_votes i c c' /\ stands T n n' /\ c_threads c' !! tid = Some (TElection i).
Proof using.
  intros Hn Hs Hp H0 HT Hnd. remember (Z.to_nat (T - currentTerm n - 1)) as k eqn:Hk.
  revert c n Hn Hs Hp H0 HT Hk. induction k as [|k IH]; intros c n Hn Hs Hp H0 HT Hk Hsp Hmaj;
    destruct (timeout_round now qs c n Hn Hs Hp ltac:(lia) H0 Hnd Hsp Hmaj) as (c1 & n1 & tid & Hst & Hns & Hnet & Hfr & [] & Hth).
  - exists c1, n1, tid. split_and!; try done. split; try done. lia.
  - destruct (IH c1 n1) as (c' & n' & tid' & Hr & Hns' & Hnet' & Hfr' & [] & Hth');
      [by rewrite Hns, lookup_insert_eq|congruence|congruence|lia|lia|lia| |congruence|].
    { intros q Hq. destruct (Hsp q Hq) as (? & Hqi & ? & m & ? & ? & Hu). rewrite sd_peers0, Hnet.
      split_and!; [done|done|done|]. exists m. rewrite Hns, lookup_insert_ne by done.
      split_and!; [done|done|]. unfold up_to_date in *. by rewrite sd_log0. }
    exists c', n', tid'. split_and!; try done; [by etransitivity| |congruence|by transitivity c1|split; congruence].
    by rewrite Hns', Hns, insert_insert_eq.
Qed.

(** ** Round 2: the requests *)

(** An election of [i] in term [T] under way, with the votes of [qs] still to
    come: their request goroutines are there, and they will vote for [i]. *)
Record voting (T : Z) (n0 : RaftNode) (eid : nat) (e : Election) (qs : list string) (c : Cluster W) : Prop := {
  vt_node : exists n, c_nodes c !! i = Some n /\ stands T n0 n;
  vt_election : c_elections c !! eid = Some (i, e);
  vt_term : el_term e = T;
  vt_args : el_args e = mkRequestVoteArgs T (nid n0) (log_lastIndex (rlog n0)) (log_lastTerm (rlog n0)) false;
  vt_granted : is_Some (c_granted c !! eid);
  vt_voters : forall q, q ∈ qs -> q <> i /\ delivers (c_net c) i q /\
    (exists tid, c_threads c !! tid = Some (TVoteReq i eid q)) /\
    exists m, c_nodes c !! q = Some m /\ currentTerm m < T /\ up_to_date n0 m
}.

Lemma election_step c n0 n tid T qs :
  c_nodes c !! i = Some n -> stands T n0 n -> c_threads c !! tid = Some (TElection i) ->
  (forall q, q ∈ qs -> q ∈ peers n0 /\ q <> i /\ delivers (c_net c) i q /\
     exists m, c_nodes c !! q = Some m /\ currentTerm m < T /\ up_to_date n0 m) ->
  exists c' eid, clean_step c c' /\ undisturbed i T c c' /\ fresh_votes i c c' /\ voting T n0 eid (startElection_begin n) qs c'.
Proof using.
  intros Hn [] Ht Hq. eexists _, (fresh (dom (c_elections c))). split; [|split; [|split]].
  - apply (clean_exec (LElection tid)); [done|]. simpl. by rewrite Ht, Hn.
  - split; [done|]. eauto.
  - split; [intros j m Hm; by exists m|by left].
  - split; simpl; [|by rewrite lookup_insert_eq|done|by rewrite sd_term0, sd_id0, sd_log0|by rewrite lookup_insert_eq|].
    + exists n. split; [done|]. by split.
    + intros q Hin. destruct (Hq q Hin) as (Hp & Hi & Hd & Hm). split_and!; [done|done| |done].
      apply spawn_started, list_elem_of_fmap. exists q. split; [done|]. by rewrite sd_peers0.
Qed.

(** ** Round 3: the votes *)

(** The request to the next voter is answered with a vote. *)
Lemma request_step T n0 eid e q qs c :
  NoDup (q :: qs) -> voting T n0 eid e (q :: qs) c -> forall now : Z,
  exists c' tid, clean_step c c' /\ undisturbed i T c c' /\ fresh_votes i c c' /\ voting T n0 eid e qs c' /\
    c_threads c' !! tid = Some (TVoteRep i eid q (mkRequestVoteReply T true)).
Proof using.
  intros [Hq Hnd]%NoDup_cons [] now. destruct vt_node0 as (n & Hn & Hst).
  destruct (vt_voters0 q) as (Hi & Hd & (tid & Ht) & m & Hm & HT & Hu); [by left|].
  eexists _, tid. split; [|split; [|split; [|split; [split|]]]].
  - apply (clean_exec (LVoteRequest tid false now)); [done|]. simpl. rewrite Ht, vt_election0. simpl.
    rewrite (Hd now (el_args e) (c_nodes c) m Hm). reflexivity.
  - split; [done|]. intros j m' Hj Hm' HT'. simpl. destruct (decide (q = j)) as [<-|Hne].
    + rewrite lookup_insert_eq. assert (m' = m) as -> by congruence. eexists. split; [done|].
      rewrite vt_args0. by apply vote_keeps.
    + rewrite lookup_insert_ne by done. eauto.
  - eapply (fresh_votes_one i q m); [done|done| |].
    + rewrite vt_args0. eapply vote_raises; [done|simpl; lia].
    + right. exists T. split; [done|]. simpl. rewrite vt_term0. unfold record_vote. repeat case_match; set_solver.
  - exists n. simpl. by rewrite lookup_insert_ne.
  - done.
  - done.
  - done.
  - done.
  - intros p Hp. destruct (vt_voters0 p) as (Hpi & Hpd & (tid' & Ht') & m' & Hm' & HT' & Hu'); [by right|].
    assert (Hpq : q <> p) by (intros ->; done). split_and!; [done|done| |].
    + exists tid'. simpl. rewrite lookup_insert_ne; [done|]. intros ->. congruence.
    + exists m'. simpl. by rewrite lookup_insert_ne.
  - simpl. rewrite lookup_insert_eq, vt_args0. by rewrite vote_granted.
Qed.

(** The vote is counted: either it was the last that was missing, or the
    election goes on with one vote more. *)
Lemma reply_step T n0 eid e q qs c tid now :
  voting T n0 eid e qs c -> c_threads c !! tid = Some (TVoteRep i eid q (mkRequestVoteReply T true)) ->
  exists c', clean_step c c' /\ undisturbed i T c c' /\ fresh_votes i c c' /\
    ((el_majority e <= S (el_votes e))%nat ->
       exists n n', c_nodes c' !! i = Some n' /\ stands T n0 n /\ n' = becomeLeader now n) /\
    ((S (el_votes e) < el_majority e)%nat -> voting T n0 eid (set_el_votes (S (el_votes e)) e) qs c').
Proof using.
  intros [] Ht. destruct vt_node0 as (n & Hn & []). destruct vt_granted0 as [g Hg].
  assert (Hrep : startElection_reply now e n (mkRequestVoteReply T true) =
    (set_el_votes (S (el_votes e)) e, if (el_majority e <=? S (el_votes e))%nat then becomeLeader now n else n)).
  { unfold startElection_reply. simpl. rewrite sd_term0, vt_term0, sd_state0, Z.eqb_refl. simpl.
    rewrite Z.gtb_ltb, Z.ltb_irrefl. by destruct (el_majority e <=? S (el_votes e))%nat. }
  eexists. split; [|split; [|split; [|split]]].
  - apply (clean_exec (LVoteReply tid now)); [done|]. simpl. rewrite Ht, Hn, vt_election0, Hg. simpl. rewrite Hrep. reflexivity.
  - by eapply undisturbed_self.
  - eapply (fresh_votes_one i i n); [done|done| |by left].
    case_match; [|done]. destruct (becomeLeader_fields now n) as (_ & _ & _ & _ & -> & _). done.
  - intros Hm. exists n, (becomeLeader now n). rewrite (proj2 (Nat.leb_le _ _) Hm). simpl. rewrite lookup_insert_eq.
    split_and!; [done|by split|done].
  - intros Hm. rewrite (proj2 (Nat.leb_gt _ _) Hm). split; simpl; [|by rewrite lookup_insert_eq|done|done|by rewrite lookup_insert_eq|].
    + exists n. rewrite lookup_insert_eq. split; [done|by split].
    + intros p Hp. destruct (vt_voters0 p Hp) as (Hpi & Hpd & (tid' & Ht') & m' & Hm'). split_and!; [done|done| |].
      * exists tid'. rewrite lookup_delete_ne; [done|]. intros ->. congruence.
      * exists m'. by rewrite lookup_insert_ne.
Qed.

(** All the votes that are needed, one after another. *)
Lemma votes_elect T n0 eid now qs e c :
  NoDup qs -> voting T n0 eid e qs c -> (el_votes e < el_majority e <= el_votes e + length qs)%nat ->
  exists c' n n', rtc clean_step c c' /\ undisturbed i T c c' /\ fresh_votes i c c' /\ c_nodes c' !! i = Some n' /\
    stands T n0 n /\ n' = becomeLeader now n.
Proof using.
  revert e c. induction qs as [|q qs IH]; intros e c Hnd Hv Hm; simpl in Hm; [lia|].
  destruct (request_step T n0 eid e q qs c Hnd Hv now) as (c1 & tid & Hs1 & Hu1 & Hf1 & Hv1 & Ht).
  destruct (reply_step T n0 eid e q qs c1 tid now Hv1 Ht) as (c2 & Hs2 & Hu2 & Hf2 & Hwin & Hgo).
  assert (Hu : undisturbed i T c c2) by by transitivity c1. assert (Hf : fresh_votes i c c2) by by transitivity c1.
  destruct (decide (el_majority e <= S (el_votes e))%nat) as [Hle|Hgt].
  - destruct (Hwin Hle) as (n & n' & ? & ? & ?). exists c2, n, n'. split_and!; try done.
    eapply rtc_l; [done|]. by apply rtc_once.
  - destruct (IH (set_el_votes (S (el_votes e)) e) c2) as (c' & n & n' & Hr & Hu' & Hf' & ?);
      [by apply NoDup_cons in Hnd as [_ ?]|apply Hgo; lia|simpl; lia|].
    exists c', n, n'. split; [eapply rtc_l; [done|]; by eapply rtc_l|]. split; [by transitivity c2|]. split; [by transitivity c2|done].
Qed.
End election.

(** ** Every majority *)

(** The votes a majority adds to the candidate's own. *)
Lemma majority_reached (members Q : list string) i (n : RaftNode) :
  quorum members Q -> i ∈ Q -> S (length (peers n)) = length members ->
  (majority (length (peers n)) <= 1 + length (List.filter (λ q, negb (String.eqb q i)) Q))%nat.
Proof.
  intros (Hnd & _ & Hlen) Hi Hsz. destruct (filter_others i Q Hnd Hi) as (_ & _ & _ & Hf).
  pose proof (Nat.div_mod_eq (length (peers n) + 1) 2). unfold majority. lia.
Qed.

(** The peers of a member are all the others. *)
Lemma peers_complete members i n q : node_ok members i n -> q ∈ members -> q <> i -> q ∈ peers n.
Proof.
  intros [] Hq Hqi. assert (Hp : i :: peers n ≡ₚ members).
  { apply submseteq_length_Permutation; [|simpl; lia]. apply NoDup_submseteq; [by apply NoDup_cons|].
    intros p [->|?]%elem_of_cons; [done|by apply no_peers]. }
  rewrite <- Hp in Hq. by apply elem_of_cons in Hq as [->|].
Qed.

(** ** The election *)

(** A majority that [i] reaches, whose logs are no more up to date and which has
    not heard of a leader lately. *)
Record backed {W} `{!Transport W} (now : Z) (members Q : list string) (c : Cluster W) (i : string) (n : RaftNode) : Prop := {
  bk_node : c_nodes c !! i = Some n;
  bk_state : state n <> Leader;
  bk_quorum : quorum members Q;
  bk_self : i ∈ Q;
  bk_size : (1 < length members)%nat;
  bk_voters : forall q, q ∈ Q -> q <> i ->
    delivers (c_net c) i q /\ exists m, c_nodes c !! q = Some m /\ idle now m /\ up_to_date n m;
  bk_terms : forall j m, c_nodes c !! j = Some m -> currentTerm m + 1 < u64_size
}.

(** All the rounds together. *)
Lemma backed_elect {W} `{!Transport W} members Q (c : Cluster W) i n now :
  cinv members c -> backed now members Q c i n -> exists c' n1 T,
    rtc clean_step c c' /\ undisturbed i T c c' /\ fresh_votes i c c' /\ c_nodes c' !! i = Some (becomeLeader now n1) /\ stands T n n1 /\
    (forall j m, c_nodes c !! j = Some m -> currentTerm m < T) /\
    exists j m, c_nodes c !! j = Some m /\ T = currentTerm m + 1.
Proof.
  intros [Hinv _] [Hn Hs HQ Hi Hsz Hv Hb].
  pose proof (ni_node _ _ _ _ Hinv i n Hn) as Hok. pose proof (no_size _ _ _ Hok) as Hsize.
  destruct (map_argmax currentTerm (c_nodes c)) as [E|(j & m & Hj & Hmax)]; [by rewrite E, lookup_empty in Hn|].
  set (T := currentTerm m + 1). assert (HT : forall q m', c_nodes c !! q = Some m' -> currentTerm m' < T).
  { intros q m' Hq. specialize (Hmax q m' Hq). lia. }
  assert (Hp : peers n <> []) by (intros E; rewrite E in Hsize; simpl in Hsize; lia).
  set (qs := List.filter (λ q, negb (String.eqb q i)) Q).
  assert (Hqs : forall q, q ∈ qs -> q ∈ Q /\ q <> i).
  { intros q [Hin He%negb_true_iff%String.eqb_neq]%list_elem_of_In%filter_In. by rewrite list_elem_of_In. }
  assert (Hqp : forall q, q ∈ qs -> q ∈ peers n).
  { intros q [Hq Hqi]%Hqs. eapply peers_complete; [exact Hok|by apply HQ|done]. }
  destruct (timeouts i now qs c n T Hn Hs Hp (no_term _ _ _ Hok)) as (c1 & n1 & tid & Hr1 & Hns & Hnet & Hf1 & Hst & Ht).
  { split; [by eapply HT|by eapply (Hb j)]. }
  { by apply NoDup_ListNoDup, List.NoDup_filter, NoDup_ListNoDup, HQ. }
  { intros q Hq. destruct (Hqs q Hq) as [HqQ Hqi]. destruct (Hv q HqQ Hqi). auto. }
  { by eapply majority_reached. }
  destruct (election_step i c1 n n1 tid T qs) as (c2 & eid & Hs2 & Hu2 & Hf2 & Hv2); [by rewrite Hns, lookup_insert_eq|done|done| |].
  { intros q Hq. destruct (Hqs q Hq) as [HqQ Hqi]. destruct (Hv q HqQ Hqi) as (Hd & m' & Hm' & _ & Hu).
    split_and!; [auto|done|by rewrite Hnet|]. exists m'. rewrite Hns, lookup_insert_ne by done. eauto. }
  destruct (votes_elect i T n eid now qs (startElection_begin n1) c2) as (c' & n2 & n' & Hr2 & Hu & Hf3 & Hi' & Hst2 & ->);
    [by apply NoDup_ListNoDup, List.NoDup_filter, NoDup_ListNoDup, HQ|done| |].
  { simpl. rewrite (sd_peers _ _ _ Hst). split; [destruct (majority_spec (length (peers n))); lia|]. by eapply majority_reached. }
  exists c', n2, T. split_and!; [etransitivity; [done|]; by eapply rtc_l| | |done|done|done|by exists j, m].
  - etransitivity; [by eapply undisturbed_self|]. by etransitivity.
  - etransitivity; [exact Hf1|]. by etransitivity.
Qed.

(** A state in which "a" leads and "b" has its log, compacted. *)
Definition exCompacted : list label := exCommitted ++ [LTakeSnapshot "b" []].

(** Two seconds later. *)
Definition exLater : Z := exTime (2000 * Millisecond).

Lemma exQuorum : quorum exMembers ["a"; "b"].
Proof. split; [apply (bool_decide_unpack _); vm_compute; exact I|]. split; [set_solver|simpl; lia]. Qed.

Lemma exReach_run : exists c a b,
  clean_reachable exMembers c /\ c_nodes c !! "a" = Some a /\ c_nodes c !! "b" = Some b /\
  state a = Leader /\ state b <> Leader /\ up_to_date b a /\ c_net c = exNet /\
  (forall j m, c_nodes c !! j = Some m -> currentTerm m + 1 < u64_size) /\
  idle exLater a /\ votes_once (c_votes c) /\ log_snapshotIndex (rlog b) = 1 /\ le_Term (log_get (rlog a) 1) = log_snapshotTerm (rlog b) /\
  log_lastIndex (rlog b) = 1 /\ 0 < durationMs (cfg_ElectionTimeoutMaxMs (config b)).
Proof.
  assert (Hrun : match clean_exec_all exCompacted (initCluster exNet exMembers) with
    | Some c =>
        match c_nodes c !! "a", c_nodes c !! "b" with
        | Some a, Some b => bool_decide (state a = Leader /\ state b <> Leader /\
            log_lastTerm (rlog b) = log_lastTerm (rlog a) /\ log_lastIndex (rlog a) <= log_lastIndex (rlog b) /\
            log_snapshotIndex (rlog b) = 1 /\ le_Term (log_get (rlog a) 1) = log_snapshotTerm (rlog b) /\ log_lastIndex (rlog b) = 1 /\
            0 < durationMs (cfg_ElectionTimeoutMaxMs (config b)) /\ idle exLater a /\ c_abdicated c = ∅)
        | _, _ => false
        end && bool_decide (mn_nodes (c_net c) = mn_nodes exNet /\ mn_disconnected (c_net c) = mn_disconnected exNet) &&
        bool_decide (map_Forall (λ _ m, currentTerm m + 1 < u64_size) (c_nodes c))
    | None => false
    end = true) by (vm_compute; reflexivity).
  destruct (clean_exec_all exCompacted _) as [c|] eqn:Hc; [|done]. apply andb_true_iff in Hrun as [[Hr Hn]%andb_true_iff Hf].
  destruct (c_nodes c !! "a") as [a|] eqn:Ha; [|done]. destruct (c_nodes c !! "b") as [b|] eqn:Hb; [|done].
  apply bool_decide_eq_true in Hr as (? & ? & ? & ? & ? & ? & ? & ? & ? & Hab). apply bool_decide_eq_true in Hn as (? & ?). apply bool_decide_eq_true in Hf.
  apply clean_exec_all_rtc in Hc. assert (Hcr : clean_reachable exMembers c) by by exists exNet. destruct exMembers_ok.
  exists c, a, b. split_and!; try done; [by right| |by eapply no_abdication_once].
  destruct (c_net c), exNet. simpl in *. by subst.
Qed.

(** The two are a majority for "b". *)
Lemma exBacked (c : Cluster MemoryNetwork) a b :
  c_nodes c !! "a" = Some a -> c_nodes c !! "b" = Some b -> state b <> Leader -> up_to_date b a -> c_net c = exNet ->
  idle exLater a -> (forall j m, c_nodes c !! j = Some m -> currentTerm m + 1 < u64_size) ->
  backed exLater exMembers ["a"; "b"] c "b" b.
Proof.
  intros Ha Hb Hs Hu Hnet Hi Ht. split; [done|done|exact exQuorum|by right; left|simpl; lia| |done].
  intros q [->|[->|[]%elem_of_nil]%elem_of_cons]%elem_of_cons Hq; [|done]. split; [|by exists a].
  apply memory_delivers. by rewrite Hnet.
Qed.

(** C9. A majority that can talk can elect a leader: from every state reached
    by clean steps, a member [i] that is not leading, of at least two members,
    can be elected when it reaches a majority [Q] of the members whose logs are
    no more up to date and who, itself aside, have not heard of a leader for their
    minimum election timeout, whatever stale goroutines and messages there are and
    whoever leads: [Q] grants its pre-votes, its timeouts raise its term, and [Q]
    grants its votes.  The election takes it to the term after the highest of the members,
    with its log as it was and every peer tracked from its end, by clean steps
    only, so the safety properties hold of the state that follows. *)
Theorem majority_can_elect {W : Type} `{!Transport W} (members Q : list string) (c : Cluster W)
    (i : string) (n : RaftNode) (now : Z) :
  NoDup members -> "" ∉ members -> clean_reachable members c -> backed now members Q c i n ->
  exists c' n', rtc clean_step c c' /\ c_nodes c' !! i = Some n' /\ state n' = Leader /\ rlog n' = rlog n /\
    (forall j m, c_nodes c !! j = Some m -> currentTerm m < currentTerm n') /\
    (exists j m, c_nodes c !! j = Some m /\ currentTerm n' = currentTerm m + 1) /\
    (forall p, p ∈ peers n -> mget (nextIndex n') p = log_lastIndex (rlog n) ⊕ 1 /\ mget (matchIndex n') p = 0).
Proof.
  intros Hnd Hne Hr Hb. pose proof (cinv_reachable members c Hnd Hne (clean_reachable_reachable _ _ Hr)) as Hinv.
  destruct (backed_elect members Q c i n now Hinv Hb) as (c' & n1 & T & Hs & _ & _ & Hi & [] & HT & Hmax).
  exists c', (becomeLeader now n1). destruct (becomeLeader_fields now n1) as (F1 & _ & _ & _ & F5 & _ & F7 & _).
  rewrite F5, sd_term0. split_and!; [done|done|done|congruence|done|done|].
  intros p Hin. rewrite <- sd_peers0 in Hin. destruct (becomeLeader_tracking now n1 p Hin) as (E1 & E2 & _).
  by rewrite E1, E2, sd_log0.
Qed.

(** In a state after the first command was committed, "b" can take over
    from the leader "a" with the votes of "a" and its own. *)
Lemma majority_can_elect_witness : exists (c c' : Cluster MemoryNetwork) b a b',
  c_nodes c !! "b" = Some b /\ c_nodes c !! "a" = Some a /\ state a = Leader /\ rtc clean_step c c' /\
  c_nodes c' !! "b" = Some b' /\ state b' = Leader /\ currentTerm a < currentTerm b'.
Proof.
  destruct exReach_run as (c & a & b & Hr & Ha & Hb & Hsa & Hsb & Hu & Hnet & Hb64 & Hi & _). destruct exMembers_ok as [H1 H2].
  destruct (majority_can_elect exMembers ["a"; "b"] c "b" b exLater H1 H2 Hr (exBacked c a b Ha Hb Hsb Hu Hnet Hi Hb64))
    as (c' & b' & Hs & Hb' & Hl & _ & HT & _).
  exists c, c', b, a, b'. split_and!; try done. by eapply HT.
Defined.
