(* ===== verification/Progress.v ===== *)
(** * A majority that can talk can commit a command

    The second half of availability: the leader a majority has elected takes a
    command, finds for each member of the majority the point where the logs
    agree, brings its log up to date and commits the command.  The rounds are
    those of the code: a heartbeat tick, the AppendEntries or InstallSnapshot
    call, its reply.  What the search needs of the two logs holds in every state
    of a clean execution ([aligned]), so it need not be carried along. *)

From S2P Require Import Prelude RaftLog Rpc Disk Node Election Replication ReplicationSafety Snapshot Client Transport Cluster ElectionSafety FullLog LogHistory LogInvariant LogFollowers LogSafety Availability.

(** An AppendEntries call from [i] reaches [q], and its reply comes back. *)
Definition delivers_entries {W} `{!Transport W} (w : W) (i q : string) : Prop :=
  forall now args ns n, ns !! q = Some n ->
    tr_AppendEntries w i q false now args ns =
      (<[q := (HandleAppendEntries now n args).1]> ns, inl (HandleAppendEntries now n args).2).

Lemma memory_delivers_entries (net : MemoryNetwork) i q : mt_lookup net i q = None -> delivers_entries net i q.
Proof. intros Hl now args ns n Hn. simpl. unfold mt_AppendEntries, mt_call. by rewrite Hl, Hn. Qed.

(** The same for InstallSnapshot. *)
Definition delivers_snapshot {W} `{!Transport W} (w : W) (i q : string) : Prop :=
  forall args ns n, ns !! q = Some n ->
    tr_InstallSnapshot w i q false args ns =
      (<[q := (HandleInstallSnapshot n args).1]> ns, inl (HandleInstallSnapshot n args).2).

Lemma memory_delivers_snapshot (net : MemoryNetwork) i q : mt_lookup net i q = None -> delivers_snapshot net i q.
Proof. intros Hl args ns n Hn. simpl. unfold mt_InstallSnapshot, mt_call. by rewrite Hl, Hn. Qed.

(** ** A leader in contact with everybody *)

(** A leader of term [T] with log [l] and peers [ps] that heard of all of them
    just now, and tracks them within its log. *)
Record presides (now T : Z) (l : Log) (ps : list string) (L : RaftNode) : Prop := {
  pr_state : state L = Leader;
  pr_term : currentTerm L = T;
  pr_log : rlog L = l;
  pr_peers : peers L = ps;
  pr_timeout : 0 < durationMs (cfg_ElectionTimeoutMaxMs (config L));
  pr_heard : forall p, p ∈ ps -> lastHeardFrom L !! p = Some now;
  pr_next : forall p, p ∈ ps -> 1 <= mget (nextIndex L) p <= log_lastIndex l + 1;
  pr_match : forall p, p ∈ ps -> mget (matchIndex L) p <= log_lastIndex l
}.

Lemma heardCount_all now n :
  0 < durationMs (cfg_ElectionTimeoutMaxMs (config n)) -> (forall p, p ∈ peers n -> lastHeardFrom n !! p = Some now) ->
  heardCount now n = S (length (peers n)).
Proof.
  intros Hd Hh. unfold heardCount. set (f := λ (heard : nat) peer, _). cbv zeta.
  enough (H : forall ps k, ps ⊆ peers n -> foldl f k ps = (k + length ps)%nat) by (rewrite H; [done|set_solver]).
  induction ps as [|p ps IH]; intros k Hps; simpl; [lia|]. rewrite IH by set_solver. subst f. simpl.
  rewrite (Hh p) by set_solver. replace (time_Sub now now) with 0 by (unfold time_Sub, minDuration, maxDuration; lia).
  replace (0 <? _) with true by lia. lia.
Qed.

(** Such a leader does not step down. *)
Lemma presides_tick now T l ps L :
  presides now T l ps L -> ps <> [] -> heartbeatTick now L = sendHeartbeats L.
Proof.
  intros [] Hne. unfold heartbeatTick, checkQuorum. rewrite pr_state0. simpl.
  rewrite heardCount_all by (done || by rewrite pr_peers0).
  destruct (majority_spec (length (peers L))) as [_ Hm]. rewrite pr_peers0 in *.
  destruct ps as [|p ps]; [done|]. rewrite (proj2 (Nat.ltb_ge _ _)); [done|]. simpl in *. lia.
Qed.

Lemma presides_heartbeat now T l ps L k : presides now T l ps L -> presides now T l ps (set_heartbeatsSent k L).
Proof. by intros []. Qed.

(** A rejection moves [nextIndex] of the peer only. *)
Lemma presides_reject now T l ps L q args reply :
  presides now T l ps L -> aer_Term reply = T -> aer_Success reply = false ->
  1 <= nextIndexAfterConflict L reply <= log_lastIndex l + 1 ->
  let L' := sendToPeer_reply now L q T args reply in
  presides now T l ps L' /\ mget (nextIndex L') q = nextIndexAfterConflict L reply /\
  matchIndex L' = matchIndex L /\ forall p, p <> q -> mget (nextIndex L') p = mget (nextIndex L) p.
Proof.
  intros [] HT Hs Hr. unfold sendToPeer_reply. rewrite HT, pr_state0, pr_term0, Hs, Z.eqb_refl, Z.gtb_ltb, Z.ltb_irrefl.
  simpl. split_and!; [|by rewrite mget_insert|done|intros p Hp; by rewrite mget_insert_ne]. split; try done; simpl.
  - intros p Hp. destruct (decide (q = p)) as [->|]; [by rewrite lookup_insert_eq|rewrite lookup_insert_ne by done; auto].
  - intros p Hp. destruct (decide (q = p)) as [->|]; [by rewrite mget_insert|rewrite mget_insert_ne by done; auto].
Qed.

(** A snapshot at the boundary of the log takes [matchIndex] there. *)
Lemma presides_snapshot now T l ps L q args :
  presides now T l ps L -> q ∈ ps -> log_wf l -> is_LastIncludedIndex args = log_snapshotIndex l ->
  mget (matchIndex L) q <= log_snapshotIndex l ->
  let L' := sendSnapshotToPeer_reply L q T args (mkInstallSnapshotReply T) in
  presides now T l ps L' /\ mget (nextIndex L') q = log_snapshotIndex l + 1 /\
  mget (matchIndex L') q = log_snapshotIndex l /\
  forall p, p <> q -> mget (matchIndex L') p = mget (matchIndex L) p /\ mget (nextIndex L') p = mget (nextIndex L) p.
Proof.
  intros [] Hq Hwf Hi Hm. pose proof (wf_lastIndex_range _ Hwf). pose proof (wf_snapshotIndex _ Hwf).
  unfold sendSnapshotToPeer_reply. rewrite pr_state0, pr_term0, Hi, Z.eqb_refl. simpl. rewrite Z.gtb_ltb, Z.ltb_irrefl.
  set (L1 := if log_snapshotIndex l >? mget (matchIndex L) q then _ else _).
  assert (H1 : mget (matchIndex L1) q = log_snapshotIndex l /\
    (forall p, p <> q -> mget (matchIndex L1) p = mget (matchIndex L) p) /\
    state L1 = Leader /\ currentTerm L1 = T /\ rlog L1 = l /\ peers L1 = ps /\ config L1 = config L /\
    nextIndex L1 = nextIndex L /\ lastHeardFrom L1 = lastHeardFrom L).
  { subst L1. destruct (log_snapshotIndex l >? mget (matchIndex L) q) eqn:E; split_and!; try done; simpl; [by rewrite mget_insert| |lia].
    intros p Hp. by rewrite mget_insert_ne. }
  clearbody L1. destruct H1 as (M1 & M2 & S1 & S2 & S3 & S4 & S5 & S6 & S7). rewrite M1.
  assert (Hn : log_snapshotIndex l ⊕ 1 = log_snapshotIndex l + 1) by u64_lia.
  simpl. rewrite S6, mget_insert, Hn. split_and!; [|done|done|].
  - split; simpl; rewrite ?S1, ?S2, ?S3, ?S4, ?S5, ?S7; try done.
    + intros p Hp. destruct (decide (q = p)) as [->|]; [rewrite mget_insert; lia|rewrite mget_insert_ne by done; auto].
    + intros p Hp. destruct (decide (p = q)) as [->|]; [lia|]. rewrite M2 by done. auto.
  - intros p Hp. rewrite M2, mget_insert_ne by done. done.
Qed.

(** A match takes [matchIndex] of the peer to the end of the log, and commits. *)
Lemma presides_accept now T l ps L q args :
  presides now T l ps L -> q ∈ ps -> log_wf l -> le_Term (log_get l (log_lastIndex l)) = T ->
  ae_PrevLogIndex args + lenZ (ae_Entries args) = log_lastIndex l ->
  let L' := sendToPeer_reply now L q T args (mkAppendEntriesReply T true 0 0) in
  presides now T l ps L' /\ mget (matchIndex L') q = log_lastIndex l /\
  (forall p, p <> q -> mget (matchIndex L') p = mget (matchIndex L) p /\ mget (nextIndex L') p = mget (nextIndex L) p) /\
  settled L'.
Proof.
  intros [] Hq Hwf Hlast Hlen.
  destruct (reply_accept_commit now L q args (mkAppendEntriesReply T true 0 0)) as (R1 & R2 & R3 & R4 & R5 & R6 & R7 & R8 & R9 & R10 & R11);
    rewrite ?pr_log0, ?pr_term0, ?pr_peers0; try done.
  rewrite pr_log0, pr_term0 in *. set (L' := sendToPeer_reply _ _ _ _ _ _) in *. clearbody L'.
  pose proof (wf_lastIndex_range _ Hwf). pose proof (wf_snapshotIndex _ Hwf).
  split_and!; [|done| |done].
  - split; rewrite ?R1, ?R2, ?R3, ?R4, ?R5, ?R6; try done.
    + intros p Hp. destruct (decide (q = p)) as [->|]; [by rewrite lookup_insert_eq|rewrite lookup_insert_ne by done; auto].
    + intros p Hp. destruct (decide (p = q)) as [->|Hpq]; [rewrite R8; u64_lia|]. destruct (R9 p Hpq) as [_ ->]. auto.
    + intros p Hp. destruct (decide (p = q)) as [->|Hpq]; [by rewrite R7|]. destruct (R9 p Hpq) as [-> _]. auto.
  - done.
Qed.

(** ** What the search needs of the two logs *)

(** Terms do not decrease along a log. *)
Lemma gterm_mono h g j k : hist_ok h -> log_ok h g -> (j <= k <= length g)%nat -> gterm g j <= gterm g k.
Proof.
  intros Hh Hg Hjk. destruct k as [|k]; [by replace j with 0%nat by lia|].
  destruct (lookup_lt_is_Some_2 g k) as [f Hf]; [lia|]. destruct (Hg k f Hf) as (l & Hl & Hp).
  destruct (Hh _ _ Hl). rewrite (gterm_Some _ _ _ Hf). destruct j as [|j]; [simpl; lia|].
  destruct (lookup_lt_is_Some_2 g j) as [e He]; [lia|]. rewrite (gterm_Some _ _ _ He).
  apply (ll_sorted j k e f); [lia|..]; eapply prefix_lookup_Some; try exact Hp; by rewrite lookup_take_lt by lia.
Qed.

(** Logs of one history agree below an entry of one of them that has the term of
    an entry of the other. *)
Lemma full_same_history h l1 g1 l2 g2 :
  full l1 g1 -> full l2 g2 -> log_ok h g1 -> log_ok h g2 -> same_history l1 l2.
Proof.
  intros F1 F2 H1 H2 i j x y Hx Hy Hxy Hij Hi.
  destruct (full_view_term _ _ F2 _ _ Hx) as (Ri & _ & Tx). destruct (full_view_term _ _ F1 _ _ Hy) as (Rj & _ & Ty).
  destruct (proj2 (view_is_Some l1 ltac:(by eapply full_wf) i)) as [z Hz]; [rewrite (full_lastIndex _ _ F1); lia|].
  exists z. split; [done|]. destruct (full_view_term _ _ F1 _ _ Hz) as (_ & _ & ->). rewrite Tx.
  destruct (decide (i = 0)) as [->|Hi0]; [done|]. unfold lenZ in *.
  destruct (Z.to_nat i) as [|a] eqn:Ea; [lia|]. destruct (Z.to_nat j) as [|b] eqn:Eb; [lia|].
  destruct (lookup_lt_is_Some_2 g2 a) as [x' Hx']; [lia|]. destruct (lookup_lt_is_Some_2 g1 b) as [y' Hy']; [lia|].
  rewrite (gterm_Some _ _ _ Hx') in *. rewrite (gterm_Some _ _ _ Hy') in Ty.
  destruct (H1 _ _ Hy') as (L & HL & P1). destruct (H2 _ _ Hx') as (L' & HL' & P2).
  assert (L' = L) as -> by congruence. apply gterm_Some.
  assert (E2 : L !! a = Some x') by (eapply prefix_lookup_Some; [|exact P2]; rewrite lookup_take_lt by lia; exact Hx').
  assert (Ha : (a < length (take (S b) g1))%nat) by (rewrite length_take; lia).
  rewrite <- E2, <- (prefix_lookup_lt _ _ a Ha P1). by rewrite lookup_take_lt by lia.
Qed.

(** A leader and a member it can bring up to date: the member's boundary is
    within the leader's log and, unless compacted there, has the same term. *)
Record aligned (L F : RaftNode) : Prop := {
  al_leader : log_wf (rlog L);
  al_wf : log_wf (rlog F);
  al_history : same_history (rlog L) (rlog F);
  al_reach : log_snapshotIndex (rlog F) <= log_lastIndex (rlog L);
  al_bottom : forall k e, log_view (rlog F) !! k = Some e -> log_snapshotTerm (rlog F) <= le_Term e;
  al_boundary : log_snapshotIndex (rlog L) <= log_snapshotIndex (rlog F) ->
    exists b, log_view (rlog L) !! log_snapshotIndex (rlog F) = Some b /\ le_Term b = log_snapshotTerm (rlog F) /\
      forall k e, k <= log_snapshotIndex (rlog F) -> log_view (rlog L) !! k = Some e -> le_Term e <= le_Term b
}.

Lemma lninv_aligned members h G ns vs i q L F :
  lninv members h G ns vs -> ns !! i = Some L -> ns !! q = Some F -> state L = Leader ->
  currentTerm F <= currentTerm L -> aligned L F.
Proof.
  intros Hli HL HF Hs HT. pose proof (li_hist _ _ _ _ _ Hli) as Hh.
  pose proof (li_node _ _ _ _ _ Hli i L HL) as HnL. pose proof (li_node _ _ _ _ _ Hli q F HF) as HnF.
  pose proof (ln_full _ _ _ _ _ HnL) as FL. pose proof (ln_full _ _ _ _ _ HnF) as FF.
  pose proof (ln_range _ _ _ _ _ HnF) as Hrg. pose proof (fu_snap _ _ FF) as HsF.
  destruct (committed_leader h members _ Hh (lninv_elections _ _ _ _ _ Hli) _ _ _ _ _
    (ln_commit _ _ _ _ _ HnF) HT (ld_log _ _ _ _ (ln_leader _ _ _ _ _ HnL Hs))) as [Hk Hpre].
  pose proof (prefix_length _ _ Hpre) as Hpl. rewrite length_take in Hpl.
  pose proof (full_lastIndex _ _ FL) as Hlast. unfold lenZ in *.
  assert (Hb : gterm (G i) (Z.to_nat (log_snapshotIndex (rlog F))) = log_snapshotTerm (rlog F)).
  { rewrite (fu_term _ _ FF), (gterm_prefix _ _ _ Hpre) by (rewrite length_take; lia). by rewrite gterm_take by lia. }
  split; [by eapply full_wf|by eapply full_wf| |lia|..].
  - eapply full_same_history; [done|done|apply HnL|apply HnF].
  - intros k e (R & Hsk & ->)%(full_view_term _ _ FF). rewrite (fu_term _ _ FF). unfold lenZ in R.
    eapply gterm_mono; [done|apply HnF|lia].
  - intros Hle. destruct (proj2 (view_is_Some (rlog L) (full_wf _ _ FL) (log_snapshotIndex (rlog F)))) as [b Hv]; [lia|].
    destruct (full_view_term _ _ FL _ _ Hv) as (_ & _ & Tb). exists b. split; [done|]. rewrite Tb. split; [done|].
    intros k e Hke (R & _ & ->)%(full_view_term _ _ FL). eapply gterm_mono; [done|apply HnL|lia].
Qed.

(** ** Rounds *)

Section rounds.
Context {W : Type} `{!Transport W} (members : list string) (Hnd : NoDup members) (Hne : "" ∉ members).
Context (i : string) (now T : Z) (l : Log) (ps : list string).
Implicit Types c : Cluster W.

(** The states the rounds go through. *)
Definition sound c : Prop := clean_reachable members c /\ votes_once (c_votes c).

Lemma sound_steps c c' : sound c -> rtc clean_step c c' -> c_votes c' = c_votes c -> sound c'.
Proof using. intros [[w Hr] Ho] Hs E. split; [|by rewrite E]. exists w. by transitivity c. Qed.

Lemma sound_aligned c q L F :
  sound c -> c_nodes c !! i = Some L -> c_nodes c !! q = Some F -> state L = Leader ->
  currentTerm F <= currentTerm L -> aligned L F.
Proof using Hnd Hne.
  intros [Hr Ho] HL HF. destruct (linv_reachable members c Hnd Hne Hr Ho) as (h & G & Hl).
  by eapply lninv_aligned; [apply Hl|..].
Qed.

Lemma sound_disk c q F : sound c -> c_nodes c !! q = Some F -> disk_ok F.
Proof using Hnd Hne.
  intros [Hr _] HF. destruct (cinv_reachable members c Hnd Hne (clean_reachable_reachable _ _ Hr)) as [Hinv _].
  by apply (no_disk _ _ _ (ni_node _ _ _ _ Hinv q F HF)).
Qed.

(** What a round for [q] leaves alone. *)
Record beside (q : string) c c' (L L' : RaftNode) : Prop := {
  bs_steps : rtc clean_step c c';
  bs_net : c_net c' = c_net c;
  bs_votes : c_votes c' = c_votes c;
  bs_track : forall p, p <> q -> mget (matchIndex L') p = mget (matchIndex L) p /\ mget (nextIndex L') p = mget (nextIndex L) p;
  bs_nodes : forall j, j <> i -> j <> q -> c_nodes c' !! j = c_nodes c !! j
}.

Lemma beside_trans q c1 c2 c3 L1 L2 L3 : beside q c1 c2 L1 L2 -> beside q c2 c3 L2 L3 -> beside q c1 c3 L1 L3.
Proof using.
  intros [A1 A2 A3 A4 A5] [B1 B2 B3 B4 B5]. split; [by etransitivity|congruence|congruence|..].
  - intros p Hp. destruct (A4 p Hp), (B4 p Hp). split; congruence.
  - intros j H1 H2. rewrite B5, A5 by done. done.
Qed.

(** The follower [q] still has to be brought up to date: its boundary is below
    what the leader sends next or below the leader's own, in which case its entry
    there, if it has one, is the one the leader has compacted. *)
Record pending (q : string) c (L F : RaftNode) : Prop := {
  pd_sound : sound c;
  pd_leader : c_nodes c !! i = Some L;
  pd_presides : presides now T l ps L;
  pd_follower : c_nodes c !! q = Some F;
  pd_peer : q ∈ ps;
  pd_other : q <> i;
  pd_term : currentTerm F <= T;
  pd_match : mget (matchIndex L) q <= log_snapshotIndex l;
  pd_next : log_snapshotIndex l <= log_snapshotIndex (rlog F) -> log_snapshotIndex (rlog F) < mget (nextIndex L) q;
  pd_clean : log_snapshotIndex (rlog F) < log_snapshotIndex l <= log_lastIndex (rlog F) ->
    le_Term (log_get (rlog F) (log_snapshotIndex l)) = log_snapshotTerm l;
  pd_entries : delivers_entries (c_net c) i q;
  pd_snapshots : delivers_snapshot (c_net c) i q
}.

Lemma pending_aligned q c L F : pending q c L F -> aligned L F.
Proof using Hnd Hne.
  intros []. destruct pd_presides0. eapply sound_aligned; [done|done|done|done|lia].
Qed.

(** The tick starts a goroutine for [q]. *)
Lemma tick_step c L q :
  c_nodes c !! i = Some L -> presides now T l ps L -> q ∈ ps ->
  exists c1 tid, clean_step c c1 /\ c_net c1 = c_net c /\ c_votes c1 = c_votes c /\
    c_nodes c1 = <[i := set_heartbeatsSent (heartbeatsSent L ⊕ 1) L]> (c_nodes c) /\
    c_threads c1 !! tid = Some (thread_of i (dispatch L T q)).
Proof using.
  intros HL Hp Hq.
  assert (Htick : exec (LTick i now) c = Some (set_abdicated (c_abdicated c)
    (set_threads (spawn (map (thread_of i) (map (dispatch L T) ps)) (c_threads c))
      (set_nodes (<[i := set_heartbeatsSent (heartbeatsSent L ⊕ 1) L]> (c_nodes c)) c)))).
  { simpl. rewrite HL. simpl. rewrite (presides_tick _ _ _ _ _ Hp) by (by intros ->; apply elem_of_nil in Hq).
    unfold sendHeartbeats. rewrite (pr_term _ _ _ _ _ Hp), (pr_peers _ _ _ _ _ Hp).
    rewrite decide_False; [done|]. intros [_ Hs]. change (state L = Follower) in Hs.
    by rewrite (pr_state _ _ _ _ _ Hp) in Hs. }
  destruct (spawn_started (map (thread_of i) (map (dispatch L T) ps)) (c_threads c) (thread_of i (dispatch L T q)))
    as [tid Ht].
  { by do 2 apply list_elem_of_fmap_2. }
  eexists _, tid. split; [by eapply (clean_exec (LTick i now)); [|exact Htick]|done].
Qed.

(** One round with entries: the call to [q] and its reply. *)
Lemma append_steps c L F q :
  c_nodes c !! i = Some L -> presides now T l ps L -> log_snapshotIndex l < mget (nextIndex L) q ->
  c_nodes c !! q = Some F -> q ∈ ps -> q <> i -> delivers_entries (c_net c) i q ->
  let args := buildArgsLocked L q in
  let r := HandleAppendEntries now F args in
  exists c', rtc clean_step c c' /\ c_net c' = c_net c /\ c_votes c' = c_votes c /\
    c_nodes c' = <[i := sendToPeer_reply now (set_heartbeatsSent (heartbeatsSent L ⊕ 1) L) q T args r.2]>
      (<[q := r.1]> (c_nodes c)).
Proof using.
  intros HL Hp Hsn HF Hq Hqi Hd args r.
  destruct (tick_step c L q HL Hp Hq) as (c1 & tid & Hs & Hnet & Hvs & Hns & Hth).
  unfold dispatch in Hth. rewrite (pr_log _ _ _ _ _ Hp) in Hth. replace (_ <=? _) with false in Hth by lia.
  cbn [thread_of] in Hth. fold args in Hth.
  assert (HF1 : c_nodes c1 !! q = Some F) by (by rewrite Hns, lookup_insert_ne).
  eexists. split; [|split; [|split]].
  - eapply rtc_l; [exact Hs|].
    eapply rtc_l; [eapply (clean_exec (LAppendRequest tid false now)); [done|]|eapply rtc_once, (clean_exec (LAppendReply tid now)); [done|]].
    + simpl. rewrite Hth, Hnet, (Hd now args _ F HF1). reflexivity.
    + simpl. rewrite lookup_insert_eq, Hns. rewrite lookup_insert_ne, lookup_insert_eq by done. reflexivity.
  - exact Hnet.
  - exact Hvs.
  - simpl. by rewrite (insert_insert_ne _ q i), insert_insert_eq.
Qed.

(** One round with a snapshot. *)
Lemma snapshot_steps c L F q :
  c_nodes c !! i = Some L -> presides now T l ps L -> mget (nextIndex L) q <= log_snapshotIndex l ->
  c_nodes c !! q = Some F -> q ∈ ps -> q <> i -> delivers_snapshot (c_net c) i q ->
  clean_install F (buildSnapshotArgsLocked L) ->
  let args := buildSnapshotArgsLocked L in
  let r := HandleInstallSnapshot F args in
  exists c', rtc clean_step c c' /\ c_net c' = c_net c /\ c_votes c' = c_votes c /\
    c_nodes c' = <[i := sendSnapshotToPeer_reply (set_heartbeatsSent (heartbeatsSent L ⊕ 1) L) q T args r.2]>
      (<[q := r.1]> (c_nodes c)).
Proof using.
  intros HL Hp Hsn HF Hq Hqi Hd Hcl args r.
  destruct (tick_step c L q HL Hp Hq) as (c1 & tid & Hs & Hnet & Hvs & Hns & Hth).
  unfold dispatch in Hth. rewrite (pr_log _ _ _ _ _ Hp) in Hth. replace (_ <=? _) with true in Hth by lia.
  cbn [thread_of] in Hth. fold args in Hth.
  assert (HF1 : c_nodes c1 !! q = Some F) by (by rewrite Hns, lookup_insert_ne).
  eexists. split; [|split; [|split]].
  - eapply rtc_l; [exact Hs|].
    eapply rtc_l; [eapply (clean_exec (LSnapRequest tid false))|eapply rtc_once, (clean_exec (LSnapReply tid)); [done|]].
    + simpl. rewrite Hth, HF1. by apply bool_decide_eq_true.
    + simpl. rewrite Hth, Hnet, (Hd args _ F HF1). reflexivity.
    + simpl. rewrite lookup_insert_eq, Hns. rewrite lookup_insert_ne, lookup_insert_eq by done. reflexivity.
  - exact Hnet.
  - exact Hvs.
  - simpl. by rewrite (insert_insert_ne _ q i), insert_insert_eq.
Qed.

(** The rounds for [q] are over. *)
Record caught_up (q : string) c (L : RaftNode) : Prop := {
  cu_sound : sound c;
  cu_leader : c_nodes c !! i = Some L;
  cu_presides : presides now T l ps L;
  cu_settled : settled L;
  cu_match : mget (matchIndex L) q = log_lastIndex l
}.

(** A round with entries ends the search or takes [nextIndex] back, though never
    to the follower's boundary if the leader still has that. *)
Lemma append_round q c L F :
  log_wf l -> le_Term (log_get l (log_lastIndex l)) = T ->
  pending q c L F -> log_snapshotIndex l < mget (nextIndex L) q ->
  exists c' L', beside q c c' L L' /\
    (caught_up q c' L' \/ mget (nextIndex L') q < mget (nextIndex L) q /\
     exists F', pending q c' L' F' /\ rlog F' = rlog F).
Proof using Hnd Hne.
  intros Hwf Hlast Hpd Hsn. pose proof (pending_aligned _ _ _ _ Hpd) as []. destruct Hpd.
  pose proof (pr_next _ _ _ _ _ pd_presides0 q pd_peer0) as Hnext. pose proof (pr_log _ _ _ _ _ pd_presides0) as Hl.
  pose proof (pr_term _ _ _ _ _ pd_presides0) as HT. rewrite Hl in *.
  destruct (append_steps c L F q) as (c1 & Hr & Hnet & Hvs & Hns); [done..|].
  assert (Hsend : sendable L q) by (split; rewrite Hl; [done|lia]).
  assert (Hp1 := presides_heartbeat _ _ _ _ _ (heartbeatsSent L ⊕ 1) pd_presides0).
  assert (Hoth : forall j, j <> i -> j <> q -> c_nodes c1 !! j = c_nodes c !! j).
  { intros j Hji Hjq. by rewrite Hns, !lookup_insert_ne. }
  assert (Hsd : sound c1) by by eapply sound_steps.
  exists c1. destruct (exchange_cases now L F q) as [(E1 & E2 & E3 & E4 & (F0 & HF0 & Hcc) & E5)|[E _]]; rewrite ?Hl, ?HT; try done.
  { destruct (decide (log_snapshotIndex l <= log_snapshotIndex (rlog F))); [auto|lia]. }
  - set (args := buildArgsLocked L q) in *. set (r := HandleAppendEntries now F args) in *.
    destruct (presides_reject _ _ _ _ _ q args r.2 Hp1 ltac:(rewrite E2; exact HT) E1) as (Hp2 & Hn2 & Hm2 & Ho2);
      [change (1 <= nextIndexAfterConflict L r.2 <= log_lastIndex l + 1); lia|].
    set (L' := sendToPeer_reply _ _ _ _ _ _) in *. clearbody L'.
    change (mget (nextIndex L') q = nextIndexAfterConflict L r.2) in Hn2.
    exists L'. split; [split; try done; intros p Hp; split; [by rewrite Hm2|by apply Ho2]|].
    right. split; [lia|]. exists r.1. split; [|done].
    split; rewrite ?E3, ?E4, ?Hn2, ?Hm2, ?Hnet; try done; [by rewrite Hns, lookup_insert_eq| |lia|].
    + by rewrite Hns, lookup_insert_ne, lookup_insert_eq.
    + intros Hle. destruct (al_boundary0 Hle) as (b & Hb & Hbt & Hbs). rewrite <- HF0.
      apply (conflict_floor L F0 q r.2 b); rewrite ?HF0, ?Hl; try done; [auto|].
      intros k e Hk. rewrite Hbt. by eapply al_bottom0.
  - rewrite HT in E. rewrite E in Hns.
    destruct (presides_accept _ _ _ _ _ q (buildArgsLocked L q) Hp1 pd_peer0 Hwf Hlast) as (Hp2 & Hm2 & Ho2 & Hst);
      [by rewrite build_length, Hl|].
    eexists. split; [split; [exact Hr|done|done|exact Ho2|done]|]. left.
    split; [done|by rewrite Hns, lookup_insert_eq|done|done|done].
Qed.

(** A round with a snapshot takes the follower to the leader's boundary. *)
Lemma snapshot_round q c L F :
  log_wf l -> pending q c L F -> mget (nextIndex L) q <= log_snapshotIndex l ->
  exists c' L' F', beside q c c' L L' /\ pending q c' L' F' /\
    mget (nextIndex L') q = log_snapshotIndex l + 1 /\ log_snapshotIndex (rlog F') = log_snapshotIndex l.
Proof using Hnd Hne.
  intros Hwf Hpd Hsn. pose proof (al_wf _ _ (pending_aligned _ _ _ _ Hpd)) as HwfF. destruct Hpd.
  pose proof (pr_next _ _ _ _ _ pd_presides0 q pd_peer0) as Hnext. pose proof (pr_log _ _ _ _ _ pd_presides0) as Hl.
  pose proof (pr_term _ _ _ _ _ pd_presides0) as HT. pose proof (wf_lastIndex_range _ Hwf).
  assert (HsF : log_snapshotIndex (rlog F) < log_snapshotIndex l).
  { destruct (decide (log_snapshotIndex l <= log_snapshotIndex (rlog F))) as [Hle|]; [specialize (pd_next0 Hle)|]; lia. }
  set (args := buildSnapshotArgsLocked L).
  assert (Ha : is_Term args = T /\ is_LastIncludedIndex args = log_snapshotIndex l /\ is_LastIncludedTerm args = log_snapshotTerm l)
    by (subst args; unfold buildSnapshotArgsLocked; simpl; by rewrite Hl).
  destruct Ha as (A1 & A2 & A3).
  destruct (snapshot_steps c L F q) as (c1 & Hr & Hnet & Hvs & Hns); [done..| |].
  { intros _. fold args. rewrite A2, A3. exact pd_clean0. }
  fold args in Hns. clearbody args. destruct (HandleInstallSnapshot_current F args) as [Hrep _]; [lia|].
  destruct (install_fields F args HwfF (sound_disk _ _ _ pd_sound0 pd_follower0)) as (I1 & _ & _ & I4 & _); [lia|lia|].
  destruct (HandleInstallSnapshot F args) as [F1 [t]]. simpl in Hrep, I1, I4, Hns. rewrite Hrep, A1 in Hns.
  assert (Hi : log_snapshotIndex (rlog F1) = log_snapshotIndex l).
  { rewrite I4, A2. apply compact_snapshotIndex; [done|unfold is_u64; lia|done]. }
  destruct (presides_snapshot now T l ps (set_heartbeatsSent (heartbeatsSent L ⊕ 1) L) q args) as (P1 & P2 & P3 & P4);
    [by apply presides_heartbeat|done..|].
  set (L' := sendSnapshotToPeer_reply _ _ _ _ _) in *. clearbody L'.
  exists c1, L', F1. split_and!; [|split|done|done].
  - split; [done|done|done|exact P4|]. intros j Hji Hjq. by rewrite Hns, !lookup_insert_ne.
  - by eapply sound_steps.
  - by rewrite Hns, lookup_insert_eq.
  - done.
  - by rewrite Hns, lookup_insert_ne, lookup_insert_eq.
  - done.
  - done.
  - lia.
  - lia.
  - lia.
  - lia.
  - by rewrite Hnet.
  - by rewrite Hnet.
Qed.

(** Rounds until the follower accepts: at most [nextIndex] steps back, then
    perhaps a snapshot, after which the next round is the last. *)
Lemma rounds_converge q fuel : forall c L F,
  log_wf l -> le_Term (log_get l (log_lastIndex l)) = T -> pending q c L F -> mget (nextIndex L) q <= Z.of_nat fuel ->
  exists c' L', beside q c c' L L' /\ caught_up q c' L'.
Proof using Hnd Hne.
  induction fuel as [|fuel IH]; intros c L F Hwf Hlast Hpd Hfuel;
    pose proof (pr_next _ _ _ _ _ (pd_presides _ _ _ _ Hpd) q (pd_peer _ _ _ _ Hpd)) as Hnext; [lia|].
  destruct (decide (log_snapshotIndex l < mget (nextIndex L) q)) as [Hsn|Hsn].
  - destruct (append_round q c L F Hwf Hlast Hpd Hsn) as (c1 & L1 & Hb & [Hcu|(Hlt & F1 & Hpd1 & _)]); [by exists c1, L1|].
    destruct (IH c1 L1 F1) as (c' & L' & Hb' & Hcu); [done|done|done|lia|]. exists c', L'. split; [by eapply beside_trans|done].
  - destruct (snapshot_round q c L F Hwf Hpd ltac:(lia)) as (c1 & L1 & F1 & Hb & Hpd1 & Hn1 & Hs1).
    destruct (append_round q c1 L1 F1 Hwf Hlast Hpd1 ltac:(lia)) as (c2 & L2 & Hb' & [Hcu|(Hlt & F2 & Hpd2 & HF2)]).
    + exists c2, L2. split; [by eapply beside_trans|done].
    + pose proof (pd_next _ _ _ _ Hpd2) as H2. rewrite HF2, Hs1 in H2. lia.
Qed.

(** One member of the majority after the other. *)
Lemma rounds_all qs : forall c L,
  log_wf l -> le_Term (log_get l (log_lastIndex l)) = T -> NoDup qs ->
  c_nodes c !! i = Some L -> presides now T l ps L -> (forall q, q ∈ qs -> exists F, pending q c L F) ->
  exists c' L', rtc clean_step c c' /\ c_nodes c' !! i = Some L' /\ presides now T l ps L' /\
    (qs <> [] -> settled L') /\ (forall q, q ∈ qs -> mget (matchIndex L') q = log_lastIndex l) /\
    (forall p, p ∉ qs -> mget (matchIndex L') p = mget (matchIndex L) p).
Proof using Hnd Hne.
  induction qs as [|q qs IH]; intros c L Hwf Hlast Hq HL Hp Hqs.
  { exists c, L. split_and!; try done. intros q Hin. by apply elem_of_nil in Hin. }
  apply NoDup_cons in Hq as [Hq Hqs1]. destruct (Hqs q) as (F & Hpd); [by left|].
  destruct (rounds_converge q (Z.to_nat (mget (nextIndex L) q)) c L F Hwf Hlast Hpd)
    as (c1 & L1 & Hb1 & [S1 HL1 Hp1 Hst1 Hm1]); [lia|]. pose proof Hb1 as [Hr1 Hnet1 Hvs1 Htr1 Ho1].
  destruct (IH c1 L1 Hwf Hlast Hqs1 HL1 Hp1) as (c' & L' & Hr & HL' & Hp' & Hst & Hma & Hmo).
  { intros p Hpin. assert (Hpq : p <> q) by (by intros ->). destruct (Hqs p) as (Fp & []); [by right|].
    destruct (Htr1 p Hpq) as [E1 E2]. exists Fp. split; rewrite ?Hnet1, ?E1, ?E2; try done. by rewrite Ho1. }
  destruct (decide (qs = [])) as [->|Hqe].
  - exists c1, L1. split_and!; [done|done|done|done| |].
    + intros p [->|Hpn%elem_of_nil]%elem_of_cons; done.
    + intros p Hpn. apply Htr1. set_solver.
  - exists c', L'. split_and!; [by etransitivity|done|done|auto| |].
    + intros p [->|Hpin]%elem_of_cons; [by rewrite Hmo|by apply Hma].
    + intros p Hpn. rewrite Hmo by set_solver. apply Htr1. set_solver.
Qed.
End rounds.

(** What a majority of the members stores is a majority of acknowledgements. *)
Lemma quorum_acks members Q i n (L : RaftNode) k :
  quorum members Q -> i ∈ Q -> node_ok members i n -> peers L = peers n -> k <= log_lastIndex (rlog L) ->
  (forall q, q ∈ Q -> q <> i -> k <= mget (matchIndex L) q) -> (length (peers L) + 1 < 2 * acks L k)%nat.
Proof.
  intros (Hnd & Hsub & Hlen) Hi Hok Hp Hk Hm. destruct (filter_others i Q Hnd Hi) as (Hqnd & _ & _ & Hql).
  set (qs := List.filter _ Q) in *. pose proof (no_size _ _ _ Hok).
  assert (Hqs : forall q, q ∈ qs -> q ∈ Q /\ q <> i).
  { intros q [Hin He%negb_true_iff%String.eqb_neq]%list_elem_of_In%filter_In. by rewrite list_elem_of_In. }
  assert (S (length qs) <= acks L k)%nat; [|rewrite Hp; lia]. apply acks_quorum; [done| |done|].
  - intros q [Hq Hqi]%Hqs. rewrite Hp. by eapply peers_complete; [|apply Hsub|].
  - intros q [Hq Hqi]%Hqs. auto.
Qed.

(** ** A command *)

(** The leader that was just elected takes a command. *)
Lemma submit_step {W} `{!Transport W} (c : Cluster W) i n n1 T now command :
  stands T n n1 -> log_wf (rlog n) -> log_lastIndex (rlog n) + 2 < u64_size ->
  0 < durationMs (cfg_ElectionTimeoutMaxMs (config n)) -> c_nodes c !! i = Some (becomeLeader now n1) ->
  let e := mkLogEntry T (log_lastIndex (rlog n) + 1) command false "" "" in
  exists c' L, clean_step c c' /\ c_net c' = c_net c /\ c_votes c' = c_votes c /\ c_nodes c' = <[i := L]> (c_nodes c) /\
    presides now T (log_append (rlog n) [e]) (peers n) L /\
    forall p, p ∈ peers n -> mget (matchIndex L) p = 0 /\ mget (nextIndex L) p = log_lastIndex (rlog n) + 1.
Proof.
  intros [] Hwf Hb Hto HL e. pose proof (wf_lastIndex_range _ Hwf). pose proof (wf_snapshotIndex _ Hwf).
  destruct (becomeLeader_fields now n1) as (F1 & _ & _ & F4 & F5 & _ & F7 & _ & _ & _ & F11).
  set (L0 := becomeLeader now n1) in *.
  assert (He : mkLogEntry (currentTerm L0) (log_lastIndex (rlog L0) ⊕ 1) command false "" "" = e).
  { rewrite F5, F7, sd_term, sd_log, u64_small by (unfold is_u64; lia). done. }
  assert (Hla : log_lastIndex (log_append (rlog n) [e]) = log_lastIndex (rlog n) + 1)
    by (apply (append_lastIndex _ [e]); [done|unfold lenZ; simpl; lia]).
  set (L := persist (set_rlog (log_append (rlog L0) [e]) L0)).
  eexists _, L. split.
  - apply (clean_exec (LSubmit i command)); [simpl; rewrite HL; change (rlog (becomeLeader now n1)) with (rlog L0); rewrite F7, sd_log; lia|].
    simpl. rewrite HL. simpl. unfold Submit. fold L0. rewrite F1. simpl. rewrite He. reflexivity.
  - split; [done|]. split; [done|]. split; [done|]. assert (HLf : state L = state L0 /\ currentTerm L = currentTerm L0 /\ rlog L = log_append (rlog L0) [e] /\
      peers L = peers L0 /\ config L = config L0 /\ lastHeardFrom L = lastHeardFrom L0 /\ nextIndex L = nextIndex L0 /\
      matchIndex L = matchIndex L0) by done.
    destruct HLf as (E1 & E2 & E3 & E4 & E5 & E6 & E7 & E8).
    assert (Htr : forall p, p ∈ peers n -> _) by (intros p Hp; rewrite <- sd_peers in Hp; exact (becomeLeader_tracking now n1 p Hp)).
    fold L0 in Htr. split; [split|]; rewrite ?E1, ?E2, ?E3, ?E4, ?E5, ?E6, ?E7, ?E8; try congruence.
    + intros p Hp. apply Htr, Hp.
    + intros p Hp. destruct (Htr p Hp) as (-> & _). rewrite Hla, sd_log, u64_small by (unfold is_u64; lia). lia.
    + intros p Hp. destruct (Htr p Hp) as (_ & -> & _). rewrite Hla. lia.
    + intros p Hp. destruct (Htr p Hp) as (-> & -> & _). by rewrite sd_log, u64_small by (unfold is_u64; lia).
Qed.

(** The members of the majority can be brought up to date with that log. *)
Lemma follower_ready {W} `{!Transport W} members (c1 c2 : Cluster W) i q n n1 F L now T e :
  NoDup members -> "" ∉ members -> sound members c1 -> clean_step c1 c2 -> c_votes c2 = c_votes c1 -> c_net c2 = c_net c1 ->
  c_nodes c1 !! i = Some (becomeLeader now n1) -> stands T n n1 -> c_nodes c2 = <[i := L]> (c_nodes c1) ->
  presides now T (log_append (rlog n) [e]) (peers n) L -> log_wf (rlog n) ->
  mget (matchIndex L) q = 0 -> mget (nextIndex L) q = log_lastIndex (rlog n) + 1 ->
  c_nodes c1 !! q = Some F -> q ∈ peers n -> q <> i -> currentTerm F <= T ->
  (log_snapshotIndex (rlog F) < log_snapshotIndex (rlog n) <= log_lastIndex (rlog F) ->
     le_Term (log_get (rlog F) (log_snapshotIndex (rlog n))) = log_snapshotTerm (rlog n)) ->
  delivers_entries (c_net c1) i q -> delivers_snapshot (c_net c1) i q ->
  pending members i now T (log_append (rlog n) [e]) (peers n) q c2 L F.
Proof.
  intros Hnd Hne Hs Hst Hvs Hnet Hi [] Hns Hp Hwf Hm Hn HF Hq Hqi HT Hcl Hd1 Hd2.
  destruct (becomeLeader_fields now n1) as (F1 & _ & _ & _ & F5 & _ & F7 & _).
  pose proof (wf_snapshotIndex _ Hwf).
  assert (Hal : aligned (becomeLeader now n1) F) by (eapply sound_aligned; [done..|]; by rewrite F5, sd_term).
  apply al_reach in Hal. rewrite F7, sd_log in Hal.
  assert (Hfst : log_snapshotIndex (log_append (rlog n) [e]) = log_snapshotIndex (rlog n) /\
    log_snapshotTerm (log_append (rlog n) [e]) = log_snapshotTerm (rlog n)).
  { unfold log_snapshotIndex, log_snapshotTerm. by rewrite first_append. }
  destruct Hfst as [E1 E2].
  split; rewrite ?E1, ?E2, ?Hm, ?Hn, ?Hnet; try done; try lia.
  - eapply sound_steps; [done|by apply rtc_once|done].
  - by rewrite Hns, lookup_insert_eq.
  - by rewrite Hns, lookup_insert_ne.
Qed.

(** C8. A majority that can talk can commit: from every state reached by clean
    steps in which nobody has voted twice in a term, a member that is not leading
    and reaches a majority [Q] of members that are no more up to date and have not
    heard of a leader for their minimum election timeout can win their pre-votes
    and votes and can then commit any command it is given, also when logs are compacted:
    then members of [Q] that are behind the compaction point get the snapshot.
    (The entry a member of [Q] has at that point, if any, must be the one that
    was compacted; see Findings.v for what the code does otherwise.)  The command
    is committed at the index after its log, in a term above those of all
    members, and what the log held before is still there. *)
Theorem majority_can_commit {W : Type} `{!Transport W} (members Q : list string) (c : Cluster W)
    (i : string) (n : RaftNode) (now : Z) (command : bytes) :
  NoDup members -> "" ∉ members -> clean_reachable members c -> votes_once (c_votes c) -> backed now members Q c i n ->
  (forall q, q ∈ Q -> q <> i -> delivers_entries (c_net c) i q /\ delivers_snapshot (c_net c) i q) ->
  (forall q m, q ∈ Q -> c_nodes c !! q = Some m ->
     log_snapshotIndex (rlog m) < log_snapshotIndex (rlog n) <= log_lastIndex (rlog m) ->
     le_Term (log_get (rlog m) (log_snapshotIndex (rlog n))) = log_snapshotTerm (rlog n)) ->
  log_lastIndex (rlog n) + 2 < u64_size -> 0 < durationMs (cfg_ElectionTimeoutMaxMs (config n)) ->
  let k := log_lastIndex (rlog n) + 1 in
  exists c' n', rtc clean_step c c' /\ c_nodes c' !! i = Some n' /\ state n' = Leader /\
    (forall j m, c_nodes c !! j = Some m -> currentTerm m < currentTerm n') /\
    k <= commitIndex n' /\ log_view (rlog n') !! k = Some (mkLogEntry (currentTerm n') k command false "" "") /\
    (forall k', k' < k -> log_view (rlog n') !! k' = log_view (rlog n) !! k').
Proof.
  intros Hnd Hne Hr Ho Hb Hdel Hsnap Hbound Hto k.
  pose proof (cinv_reachable members c Hnd Hne (clean_reachable_reachable _ _ Hr)) as Hinv.
  destruct (backed_elect members Q c i n now Hinv Hb) as (c1 & n1 & T & Hs1 & [Hnet1 Hu1] & Hfr & Hi1 & Hst & HT & j & mj & Hj & HTj).
  destruct Hb as [Hn _ HQ Hi Hsz Hv Ht64]. specialize (Ht64 j mj Hj).
  destruct (linv_reachable members c Hnd Hne Hr Ho) as (h & G & Hl).
  pose proof (full_wf _ _ (ln_full _ _ _ _ _ (li_node _ _ _ _ _ (lv_nodes _ _ _ _ Hl) i n Hn))) as Hwf.
  pose proof (ni_node _ _ _ _ (proj1 Hinv) i n Hn) as Hok. pose proof (no_term _ _ _ Hok). pose proof (HT i n Hn) as HTn.
  assert (Hsd : sound members c1).
  { split; [|by eapply fresh_votes_once]. destruct Hr as [w Hr]. exists w. by transitivity c. }
  destruct (submit_step c1 i n n1 T now command Hst Hwf Hbound Hto Hi1) as (c2 & L & Hs2 & Hnet2 & Hvs2 & Hns2 & Hp & Htr).
  set (e := mkLogEntry T (log_lastIndex (rlog n) + 1) command false "" "") in Hp.
  assert (Hoke : entry_ok e) by (unfold entry_ok; simpl; lia).
  destruct (append_one (rlog n) e Hwf eq_refl Hoke Hbound) as (Hwf2 & Hla & _ & Hve). fold k in Hla, Hve.
  assert (Hte : le_Term (log_get (log_append (rlog n) [e]) k) = T).
  { pose proof (wf_lastIndex_range _ Hwf2). pose proof (wf_snapshotIndex _ Hwf2).
    rewrite get_view, Hve, lookup_insert_eq by (done || unfold is_u64; lia). done. }
  set (qs := List.filter (λ q, negb (String.eqb q i)) Q).
  assert (Hqs : forall q, q ∈ qs <-> q ∈ Q /\ q <> i).
  { intros q. subst qs. by rewrite !list_elem_of_In, filter_In, negb_true_iff, eqb_string_false. }
  destruct (filter_others i Q (proj1 HQ) Hi) as (Hqnd & _ & _ & Hqlen). fold qs in Hqnd, Hqlen.
  destruct (rounds_all members Hnd Hne i now T (log_append (rlog n) [e]) (peers n) qs c2 L Hwf2)
    as (c' & L' & Hs3 & HL' & Hp' & Hset & Hma & _); try done.
  - by rewrite Hla.
  - by rewrite Hns2, lookup_insert_eq.
  - intros q [Hq Hqi]%Hqs. destruct (Hv q Hq Hqi) as (_ & m & Hm & _). pose proof (HT q m Hm).
    destruct (Hu1 q m Hqi Hm) as (m' & Hm' & Hlm & HTm); [lia|]. destruct (Hdel q Hq Hqi) as [D1 D2]. rewrite <- Hnet1 in D1, D2.
    assert (Hqp : q ∈ peers n) by (eapply peers_complete; [done|by apply HQ|done]). destruct (Htr q Hqp).
    exists m'. eapply (follower_ready members c1 c2 i q n n1); rewrite ?Hlm; try done. exact (Hsnap q m Hq Hm).
  - destruct Hp'. exists c', L'. rewrite pr_term0, pr_log0. split_and!; try done.
    + etransitivity; [done|]. by eapply rtc_l.
    + rewrite <- Hla, <- pr_log0. apply Hset.
      * destruct HQ as (_ & _ & HQ). destruct qs; [simpl in *; lia|done].
      * rewrite pr_log0, Hla. eapply (quorum_acks members Q i n); [done|done|done|done|rewrite pr_log0; lia|].
        intros q Hq Hqi. rewrite Hma by by apply Hqs. lia.
    + by rewrite Hve, lookup_insert_eq.
    + intros k' Hk'. rewrite Hve, lookup_insert_ne by lia. done.
Qed.

(** "b", whose log is compacted, takes over from "a" and commits a second
    command. *)
Lemma majority_can_commit_witness : exists (c c' : Cluster MemoryNetwork) a b b',
  c_nodes c !! "a" = Some a /\ state a = Leader /\ c_nodes c !! "b" = Some b /\ log_snapshotIndex (rlog b) = 1 /\
  rtc clean_step c c' /\ c_nodes c' !! "b" = Some b' /\ currentTerm a < currentTerm b' /\ 2 <= commitIndex b' /\
  log_view (rlog b') !! 2 = Some (mkLogEntry (currentTerm b') 2 [Byte.x42] false "" "").
Proof.
  destruct exReach_run as (c & a & b & Hr & Ha & Hb & Hsa & Hsb & Hu & Hnet & Hb64 & Hid & Ho & Sb & Sa & Hlb & Hto).
  destruct exMembers_ok as [H1 H2].
  destruct (majority_can_commit exMembers ["a"; "b"] c "b" b exLater [Byte.x42] H1 H2 Hr Ho (exBacked c a b Ha Hb Hsb Hu Hnet Hid Hb64))
    as (c' & b' & Hs & Hb' & _ & HT & Hc & Hv & _).
  - intros q [->|[->|[]%elem_of_nil]%elem_of_cons]%elem_of_cons Hq; [|done].
    split; [apply memory_delivers_entries|apply memory_delivers_snapshot]; by rewrite Hnet.
  - intros q m [->|[->|[]%elem_of_nil]%elem_of_cons]%elem_of_cons Hm; simplify_eq; rewrite Sb; [done|lia].
  - rewrite Hlb. done.
  - exact Hto.
  - rewrite Hlb in Hc, Hv. exists c, c', a, b, b'. split_and!; try done. by eapply HT.
Defined.
