(* ===== verification/Replicas.v ===== *)
(** * The replicated state machine

    The whole stack: the cluster of Cluster.v with a state machine beside every
    member, fed by its apply loop (raft/apply.go), snapshotted by its owner
    (kvstore/kvstore.go) and restored from the snapshots a leader sends and from
    disk at a restart.  What it promises: every member's machine is in a state of
    one machine that executes the decided log.

    An entry is applied, and a snapshot taken, in one step; what happens when
    they overlap, when a commit signal overtakes a snapshot and when a snapshot
    arrives that is older than what was applied is in Findings.v, and is left out
    here by [orderly]. *)

From S2P Require Import Prelude RaftLog Rpc Disk Node Election Replication ReplicationSafety Snapshot Client Apply Transport Cluster ElectionSafety FullLog LogHistory LogInvariant LogSteps LogFollowers LogLeaders LogSafety Consensus.

(** What a machine owes to its snapshots: a restored snapshot is the state it
    was taken from, whatever the machine was before. *)
Class SnapshotLaw (S R : Type) `{!StateMachine S R} :=
  restore_snapshot : forall (s s' : S) d, sm_Snapshot s = Some d -> (sm_Restore d s').1 = s.

(** ** Steps *)

Section replicated.
Context {W : Type} `{!Transport W} {S R : Type} `{!StateMachine S R} (s0 : S).

Record Replicated := mkReplicated { rp_cluster : Cluster W; rp_machines : gmap string S }.

(** What a step of the cluster does to the machines: the entry that is applied,
    the snapshot that is restored, and the new process with an empty machine or
    the snapshot on its disk. *)
Definition machines_after (lbl : label) (c : Cluster W) (ms : gmap string S) : gmap string S :=
  match lbl with
  | LApply i =>
      match c_nodes c !! i with
      | Some n => alter (λ s, (sm_Apply (le_Command (log_get (rlog n) (lastApplied n ⊕ 1))) s).2) i ms
      | None => ms
      end
  | LRestore i =>
      match c_nodes c !! i ≫= snapshotNotifyC with
      | Some p => alter (λ s, (sm_Restore (sta_data p) s).1) i ms
      | None => ms
      end
  | LRestart i =>
      match c_nodes c !! i with
      | Some n =>
          <[i := match (boot (config n) (disk n)).2 with
                 | Some d => (sm_Restore d s0).1
                 | None => s0
                 end]> ms
      | None => ms
      end
  | _ => ms
  end.

(** No snapshot waits to be restored. *)
Definition restored (i : string) (c : Cluster W) : bool :=
  match c_nodes c !! i ≫= snapshotNotifyC with Some _ => false | None => true end.

(** The conditions on the order of steps. *)
Definition orderly (lbl : label) (c : Cluster W) (ms : gmap string S) : bool :=
  match lbl with
  | LApply i => restored i c
  | LTakeSnapshot i data => restored i c && bool_decide ((ms !! i ≫= sm_Snapshot) = Some data)
  | LSnapRequest tid _ =>
      match c_threads c !! tid with
      | Some (TSnapReq _ p _ args) =>
          match c_nodes c !! p with
          | Some n => negb (log_snapshotIndex (rlog n) <? is_LastIncludedIndex args) ||
              (lastApplied n <=? is_LastIncludedIndex args)
          | None => true
          end
      | _ => true
      end
  | _ => true
  end.

Inductive rstep : Replicated -> Replicated -> Prop :=
  | rstep_exec lbl c c' ms : clean c lbl = true -> orderly lbl c ms = true -> exec lbl c = Some c' ->
      rstep (mkReplicated c ms) (mkReplicated c' (machines_after lbl c ms))
  | rstep_net w c ms : rstep (mkReplicated c ms) (mkReplicated (set_net w c) ms).

Fixpoint replicated_exec_all (ls : list label) (x : Replicated) : option Replicated :=
  match ls with
  | [] => Some x
  | l :: ls =>
      let '(mkReplicated c ms) := x in
      if clean c l && orderly l c ms
      then c' ← exec l c; replicated_exec_all ls (mkReplicated c' (machines_after l c ms))
      else None
  end.

Lemma replicated_exec_all_rtc ls x y : replicated_exec_all ls x = Some y -> rtc rstep x y.
Proof using.
  revert x. induction ls as [|l ls IH]; intros [c ms]; simpl; [intros [= ->]; done|].
  destruct (clean c l) eqn:Hc; [|done]. destruct (orderly l c ms) eqn:Ho; [|done]. simpl.
  destruct (exec l c) as [c1|] eqn:He; simpl; [|done]. intros H. eapply rtc_l; [by eapply rstep_exec|by apply IH].
Qed.

Definition initReplicated (w : W) (members : list string) : Replicated :=
  mkReplicated (initCluster w members) (list_to_map (map (λ i, (i, s0)) members)).

Definition replicated_reachable (members : list string) (x : Replicated) : Prop :=
  exists w, rtc rstep (initReplicated w members) x.
End replicated.
Arguments Replicated W S : clear implicits.

(** ** What most steps leave alone *)

(** The applied index, the waiting snapshot and the snapshot file. *)
Record still (n n' : RaftNode) : Prop := {
  st_applied : lastApplied n' = lastApplied n;
  st_notify : snapshotNotifyC n' = snapshotNotifyC n;
  st_file : disk_ok n -> disk_ok n' /\ files (disk n') !! snapshotPath = files (disk n) !! snapshotPath
}.

#[export] Instance still_preorder : PreOrder still.
Proof.
  split.
  - intros n. by split.
  - intros n1 n2 n3 [A1 A2 A3] [B1 B2 B3]. split; [congruence|congruence|]. intros Hd.
    destruct (A3 Hd) as [Hd2 E]. destruct (B3 Hd2) as [? E2]. split; [done|congruence].
Qed.

Lemma still_frame n n' :
  lastApplied n' = lastApplied n -> snapshotNotifyC n' = snapshotNotifyC n -> disk n' = disk n -> still n n'.
Proof. intros H1 H2 H3. split; [done|done|]. unfold disk_ok. by rewrite H3. Qed.

Lemma still_persist n m :
  lastApplied m = lastApplied n -> snapshotNotifyC m = snapshotNotifyC n -> disk m = disk n -> still n (persist m).
Proof.
  intros H1 H2 H3. split; [done|done|]. intros Hd. assert (Hm : disk_ok m) by (unfold disk_ok; by rewrite H3).
  split; [by apply persist_disk_ok|]. by rewrite persist_snapshot_file, H3.
Qed.

Create HintDb still.
#[export] Hint Extern 1 (still ?n ?n) => reflexivity : still.
#[export] Hint Extern 2 (still _ (persist _)) => (by apply still_persist) : still.
#[export] Hint Extern 3 (still _ _) => (by apply still_frame) : still.

Lemma still_becomeFollower t n : still n (becomeFollower t n).
Proof. by apply still_persist. Qed.

(** After a change of term the rest of the step only touches other fields. *)
Ltac still_follower t n :=
  generalize (still_becomeFollower t n); generalize (becomeFollower t n); intros ?m ?Hm;
  etransitivity; [eassumption|by apply still_frame].

Lemma still_becomeCandidate n : still n (becomeCandidate n).
Proof. by apply still_persist. Qed.

Lemma still_becomeLeader now n : still n (becomeLeader now n).
Proof.
  unfold becomeLeader. cbv zeta. node_simpl. generalize (log_lastIndex (rlog n)). intros li.
  transitivity (set_leaderID (nid n) (set_state Leader n)); [by apply still_frame|].
  generalize (set_leaderID (nid n) (set_state Leader n)). induction (peers n) as [|p ps IH]; intros k; [done|].
  simpl. etransitivity; [|apply IH]. by apply still_frame.
Qed.

Lemma still_maybeCommit n : still n (maybeCommit n).
Proof. unfold maybeCommit. case_match; [|done]. by apply still_frame. Qed.
#[export] Hint Resolve still_becomeFollower still_becomeCandidate still_becomeLeader still_maybeCommit : still.

Lemma still_HandleRequestVote now n args : still n (HandleRequestVote now n args).1.
Proof.
  unfold HandleRequestVote. destruct (rv_IsPreVote args); [by case_match|].
  set (m := if rv_Term args >? currentTerm n then _ else _).
  assert (Hm : still n m) by (subst m; case_match; auto with still). clearbody m. repeat case_match; simpl; try done.
  etransitivity; [exact Hm|]. etransitivity; [by apply (still_persist m (set_votedFor (rv_CandidateID args) m))|auto with still].
Qed.

Lemma still_startElection_reply now e n reply : still n (startElection_reply now e n reply).2.
Proof. unfold startElection_reply. repeat case_match; simpl; auto with still. Qed.

Lemma still_tick now n : still n (heartbeatTick now n).1.
Proof.
  unfold heartbeatTick, sendHeartbeats, checkQuorum. repeat case_match; simplify_eq; simpl; auto with still.
  still_follower (currentTerm n) n.
Qed.

Lemma still_Submit n command : still n (Submit n command).1.1.
Proof. unfold Submit. case_match; simpl; auto with still. Qed.

Lemma still_HandleAppendEntries now n args : still n (HandleAppendEntries now n args).1.
Proof.
  destruct (decide (ae_Term args < currentTerm n)) as [Hlt|Hge]; [by rewrite HandleAppendEntries_stale|].
  rewrite HandleAppendEntries_current by lia.
  assert (Hp : still n (ae_prelude now n args)).
  { unfold ae_prelude. case_match; [still_follower (ae_Term args) n|].
    case_match; by apply still_frame. }
  destruct (consistencyCheck _ _); [done|]. etransitivity; [exact Hp|]. generalize (ae_prelude now n args) as m. intros m.
  unfold acceptEntries. cbv zeta. set (m1 := if ae_LeaderCommit args >? _ then _ else _).
  assert (H1 : still m (persist m1)) by (subst m1; case_match; auto with still).
  clearbody m1. simpl. case_match; [|done]. etransitivity; [exact H1|auto with still].
Qed.

Lemma still_sendToPeer_reply now n peer term args reply : still n (sendToPeer_reply now n peer term args reply).
Proof.
  unfold sendToPeer_reply. cbv zeta. repeat case_match; auto with still;
    (etransitivity; [|apply still_maybeCommit]; by apply still_frame).
Qed.

Lemma still_sendSnapshotToPeer_reply n peer term args reply : still n (sendSnapshotToPeer_reply n peer term args reply).
Proof. unfold sendSnapshotToPeer_reply. cbv zeta. repeat case_match; auto with still. Qed.
#[export] Hint Resolve still_HandleRequestVote still_startElection_reply still_tick still_Submit still_HandleAppendEntries
  still_sendToPeer_reply still_sendSnapshotToPeer_reply : still.

(** ** Steps of the cluster *)

Section frame.
Context {W : Type} `{!Transport W}.
Implicit Types c : Cluster W.

(** The steps that touch neither a machine nor what it is restored from. *)
Definition plain (lbl : label) : bool :=
  match lbl with
  | LTakeSnapshot _ _ | LApply _ | LRestore _ | LRestart _ | LSnapRequest _ _ => false
  | _ => true
  end.

Definition nodes_still (ns ns' : nodes) : Prop :=
  forall j n', ns' !! j = Some n' -> exists n, ns !! j = Some n /\ still n n'.

Lemma nodes_still_refl ns : nodes_still ns ns.
Proof. intros j n ?. by exists n. Qed.

Lemma nodes_still_insert ns i n n' : ns !! i = Some n -> still n n' -> nodes_still ns (<[i := n']> ns).
Proof. intros Hi Hs j m [[<- <-]|[_ ?]]%lookup_insert_Some; [by exists n|by exists m]. Qed.

Lemma nodes_still_rpc {Rep} (handler : RaftNode -> RaftNode * Rep) addr ns res :
  rpc_spec handler addr ns res -> (forall n, still n (handler n).1) -> nodes_still ns res.1.
Proof.
  intros Hs Hh. unfold rpc_spec in Hs. destruct (res.2) as [rep|err].
  - destruct Hs as (n & Hn & _ & ->). by eapply nodes_still_insert.
  - destruct Hs as [->|(n & Hn & ->)]; [apply nodes_still_refl|by eapply nodes_still_insert].
Qed.

Lemma exec_still lbl c c' : plain lbl = true -> exec lbl c = Some c' -> nodes_still (c_nodes c) (c_nodes c').
Proof using.
  intros Hp He. destruct lbl; try discriminate Hp; simpl in He;
    repeat match goal with
    | H : (_ ≫= _) = Some _ |- _ => apply bind_Some in H as (? & ? & H)
    | H : match c_threads c !! ?t with _ => _ end = Some _ |- _ => destruct (c_threads c !! t) as [[]|]; try discriminate H
    end.
  - destruct (electionEligible x); simplify_eq. apply nodes_still_refl.
  - simplify_eq. apply nodes_still_refl.
  - pose proof (preVote_call (c_net c) i peer expired now n0 (c_nodes c)) as Hs.
    destruct (tr_RequestVote _ _ _ _ _ _ _) as [ns r]. simpl in Hs. subst ns. simplify_eq. apply nodes_still_refl.
  - unfold afterPreVote in He. destruct (_ && _); [case_guard|]; simplify_eq/=; [|apply nodes_still_refl].
    eapply nodes_still_insert; [done|auto with still].
  - simplify_eq. apply nodes_still_refl.
  - destruct x as [o e]. pose proof (tr_RequestVote_spec (c_net c) i peer expired now (el_args e) (c_nodes c)) as Hs.
    destruct (tr_RequestVote _ _ _ _ _ _ _) as [ns r]. simplify_eq. simpl.
    eapply (nodes_still_rpc _ _ _ _ Hs). auto with still.
  - destruct x0 as [o e]. apply bind_Some in He as (g & Hg & He).
    pose proof (still_startElection_reply now e x reply) as Hs. destruct (startElection_reply now e x reply). simplify_eq.
    by eapply nodes_still_insert.
  - pose proof (still_tick now x) as Hs. destruct (heartbeatTick now x). simplify_eq. by eapply nodes_still_insert.
  - pose proof (still_Submit x command) as Hs. destruct (Submit x command) as [[n' r] gs]. simplify_eq. by eapply nodes_still_insert.
  - pose proof (tr_AppendEntries_spec (c_net c) i peer expired now args (c_nodes c)) as Hs.
    destruct (tr_AppendEntries _ _ _ _ _ _ _) as [ns r]. simplify_eq. simpl.
    eapply (nodes_still_rpc _ _ _ _ Hs). auto with still.
  - simplify_eq. eapply nodes_still_insert; [done|apply still_sendToPeer_reply].
  - simplify_eq. eapply nodes_still_insert; [done|apply still_sendSnapshotToPeer_reply].
Qed.

(** A snapshot on its way carries what the node that sends it has. *)
Definition carries (args : InstallSnapshotArgs) (n : RaftNode) : Prop :=
  is_LastIncludedIndex args = log_snapshotIndex (rlog n) /\ is_Data args = snapshotData n.

Definition snaps_from (ts ts' : gmap nat Thread) (ns : nodes) : Prop :=
  forall k i p T args, ts' !! k = Some (TSnapReq i p T args) ->
    (exists k', ts !! k' = Some (TSnapReq i p T args)) \/ exists j n, ns !! j = Some n /\ carries args n.

Lemma snaps_from_old ts ts' ns :
  (forall k t, ts' !! k = Some t -> (exists k', ts !! k' = Some t) \/ forall i p T args, t <> TSnapReq i p T args) ->
  snaps_from ts ts' ns.
Proof. intros H k i p T args Hk. destruct (H k _ Hk) as [?|Hn]; [by left|]. by destruct (Hn i p T args). Qed.

Lemma snaps_from_dispatch ts ns i j n m T ps :
  ns !! j = Some n -> rlog m = rlog n -> snapshotData m = snapshotData n ->
  snaps_from ts (spawn (map (thread_of i) (map (dispatch m T) ps)) ts) ns.
Proof.
  intros Hj Hl Hd k i' p' T' args [Hin|Hk]%spawn_lookup; [right|by left; exists k]. exists j, n. split; [done|].
  apply list_elem_of_fmap in Hin as (g & Hg & (p & -> & _)%list_elem_of_fmap). unfold dispatch in Hg. case_match; simplify_eq/=.
  unfold carries. simpl. by rewrite Hl, Hd.
Qed.

Lemma exec_snaps lbl c c' : exec lbl c = Some c' -> snaps_from (c_threads c) (c_threads c') (c_nodes c').
Proof using.
  intros He. destruct lbl; simpl in He;
    repeat match goal with
    | H : (_ ≫= _) = Some _ |- _ => apply bind_Some in H as (? & ? & H)
    | H : match c_threads c !! ?t with _ => _ end = Some _ |- _ => destruct (c_threads c !! t) as [[]|]; try discriminate H
    end.
  - destruct (electionEligible x); simplify_eq. simpl. apply snaps_from_old. intros k t [[_ ->]|?]%spawn1_lookup; [by right|left; eauto].
  - simplify_eq. simpl. apply snaps_from_old. intros k t [[_ <-]|[_ ?]]%lookup_insert_Some; [by right|left; eauto].
  - destruct (tr_RequestVote _ _ _ _ _ _ _) as [ns r]. simplify_eq. simpl. apply snaps_from_old.
    intros k t [[_ <-]|[_ ?]]%lookup_insert_Some; [by right|left; eauto].
  - unfold afterPreVote in He. destruct (_ && _); [case_guard|]; simplify_eq/=; apply snaps_from_old.
    + intros k t [[_ ->]|[_ ?]%lookup_delete_Some]%spawn1_lookup; [by right|left; eauto].
    + intros k t [_ ?]%lookup_delete_Some. left; eauto.
  - simplify_eq. simpl. apply snaps_from_old. intros k t [Hin|[_ ?]%lookup_delete_Some]%spawn_lookup; [right|left; eauto].
    apply list_elem_of_fmap in Hin as (q & -> & _). done.
  - destruct x as [o e]. destruct (tr_RequestVote _ _ _ _ _ _ _) as [ns r]. simplify_eq. simpl. apply snaps_from_old.
    intros k t [(rep & _ & ->)|?]%resume_lookup; [by right|left; eauto].
  - destruct x0 as [o e]. apply bind_Some in He as (g & Hg & He). destruct (startElection_reply now e x reply). simplify_eq. simpl.
    apply snaps_from_old. intros k t [_ ?]%lookup_delete_Some. left; eauto.
  - unfold heartbeatTick, sendHeartbeats in He. destruct (NodeState_eqb _ _); simplify_eq; simpl.
    + eapply (snaps_from_dispatch _ _ _ i); [apply lookup_insert_eq|done|done].
    + apply snaps_from_old. eauto.
  - unfold Submit in He. destruct (negb _); simplify_eq; simpl; [apply snaps_from_old; eauto|].
    eapply (snaps_from_dispatch _ _ _ i); [apply lookup_insert_eq|done|done].
  - destruct (tr_AppendEntries _ _ _ _ _ _ _) as [ns r]. simplify_eq. simpl. apply snaps_from_old.
    intros k t [(rep & _ & ->)|?]%resume_lookup; [by right|left; eauto].
  - simplify_eq. simpl. apply snaps_from_old. intros k t [_ ?]%lookup_delete_Some. left; eauto.
  - destruct (tr_InstallSnapshot _ _ _ _ _ _) as [ns r]. simplify_eq. simpl. apply snaps_from_old.
    intros k t [(rep & _ & ->)|?]%resume_lookup; [by right|left; eauto].
  - simplify_eq. simpl. apply snaps_from_old. intros k t [_ ?]%lookup_delete_Some. left; eauto.
  - simplify_eq. simpl. apply snaps_from_old. eauto.
  - case_match; [|done]. simplify_eq. simpl. apply snaps_from_old. eauto.
  - simplify_eq. simpl. apply snaps_from_old. eauto.
  - simplify_eq. simpl. apply snaps_from_old. intros k t [? _]%map_lookup_filter_Some. left; eauto.
Qed.
End frame.

(** ** Snapshots of a node *)

(** The boundary and the data are those of the snapshot file. *)
Lemma same_snapshot n n' :
  snapshot_durable n -> snapshot_durable n' -> files (disk n') !! snapshotPath = files (disk n) !! snapshotPath ->
  log_snapshotIndex (rlog n') = log_snapshotIndex (rlog n) /\
  (0 < log_snapshotIndex (rlog n) -> snapshotData n' = snapshotData n).
Proof.
  unfold snapshot_durable. intros H1 H2 E. rewrite E in H2. destruct (files (disk n) !! snapshotPath) as [f|].
  - destruct H1 as [-> _], H2 as [[= E1 E2 E3] _]. by rewrite E1, E3.
  - rewrite H1, H2. split; [done|lia].
Qed.

Lemma take_fields n data :
  disk_ok n -> log_wf (rlog n) -> lastApplied n < u64_size ->
  let n' := (TakeSnapshot n data).1 in
  lastApplied n' = lastApplied n /\ snapshotNotifyC n' = snapshotNotifyC n /\
  (n' = n \/ (log_snapshotIndex (rlog n') = lastApplied n /\ snapshotData n' = data)).
Proof.
  intros Hd Hwf Hb. unfold TakeSnapshot. cbv zeta. destruct (_ || _) eqn:E; [by split_and!; [| |left]|].
  pose proof (wf_snapshotIndex _ Hwf). rewrite saveSnapshot_ok by done. split_and!; [done|done|right]. split; [|done].
  change (log_snapshotIndex (log_compactTo (rlog n) (lastApplied n) (le_Term (log_get (rlog n) (lastApplied n)))) = lastApplied n).
  apply compact_snapshotIndex; [done|unfold is_u64; lia|lia].
Qed.

Lemma install_data n args :
  disk_ok n -> currentTerm n <= is_Term args -> log_snapshotIndex (rlog n) < is_LastIncludedIndex args ->
  snapshotData (HandleInstallSnapshot n args).1 = is_Data args.
Proof.
  intros Hd HT Hi. unfold HandleInstallSnapshot. set (m := if is_Term args >? currentTerm n then _ else n).
  assert (Hm : disk_ok m /\ rlog m = rlog n /\ currentTerm m = is_Term args).
  { subst m. destruct (is_Term args >? currentTerm n) eqn:E; [split_and!; [by apply becomeFollower_disk_ok|done|done]|].
    split_and!; [done|done|lia]. }
  clearbody m. destruct Hm as (Hdm & Hl & Ht). rewrite Ht, Z.ltb_irrefl. cbv zeta.
  set (m1 := notifyHeartbeat _). change (rlog m1) with (rlog m). rewrite Hl. replace (_ <=? _) with false by lia.
  rewrite saveSnapshot_ok by exact Hdm. simpl. by repeat case_match.
Qed.

Lemma still_is_prelude n args : still n (is_prelude n args).
Proof.
  unfold is_prelude. case_match; [|by apply still_frame].
  still_follower (is_Term args) n.
Qed.

(** A snapshot that arrives is ignored, or waits to be restored. *)
Lemma install_cases n args :
  disk_ok n -> log_wf (rlog n) -> is_LastIncludedIndex args < u64_size ->
  let n' := (HandleInstallSnapshot n args).1 in
  still n n' \/
  (log_snapshotIndex (rlog n) < is_LastIncludedIndex args /\ log_snapshotIndex (rlog n') = is_LastIncludedIndex args /\
   lastApplied n' = Z.max (lastApplied n) (is_LastIncludedIndex args) /\ snapshotData n' = is_Data args /\
   exists p, snapshotNotifyC n' = Some p /\ sta_data p = is_Data args).
Proof.
  intros Hd Hwf Hb. cbv zeta. destruct (decide (is_Term args < currentTerm n)) as [Hlt|Hge].
  { left. by rewrite HandleInstallSnapshot_stale. }
  destruct (HandleInstallSnapshot_current n args ltac:(lia)) as [_ Hcov].
  destruct (decide (is_LastIncludedIndex args <= log_snapshotIndex (rlog n))) as [Hle|Hgt].
  { left. rewrite Hcov by done. apply still_is_prelude. }
  right. pose proof (wf_snapshotIndex _ Hwf).
  destruct (install_fields n args Hwf Hd ltac:(lia) ltac:(lia)) as (_ & _ & _ & Hl & Ha & _ & Hn & _).
  rewrite Hl, Ha, Hn, install_data by (done || lia).
  split_and!; [lia| |done|done|by eexists]. apply compact_snapshotIndex; [done|unfold is_u64; lia|lia].
Qed.

(** A restart hands the machine the snapshot on disk. *)
Lemma boot_machine n :
  disk_ok n -> snapshot_durable n ->
  let r := boot (config n) (disk n) in
  snapshotNotifyC r.1 = None /\
  (0 < log_snapshotIndex (rlog n) -> snapshotData r.1 = snapshotData n /\ r.2 = Some (snapshotData n)) /\
  (log_snapshotIndex (rlog n) = 0 -> r.2 = None).
Proof.
  intros Hd Hsn. cbv zeta. set (m := (loadState (NewRaftNode (config n) (disk n))).1).
  assert (Hm : disk m = drop_fault (disk n) /\ snapshotNotifyC m = None).
  { subst m. unfold loadState, readFile, NewRaftNode. node_simpl. by repeat (case_match; simplify_eq/=). }
  destruct Hm as [M1 M2]. unfold boot, Run_init. fold m. clearbody m.
  unfold restoreFromSnapshot, loadSnapshotFile, readFile. rewrite M1.
  assert (Hf2 : next_fault (drop_fault (disk n)) = NoFault).
  { apply (disk_ok_next (set_disk (drop_fault (disk n)) n)). by apply disk_ok_tail. }
  rewrite Hf2. simpl. unfold snapshot_durable in Hsn. destruct (files (disk n) !! snapshotPath) as [f|].
  - destruct Hsn as [-> Hpos]. simpl. replace (log_snapshotIndex (rlog n) =? 0) with false by lia. simpl.
    repeat case_match; split_and!; (done || lia).
  - simpl. split_and!; [done|lia|done].
Qed.
