(* ===== verification/ReplicaSafety.v ===== *)
(** * One machine executes the decided log

    The invariant of the replicated state machine of Replicas.v, and the property
    it was built for. *)

From S2P Require Import Prelude RaftLog Rpc Disk Node Election Replication ReplicationSafety Snapshot Client Apply KVStore Transport Cluster ElectionSafety FullLog LogHistory LogInvariant LogSteps LogFollowers LogLeaders LogSafety Consensus Replicas.

Section machines.
Context {W : Type} `{!Transport W} {S R : Type} `{!StateMachine S R, !SnapshotLaw S R} (s0 : S) (members : list string).
Implicit Types (c : Cluster W) (h : hist).

(** The machine after the first [k] decided entries, and a snapshot of it. *)
Definition state_at h (k : nat) (s : S) : Prop :=
  exists g T, committed h members k g T /\ s = (apply_entries (take k g) s0).2.

Definition data_ok h (k : Z) (d : bytes) : Prop :=
  exists s, state_at h (Z.to_nat k) s /\ sm_Snapshot s = Some d.

Lemma state_at_mono h h' k s : ext h h' -> state_at h k s -> state_at h' k s.
Proof using.
  intros Hx (g & T & Hc & ->). exists g, T. split; [|done].
  eapply committed_mono; [done|exact Hc|done|by eapply committed_length|lia].
Qed.

Lemma data_ok_mono h h' k d : ext h h' -> data_ok h k d -> data_ok h' k d.
Proof using. intros Hx (s & Hs & Hd). exists s. split; [by eapply state_at_mono|done]. Qed.

Lemma state_at_zero h : state_at h 0 s0.
Proof using. exists [], 0. split; [by left|done]. Qed.

(** A node and the machine beside it: up to date, or with a snapshot waiting. *)
Record rnode h (n : RaftNode) (m : option S) : Prop := {
  rn_data : 0 < log_snapshotIndex (rlog n) -> data_ok h (log_snapshotIndex (rlog n)) (snapshotData n);
  rn_machine : exists s, m = Some s /\
    match snapshotNotifyC n with
    | None => state_at h (Z.to_nat (lastApplied n)) s
    | Some p => sta_data p = snapshotData n /\ lastApplied n = log_snapshotIndex (rlog n) /\ 0 < log_snapshotIndex (rlog n)
    end
}.

Record rinv h c (ms : gmap string S) : Prop := {
  ri_node : forall i n, c_nodes c !! i = Some n -> rnode h n (ms !! i);
  ri_snaps : forall k i p T args, c_threads c !! k = Some (TSnapReq i p T args) ->
    0 < is_LastIncludedIndex args -> data_ok h (is_LastIncludedIndex args) (is_Data args)
}.

Lemma rnode_mono h h' n m : ext h h' -> rnode h n m -> rnode h' n m.
Proof using.
  intros Hx [Hd (s & -> & Hm)]. split; [intros Hp; eapply data_ok_mono; [done|by apply Hd]|].
  exists s. split; [done|]. case_match; [done|by eapply state_at_mono].
Qed.

Lemma rnode_still h n n' m :
  rnode h n m -> still n n' -> disk_ok n -> snapshot_durable n -> snapshot_durable n' -> rnode h n' m.
Proof using.
  intros [Hd (s & -> & Hm)] [Ha Hn Hf] Hok Hs Hs'. destruct (Hf Hok) as [_ E].
  destruct (same_snapshot n n' Hs Hs' E) as [Ei Ed]. split; rewrite Ei.
  - intros Hp. rewrite Ed by done. auto.
  - exists s. split; [done|]. rewrite Hn, Ha. case_match; [|done]. destruct Hm as (? & ? & ?). by rewrite Ed by done.
Qed.

(** ** Steps *)

Section steps.
Context (c c' : Cluster W) (ms : gmap string S) (h h' : hist) (G G' : string -> list LogEntry).
Context (Hc : cinv members c) (Hl : linv members c h G) (Hl' : linv members c' h' G') (Hx : ext h h') (Hri : rinv h c ms).

Lemma node_facts i n : c_nodes c !! i = Some n ->
  disk_ok n /\ log_wf (rlog n) /\ snapshot_durable n /\ lnode members h (G i) i n /\ rnode h n (ms !! i).
Proof using Hc Hl Hri.
  intros Hn. pose proof (li_node _ _ _ _ _ (lv_nodes _ _ _ _ Hl) i n Hn) as Hln.
  pose proof (ni_node _ _ _ _ (proj1 Hc) i n Hn) as Hok. split_and!; [apply Hok|by eapply full_wf, Hln|apply Hln|done|by apply Hri].
Qed.

Lemma durable_after i n : c_nodes c' !! i = Some n -> snapshot_durable n.
Proof using Hl'. intros Hn. apply (li_node _ _ _ _ _ (lv_nodes _ _ _ _ Hl') i n Hn). Qed.

(** The new state, from what the step did to each node. *)
Lemma rinv_step ms' :
  snaps_from (c_threads c) (c_threads c') (c_nodes c') ->
  (forall i n', c_nodes c' !! i = Some n' -> rnode h' n' (ms' !! i)) -> rinv h' c' ms'.
Proof using Hx Hri.
  intros Hsn Hn. split; [done|]. intros k i p T args Hk Hp.
  destruct (Hsn k i p T args Hk) as [[k' Hk']|(j & n & Hj & E1 & E2)].
  - eapply data_ok_mono; [exact Hx|]. by eapply (ri_snaps _ _ _ Hri).
  - rewrite E1, E2 in *. by apply (rn_data _ _ _ (Hn j n Hj)).
Qed.

Lemma rnode_kept i n n' : c_nodes c !! i = Some n -> c_nodes c' !! i = Some n' -> still n n' -> rnode h' n' (ms !! i).
Proof using All.
  intros Hn Hn' Hst. destruct (node_facts i n Hn) as (Hd & _ & Hs & _ & Hr).
  eapply rnode_mono; [exact Hx|]. eapply rnode_still; [done|done|done|done|by eapply durable_after].
Qed.

Lemma rinv_plain : snaps_from (c_threads c) (c_threads c') (c_nodes c') -> nodes_still (c_nodes c) (c_nodes c') -> rinv h' c' ms.
Proof using All.
  intros Hsn Hst. apply rinv_step; [done|]. intros i n' Hn'. destruct (Hst i n' Hn') as (n & Hn & Hs). by eapply rnode_kept.
Qed.

(** One node changes, and with it its machine. *)
Lemma rinv_one i n n' ms' :
  snaps_from (c_threads c) (c_threads c') (c_nodes c') -> c_nodes c !! i = Some n ->
  c_nodes c' = <[i := n']> (c_nodes c) -> (forall j, j <> i -> ms' !! j = ms !! j) ->
  rnode h n' (ms' !! i) -> rinv h' c' ms'.
Proof using All.
  intros Hsn Hn Hns Hms Hr. apply rinv_step; [done|]. intros j m Hj. rewrite Hns in Hj.
  apply lookup_insert_Some in Hj as [[<- <-]|[Hne Hj]]; [by eapply rnode_mono|].
  rewrite Hms by done. eapply rnode_mono; [exact Hx|by apply Hri].
Qed.

(** The next entry is applied. *)
Lemma rnode_apply i n s :
  c_nodes c !! i = Some n -> ms !! i = Some s -> snapshotNotifyC n = None -> lastApplied n < commitIndex n ->
  le_IsConfig (log_get (rlog n) (lastApplied n ⊕ 1)) = false ->
  rnode h (set_lastApplied (lastApplied n ⊕ 1) n)
    (Some (sm_Apply (le_Command (log_get (rlog n) (lastApplied n ⊕ 1))) s).2).
Proof using Hc Hl Hri.
  intros Hn Hs Hnone Hlt Hcfg. destruct (node_facts i n Hn) as (_ & Hwf & _ & Hln & [Hd (s' & Hs' & Hm)]).
  rewrite Hs in Hs'. injection Hs' as <-. rewrite Hnone in Hm. destruct Hm as (g & T & Hg & ->).
  pose proof (ln_full _ _ _ _ _ Hln) as Hf. pose proof (ln_commit _ _ _ _ _ Hln) as Hcm.
  pose proof (committed_length _ _ _ _ _ Hcm) as Hlen. pose proof (ln_range _ _ _ _ _ Hln) as Hrg.
  pose proof (fu_snap _ _ Hf). pose proof (fu_bound _ _ Hf). unfold lenZ in *.
  assert (Hu : lastApplied n ⊕ 1 = lastApplied n + 1) by u64_lia. rewrite Hu in *.
  destruct (lookup_lt_is_Some_2 (G i) (Z.to_nat (lastApplied n))) as [e He]; [lia|].
  assert (Hget : log_get (rlog n) (lastApplied n + 1) = e).
  { rewrite get_view by (done || unfold is_u64; lia). rewrite (full_above _ (G i)) by (done || lia).
    replace (Z.to_nat (lastApplied n + 1) - 1)%nat with (Z.to_nat (lastApplied n)) by lia. by rewrite He. }
  rewrite Hget in *. split; [exact Hd|]. eexists. split; [done|]. simpl. rewrite Hnone.
  exists (G i), (currentTerm n). pose proof (lv_nodes _ _ _ _ Hl) as Hinv. split.
  - eapply committed_weaken; [exact Hcm|lia].
  - replace (Z.to_nat (lastApplied n + 1)) with (Datatypes.S (Z.to_nat (lastApplied n))) by lia.
    rewrite (take_S_r _ _ _ He), apply_entries_app. simpl. rewrite Hcfg.
    assert (Hag : take (Z.to_nat (lastApplied n)) g = take (Z.to_nat (lastApplied n)) (G i)).
    { eapply (committed_agree h members); [apply Hinv|by eapply lninv_elections|exact Hg|exact Hcm|lia|lia]. }
    rewrite Hag. by destruct (sm_Apply (le_Command e) _).
Qed.

(** A snapshot is taken of a machine that is up to date. *)
Lemma rnode_take i n s data :
  c_nodes c !! i = Some n -> ms !! i = Some s -> snapshotNotifyC n = None -> sm_Snapshot s = Some data ->
  rnode h (TakeSnapshot n data).1 (Some s).
Proof using Hc Hl Hri.
  intros Hn Hs Hnone Hdata. destruct (node_facts i n Hn) as (Hd & Hwf & _ & Hln & [Hdat (s' & Hs' & Hm)]).
  rewrite Hs in Hs'. injection Hs' as <-. rewrite Hnone in Hm.
  pose proof (ln_range _ _ _ _ _ Hln). pose proof (committed_length _ _ _ _ _ (ln_commit _ _ _ _ _ Hln)).
  pose proof (fu_bound _ _ (ln_full _ _ _ _ _ Hln)). unfold lenZ in *.
  destruct (take_fields n data Hd Hwf ltac:(lia)) as (Ha & Hnf & [->|[Hi Hda]]).
  - split; [done|]. exists s. by rewrite Hnone.
  - split.
    + intros _. rewrite Hi, Hda. by exists s.
    + exists s. by rewrite Hnf, Hnone, Ha.
Qed.

(** A waiting snapshot is restored. *)
Lemma rnode_restored i n s p :
  c_nodes c !! i = Some n -> ms !! i = Some s -> snapshotNotifyC n = Some p ->
  rnode h (set_snapshotNotifyC None n) (Some (sm_Restore (sta_data p) s).1).
Proof using Hc Hl Hri SnapshotLaw0.
  intros Hn Hs Hp. destruct (node_facts i n Hn) as (_ & _ & _ & _ & [Hd (s' & Hs' & Hm)]). rewrite Hp in Hm.
  destruct Hm as (E1 & E2 & Hpos). split; [exact Hd|]. eexists. split; [done|]. simpl. rewrite E1, E2.
  destruct (Hd Hpos) as (s1 & Hat & Hsn). by rewrite (restore_snapshot s1 s _ Hsn).
Qed.

(** A restart. *)
Lemma rnode_boot i n :
  c_nodes c !! i = Some n ->
  rnode h (boot (config n) (disk n)).1
    (Some match (boot (config n) (disk n)).2 with Some d => (sm_Restore d s0).1 | None => s0 end).
Proof using Hc Hl Hri SnapshotLaw0.
  intros Hn. destruct (node_facts i n Hn) as (Hd & Hwf & Hs & Hln & [Hdat _]).
  destruct (boot_saved n Hd (ln_saved _ _ _ _ _ Hln) Hs Hwf) as (B1 & _ & B3 & _).
  destruct (boot_machine n Hd Hs) as (M1 & M2 & M3). pose proof (wf_snapshotIndex _ Hwf).
  destruct (decide (0 < log_snapshotIndex (rlog n))) as [Hpos|Hz].
  - destruct (M2 Hpos) as [E1 ->]. destruct (Hdat Hpos) as (s1 & Hat & Hsn). split; rewrite ?B1, ?E1; [done|].
    eexists. split; [done|]. rewrite M1, B3. by rewrite (restore_snapshot s1 s0 _ Hsn).
  - rewrite M3 by lia. split; rewrite ?B1; [lia|]. exists s0. split; [done|]. rewrite M1, B3.
    replace (log_snapshotIndex (rlog n)) with 0 by lia. apply state_at_zero.
Qed.

(** A snapshot arrives. *)
Lemma rnode_install i n n' args :
  c_nodes c !! i = Some n -> n' = (HandleInstallSnapshot n args).1 -> snapshot_durable n' ->
  is_LastIncludedIndex args < u64_size ->
  (0 < is_LastIncludedIndex args -> data_ok h (is_LastIncludedIndex args) (is_Data args)) ->
  (log_snapshotIndex (rlog n) < is_LastIncludedIndex args -> lastApplied n <= is_LastIncludedIndex args) ->
  rnode h n' (ms !! i).
Proof using Hc Hl Hri.
  intros Hn -> Hsd Hb Hdata Hord. destruct (node_facts i n Hn) as (Hd & Hwf & Hs & Hln & Hr).
  destruct (install_cases n args Hd Hwf Hb) as [Hst|(H1 & H2 & H3 & H4 & p & H5 & H6)].
  - by eapply rnode_still.
  - pose proof (wf_snapshotIndex _ Hwf). specialize (Hord H1). destruct Hr as [_ (s & -> & _)].
    split; rewrite H2, H4; [done|]. exists s. split; [done|]. rewrite H5, H6. split_and!; [done|lia|lia].
Qed.

Lemma rinv_exec lbl : orderly lbl c ms = true -> exec lbl c = Some c' -> rinv h' c' (machines_after s0 lbl c ms).
Proof using All.
  intros Ho He. pose proof (exec_snaps lbl c c' He) as Hsn. destruct (plain lbl) eqn:Hp.
  { replace (machines_after s0 lbl c ms) with ms by (by destruct lbl). apply rinv_plain; [done|by eapply exec_still]. }
  assert (Hm : forall i n, c_nodes c !! i = Some n -> exists s, ms !! i = Some s).
  { intros i n Hn. destruct (rn_machine _ _ _ (ri_node _ _ _ Hri i n Hn)) as (s & ? & _). by exists s. }
  destruct lbl; try discriminate Hp; simpl in He; cbn [machines_after].
  - destruct (c_threads c !! tid) as [[]|] eqn:Ht; try done.
    pose proof (tr_InstallSnapshot_spec (c_net c) i peer expired args (c_nodes c)) as Hs.
    destruct (tr_InstallSnapshot _ _ _ _ _ _) as [ns r]. unfold rpc_spec in Hs. simpl in Hs.
    assert (Hns : ns = c_nodes c \/ exists n, c_nodes c !! peer = Some n /\ ns = <[peer := (HandleInstallSnapshot n args).1]> (c_nodes c)).
    { destruct r; [right; destruct Hs as (n & ? & _ & ?); by exists n|done]. }
    injection He as Hc1. assert (Hcn : c_nodes c' = ns) by (by rewrite <- Hc1). destruct Hns as [E|(n & Hn & E)]; rewrite E in Hcn.
    + apply rinv_plain; [done|]. rewrite Hcn. apply nodes_still_refl.
    + eapply rinv_one; [done|done|exact Hcn|done|]. eapply rnode_install; [exact Hn|done| | | |].
      * eapply durable_after. by rewrite Hcn, lookup_insert_eq.
      * destruct (lv_threads _ _ _ _ Hl _ _ Ht) as [_ (_ & l & Hll & Hb & _)].
        pose proof (ll_bound _ _ _ (li_hist _ _ _ _ _ (lv_nodes _ _ _ _ Hl) _ _ Hll)). lia.
      * by eapply (ri_snaps _ _ _ Hri).
      * intros Hi. simpl in Ho. rewrite Ht, Hn in Ho. lia.
  - simpl in Ho. apply andb_true_iff in Ho as [Hnone Hdata%bool_decide_eq_true]. unfold restored in Hnone.
    destruct (c_nodes c !! i) as [n|] eqn:Hn; simpl in *; [|done]. destruct (snapshotNotifyC n) eqn:Hnf; [done|]. injection He as Hc1.
    destruct (Hm i n Hn) as [s Hs]. rewrite Hs in Hdata. eapply (rinv_one i n); [done|done|by rewrite <- Hc1|done|].
    rewrite Hs. by eapply rnode_take.
  - simpl in Ho. unfold restored in Ho. destruct (c_nodes c !! i) as [n|] eqn:Hn; simpl in *; [|done].
    destruct (snapshotNotifyC n) eqn:Hnf; [done|]. case_match eqn:Hb; [|done]. injection He as Hc1.
    apply andb_true_iff in Hb as [Hb Hcfg%negb_true_iff]. destruct (Hm i n Hn) as [s Hs].
    eapply (rinv_one i n); [done|done|by rewrite <- Hc1| |].
    + intros j Hj. by rewrite lookup_alter_ne.
    + rewrite lookup_alter_eq, Hs. simpl. eapply rnode_apply; [done|done|done|lia|done].
  - destruct (c_nodes c !! i) as [n|] eqn:Hn; simpl in *; [|done]. destruct (snapshotNotifyC n) as [p|] eqn:Hnf; simpl in *; [|done].
    injection He as Hc1. destruct (Hm i n Hn) as [s Hs]. eapply (rinv_one i n); [done|done|by rewrite <- Hc1| |].
    + intros j Hj. by rewrite lookup_alter_ne.
    + rewrite lookup_alter_eq, Hs. simpl. by eapply rnode_restored.
  - destruct (c_nodes c !! i) as [n|] eqn:Hn; simpl in *; [|done]. injection He as Hc1.
    eapply (rinv_one i n); [done|done|by rewrite <- Hc1| |].
    + intros j Hj. by rewrite lookup_insert_ne.
    + rewrite lookup_insert_eq. by eapply rnode_boot.
Qed.
End steps.

(** ** Executions *)

Lemma rinv_init (w : W) : rinv (mkHist ∅ ∅) (initCluster w members) (rp_machines (initReplicated s0 w members)).
Proof using.
  split; simpl; [|by intros k i p T args ?%lookup_empty_Some]. intros i n [Hi ->]%initNodes_lookup.
  split; [done|]. exists s0. split; [|apply state_at_zero].
  destruct (list_to_map (map (λ i, (i, s0)) members) !! i) as [s|] eqn:E.
  - apply elem_of_list_to_map_2, list_elem_of_fmap in E as (j & [= _ ->] & _). done.
  - apply not_elem_of_list_to_map in E. destruct E. rewrite <- list_fmap_compose. by apply list_elem_of_fmap; exists i.
Qed.

Lemma replicated_clean (x y : Replicated W S) : rtc (rstep s0) x y -> rtc clean_step (rp_cluster x) (rp_cluster y).
Proof using.
  induction 1 as [|x y z Hs _ IH]; [done|]. eapply rtc_l; [|exact IH].
  destruct Hs; [by eapply clean_exec|apply clean_net].
Qed.

(** Along an execution all three invariants hold together. *)
Lemma rinv_rtc (x y : Replicated W S) h G :
  rtc (rstep s0) x y -> cinv members (rp_cluster x) -> linv members (rp_cluster x) h G -> rinv h (rp_cluster x) (rp_machines x) ->
  votes_once (c_votes (rp_cluster y)) ->
  exists h' G', ext h h' /\ linv members (rp_cluster y) h' G' /\ rinv h' (rp_cluster y) (rp_machines y).
Proof using SnapshotLaw0.
  intros Hr. revert h G. induction Hr as [|x y z Hs Hr IH]; intros h G Hc Hl Hri Ho; [by exists h, G|].
  assert (Hvs : c_votes (rp_cluster x) ⊆ c_votes (rp_cluster z)) by (apply clean_votes, replicated_clean; by eapply rtc_l).
  assert (Ho1 : votes_once (c_votes (rp_cluster x))) by (intros v T d1 d2 H1 H2; eapply Ho; eauto).
  destruct Hs as [lbl c c' ms Hcl Hor He|w c ms]; simpl in *.
  - pose proof (cinv_exec _ _ _ _ Hc He) as Hc'.
    destruct (linv_exec members c h G Hc Hl Ho1 lbl c' Hcl He Hc') as (h1 & G1 & Hx & Hl1).
    destruct (IH h1 G1) as (h' & G' & Hx' & ?); [done|done|by eapply (rinv_exec c c' ms h h1 G G1)|done|].
    exists h', G'. split; [by etransitivity|done].
  - eapply (IH h G); [done|by destruct Hl| |done]. by destruct Hri.
Qed.

Lemma rinv_reachable (x : Replicated W S) :
  NoDup members -> "" ∉ members -> replicated_reachable s0 members x -> votes_once (c_votes (rp_cluster x)) ->
  cinv members (rp_cluster x) /\ exists h G, linv members (rp_cluster x) h G /\ rinv h (rp_cluster x) (rp_machines x).
Proof using SnapshotLaw0.
  intros Hnd Hne [w Hr] Ho. split.
  - apply cinv_reachable; [done|done|]. apply clean_reachable_reachable. exists w. by apply replicated_clean in Hr.
  - assert (Hi : cinv members (initCluster w members)) by (by apply cinv_init).
    destruct (rinv_rtc _ _ _ _ Hr Hi (linv_init members w) (rinv_init w) Ho) as (h & G & _ & ?). by exists h, G.
Qed.

(** Two states of an execution. *)
Lemma rinv_pair (x y : Replicated W S) :
  NoDup members -> "" ∉ members -> replicated_reachable s0 members x -> rtc (rstep s0) x y ->
  votes_once (c_votes (rp_cluster y)) ->
  exists h h' G G', ext h h' /\ linv members (rp_cluster x) h G /\ rinv h (rp_cluster x) (rp_machines x) /\
    linv members (rp_cluster y) h' G' /\ rinv h' (rp_cluster y) (rp_machines y).
Proof using SnapshotLaw0.
  intros Hnd Hne Hr Hs Ho. pose proof (clean_votes _ _ (replicated_clean _ _ Hs)) as Hvs.
  assert (Ho1 : votes_once (c_votes (rp_cluster x))) by (intros v T d1 d2 H1 H2; eapply Ho; eauto).
  destruct (rinv_reachable x Hnd Hne Hr Ho1) as (Hc & h & G & Hl & Hri).
  destruct (rinv_rtc _ _ _ _ Hs Hc Hl Hri Ho) as (h' & G' & Hx & Hl' & Hri'). by exists h, h', G, G'.
Qed.

(** A list that was committed as far as every member has executes as every
    machine. *)
Definition machines_run (L : list LogEntry) (x : Replicated W S) : Prop :=
  forall i n, c_nodes (rp_cluster x) !! i = Some n -> exists s, rp_machines x !! i = Some s /\
    (snapshotNotifyC n = None -> s = (apply_entries (take (Z.to_nat (lastApplied n)) L) s0).2).

Lemma rinv_machines (x : Replicated W S) h G k g T :
  linv members (rp_cluster x) h G -> rinv h (rp_cluster x) (rp_machines x) -> committed h members k g T ->
  (forall i n, c_nodes (rp_cluster x) !! i = Some n -> commitIndex n <= Z.of_nat k) -> machines_run (take k g) x.
Proof using.
  intros Hl Hri Hc Hm i n Hn. pose proof (lv_nodes _ _ _ _ Hl) as Hinv.
  destruct (rn_machine _ _ _ (ri_node _ _ _ Hri i n Hn)) as (s & Hs & Hat). exists s. split; [done|]. intros Hnone.
  rewrite Hnone in Hat. destruct Hat as (g1 & T1 & Hc1 & ->). do 2 f_equal.
  pose proof (ln_range _ _ _ _ _ (li_node _ _ _ _ _ Hinv i n Hn)). specialize (Hm i n Hn).
  rewrite take_take, Nat.min_l by lia.
  eapply (committed_agree h members); [apply Hinv|by eapply lninv_elections|exact Hc1|exact Hc|lia|lia].
Qed.
End machines.

(** ** The property *)

(** The store keeps the law: gob returns what it encoded. *)
#[export] Instance kv_SnapshotLaw `{!GobCodec op, !GobCodec (gmap string string)} :
  SnapshotLaw (gmap string string) applyResult.
Proof. intros s s' d Hd. simpl in *. unfold kv_Restore. by rewrite (gob_roundtrip _ _ Hd). Qed.

(** Two stores that have executed one command; one took a snapshot of it and was
    restarted. *)
Definition exSnapshot : bytes := default [] (@gob_Encode _ bitCodec ({["x" := "1"]} : gmap string string)).

Definition exReplicated : list label :=
  exElection ++ [LSubmit "a" exCommand; LAppendRequest 2 false (exTime 7); LAppendReply 2 (exTime 8);
    LTick "a" (exTime 9); LAppendRequest 4 false (exTime 10); LApply "b"; LApply "a"; LTakeSnapshot "b" exSnapshot; LRestart "b"].

Lemma exReplicated_run : exists (x : Replicated MemoryNetwork (gmap string string)) a b,
  replicated_reachable (StateMachine0 := @kv_StateMachine bitCodec bitCodec) ∅ exMembers x /\ votes_once (c_votes (rp_cluster x)) /\
  c_nodes (rp_cluster x) !! "a" = Some a /\ c_nodes (rp_cluster x) !! "b" = Some b /\
  rp_machines x !! "a" = Some {["x" := "1"]} /\ rp_machines x !! "b" = Some {["x" := "1"]} /\
  snapshotNotifyC a = None /\ snapshotNotifyC b = None /\ lastApplied a = 1 /\ lastApplied b = 1 /\
  log_snapshotIndex (rlog a) = 0 /\ log_snapshotIndex (rlog b) = 1.
Proof.
  set (sm := @kv_StateMachine bitCodec bitCodec).
  assert (Hrun : match replicated_exec_all (StateMachine0 := sm) ∅ exReplicated (initReplicated ∅ exNet exMembers) with
    | Some x =>
        match c_nodes (rp_cluster x) !! "a", c_nodes (rp_cluster x) !! "b" with
        | Some a, Some b => bool_decide (c_abdicated (rp_cluster x) = ∅ /\
            rp_machines x !! "a" = Some {["x" := "1"]} /\ rp_machines x !! "b" = Some {["x" := "1"]} /\
            restored "a" (rp_cluster x) = true /\ restored "b" (rp_cluster x) = true /\
            lastApplied a = 1 /\ lastApplied b = 1 /\ log_snapshotIndex (rlog a) = 0 /\ log_snapshotIndex (rlog b) = 1)
        | _, _ => false
        end
    | None => false
    end = true) by (vm_compute; reflexivity).
  destruct (replicated_exec_all ∅ exReplicated _) as [x|] eqn:Hx; [|done]. apply replicated_exec_all_rtc in Hx.
  destruct (c_nodes (rp_cluster x) !! "a") as [a|] eqn:Ha; [|done]. destruct (c_nodes (rp_cluster x) !! "b") as [b|] eqn:Hb; [|done].
  apply bool_decide_eq_true in Hrun as (Hab & ? & ? & Ra & Rb & ? & ? & ? & ?). destruct exMembers_ok as [Hnd Hne].
  unfold restored in Ra, Rb. rewrite Ha in Ra. rewrite Hb in Rb. simpl in Ra, Rb.
  exists x, a, b. split_and!; try done; [by exists exNet| |by destruct (snapshotNotifyC a)|by destruct (snapshotNotifyC b)].
  eapply no_abdication_once; [exact Hnd|exact Hne| |done]. exists exNet. by apply replicated_clean in Hx.
Qed.

(** The two sequences of the property below. *)
Lemma replicas_run_lists {W : Type} `{!Transport W} {S R : Type} `{!StateMachine S R, !SnapshotLaw S R}
    (s0 : S) (members : list string) (x y : Replicated W S) :
  NoDup members -> "" ∉ members -> replicated_reachable s0 members x -> rtc (rstep s0) x y ->
  votes_once (c_votes (rp_cluster y)) ->
  exists L L', decided_by L (rp_cluster x) /\ shows L (rp_cluster x) /\ machines_run s0 L x /\
    L `prefix_of` L' /\ (L' = L \/ decided_by L' (rp_cluster y)) /\ shows L' (rp_cluster y) /\ machines_run s0 L' y.
Proof.
  intros Hnd Hne Hr Hs Ho. destruct (rinv_pair s0 members x y Hnd Hne Hr Hs Ho) as (h & h' & G & G' & Hx & Hl & Hri & Hl' & Hri').
  destruct (linv_peak members _ h G Hl) as (k & g & T & Hc & Hd & Hm).
  destruct (linv_peak members _ h' G' Hl') as (k' & g' & T' & Hc' & Hd' & Hm').
  assert (Hc1 : committed h' members k g T) by (eapply committed_mono; [done|exact Hc|done|by eapply committed_length|lia]).
  pose proof (lv_nodes _ _ _ _ Hl') as Hinv. exists (take k g).
  assert (Hfirst : decided_by (take k g) (rp_cluster x) /\ shows (take k g) (rp_cluster x) /\ machines_run s0 (take k g) x).
  { split_and!; [done|by eapply linv_shows|by eapply rinv_machines]. }
  destruct (Nat.le_ge_cases k k') as [Hk|Hk].
  - exists (take k' g'). split; [apply Hfirst|]. split; [apply Hfirst|]. split; [apply Hfirst|].
    split_and!; [|by right|by eapply linv_shows|by eapply rinv_machines].
    assert (take k g = take k g') as ->.
    { eapply (committed_agree h' members); [apply Hinv|by eapply lninv_elections|done|done|lia|lia]. }
    rewrite <- (Nat.min_l k k'), <- take_take by done. apply prefix_take.
  - exists (take k g). split; [apply Hfirst|]. split; [apply Hfirst|]. split; [apply Hfirst|].
    assert (Hall : forall i n, c_nodes (rp_cluster y) !! i = Some n -> commitIndex n <= Z.of_nat k).
    { intros i n Hi. specialize (Hm' i n Hi). lia. }
    split_and!; [done|by left|by eapply linv_shows|by eapply rinv_machines].
Qed.

(** C6. One machine executes the decided log: along every execution of clean and
    orderly steps in which nobody votes twice in a term there is a sequence of
    decided entries such that the machine of every member, unless a snapshot
    waits to be restored to it, is the machine that has executed the first
    [lastApplied] entries of it, commands in order and configuration entries left
    out; whether it got there by applying entries, by snapshots from a leader, or
    by its own snapshot after a restart.  Later the same holds for a sequence
    that extends it.  So members that have applied equally much are in the same
    state, and nothing that was executed is ever undone or replaced. *)
Theorem replicas_run_decided_log {W : Type} `{!Transport W} {S R : Type} `{!StateMachine S R, !SnapshotLaw S R}
    (s0 : S) (members : list string) (x y : Replicated W S) :
  NoDup members -> "" ∉ members -> replicated_reachable s0 members x -> rtc (rstep s0) x y ->
  votes_once (c_votes (rp_cluster y)) ->
  exists L L', decided_by L (rp_cluster x) /\ shows L (rp_cluster x) /\ machines_run s0 L x /\
    L `prefix_of` L' /\ (L' = L \/ decided_by L' (rp_cluster y)) /\ shows L' (rp_cluster y) /\ machines_run s0 L' y.
Proof. apply replicas_run_lists. Qed.

(** Both stores hold the written value, one of them restored from its own
    snapshot. *)
Lemma replicas_run_decided_log_witness :
  exists (x : Replicated MemoryNetwork (gmap string string)) L a b,
    c_nodes (rp_cluster x) !! "a" = Some a /\ c_nodes (rp_cluster x) !! "b" = Some b /\
    log_snapshotIndex (rlog a) = 0 /\ log_snapshotIndex (rlog b) = 1 /\
    (@apply_entries _ _ (@kv_StateMachine bitCodec bitCodec) (take 1 L) ∅).2 = {["x" := "1"]} /\
    rp_machines x !! "a" = rp_machines x !! "b".
Proof.
  destruct exReplicated_run as (x & a & b & Hr & Ho & Ha & Hb & Ma & Mb & Na & Nb & La & Lb & Sa & Sb).
  destruct exMembers_ok as [H1 H2].
  destruct (@replicas_run_decided_log _ _ _ _ (@kv_StateMachine bitCodec bitCodec) (@kv_SnapshotLaw bitCodec bitCodec)
    ∅ exMembers x x H1 H2 Hr (rtc_refl _ x) Ho) as (L & _ & _ & _ & Hm & _).
  exists x, L, a, b. split_and!; [exact Ha|exact Hb|exact Sa|exact Sb| |by rewrite Ma, Mb].
  destruct (Hm "a" a Ha) as (s & Hs & E). specialize (E Na). rewrite La in E. rewrite Ma in Hs. injection Hs as <-. by rewrite E.
Defined.
