(* ===== verification/Durability.v ===== *)
(** * Acknowledged writes survive

    The whole stack from the client's side: once a member has committed a write,
    every store that has caught up with it reads it, or what a later write made
    of it, through elections, restarts and snapshots. *)

From S2P Require Import Prelude RaftLog Rpc Disk Node Election Replication ReplicationSafety Snapshot Client Apply KVStore Transport Cluster ElectionSafety FullLog LogHistory LogInvariant LogSteps LogFollowers LogLeaders LogSafety Consensus Replicas ReplicaSafety.

Section kv.
Context `{!GobCodec op, !GobCodec (gmap string string)}.

(** C7. An acknowledged write is not lost, along clean and orderly executions in
    which nobody votes twice in a term: once a member has committed an entry that
    sets a key, in every later state there is one sequence of decided entries
    that has it at its index, and every store that has applied that far and has
    no snapshot waiting to be restored, on whichever member and after whatever
    elections, restarts and snapshots, holds for this key the value written, or
    what the writes decided after it made of it.  (Findings.v shows executions
    that are not clean or not orderly, in which the code does lose one.) *)
Theorem acknowledged_write_survives {W : Type} `{!Transport W} (members : list string)
    (x y : Replicated W (gmap string string)) (i : string) (n : RaftNode) (k : Z) (e : LogEntry) (key value : string) :
  NoDup members -> "" ∉ members -> replicated_reachable ∅ members x -> rtc (rstep ∅) x y ->
  votes_once (c_votes (rp_cluster y)) ->
  c_nodes (rp_cluster x) !! i = Some n -> 0 < k -> log_snapshotIndex (rlog n) < k <= commitIndex n ->
  log_view (rlog n) !! k = Some e -> le_IsConfig e = false -> decodeOp (le_Command e) = Some (setOp key value) ->
  exists L, L !! (Z.to_nat k - 1)%nat = Some e /\
    forall j m s, c_nodes (rp_cluster y) !! j = Some m -> rp_machines y !! j = Some s ->
      snapshotNotifyC m = None -> k <= lastApplied m ->
      s !! key = last_write (entries_ops (drop (Z.to_nat k) (take (Z.to_nat (lastApplied m)) L))) key (Some value).
Proof.
  intros Hnd Hne Hr Hs Ho Hn Hk Hck He Hcfg Hdec.
  destruct (replicas_run_lists ∅ members x y Hnd Hne Hr Hs Ho) as (L & L' & _ & Hsh & _ & Hpre & _ & _ & Hrun).
  assert (HL : L' !! (Z.to_nat k - 1)%nat = Some e).
  { eapply prefix_lookup_Some; [|exact Hpre]. rewrite <- He. symmetry. by apply (ns_entries _ _ (Hsh i n Hn)). }
  exists L'. split; [done|]. intros j m s Hj Hms Hnone Hla.
  destruct (Hrun j m Hj) as (s' & Hs' & Hrun'). rewrite Hms in Hs'. injection Hs' as <-. rewrite (Hrun' Hnone).
  set (la := Z.to_nat (lastApplied m)). rewrite execute_last_write.
  assert (Hsplit : take la L' = take (Z.to_nat k - 1) L' ++ e :: drop (Z.to_nat k) (take la L')).
  { rewrite <- (take_drop_middle (take la L') (Z.to_nat k - 1) e) at 1.
    - rewrite take_take, Nat.min_l by lia. by replace (S (Z.to_nat k - 1)) with (Z.to_nat k) by lia.
    - rewrite lookup_take_lt by lia. done. }
  rewrite Hsplit at 1. unfold entries_ops at 1. rewrite omap_app. fold (entries_ops (take (Z.to_nat k - 1) L')).
  cbn [omap list_omap]. rewrite Hcfg, Hdec, last_write_app. simpl. by rewrite bool_decide_eq_true_2.
Qed.
End kv.

(** "a" has committed the write; afterwards "b" learns of it, applies it, takes a
    snapshot and restarts. *)
Definition exWritten : list label := exElection ++ [LSubmit "a" exCommand;
  LAppendRequest 2 false (exTime 7); LAppendReply 2 (exTime 8)].
Definition exAfterwards : list label :=
  [LTick "a" (exTime 9); LAppendRequest 4 false (exTime 10); LApply "b"; LApply "a"; LTakeSnapshot "b" exSnapshot; LRestart "b"].

Lemma exDurable_run :
  let sm := @kv_StateMachine bitCodec bitCodec in
  exists (x y : Replicated MemoryNetwork (gmap string string)) a b e,
    replicated_reachable (StateMachine0 := sm) ∅ exMembers x /\ rtc (rstep (StateMachine0 := sm) ∅) x y /\
    votes_once (c_votes (rp_cluster y)) /\
    c_nodes (rp_cluster x) !! "a" = Some a /\ c_nodes (rp_cluster y) !! "b" = Some b /\
    rp_machines y !! "b" = Some {["x" := "1"]} /\ log_snapshotIndex (rlog a) = 0 /\ commitIndex a = 1 /\
    log_view (rlog a) !! 1 = Some e /\ le_IsConfig e = false /\ le_Command e = exCommand /\
    snapshotNotifyC b = None /\ lastApplied b = 1.
Proof.
  cbv zeta. set (sm := @kv_StateMachine bitCodec bitCodec).
  assert (Hrun : match replicated_exec_all (StateMachine0 := sm) ∅ exWritten (initReplicated ∅ exNet exMembers) with
    | Some x =>
        match replicated_exec_all (StateMachine0 := sm) ∅ exAfterwards x with
        | Some y =>
            match c_nodes (rp_cluster x) !! "a", c_nodes (rp_cluster y) !! "b" with
            | Some a, Some b =>
                match log_view (rlog a) !! 1 with
                | Some e => bool_decide (c_abdicated (rp_cluster y) = ∅ /\
                    rp_machines y !! "b" = Some {["x" := "1"]} /\ log_snapshotIndex (rlog a) = 0 /\ commitIndex a = 1 /\
                    le_IsConfig e = false /\ le_Command e = exCommand /\ restored "b" (rp_cluster y) = true /\ lastApplied b = 1)
                | None => false
                end
            | _, _ => false
            end
        | None => false
        end
    | None => false
    end = true) by (vm_compute; reflexivity).
  destruct (replicated_exec_all ∅ exWritten _) as [x|] eqn:Hx; [|done]. apply replicated_exec_all_rtc in Hx.
  destruct (replicated_exec_all ∅ exAfterwards x) as [y|] eqn:Hy; [|done]. apply replicated_exec_all_rtc in Hy.
  destruct (c_nodes (rp_cluster x) !! "a") as [a|] eqn:Ha; [|done]. destruct (c_nodes (rp_cluster y) !! "b") as [b|] eqn:Hb; [|done].
  destruct (log_view (rlog a) !! 1) as [e|] eqn:He; [|done].
  apply bool_decide_eq_true in Hrun as (Hab & ? & ? & ? & ? & ? & Rb & ?). destruct exMembers_ok as [Hnd Hne].
  unfold restored in Rb. rewrite Hb in Rb. simpl in Rb.
  exists x, y, a, b, e. split_and!; try done; [by exists exNet| |by destruct (snapshotNotifyC b)].
  eapply no_abdication_once; [exact Hnd|exact Hne| |done]. exists exNet.
  apply replicated_clean in Hx. apply replicated_clean in Hy. simpl in Hx. by transitivity (rp_cluster x).
Qed.

Lemma acknowledged_write_survives_witness :
  exists (y : Replicated MemoryNetwork (gmap string string)) L s,
    rp_machines y !! "b" = Some s /\ s !! "x" = Some "1" /\
    Some "1" = last_write (@entries_ops bitCodec (drop 1 (take 1 L))) "x" (Some "1").
Proof.
  destruct exDurable_run as (x & y & a & b & e & Hr & Hs & Ho & Ha & Hb & Mb & Sa & Ca & He & Hcfg & Hcmd & Nb & Lb).
  destruct exMembers_ok as [H1 H2].
  destruct (@acknowledged_write_survives bitCodec bitCodec _ _ exMembers x y "a" a 1 e "x" "1" H1 H2 Hr Hs Ho Ha eq_refl)
    as (L & _ & HL); [lia|exact He|exact Hcfg|rewrite Hcmd; vm_compute; reflexivity|].
  exists y, L, {["x" := "1"]}. split; [exact Mb|]. split; [vm_compute; reflexivity|].
  specialize (HL "b" b _ Hb Mb Nb ltac:(lia)). rewrite Lb in HL. exact HL.
Defined.
