(* ===== verification/Harness.v ===== *)
(** * The scenario harness (chaos/harness.go, cmd/chaos/main.go)

    A scenario runs against a cluster on a [ChaosNetwork].  [Trial] is what it
    acts on: the cluster with its network, the fault injector, the temporary
    directories and the harness that records logs and failures.  Between any two
    actions of a scenario the goroutines of the cluster make the steps that the
    machine ([ChaosHost]) gives; a step that is not enabled is none.  A scenario
    ends, or unwinds with the panic of [Fatalf] or with another one. *)

From Stdlib Require Import QArith.QArith Strings.Ascii.
From stdpp Require Import pretty.
From S2P Require Import Prelude RaftLog Rpc Disk Node Election Replication Snapshot Client Transport Chaos Server Loops Cluster.

(** ** The machine *)

(** A step of the cluster, or a new draw of [rand.Float64]. *)
Inductive event :=
  | Step (l : label)
  | Draw (q : Q).

Class ChaosHost (E : Type) := {
  ch_Now : E -> E * Z;
  ch_Sleep : Z -> E -> E;
  ch_MkdirTemp : E -> E * (string + string);
  ch_events : E -> Cluster ChaosNetwork -> E * list event
}.

(** ** The state of a run *)

(** An observation of the injector is logged with its time, which is left out. *)
Inductive logline :=
  | Line (s : string)
  | ObsLine (o : Observation).

(** The panic value of [Fatalf], and any other panic. *)
Inductive unwinding :=
  | harnessStop (msg : string)
  | runtimePanic.

Record Trial (E : Type) := mkTrial {
  t_env : E;
  t_cluster : Cluster ChaosNetwork;
  t_injector : ChaosInjector;
  t_dirs : list string;
  t_logs : list logline;
  t_failed : bool
}.
Arguments mkTrial {E}.
Arguments t_env {E}.
Arguments t_cluster {E}.
Arguments t_injector {E}.
Arguments t_dirs {E}.
Arguments t_logs {E}.
Arguments t_failed {E}.

Record ScenarioResult := mkScenarioResult {
  sr_Name : string; sr_Passed : bool; sr_Error : logline; sr_DurMs : Z; sr_Logs : list logline
}.

Record ScenarioMeta := mkScenarioMeta { sm_ID : string; sm_Label : string; sm_Desc : string }.

(** Scenario code: it returns or unwinds. *)
Definition Run (E A : Type) : Type := ST (Trial E) (A + unwinding).

#[export] Instance Run_ret E : MRet (Run E) := λ A a t, (t, inl a).
#[export] Instance Run_bind E : MBind (Run E) := λ A B f m t,
  match m t with
  | (t, inl a) => f a t
  | (t, inr p) => (t, inr p)
  end.

Section harness.
Context {E : Type} `{!ChaosHost E}.

Definition set_tenv (e : E) (t : Trial E) : Trial E :=
  mkTrial e (t_cluster t) (t_injector t) (t_dirs t) (t_logs t) (t_failed t).

Definition set_cluster (c : Cluster ChaosNetwork) (t : Trial E) : Trial E :=
  mkTrial (t_env t) c (t_injector t) (t_dirs t) (t_logs t) (t_failed t).

Definition set_dirs (d : list string) (t : Trial E) : Trial E :=
  mkTrial (t_env t) (t_cluster t) (t_injector t) d (t_logs t) (t_failed t).

#[export] Instance trial_clock : Clock (Trial E) := {|
  Now t := let '(e, now) := ch_Now (t_env t) in (set_tenv e t, now);
  Sleep d t := (set_tenv (ch_Sleep d (t_env t)) t, ())
|}.

(** An effect that cannot unwind. *)
Definition lift {A} (m : ST (Trial E) A) : Run E A := λ t, let '(t, a) := m t in (t, inl a).

(** ** The recorder *)

Definition log_line (failed : bool) (l : logline) : Run E () := λ t,
  (mkTrial (t_env t) (t_cluster t) (t_injector t) (t_dirs t) (t_logs t ++ [l]) (t_failed t || failed), inl ()).

Definition Logf (msg : string) : Run E () := log_line false (Line msg).
Definition Errorf (msg : string) : Run E () := log_line true (Line ("ERROR: " +:+ msg)).

Definition unwind {A} (p : unwinding) : Run E A := λ t, (t, inr p).

Definition Fatalf {A} (msg : string) : Run E A :=
  log_line true (Line ("FATAL: " +:+ msg)) ;; unwind (harnessStop msg).

(** [Fatal] of one string. *)
Definition Fatal {A} (msg : string) : Run E A := Fatalf msg.

Definition Logs : Run E (list logline) := λ t, (t, inl (t_logs t)).
Definition Failed : Run E bool := λ t, (t, inl (t_failed t)).

(** [defer]: the cleanup runs however the body ends. *)
Definition deferred {A} (cleanup : Run E ()) (body : Run E A) : Run E A := λ t,
  let '(t, r) := body t in
  match cleanup t with
  | (t, inl _) => (t, r)
  | (t, inr p) => (t, inr p)
  end.

(** ** The cluster, between the actions of a scenario *)

Definition apply_event (c : Cluster ChaosNetwork) (ev : event) : Cluster ChaosNetwork :=
  match ev with
  | Step l => default c (exec l c)
  | Draw q => set_net (mkChaosNetwork (cn_base (c_net c)) (cn_rules (c_net c)) q) c
  end.

Definition others : Run E () := λ t,
  let '(e, evs) := ch_events (t_env t) (t_cluster t) in
  (set_cluster (foldl apply_event (t_cluster t) evs) (set_tenv e t), inl ()).

(** A method of a node that reads it.  The nodes of a scenario are never taken
    out of its cluster. *)
Definition node (id : string) : Run E RaftNode := λ t,
  (t, inl (default (initNode [] id) (c_nodes (t_cluster t) !! id))).

Definition read {A} (f : RaftNode -> A) (id : string) : Run E A :=
  others ;; n ← node id; mret (f n).

(** ** The registry *)

Definition scenarioEntry : Type := ScenarioMeta * Run E ().

Context (registry : list scenarioEntry).

(** [sort.Slice] by identifier, as an insertion sort: the identifiers are
    distinct, so every sort gives the same list. *)
Fixpoint insertMeta (m : ScenarioMeta) (l : list ScenarioMeta) : list ScenarioMeta :=
  match l with
  | [] => [m]
  | m' :: l => if String.ltb (sm_ID m) (sm_ID m') then m :: m' :: l else m' :: insertMeta m l
  end.

Definition ListScenarios : list ScenarioMeta := foldr insertMeta [] (map fst registry).

Definition is_failure (l : logline) : bool :=
  match l with
  | Line s => String.prefix "FATAL:" s || String.prefix "ERROR:" s
  | ObsLine _ => false
  end.

(** A new harness for the run. *)
Definition fresh_harness (t : Trial E) : Trial E :=
  mkTrial (t_env t) (t_cluster t) (t_injector t) (t_dirs t) [] false.

(** [None]: a panic that is not [harnessStop] has ended the process. *)
Definition RunScenario (id : string) : ST (Trial E) (option ScenarioResult) := λ t,
  match List.find (λ e : scenarioEntry, String.eqb (sm_ID e.1) id) registry with
  | None => (t, Some (mkScenarioResult id false (Line ("unknown scenario: " +:+ id)) 0 []))
  | Some entry =>
      let '(t, start) := Now (fresh_harness t) in
      match entry.2 t with
      | (t, inr runtimePanic) => (t, None)
      | (t, _) =>
          let passed := negb (t_failed t) in
          let '(t, durMs) := sinceMs start t in
          let logs := t_logs t in
          let error := if passed then Line "" else default (Line "") (List.find is_failure logs) in
          (t, Some (mkScenarioResult id passed error durMs logs))
      end
  end.

(** ** The chaos server *)

Inductive chaos_response :=
  | CError (msg : string) (code : Z)
  | CList (l : list ScenarioMeta)
  | CResult (r : ScenarioResult)
  | CNoContent
  | CNotFound.

Definition handleList (r : http_request) : chaos_response :=
  if negb (String.eqb (rq_Method r) "GET") then CError "method not allowed" 405 else CList ListScenarios.

Context (url_Path : string -> string).

(** [None] when the process ends. *)
Definition handleRun (r : http_request) : ST (Trial E) (option chaos_response) :=
  if negb (String.eqb (rq_Method r) "POST") then mret (Some (CError "method not allowed" 405))
  else
    let id := TrimPrefix (url_Path (rq_URI r)) "/scenarios/" in
    if String.eqb id "" then mret (Some (CError "missing scenario id" 400))
    else result ← RunScenario id; mret (CResult <$> result).

(** The routes of [main], for clean paths. *)
Definition chaos_mux (r : http_request) : ST (Trial E) (option chaos_response) :=
  let path := url_Path (rq_URI r) in
  if String.eqb path "/scenarios" then mret (Some (handleList r))
  else if String.prefix "/scenarios/" path then handleRun r
  else mret (Some CNotFound).

Definition chaos_corsHeaders : list (string * string) :=
  [("Access-Control-Allow-Origin", "*");
   ("Access-Control-Allow-Methods", "GET, POST, OPTIONS");
   ("Access-Control-Allow-Headers", "Content-Type")].

Definition chaos_corsMiddleware (next : http_request -> ST (Trial E) (option chaos_response)) (r : http_request)
  : ST (Trial E) (list (string * string) * option chaos_response) :=
  resp ← (if String.eqb (rq_Method r) "OPTIONS" then mret (Some CNoContent) else next r);
  mret (chaos_corsHeaders, resp).

Definition chaos_serve : http_request -> ST (Trial E) (list (string * string) * option chaos_response) :=
  chaos_corsMiddleware chaos_mux.
End harness.
Arguments scenarioEntry : clear implicits.
