(* ===== verification/Scenarios.v ===== *)
(** * The chaos scenarios (chaos/scenarios.go)

    The helpers that build a cluster, wait for a leader and wait for the logs to
    agree, and the four scenarios.  A node of a scenario is the identifier it is
    registered under, which is what [ID] returns. *)

From Stdlib Require Import QArith.QArith Strings.Ascii.
From stdpp Require Import pretty.
From S2P Require Import Prelude RaftLog Rpc Disk Node Election Replication Snapshot Client Apply Transport Chaos Loops Cluster Harness.

(** The state machine of the scenarios: it has no state and returns nil. *)
#[export] Instance kvStateMachine : StateMachine () () := {|
  sm_Apply _ s := (s, ());
  sm_Snapshot _ := Some [];
  sm_Restore _ s := (s, true)
|}.

Section scenarios.
Context {E : Type} `{!ChaosHost E}.

(** ** Directories *)

Definition MkdirTemp : Run E (string + string) := λ t,
  let '(e, r) := ch_MkdirTemp (t_env t) in
  let t := set_tenv e t in
  match r with
  | inl dir => (set_dirs (t_dirs t ++ [dir]) t, inl (inl dir))
  | inr err => (t, inl (inr err))
  end.

Definition RemoveAll (dir : string) : Run E () := λ t,
  (set_dirs (List.filter (λ d, negb (String.eqb d dir)) (t_dirs t)) t, inl ()).

Fixpoint forEach {A} (f : A -> Run E ()) (l : list A) : Run E () :=
  match l with
  | [] => mret ()
  | a :: l => f a ;; forEach f l
  end.

(** ** The cluster *)

Definition nodeIDs (count : Z) : list string := map (λ i, ("node" +:+ pretty (i + 1))%string) (seqZ 0 count).

(** The loop over the identifiers: a directory for each node. *)
Fixpoint makeDirs (ids dirs : list string) : Run E (list string) :=
  match ids with
  | [] => mret dirs
  | _ :: ids =>
      r ← MkdirTemp;
      match r with
      | inr err => Fatalf ("MkdirTemp: " +:+ err)
      | inl dir => makeDirs ids (dirs ++ [dir])
      end
  end.

(** The nodes are made in the loop and started after it; nothing acts on them
    before.  Each node's [disk] is its directory, [memberConfig] the rest of its
    configuration. *)
Definition startCluster (ids : list string) : Run E () := λ t,
  let net := foldl (λ net id, cn_Register id net) NewChaosNetwork ids in
  (mkTrial (t_env t) (initCluster net ids) (NewInjector net (list_to_set ids)) (t_dirs t) (t_logs t) (t_failed t), inl ()).

Definition stopMember (id : string) : Run E () :=
  others ;;
  n ← node id;
  match Stop n with
  | Some n => lift (λ t, (set_cluster (set_nodes (<[id := n]> (c_nodes (t_cluster t))) (t_cluster t)) t, ()))
  | None => unwind runtimePanic
  end.

Definition teardown (nodes dirs : list string) : Run E () :=
  forEach stopMember nodes ;; forEach RemoveAll dirs.

(** The nodes, and what the teardown captures. *)
Definition chaosClusterTB (count : Z) : Run E (list string * list string) :=
  let ids := nodeIDs count in
  dirs ← makeDirs ids [];
  startCluster ids ;;
  mret (ids, dirs).

(** ** Waiting *)

(** An attempt of a polling loop, in which scenario code may unwind. *)
Definition attempting {A V} (m : Run E (A + V)) : ST (Trial E) ((A + unwinding) + V) := λ t,
  match m t with
  | (t, inl (inl a)) => (t, inl (inl a))
  | (t, inl (inr v)) => (t, inr v)
  | (t, inr p) => (t, inl (inr p))
  end.

Definition polling {A} (timeout interval : Z) (attempt : Run E (A + ())) (late : Run E A) : Run E A := λ t,
  match poll_for timeout interval (λ _, attempting attempt) () t with
  | (t, inl r) => (t, r)
  | (t, inr _) => late t
  end.

(** One pass over the nodes. *)
Fixpoint scanLeaders (nodes : list string) (found : option string) : Run E (option string) :=
  match nodes with
  | [] => mret found
  | n :: nodes =>
      st ← read State n;
      if NodeState_eqb st Leader then
        match found with
        | Some _ => Fatal "two leaders elected simultaneously"
        | None => scanLeaders nodes (Some n)
        end
      else scanLeaders nodes found
  end.

Definition waitForLeaderTB (nodes : list string) (timeout : Z) : Run E string :=
  polling timeout (15 * Millisecond)
    (found ← scanLeaders nodes None; mret (match found with Some n => inl n | None => inr () end))
    (Fatal "no leader elected within timeout").

Fixpoint sameLastIndex (ref : Z) (nodes : list string) : Run E bool :=
  match nodes with
  | [] => mret true
  | n :: nodes => i ← read LastIndex n; if negb (i =? ref) then mret false else sameLastIndex ref nodes
  end.

Definition nodesConsistent (nodes : list string) : Run E bool :=
  match nodes with
  | [] => mret true
  | n :: nodes => ref ← read LastIndex n; sameLastIndex ref nodes
  end.

Definition waitConsistentTB (nodes : list string) (timeout : Z) : Run E () :=
  polling timeout (20 * Millisecond)
    (ok ← nodesConsistent nodes; mret (if (ok : bool) then inl () else inr ()))
    (forEach (λ n, i ← read LastIndex n; Logf ("  " +:+ n +:+ " lastIndex=" +:+ pretty i)) nodes ;;
     Fatal "nodes did not converge on the same log within timeout").

(** ** Actions *)

Definition sleep (d : Z) : Run E () := lift (Sleep d).

Definition submit (id : string) (command : string) : Run E (Z * Z + raft_error) :=
  others ;;
  n ← node id;
  let cmd := String.list_byte_of_string command in
  lift (λ t, (set_cluster (default (t_cluster t) (exec (LSubmit id cmd) (t_cluster t))) t, (Submit n cmd).1.2)).

Definition errorText (e : raft_error) : string := match e with ErrNotLeader => "raft: not the leader" end.

(** The injector works on the network of the running cluster. *)
Definition inject {A} (f : ChaosInjector -> ChaosInjector * A) : Run E A :=
  others ;;
  lift (λ t, let '(ci, a) := f (set_ci_net (c_net (t_cluster t)) (t_injector t)) in
             (mkTrial (t_env t) (set_net (ci_net ci) (t_cluster t)) ci (t_dirs t) (t_logs t) (t_failed t), a)).

Definition heal (f : cleanup) : Run E () := inject (λ ci, (run_cleanup f ci, ())).

(** Commands [prefix-i]; a failure ends the scenario with [what]. *)
Definition submitAll (leader prefix what : string) (idx : list Z) : Run E () :=
  forEach (λ i, r ← submit leader (prefix +:+ "-" +:+ pretty i);
                match r with
                | inl _ => mret ()
                | inr err => Fatalf (what +:+ ": " +:+ errorText err)
                end) idx.

(** Commands [prefix-i], counting those accepted, with a pause after each. *)
Fixpoint countSubmits (leader prefix : string) (pause : Z) (idx : list Z) (accepted : Z) : Run E Z :=
  match idx with
  | [] => mret accepted
  | i :: idx =>
      r ← submit leader (prefix +:+ "-" +:+ pretty i);
      (if pause =? 0 then mret () else sleep pause) ;;
      countSubmits leader prefix pause idx (match r with inl _ => accepted + 1 | inr _ => accepted end)
  end.

Definition logObservations : Run E () :=
  obs ← lift (λ t, (t, Observations (t_injector t)));
  forEach (λ o, log_line false (ObsLine o)) obs.

Definition without (n : string) (nodes : list string) : list string :=
  List.filter (λ m, negb (String.eqb m n)) nodes.

(** A scenario: a cluster, the body, and the teardown however the body ends. *)
Definition withCluster (count : Z) (body : list string -> Run E ()) : Run E () :=
  '(nodes, dirs) ← chaosClusterTB count;
  deferred (teardown nodes dirs) (body nodes).

(** ** Split brain *)

Definition splitBrain (nodes : list string) : Run E () :=
  waitForLeaderTB nodes (3 * Second) ;;
  sleep (200 * Millisecond) ;;
  leader ← waitForLeaderTB nodes (2 * Second);
  term ← read CurrentTerm leader;
  Logf ("initial leader: " +:+ leader +:+ " (term " +:+ pretty term +:+ ")") ;;
  submitAll leader "before-partition" "pre-partition Submit" [0; 1; 2] ;;
  sleep (200 * Millisecond) ;;
  healLeader ← inject (PartitionNode leader);
  isolatedWrites ← countSubmits leader "isolated" 0 [0; 1; 2; 3; 4] 0;
  Logf ("isolated leader accepted " +:+ pretty isolatedWrites +:+ " write(s) locally (won't commit without quorum)") ;;
  newLeader ← waitForLeaderTB (without leader nodes) (3 * Second);
  term ← read CurrentTerm newLeader;
  Logf ("new leader after partition: " +:+ newLeader +:+ " (term " +:+ pretty term +:+ ")") ;;
  newTerm ← read CurrentTerm newLeader;
  oldTerm ← read CurrentTerm leader;
  (if newTerm <=? oldTerm then
     newTerm ← read CurrentTerm newLeader;
     oldTerm ← read CurrentTerm leader;
     Errorf ("new leader term " +:+ pretty newTerm +:+ " should exceed old leader term " +:+ pretty oldTerm)
   else mret ()) ;;
  submitAll newLeader "after-partition" "post-partition Submit" [0; 1; 2] ;;
  sleep (200 * Millisecond) ;;
  heal healLeader ;;
  sleep (800 * Millisecond) ;;
  st ← read State leader;
  (if NodeState_eqb st Leader then
     Errorf "isolated leader should have stepped down after heal, still reports Leader"
   else mret ()) ;;
  waitConsistentTB nodes (5 * Second) ;;
  logObservations.

Definition scenarioSplitBrain : Run E () := withCluster 5 splitBrain.

(** ** Stale log cannot win *)

(** [stale.ID()] of a nil pointer panics. *)
Definition staleLogCannotWin (nodes : list string) : Run E () :=
  leader ← waitForLeaderTB nodes (3 * Second);
  Logf ("initial leader: " +:+ leader) ;;
  match head (without leader nodes) with
  | None => unwind runtimePanic
  | Some stale =>
      Logf ("stale target: " +:+ stale) ;;
      healStale ← inject (PartitionNode stale);
      submitAll leader "advance" "Submit during partition" (seqZ 0 10) ;;
      sleep (200 * Millisecond) ;;
      heal healStale ;;
      sleep (500 * Millisecond) ;;
      st ← read State stale;
      (if NodeState_eqb st Leader then
         Errorf ("stale node " +:+ stale +:+ " won election despite having a shorter log")
       else mret ()) ;;
      newLeader ← waitForLeaderTB nodes (3 * Second);
      term ← read CurrentTerm newLeader;
      Logf ("leader after heal: " +:+ newLeader +:+ " (term " +:+ pretty term +:+ ")") ;;
      waitConsistentTB nodes (3 * Second) ;;
      logObservations
  end.

Definition scenarioStaleLogCannotWin : Run E () := withCluster 3 staleLogCannotWin.

(** ** Leader isolation *)

Definition leaderIsolationWriteLoss (nodes : list string) : Run E () :=
  leader ← waitForLeaderTB nodes (3 * Second);
  Logf ("initial leader: " +:+ leader) ;;
  baselineCommit ← read CommitIndex leader;
  inject (PartitionNode leader) ;;
  accepted ← countSubmits leader "lost" (10 * Millisecond) [0; 1; 2; 3; 4] 0;
  Logf ("isolated leader accepted " +:+ pretty accepted +:+ " write(s) into local log") ;;
  newLeader ← waitForLeaderTB (without leader nodes) (3 * Second);
  term ← read CurrentTerm newLeader;
  Logf ("new leader: " +:+ newLeader +:+ " (term " +:+ pretty term +:+ ")") ;;
  isolatedCommit ← read CommitIndex leader;
  (if baselineCommit <? isolatedCommit then
     Errorf ("isolated leader commit index advanced from " +:+ pretty baselineCommit +:+ " to " +:+
       pretty isolatedCommit +:+ " without quorum")
   else mret ()) ;;
  Logf ("isolated leader commitIndex: baseline=" +:+ pretty baselineCommit +:+ ", after-writes=" +:+
    pretty isolatedCommit +:+ " (no advance — correct)") ;;
  inject (λ ci, (HealAll ci, ())) ;;
  sleep (600 * Millisecond) ;;
  st ← read State leader;
  (if NodeState_eqb st Leader then Errorf "old isolated leader still reports Leader state after heal" else mret ()) ;;
  r ← submit newLeader "post-heal";
  match r with
  | inr err => Fatalf ("post-heal Submit: " +:+ errorText err)
  | inl _ =>
      waitConsistentTB nodes (5 * Second) ;;
      logObservations
  end.

Definition scenarioLeaderIsolationWriteLoss : Run E () := withCluster 3 leaderIsolationWriteLoss.

(** ** Packet loss *)

(** The loop body of the lossy submissions: who leads may change. *)
Fixpoint lossySubmits (nodes : list string) (leader : string) (idx : list Z) : Run E () :=
  match idx with
  | [] => mret ()
  | i :: idx =>
      let cmd := "lossy-" +:+ pretty i in
      r ← submit leader cmd;
      leader ← (match r with
                | inl _ => mret leader
                | inr _ =>
                    leader ← waitForLeaderTB nodes (3 * Second);
                    r ← submit leader cmd;
                    (match r with
                     | inl _ => mret ()
                     | inr err2 => Logf ("Submit " +:+ pretty i +:+ " skipped under lossy network: " +:+ errorText err2)
                     end) ;;
                    mret leader
                end);
      sleep (100 * Millisecond) ;;
      lossySubmits nodes leader idx
  end.

Definition packetLossStillConverges (nodes : list string) : Run E () :=
  restore ← inject (InjectPacketLoss "" "" (3 # 10));
  deferred (heal restore) (
    leader ← waitForLeaderTB nodes (8 * Second);
    term ← read CurrentTerm leader;
    Logf ("leader under 30% packet loss: " +:+ leader +:+ " (term " +:+ pretty term +:+ ")") ;;
    lossySubmits nodes leader [0; 1; 2; 3; 4] ;;
    sleep (1 * Second) ;;
    heal restore ;;
    waitConsistentTB nodes (5 * Second) ;;
    logObservations).

Definition scenarioPacketLossStillConverges : Run E () := withCluster 3 packetLossStillConverges.

(** ** The registry ([init]) *)

Definition registry : list (scenarioEntry E) :=
  [(mkScenarioMeta "split_brain" "Split Brain"
      "Isolates the leader; the remaining majority elects a new one. Writes sent to the isolated node cannot commit without a quorum.",
    scenarioSplitBrain);
   (mkScenarioMeta "stale_log_cannot_win" "Stale Log Cannot Win"
      "A follower is partitioned while the log advances. After healing, its RequestVotes are rejected by up-to-date peers (Raft §5.4.1).",
    scenarioStaleLogCannotWin);
   (mkScenarioMeta "leader_isolation" "Leader Isolation Write Loss"
      "The leader is cut off from all peers. Writes it accepts locally must not commit — the commit index must not advance without a quorum.",
    scenarioLeaderIsolationWriteLoss);
   (mkScenarioMeta "packet_loss_converges" "30% Packet Loss Still Converges"
      "Probabilistic 30% packet loss is injected on all links. The cluster degrades gracefully but still elects a leader and commits entries.",
    scenarioPacketLossStillConverges)].
End scenarios.

(** ** What scenario code keeps *)

(** A property of the trial that the machine, the steps of the cluster, the
    injector and a truthful log line do not break. *)
Class Frame {E : Type} (P : Trial E -> Prop) := {
  frame_env : forall e t, P t -> P (set_tenv e t);
  frame_step : forall c t, rtc cstep (t_cluster t) c -> P t -> P (set_cluster c t);
  frame_inject : forall net ci t, P t ->
    P (mkTrial (t_env t) (set_net net (t_cluster t)) ci (t_dirs t) (t_logs t) (t_failed t));
  frame_log : forall failed l t, is_failure l = failed -> P t -> P (log_line failed l t).1
}.

Lemma exec_default_rtc l (c : Cluster ChaosNetwork) : rtc cstep c (default c (exec l c)).
Proof. destruct (exec l c) as [c'|] eqn:Hl; [|done]. by apply rtc_once, (cstep_exec l). Qed.

Lemma apply_events_rtc evs : forall c, rtc cstep c (foldl apply_event c evs).
Proof.
  induction evs as [|ev evs IH]; intros c; [done|]. simpl. etransitivity; [|apply IH]. destruct ev as [l|q].
  - apply exec_default_rtc.
  - apply rtc_once, cstep_net.
Qed.

Section keeps.
Context {E : Type} `{!ChaosHost E} (P : Trial E -> Prop) {HF : Frame P}.

Definition keeps {A} (m : ST (Trial E) A) : Prop := forall t, P t -> P (m t).1.

Lemma keeps_bind {A B} (m : Run E A) (f : A -> Run E B) : keeps m -> (forall a, keeps (f a)) -> keeps (m ≫= f).
Proof.
  intros Hm Hf t Ht. unfold mbind, Run_bind. specialize (Hm t Ht). destruct (m t) as [t1 [a|p]]; [by apply Hf|done].
Qed.

Lemma keeps_ret {A} (a : A) : keeps (mret a : Run E A).
Proof. by intros t. Qed.

Lemma keeps_unwind {A} p : keeps (unwind p : Run E A).
Proof. by intros t. Qed.

Lemma keeps_lift {A} (m : ST (Trial E) A) : keeps m -> keeps (lift m).
Proof. intros Hm t Ht. unfold lift. specialize (Hm t Ht). by destruct (m t). Qed.

Lemma keeps_node id : keeps (node id).
Proof. by intros t. Qed.

Lemma keeps_Now : keeps Now.
Proof using HF. intros t Ht. unfold Now, trial_clock. destruct (ch_Now _). by apply frame_env. Qed.

Lemma keeps_Sleep d : keeps (Sleep d).
Proof using HF. intros t Ht. by apply frame_env. Qed.

Lemma keeps_others : keeps others.
Proof using HF.
  intros t Ht. unfold others. destruct (ch_events _ _) as [e evs]. simpl. apply frame_step; [|by apply frame_env].
  apply apply_events_rtc.
Qed.

Lemma keeps_log failed l : is_failure l = failed -> keeps (log_line failed l).
Proof using HF. intros Hl t Ht. by apply frame_log. Qed.

Lemma keeps_read {A} (f : RaftNode -> A) id : keeps (read f id).
Proof using HF. apply keeps_bind; [apply keeps_others|intros _]. apply keeps_bind; [apply keeps_node|intros n; apply keeps_ret]. Qed.

Lemma keeps_Errorf msg : keeps (Errorf msg).
Proof using HF. by apply keeps_log. Qed.

Lemma keeps_Fatalf {A} msg : keeps (Fatalf (A := A) msg).
Proof using HF. apply keeps_bind; [by apply keeps_log|intros _; apply keeps_unwind]. Qed.

Lemma keeps_deferred {A} (c : Run E ()) (b : Run E A) : keeps c -> keeps b -> keeps (deferred c b).
Proof.
  intros Hc Hb t Ht. unfold deferred. specialize (Hb t Ht). destruct (b t) as [t1 r]. specialize (Hc t1 Hb).
  by destruct (c t1) as [t2 [[]|p]].
Qed.

Lemma keeps_forEach {A} (f : A -> Run E ()) l : (forall a, keeps (f a)) -> keeps (forEach f l).
Proof. intros Hf. induction l as [|a l IH]; [apply keeps_ret|]. by apply keeps_bind. Qed.

Lemma keeps_polling {A} timeout interval (attempt : Run E (A + ())) late :
  keeps attempt -> keeps late -> keeps (polling timeout interval attempt late).
Proof using HF.
  intros Ha Hl t Ht. unfold polling.
  assert (Hp : forall fuel deadline t, P t -> P (poll fuel deadline interval (λ _, attempting attempt) () t).1).
  { induction fuel as [|fuel IH]; intros deadline t' Ht'; [done|]. cbn [poll]. unfold mbind, ST_bind.
    pose proof (keeps_Now t' Ht') as Hn. destruct (Now t') as [t1 now]. destruct (now <? deadline); [|done].
    unfold attempting at 1. specialize (Ha t1 Hn). destruct (attempt t1) as [t2 [[a|[]]|p]]; [done| |done].
    pose proof (keeps_Sleep interval t2 Ha) as Hs. destruct (Sleep interval t2) as [t3 []]. by apply IH. }
  assert (Hpf : P (poll_for timeout interval (λ _, attempting attempt) () t).1).
  { unfold poll_for, mbind, ST_bind. pose proof (keeps_Now t Ht) as Hn. destruct (Now t) as [t1 now]. by apply Hp. }
  destruct (poll_for _ _ _ _ t) as [t1 [r|[]]]; [done|by apply Hl].
Qed.

Lemma keeps_submit id cmd : keeps (submit id cmd).
Proof using HF.
  apply keeps_bind; [apply keeps_others|intros _]. apply keeps_bind; [apply keeps_node|intros n]. apply keeps_lift.
  intros t Ht. apply frame_step; [apply exec_default_rtc|done].
Qed.

Lemma keeps_inject {A} (f : ChaosInjector -> ChaosInjector * A) : keeps (inject f).
Proof using HF.
  apply keeps_bind; [apply keeps_others|intros _]. apply keeps_lift. intros t Ht. destruct (f _) as [ci a]. by apply frame_inject.
Qed.

Lemma keeps_heal f : keeps (heal f).
Proof using HF. apply keeps_inject. Qed.

Lemma keeps_sleep d : keeps (sleep d).
Proof using HF. apply keeps_lift, keeps_Sleep. Qed.
End keeps.

Create HintDb keeps.
#[export] Hint Resolve keeps_ret keeps_unwind keeps_node keeps_others keeps_read keeps_Errorf keeps_Fatalf keeps_submit
  keeps_inject keeps_heal keeps_sleep : keeps.
#[export] Hint Extern 1 (keeps _ (Logf _)) => (refine (keeps_log _ _ _ _); reflexivity) : keeps.
#[export] Hint Extern 1 (keeps _ (log_line _ _)) => (refine (keeps_log _ _ _ _); reflexivity) : keeps.
Ltac keeps :=
  repeat first [by auto with keeps typeclass_instances | refine (keeps_polling _ _ _ _ _ _ _) | apply keeps_forEach; intros ?
               | apply keeps_deferred | apply keeps_bind; [|intros ?] | case_match].

Section bodies.
Context {E : Type} `{!ChaosHost E} (P : Trial E -> Prop) {HF : Frame P}.

Lemma keeps_waitForLeader nodes timeout : keeps P (waitForLeaderTB nodes timeout).
Proof using HF.
  assert (Hs : forall found, keeps P (scanLeaders nodes found)).
  { induction nodes as [|n nodes IH]; intros found; simpl; unfold Fatal; keeps. }
  unfold waitForLeaderTB, Fatal. keeps.
Qed.
#[local] Hint Resolve keeps_waitForLeader : keeps.

Lemma keeps_waitConsistent nodes timeout : keeps P (waitConsistentTB nodes timeout).
Proof using HF.
  assert (Hs : forall ref l, keeps P (sameLastIndex ref l)) by (intros ref l; induction l; simpl; keeps).
  unfold waitConsistentTB, Fatal, nodesConsistent. keeps.
Qed.
#[local] Hint Resolve keeps_waitConsistent : keeps.

Lemma keeps_submitAll leader prefix what idx : keeps P (submitAll leader prefix what idx).
Proof using HF. unfold submitAll. keeps. Qed.

Lemma keeps_countSubmits leader prefix pause idx : forall k, keeps P (countSubmits leader prefix pause idx k).
Proof using HF. induction idx as [|i idx IH]; intros k; simpl; keeps. Qed.

Lemma keeps_lossy nodes idx : forall leader, keeps P (lossySubmits nodes leader idx).
Proof using HF. induction idx as [|i idx IH]; intros leader; simpl; keeps. Qed.

Lemma keeps_observations : keeps P logObservations.
Proof using HF. apply keeps_bind; [by apply keeps_lift; intros t|intros obs]. keeps. Qed.
#[local] Hint Resolve keeps_submitAll keeps_countSubmits keeps_lossy keeps_observations : keeps.

Lemma keeps_splitBrain nodes : keeps P (splitBrain nodes).
Proof using HF. unfold splitBrain. keeps. Qed.

Lemma keeps_stale nodes : keeps P (staleLogCannotWin nodes).
Proof using HF. unfold staleLogCannotWin. keeps. Qed.

Lemma keeps_isolation nodes : keeps P (leaderIsolationWriteLoss nodes).
Proof using HF. unfold leaderIsolationWriteLoss. keeps. Qed.

Lemma keeps_packetLoss nodes : keeps P (packetLossStillConverges nodes).
Proof using HF. unfold packetLossStillConverges. keeps. Qed.
End bodies.

(** ** Verdicts and cleaning up *)

Lemma existsb_Forall {A} (f : A -> bool) l : existsb f l = false <-> Forall (λ x, f x = false) l.
Proof.
  induction l as [|x l IH]; simpl; [by split|]. rewrite orb_false_iff, Forall_cons, IH. done.
Qed.

Lemma find_first {A} (f : A -> bool) l :
  existsb f l = true ->
  exists x l1 l2, List.find f l = Some x /\ f x = true /\ l = l1 ++ x :: l2 /\ Forall (λ x, f x = false) l1.
Proof.
  induction l as [|y l IH]; simpl; [done|]. destruct (f y) eqn:Hy; simpl.
  - intros _. by exists y, [], l.
  - intros (x & l1 & l2 & Hf & Hx & -> & Hl)%IH. exists x, (y :: l1), l2. split_and!; [done..|by constructor].
Qed.

(** The harness has failed exactly when a failure is in its log. *)
Definition honest {E} (t : Trial E) : Prop := t_failed t = existsb is_failure (t_logs t).

#[export] Instance honest_frame {E} : Frame (E := E) honest.
Proof.
  split; [done..|]. intros failed l t Hl Ht. unfold honest in *. simpl. rewrite existsb_app. simpl.
  by rewrite Ht, Hl, orb_false_r.
Qed.

#[export] Instance dirs_frame {E} (D : list string) : Frame (λ t : Trial E, t_dirs t = D).
Proof. by split. Qed.

Section verdict.
Context {E : Type} `{!ChaosHost E}.

(** The registered scenarios are bodies run on a cluster. *)
Lemma registry_bodies meta (fn : Run E ()) :
  (meta, fn) ∈ registry -> exists count body,
    fn = withCluster count body /\ (forall P, Frame P -> forall nodes, keeps P (body nodes)) /\ (count = 3 \/ count = 5).
Proof.
  intros Hin. apply list_elem_of_In in Hin. simpl in Hin.
  destruct Hin as [[= _ <-]|[[= _ <-]|[[= _ <-]|[[= _ <-]|[]]]]]; eexists _, _;
    (split; [reflexivity|]); (split; [intros P HP nodes|by auto]);
    [by apply keeps_splitBrain|by apply keeps_stale|by apply keeps_isolation|by apply keeps_packetLoss].
Qed.

Lemma keeps_honest_stop id : keeps honest (stopMember (E := E) id).
Proof.
  apply keeps_bind; [apply keeps_others, _|intros _]. apply keeps_bind; [apply keeps_node|intros n].
  case_match; [|apply keeps_unwind]. apply keeps_lift. by intros t.
Qed.

Lemma keeps_honest_cluster count (body : list string -> Run E ()) :
  (forall nodes, keeps honest (body nodes)) -> keeps honest (withCluster count body).
Proof.
  intros Hb. apply keeps_bind.
  - apply keeps_bind; [|intros dirs; by apply keeps_bind; [intros t|intros _; apply keeps_ret]].
    generalize ([] : list string) as dirs. induction (nodeIDs count) as [|id ids IH]; intros dirs; [apply keeps_ret|].
    apply keeps_bind; [|intros [dir|err]; [apply IH|apply keeps_Fatalf, _]].
    intros t Ht. unfold MkdirTemp. by destruct (ch_MkdirTemp _) as [e [dir|err]].
  - intros [nodes dirs]. apply keeps_deferred; [|done]. apply keeps_bind; [|intros _].
    + apply keeps_forEach, keeps_honest_stop.
    + apply keeps_forEach. by intros dir t.
Qed.

(** The verdict of a chaos scenario: for each registered scenario, whatever
    the machine and the cluster do, the result has passed exactly when no line of
    its log is an error or a fatal failure; a failed result names the first such
    line, a passed one names nothing. *)
Theorem scenario_verdict id (t t' : Trial E) r :
  id ∈ map (λ e, sm_ID e.1) (registry (E := E)) -> RunScenario registry id t = (t', Some r) ->
  sr_Name r = id /\ (sr_Passed r = true <-> Forall (λ l, is_failure l = false) (sr_Logs r)) /\
  (sr_Passed r = true -> sr_Error r = Line "") /\
  (sr_Passed r = false -> is_failure (sr_Error r) = true /\
     exists l1 l2, sr_Logs r = l1 ++ sr_Error r :: l2 /\ Forall (λ l, is_failure l = false) l1).
Proof.
  intros Hid. unfold RunScenario. destruct (List.find _ registry) as [[meta fn]|] eqn:Hf.
  2:{ exfalso. apply list_elem_of_In, in_map_iff in Hid as (e & <- & Hin). eapply find_none in Hf; [|exact Hin].
      simpl in Hf. by rewrite String.eqb_refl in Hf. }
  apply find_some in Hf as [Hin _]. apply list_elem_of_In, registry_bodies in Hin as (count & body & -> & Hk & _).
  assert (Hh : forall t1, honest t1 -> honest (withCluster count body t1).1) by (apply keeps_honest_cluster, Hk, _).
  pose proof (keeps_Now honest (fresh_harness t) eq_refl) as H1. destruct (Now (fresh_harness t)) as [t1 start].
  specialize (Hh t1 H1). simpl. destruct (withCluster count body t1) as [t2 out]. simpl in Hh.
  assert (Hs : forall t3 d, sinceMs start t2 = (t3, d) -> t_logs t3 = t_logs t2).
  { unfold sinceMs, mbind, ST_bind, Now, trial_clock. intros t3 d. destruct (ch_Now _). by intros [= <- _]. }
  intros Hr. assert (Hr' : (let '(t3, durMs) := sinceMs start t2 in
    (t3, Some (mkScenarioResult id (negb (t_failed t2))
      (if negb (t_failed t2) then Line "" else default (Line "") (List.find is_failure (t_logs t3))) durMs (t_logs t3)))) = (t', Some r)).
  { by destruct out as [[]|[msg|]]. }
  clear Hr. destruct (sinceMs start t2) as [t3 d]. rewrite (Hs t3 d eq_refl) in Hr'. injection Hr' as _ <-. simpl.
  unfold honest in Hh. rewrite !Hh. split; [done|]. generalize (t_logs t2) as l. intros l. clear.
  rewrite negb_true_iff, negb_false_iff, existsb_Forall. split_and!; [done| |].
  - by intros ->%existsb_Forall.
  - intros Hl. rewrite Hl. destruct (find_first _ _ Hl) as (x & l1 & l2 & -> & Hx & -> & Hl1). split; [done|].
    by exists l1, l2.
Qed.
End verdict.

Section cleanup.
Context {E : Type} `{!ChaosHost E}.

(** The directories made for a cluster are those it returns. *)
Lemma makeDirs_dirs ids : forall dirs (t t' : Trial E) ds D,
  (forall e, exists d, (ch_MkdirTemp e).2 = inl d) -> t_dirs t = D ++ dirs ->
  makeDirs ids dirs t = (t', inl ds) -> t_dirs t' = D ++ ds.
Proof.
  induction ids as [|id ids IH]; intros dirs t t' ds D Hok Ht; simpl; [by intros [= <- <-]|].
  unfold mbind, Run_bind, MkdirTemp. destruct (Hok (t_env t)) as [d Hd]. destruct (ch_MkdirTemp _) as [e r]. simpl in Hd. subst r.
  simpl. apply IH; [done|]. simpl. by rewrite Ht, app_assoc.
Qed.

Lemma makeDirs_ok ids : forall dirs (t : Trial E),
  (forall e, exists d, (ch_MkdirTemp e).2 = inl d) -> exists t' ds, makeDirs ids dirs t = (t', inl ds).
Proof.
  induction ids as [|id ids IH]; intros dirs t Hok; simpl; [by eexists _, _|].
  unfold mbind, Run_bind, MkdirTemp. destruct (Hok (t_env t)) as [d Hd]. destruct (ch_MkdirTemp _) as [e r]. simpl in Hd. subst r.
  simpl. by apply IH.
Qed.

Lemma removeAll_dirs dirs : forall (t t' : Trial E) x,
  forEach RemoveAll dirs t = (t', x) -> x = inl () /\ forall d, d ∈ t_dirs t' <-> d ∈ t_dirs t /\ d ∉ dirs.
Proof.
  induction dirs as [|dir dirs IH]; intros t t' x; simpl.
  - intros [= <- <-]. split; [done|set_solver].
  - unfold mbind, Run_bind. simpl. intros [-> Hd]%IH. split; [done|]. intros d. rewrite Hd. simpl.
    rewrite !list_elem_of_In, filter_In, negb_true_iff, String.eqb_neq, <- !list_elem_of_In. set_solver.
Qed.

Lemma keeps_dirs_stop D id : keeps (λ t, t_dirs t = D) (stopMember (E := E) id).
Proof.
  apply keeps_bind; [apply keeps_others, _|intros _]. apply keeps_bind; [apply keeps_node|intros n].
  case_match; [|apply keeps_unwind]. apply keeps_lift. by intros t.
Qed.

Lemma stopNodes_panic ids : forall (t t' : Trial E) p, forEach stopMember ids t = (t', inr p) -> p = runtimePanic.
Proof.
  induction ids as [|id ids IH]; intros t t' p; simpl; [done|].
  unfold stopMember, others, node, mbind, Run_bind. destruct (ch_events _ _) as [e evs]. simpl.
  destruct (Stop _); [|by intros [= _ <-]]. apply IH.
Qed.

Lemma withCluster_dirs count (body : list string -> Run E ()) t t' out :
  (forall nodes D, keeps (λ t, t_dirs t = D) (body nodes)) -> (forall e, exists d, (ch_MkdirTemp e).2 = inl d) ->
  withCluster count body t = (t', out) -> out <> inr runtimePanic -> forall d, d ∈ t_dirs t' -> d ∈ t_dirs t.
Proof.
  intros Hb Hok. unfold withCluster, chaosClusterTB, mbind, Run_bind.
  destruct (makeDirs_ok (nodeIDs count) [] t Hok) as (t1 & ds & Hm). rewrite Hm.
  apply (makeDirs_dirs _ _ _ _ _ (t_dirs t)) in Hm; [|done|by rewrite app_nil_r]. simpl.
  unfold deferred. set (t2 := mkTrial _ _ _ _ _ _). assert (H2 : t_dirs t2 = t_dirs t ++ ds) by done.
  pose proof (Hb (nodeIDs count) _ t2 H2) as H3. destruct (body (nodeIDs count) t2) as [t3 r]. simpl in H3.
  unfold teardown, mbind, Run_bind.
  pose proof (keeps_forEach _ stopMember (nodeIDs count) (keeps_dirs_stop (t_dirs t ++ ds)) t3 H3) as H4.
  destruct (forEach stopMember (nodeIDs count) t3) as [t4 [[]|p]] eqn:Hs; simpl in H4.
  - destruct (forEach RemoveAll ds t4) as [t5 x] eqn:Hr. apply removeAll_dirs in Hr as [-> Hd]. intros [= <- <-] _ d.
    rewrite Hd, H4. set_solver.
  - intros [= <- <-] Hp. by destruct Hp; rewrite (stopNodes_panic _ _ _ _ Hs).
Qed.

(** A chaos scenario cleans up after itself: when the directories for its nodes
    can be made, no directory made for a registered scenario is left when it
    returns a result, whether it has passed, failed or been cut short. *)
Theorem scenario_cleans_up id (t t' : Trial E) r :
  (forall e, exists d, (ch_MkdirTemp e).2 = inl d) -> RunScenario registry id t = (t', Some r) ->
  forall d, d ∈ t_dirs t' -> d ∈ t_dirs t.
Proof.
  intros Hok. unfold RunScenario. destruct (List.find _ registry) as [[meta fn]|] eqn:Hf; [|by intros [= <- _]].
  apply find_some in Hf as [Hin _]. apply list_elem_of_In, registry_bodies in Hin as (count & body & -> & Hk & _).
  pose proof (keeps_Now (λ t1, t_dirs t1 = t_dirs t) (fresh_harness t) eq_refl) as H1.
  destruct (Now (fresh_harness t)) as [t1 start]. simpl in *. rewrite <- H1.
  destruct (withCluster count body t1) as [t2 out] eqn:Hw. intros Hr.
  assert (Hd : t_dirs t' = t_dirs t2 /\ out <> inr runtimePanic).
  { pose proof (keeps_Now (λ t3, t_dirs t3 = t_dirs t2) t2 eq_refl) as H3. unfold sinceMs, mbind, ST_bind in Hr.
    destruct (Now t2) as [t3 now]. simpl in *. destruct out as [[]|[msg|]]; by simplify_eq. }
  destruct Hd as [-> Hd]. eapply withCluster_dirs; [|done..]. intros nodes D. apply Hk, _.
Qed.
End cleanup.

(** ** A machine with a script *)

(** The steps of the cluster before each action, and the first directory that
    cannot be made. *)
Record Script := mkScript { sc_now : Z; sc_made : Z; sc_fail : Z; sc_events : list (list event) }.

#[export] Instance script_host : ChaosHost Script := {|
  ch_Now s := (s, sc_now s);
  ch_Sleep d s := mkScript (sc_now s + d) (sc_made s) (sc_fail s) (sc_events s);
  ch_MkdirTemp s :=
    (mkScript (sc_now s) (sc_made s + 1) (sc_fail s) (sc_events s),
     if sc_made s + 1 =? sc_fail s then inr "no space left on device"%string
     else inl ("raft-chaos-" +:+ pretty (sc_made s + 1))%string);
  ch_events s _ :=
    match sc_events s with
    | evs :: rest => (mkScript (sc_now s) (sc_made s) (sc_fail s) rest, evs)
    | [] => (s, [])
    end
|}.

Definition scriptTrial (s : Script) : Trial Script :=
  mkTrial s (initCluster NewChaosNetwork []) (NewInjector NewChaosNetwork ∅) [] [] false.

(** A machine on which nothing happens: no leader is elected. *)
Definition idle : Trial Script := scriptTrial (mkScript 0 0 0 []).

(** A run that returned a failed result, with the text of its failure. *)
Definition fails_with (text : string) (run : Trial Script * option ScenarioResult) : bool :=
  match run with
  | (_, Some r) => negb (sr_Passed r) && match sr_Error r with Line s => String.eqb s text | ObsLine _ => false end
  | (_, None) => false
  end.

Lemma fails_with_inv text run :
  fails_with text run = true -> exists t r, run = (t, Some r) /\ sr_Passed r = false /\ sr_Error r = Line text.
Proof.
  destruct run as [t [r|]]; [|done]. simpl. intros [Hp%negb_true_iff He]%andb_prop. exists t, r. split_and!; [done..|].
  destruct (sr_Error r); [|done]. by apply String.eqb_eq in He as ->.
Qed.

Lemma scenario_verdict_witness : exists t r,
  RunScenario registry "split_brain" idle = (t, Some r) /\ sr_Error r = Line "FATAL: no leader elected within timeout" /\
  exists l1 l2, sr_Logs r = l1 ++ sr_Error r :: l2.
Proof.
  destruct (fails_with_inv "FATAL: no leader elected within timeout" (RunScenario registry "split_brain" idle))
    as (t & r & Hr & Hp & He); [vm_compute; reflexivity|]. exists t, r. split; [exact Hr|]. split; [exact He|].
  destruct (proj2 (proj2 (proj2 (scenario_verdict "split_brain" idle t r
    ltac:(apply (bool_decide_unpack _); vm_compute; exact I) Hr))) Hp) as [_ (l1 & l2 & Hl & _)].
  exists l1, l2. exact Hl.
Defined.

(** A machine that has no directories to spare but never fails. *)
Record Quiet := mkQuiet { q_now : Z; q_made : Z }.

#[export] Instance quiet_host : ChaosHost Quiet := {|
  ch_Now q := (q, q_now q);
  ch_Sleep d q := mkQuiet (q_now q + d) (q_made q);
  ch_MkdirTemp q := (mkQuiet (q_now q) (q_made q + 1), inl ("raft-chaos-" +:+ pretty (q_made q))%string);
  ch_events q _ := (q, [])
|}.

Definition quietTrial : Trial Quiet :=
  mkTrial (mkQuiet 0 0) (initCluster NewChaosNetwork []) (NewInjector NewChaosNetwork ∅) ["kept"%string] [] false.

Lemma scenario_cleans_up_witness : exists t r,
  RunScenario registry "leader_isolation" quietTrial = (t, Some r) /\ q_made (t_env t) = 3 /\
  forall d, d ∈ t_dirs t -> d ∈ ["kept"%string].
Proof.
  assert (Hc : match RunScenario registry "leader_isolation" quietTrial with
    | (t, Some _) => q_made (t_env t) =? 3 | (_, None) => false end = true) by (vm_compute; reflexivity).
  destruct (RunScenario registry "leader_isolation" quietTrial) as [t [r|]] eqn:Hr; [|discriminate Hc].
  exists t, r. split; [reflexivity|]. split; [by apply Z.eqb_eq|].
  apply (scenario_cleans_up "leader_isolation" quietTrial t r); [|exact Hr].
  intros e. eexists. reflexivity.
Defined.

(** ** Two slips *)

(** [chaosClusterTB] returns its teardown only at the end: when the second
    directory cannot be made, the first one stays. *)
Theorem failed_cluster_leaks :
  let run := RunScenario registry "split_brain" (scriptTrial (mkScript 0 0 2 [])) in
  fails_with "FATAL: MkdirTemp: no space left on device" run = true /\ t_dirs run.1 = ["raft-chaos-1"%string].
Proof. split; vm_compute; reflexivity. Qed.

(** The steps in which node1 wins term 1, and then node2 term 2 while node1 has
    not heard of it. *)
Definition twoTerms : list event :=
  map Step (exPreVote "node1" "node2" 0 (exTime 4) ++ [LElection 0; LVoteRequest 0 false (exTime 5); LVoteReply 0 (exTime 6)] ++
            exPreVote "node2" "node3" 2 (exTime 19) ++ [LElection 2; LVoteRequest 3 false (exTime 20); LVoteReply 3 (exTime 21)]).

(** [waitForLeaderTB] takes leaders of different terms for two leaders at once:
    the scenario fails in a state that Raft allows. *)
Theorem leaders_of_two_terms_fail :
  let run := RunScenario registry "stale_log_cannot_win" (scriptTrial (mkScript 0 0 0 [twoTerms])) in
  fails_with "FATAL: two leaders elected simultaneously" run = true /\
  (λ n, (state n, currentTerm n)) <$> (c_nodes (t_cluster run.1) !! "node1"%string) = Some (Leader, 1) /\
  (λ n, (state n, currentTerm n)) <$> (c_nodes (t_cluster run.1) !! "node2"%string) = Some (Leader, 2).
Proof. split_and!; vm_compute; reflexivity. Qed.

(** ** The list of scenarios *)

(** The server lists the scenarios by identifier, and runs each one it lists. *)
Theorem listed_scenarios_run {E : Type} `{!ChaosHost E} :
  map sm_ID (ListScenarios (registry (E := E))) =
    ["leader_isolation"; "packet_loss_converges"; "split_brain"; "stale_log_cannot_win"]%string /\
  forall m, m ∈ ListScenarios (registry (E := E)) -> exists fn, (m, fn) ∈ registry (E := E).
Proof.
  split; [reflexivity|]. intros m Hm. apply list_elem_of_In in Hm. unfold ListScenarios in Hm. simpl in Hm.
  repeat destruct Hm as [<-|Hm]; [..|done]; eexists; unfold registry; apply list_elem_of_In; simpl; eauto 6.
Qed.
