(* ===== verification/ReadState.v ===== *)
(** * The state reader (cmd/readstate/main.go)

    The command that decodes a file of a data directory and prints it.  Files
    are those of [Disk], named as in the directory. *)

From S2P Require Import Prelude RaftLog Rpc Disk Node Snapshot.

(** How the command ends: the usage text, [log.Fatalf] on opening or decoding,
    or the printed value. *)
Inductive readstate_outcome :=
  | Usage
  | FatalOpen
  | FatalDecode
  | Printed (s : PersistedState).

Definition readstate_main (args : list string) (d : Disk) : readstate_outcome :=
  match args with
  | _ :: path :: _ =>
      match files d !! path with
      | None => FatalOpen
      | Some f =>
          match next_fault d with
          | OpenFault => FatalOpen
          | _ => match decodeState (f_content f) with Some state => Printed state | None => FatalDecode end
          end
      end
  | _ => Usage
  end.

(** What the reader shows of a node's directory: of the state file, exactly the
    term, vote and log that a restart would load; of the snapshot file, nothing:
    the only type it decodes is that of the state, and a stream of a snapshot has
    no field in common with it, although the usage names both files. *)
Theorem readstate_shows (n : RaftNode) (prog : string) :
  disk_ok n -> durable n -> snapshot_durable n ->
  readstate_main [prog; statePath] (disk n) = Printed (persistedState n) /\
  (0 < log_snapshotIndex (rlog n) -> readstate_main [prog; snapshotPath] (disk n) = FatalDecode).
Proof.
  intros Hok Hd Hs. unfold readstate_main. rewrite Hd, (disk_ok_next n Hok). split; [done|]. intros Hi.
  unfold snapshot_durable in Hs. destruct (files (disk n) !! snapshotPath) as [f|]; [|lia]. by destruct Hs as [-> _].
Qed.
