(* ===== verification/Findings.v ===== *)
(** * Behaviours the code does not guard against

    Executions of the model, each within the reach of the code, in which it does
    not do what its documentation promises: a second leader of a term after an
    abdication, state machines that lose applied entries when snapshots arrive
    late or out of order, a snapshot that claims an entry it does not contain,
    a caller whose result is dropped, two disjoint quorums after two membership
    changes in a row, and a leader that helps to unseat itself. *)

From S2P Require Import Prelude RaftLog Rpc Disk Node Election Replication ReplicationSafety Snapshot Client Apply KVStore Transport Cluster ElectionSafety.

(** ** Two leaders of one term *)

(** "a" hears from nobody for 500 ms and steps down at its heartbeat tick; "c"
    times out, gets the pre-vote of "a", reaches the same term, asks "a" for its
    vote and gets it. *)
Definition secondElection : list label :=
  LTick "a" (exTime 500000000) :: exPreVote "c" "a" 4 (exTime 500000001) ++
  [LElection 4; LVoteRequest 4 false (exTime 500000002); LVoteReply 4 (exTime 500000003)].

(** [checkQuorum] steps down through [becomeFollower] in the same term and
    so gives the vote of that term back: a term can have two leaders, one after
    the other, and the first of them votes for the second although it had
    already voted for itself. *)
Theorem abdication_frees_the_vote :
  exists c1 c2 : Cluster MemoryNetwork,
    reachable exMembers c1 /\ exec_all secondElection c1 = Some c2 /\
    role_of c1 "a" = Some (Leader, 1) /\ role_of c2 "c" = Some (Leader, 1) /\
    ("a", 1, "a") ∈ c_votes c2 /\ ("a", 1, "c") ∈ c_votes c2.
Proof.
  assert (Hrun : match exec_all exElection (initCluster exNet exMembers) with
    | Some c1 => match exec_all secondElection c1 with
                 | Some c2 => bool_decide (role_of c1 "a" = Some (Leader, 1) /\ role_of c2 "c" = Some (Leader, 1) /\
                                ("a", 1, "a") ∈ c_votes c2 /\ ("a", 1, "c") ∈ c_votes c2)
                 | None => false
                 end
    | None => false
    end = true) by (vm_compute; reflexivity).
  destruct (exec_all exElection _) as [c1|] eqn:H1; [|done].
  destruct (exec_all secondElection c1) as [c2|] eqn:H2; [|done]. apply bool_decide_eq_true in Hrun.
  exists c1, c2. split; [by eapply script_reachable|done].
Qed.

(** ** Snapshots that arrive late *)

(** A sequence of steps of the apply loop. *)
Definition apply_script {S R : Type} `{!StateMachine S R} (now : Z) (acts : list apply_act) (st : ApplyState S R)
  : option (ApplyState S R) :=
  foldl (λ o a, st ← o; apply_step now a st) (Some st) acts.

(** A snapshot that lies between the node's own boundary and what it has
    already applied is accepted, and the apply loop then replaces the state
    machine by it: the entries between the snapshot and [lastApplied] are lost
    to the application, since [lastApplied] does not move back. *)
Theorem late_snapshot_rolls_back {S R : Type} `{!StateMachine S R} (now : Z) (n : RaftNode) (sm : S)
    (ch : list (ApplyMsg R)) (args : InstallSnapshotArgs) :
  disk_ok n -> currentTerm n <= is_Term args ->
  log_snapshotIndex (rlog n) < is_LastIncludedIndex args <= lastApplied n ->
  lastApplied n <= commitIndex n -> (length ch < applyCh_cap)%nat ->
  let n1 := (HandleInstallSnapshot n args).1 in
  exists n2,
    apply_script now [TakeSnapshotSignal; Proceed; Proceed] (mkApplyState n1 sm ch PSelect) =
      Some (mkApplyState n2 (sm_Restore (is_Data args) sm).1
        (ch ++ [snapshotMsg (mkSnapshotToApply (is_LastIncludedIndex args) (is_LastIncludedTerm args) (is_Data args))])
        PSelect) /\
    lastApplied n2 = lastApplied n /\ commitIndex n2 = commitIndex n.
Proof.
  intros Hd HT Hidx Hc Hch. cbv zeta. unfold HandleInstallSnapshot. rewrite (Z.gtb_ltb (is_Term args)).
  set (m := if currentTerm n <? is_Term args then _ else n).
  assert (Hm : currentTerm m = is_Term args /\ rlog m = rlog n /\ disk_ok m /\
    lastApplied m = lastApplied n /\ commitIndex m = commitIndex n).
  { subst m. destruct (currentTerm n <? is_Term args) eqn:E.
    - split_and!; try done. by apply becomeFollower_disk_ok.
    - split_and!; try done. lia. }
  clearbody m. destruct Hm as (HTm & Hl & Hdm & Ha & Hcm). rewrite HTm, Z.ltb_irrefl. cbv zeta.
  cbn [rlog set_leaderID notifyHeartbeat set_heartbeatC]. rewrite Hl.
  replace (is_LastIncludedIndex args <=? log_snapshotIndex (rlog n)) with false by lia.
  rewrite saveSnapshot_ok by done. cbn [lastApplied set_rlog set_snapshotData set_disk notifyHeartbeat
    set_heartbeatC set_leaderID commitIndex]. rewrite Ha.
  replace (lastApplied n <? is_LastIncludedIndex args) with false by lia.
  cbn [commitIndex set_rlog set_snapshotData set_disk notifyHeartbeat set_heartbeatC set_leaderID]. rewrite Hcm.
  replace (commitIndex n <? is_LastIncludedIndex args) with false by lia.
  eexists. split; [unfold apply_script; simpl; by rewrite (proj2 (Nat.ltb_lt _ _) Hch)|]. done.
Qed.

Lemma late_snapshot_rolls_back_witness :
  exists n2, apply_script 0 [TakeSnapshotSignal; Proceed; Proceed]
      (mkApplyState (HandleInstallSnapshot exApplied (mkInstallSnapshotArgs 2 "b" 2 1 [])).1 3%nat
         ([] : list (ApplyMsg nat)) PSelect) =
    Some (mkApplyState n2 (sm_Restore [] 3%nat).1 [snapshotMsg (mkSnapshotToApply 2 1 [])] PSelect).
Proof.
  destruct (late_snapshot_rolls_back 0 exApplied 3%nat ([] : list (ApplyMsg nat))
    (mkInstallSnapshotArgs 2 "b" 2 1 [])) as (n2 & H & _).
  - apply Forall_nil_2.
  - vm_compute. done.
  - vm_compute. done.
  - vm_compute. done.
  - vm_compute. lia.
  - exists n2. exact H.
Defined.

(** A follower with three entries of term 1 from a deposed leader. *)
Definition exStaleSuffix : RaftNode :=
  (HandleAppendEntries 0 exampleNode (mkAppendEntriesArgs 1 "b" 0 0
     [mkLogEntry 1 1 [] false "" ""; mkLogEntry 1 2 [] false "" ""; mkLogEntry 1 3 [] false "" ""] 0)).1.

(** A snapshot whose last entry has another term than the follower's entry at
    that index does not clear the log: the entry behind it, of the deposed
    leader's term, stays and follows a boundary of a higher term.  Such a state
    is what the safety theorems exclude with [clean_install]. *)
Theorem install_keeps_conflicting_suffix :
  let n := (HandleInstallSnapshot exStaleSuffix (mkInstallSnapshotArgs 2 "c" 2 2 [])).1 in
  le_Term (log_get (rlog exStaleSuffix) 2) = 1 /\ log_snapshotIndex (rlog n) = 2 /\ log_snapshotTerm (rlog n) = 2 /\
  log_lastIndex (rlog n) = 3 /\ le_Term (log_get (rlog n) 3) = 1.
Proof. vm_compute. done. Qed.

(** A follower that has just installed a snapshot with "x" at index 1 and then
    received and committed the write of "y" at index 2: both signals are
    pending. *)
Definition exSnapshot : bytes := pos_bytes (encode ({["x" := "1"]} : gmap string string)).

Definition exBothSignals : RaftNode :=
  let n1 := (HandleInstallSnapshot exampleNode (mkInstallSnapshotArgs 1 "b" 1 1 exSnapshot)).1 in
  (HandleAppendEntries 0 n1 (mkAppendEntriesArgs 1 "b" 1 1
     [mkLogEntry 1 2 (pos_bytes (encode (setOp "y" "2"))) false "" ""] 2)).1.

(** The [select] of the apply loop may take the commit signal before the
    snapshot signal that came first: the entry after the snapshot is applied to
    the old state, then the snapshot replaces that state, and the write is gone
    on this node although [lastApplied] covers it. *)
Theorem commit_signal_overtakes_snapshot :
  exists st : ApplyState (gmap string string) applyResult,
    @apply_script _ _ (@kv_StateMachine bitCodec bitCodec) 0
      [TakeCommitSignal; Proceed; Proceed; Proceed; Proceed; TakeSnapshotSignal; Proceed; Proceed]
      (mkApplyState exBothSignals ∅ [] PSelect) = Some st /\
    lastApplied (ap_node st) = 2 /\ kv_Get (ap_sm st) "x" = inl "1" /\
    kv_Get (ap_sm st) "y" = inr KErrKeyNotFound /\ ap_pc st = PSelect /\
    snapshotNotifyC (ap_node st) = None /\ commitNotifyC (ap_node st) = false.
Proof. eexists. split; [vm_compute; reflexivity|]. split_and!; reflexivity. Qed.

(** [lastApplied] is advanced before [Apply] is called, so the store can
    take a snapshot of a state that does not contain the entry at
    [lastApplied] yet; the snapshot is filed under that index all the same.  A
    node restarted from it starts with a state that misses the entry and will
    never apply it. *)
Theorem snapshot_claims_unapplied_entry {S R : Type} `{!StateMachine S R} (now : Z) (n : RaftNode) (sm : S)
    (ch : list (ApplyMsg R)) (data : bytes) :
  log_wf (rlog n) -> disk_ok n -> log_snapshotIndex (rlog n) <= lastApplied n ->
  lastApplied n < commitIndex n -> commitIndex n <= log_lastIndex (rlog n) ->
  le_IsConfig (log_get (rlog n) (lastApplied n + 1)) = false -> sm_Snapshot sm = Some data ->
  exists n1,
    apply_script now [Proceed] (mkApplyState n sm ch PCheck) =
      Some (mkApplyState n1 sm ch (PApply (log_get (rlog n) (lastApplied n + 1)))) /\
    let n2 := (TakeSnapshot n1 data).1 in
    let r := boot (config n) (mkDisk (files (disk n2)) []) in
    r.2 = Some data /\ lastApplied r.1 = lastApplied n + 1.
Proof.
  intros Hwf Hd Hs Hla Hc Hcfg Hsnap. pose proof (wf_lastIndex_range _ Hwf). pose proof (wf_snapshotIndex _ Hwf).
  exists (set_lastApplied (lastApplied n + 1) n). split.
  { unfold apply_script. simpl. replace (lastApplied n <? commitIndex n) with true by lia.
    rewrite (u64_small (lastApplied n + 1)) by (unfold is_u64; lia). by rewrite Hcfg. }
  cbv zeta. set (n1 := set_lastApplied (lastApplied n + 1) n).
  destruct (applied_term n1 Hwf) as [Ht Hb]; [change (lastApplied n1) with (lastApplied n + 1); change (rlog n1) with (rlog n); lia|].
  unfold TakeSnapshot. change (lastApplied n1) with (lastApplied n + 1) in *. change (rlog n1) with (rlog n) in *.
  replace ((lastApplied n + 1 =? 0) || (lastApplied n + 1 <=? log_snapshotIndex (rlog n))) with false by lia.
  rewrite saveSnapshot_ok by done. cbn [fst snd].
  set (m := set_rlog _ _). assert (Hdm : disk_ok m) by by apply disk_ok_tail.
  pose proof (persist_durable m Hdm) as Hdu.
  assert (Hfile : files (disk (persist m)) !! snapshotPath = Some (mkFile (CSnapshot
    (mkSnapshotFile (lastApplied n + 1) (le_Term (log_get (rlog n) (lastApplied n + 1))) data)) true)).
  { unfold persist. rewrite writeFile_ok by by apply disk_ok_next. node_simpl.
    rewrite lookup_insert_ne, lookup_delete_ne by done. subst m. node_simpl. by rewrite lookup_insert_eq. }
  destruct (boot_files (config n) (files (disk (persist m))) _ _ _ _ Hdu (proj1 Hb) Hfile) as (_ & _ & _ & H4 & _ & H6).
  by rewrite H4, H6.
Qed.

Lemma snapshot_claims_unapplied_entry_witness :
  exists n1, @apply_script _ _ (@kv_StateMachine bitCodec bitCodec) 0 [Proceed] (mkApplyState exApplied (∅ : gmap string string) [] PCheck) =
    Some (mkApplyState n1 (∅ : gmap string string) [] (PApply (log_get (rlog exApplied) 4))).
Proof.
  destruct (@snapshot_claims_unapplied_entry _ _ (@kv_StateMachine bitCodec bitCodec) 0 exApplied ∅ []
    (pos_bytes (encode (∅ : gmap string string)))) as (n1 & H & _).
  - exact exApplied_wf.
  - apply Forall_nil_2.
  - vm_compute. done.
  - vm_compute. done.
  - vm_compute. done.
  - reflexivity.
  - reflexivity.
  - exists n1. exact H.
Defined.

(** ** Callers *)

(** A leader of term [t] with an empty log. *)
Definition freshLeader (t : Z) : RaftNode := set_state Leader (set_currentTerm t exampleNode).

(** Call 0 waits at index 1 of term 1; its entry is truncated away, and call 1
    waits at index 1 of term 2. *)
Definition exTwoCalls : KVStore :=
  mkKVStore ∅ {[1 := mkPendingCall 2 1]} 100 0 {[0%nat := CallWaiting 1 1; 1%nat := CallWaiting 1 2]} ∅.

(** A call that times out removes whatever is pending at its index, also
    another, newer call: when that call's own entry is applied there is nobody
    to send the result to, and the caller learns of a timeout although its
    write was applied. *)
Theorem timeout_drops_other_call :
  exists kv kv1 kv2 b,
    @rtc _ (@kv_step bitCodec bitCodec) kv_new kv /\
    kv_pending kv !! 1 = Some (mkPendingCall 2 1) /\
    call_timeout 0 kv = Some kv1 /\
    readApplyCh_step (mkApplyMsg 1 2 exCommand (Some zeroApplyResult) false 0 0 []) kv1 = Some (kv2, b) /\
    kv_calls kv2 !! 1%nat = Some (CallWaiting 1 2) /\ kv_chans kv2 !! 1%nat = None /\ kv_pending kv2 = ∅.
Proof.
  exists exTwoCalls. eexists _, _, _. split.
  { eapply rtc_l; [exact (@ks_submit bitCodec bitCodec 0 exOp (freshLeader 1) kv_new eq_refl)|].
    eapply rtc_l; [eapply (ks_register 0); vm_compute; reflexivity|].
    eapply rtc_l; [eapply (@ks_submit bitCodec bitCodec 1 exOp (freshLeader 2)); vm_compute; reflexivity|].
    eapply rtc_l; [eapply (ks_register 1); vm_compute; reflexivity|]. apply rtc_refl. }
  split; [reflexivity|]. split; [vm_compute; reflexivity|]. split; [vm_compute; reflexivity|].
  split_and!; reflexivity.
Qed.

(** ** Membership *)

(** The leader "a" of three adds "d" and then "e", before either entry is
    committed; only the two newcomers acknowledge, after their first rejection
    has taken the leader's [nextIndex] for them back to 1. *)
Definition exGrown : RaftNode :=
  let L := becomeLeader 0 (set_currentTerm 1 exampleNode) in
  (AddPeer 0 (AddPeer 0 L "d").1.1 "e").1.1.

Definition exGrownCommit : RaftNode :=
  let ack p L :=
    sendToPeer_reply 0 L p 1 (buildArgsLocked L p) (mkAppendEntriesReply 1 true 0 0) in
  ack "e" (ack "d" (set_nextIndex (<["d" := 1]> (<["e" := 1]> (nextIndex exGrown))) exGrown)).

(** "b" still counts three members and wins term 2 with the vote of "c". *)
Definition exOldCandidate : RaftNode :=
  becomeCandidate (set_currentTerm 1 (NewRaftNode (mkConfig "b" ["a"; "c"] 150 300 50 "" "b") (mkDisk ∅ []))).

Definition exOldVoter : RaftNode :=
  set_currentTerm 1 (NewRaftNode (mkConfig "c" ["a"; "b"] 150 300 50 "" "c") (mkDisk ∅ [])).

(** Nothing stops a leader from starting a second membership change while
    the first is uncommitted, so two majorities need not intersect: the leader
    commits both changes with the newcomers' acknowledgements alone, while a
    follower that has seen neither wins an election under the old membership,
    with a log that lacks the committed entries. *)
Theorem overlapping_changes_split_quorum :
  let reply := (HandleRequestVote 900000000 exOldVoter (el_args (startElection_begin exOldCandidate))).2 in
  let winner := (run_election 0 exOldCandidate [reply]).2 in
  peers exGrownCommit = ["b"; "c"; "d"; "e"] /\
  mget (matchIndex exGrownCommit) "b" = 0 /\ mget (matchIndex exGrownCommit) "c" = 0 /\
  state exGrownCommit = Leader /\ commitIndex exGrownCommit = 2 /\
  state winner = Leader /\ currentTerm winner = 2 /\ log_lastIndex (rlog winner) = 0.
Proof. vm_compute. split_and!; reflexivity. Qed.

(** ** Pre-votes *)

(** A leader hears from no leader, so the time of its last contact is as old as
    its leadership at least, and nothing else in the pre-vote path looks at its
    role: it grants the pre-vote of any node whose log is as long as its own.
    Where a third member refuses because it does get heartbeats, that grant is
    enough, and the node goes on to an election that makes the working leader
    step down. *)
Theorem leader_grants_prevote (now t : Z) (L C : RaftNode) (x y : string) :
  state L = Leader -> durationMs (cfg_ElectionTimeoutMinMs (config L)) <= time_Sub now (lastLeaderContact L) ->
  rlog C = rlog L -> peers C = [x; y] ->
  let granted := (HandleRequestVote now L (startPreVote_args C)).2 in
  let refused := mkRequestVoteReply t false in
  rvr_VoteGranted granted = true /\
  startPreVote (peers C) [Some granted; Some refused] = true /\
  startPreVote (peers C) [Some refused; Some granted] = true /\
  (0 <= currentTerm L <= currentTerm C -> currentTerm C < u64_size - 1 ->
   state (HandleRequestVote now L (el_args (startElection_begin (becomeCandidate C)))).1 = Follower).
Proof.
  intros HL Ht Hlog Hp granted refused.
  assert (Hg : rvr_VoteGranted granted = true).
  { unfold granted, HandleRequestVote. simpl. rewrite (proj2 (Z.ltb_ge _ _) Ht). simpl.
    unfold candidateUpToDate. simpl. rewrite Hlog, Z.eqb_refl. apply orb_true_iff. right. simpl. lia. }
  split_and!; [done|rewrite Hp; unfold startPreVote; cbn [length take bool_decide preVote_loop]; rewrite Hg; done..|].
  intros Hc Hc2. unfold HandleRequestVote. simpl. rewrite u64_small by (unfold is_u64; lia).
  replace (currentTerm C + 1 >? currentTerm L) with true by lia. cbv iota. case_match; [done|]. by case_match.
Qed.
